(* ===== verification/_CoqProject ===== *)
-Q . S2P
Prelude.v
RustStr.v
F64.v
Json.v
Errors.v
Types.v
Net.v
NumText.v
Effects.v
HarnessText.v
Traits.v
LoopHarness.v
Executors.v
HarnessSpec.v
ExecutorSpec.v
Registry.v
Layers.v
Runtime.v
Builder.v
RuntimeSpec.v
StrSlice.v
Wire.v
Anthropic.v
OpenAi.v
OpenAiExtract.v
ToolInput.v
Mcp.v
ToolsHttp.v
ToolsDelegate.v
ToolsSpec.v
Fs.v
Embeddings.v
Services.v
ToolsFs.v
ToolsFsSpec.v
Compaction.v
Sample.v
ExecutorProps.v
ProviderProps.v
RuntimeProps.v
WireProps.v
ToolProps.v
LlamaCpp.v
ToolsSql.v
ToolsLoad.v
ToolsLoadSpec.v
ToolsBasic.v
ToolsWeb.v
ToolsLede.v
Sqlx.v
ToolsRemote.v
ToolDataProps.v
Providers.v
Rows.v
TypesJson.v
Testing.v
PgGuc.v
PgSpi.v
PgHost.v
PgExecute.v
PgExecuteSpec.v
PgAdmin.v
PgQueue.v
PgDatabase.v
PgSample.v
PgProps.v
PgQueueProps.v
PgAdminProps.v
Sidecar.v
SidecarProps.v
McpProps.v
ToolWebProps.v
Cassette.v
DemoApps.v
Cli.v
ReviewProps.v
DemoRuns.v
DemoApi.v
DemoProps.v
PgSchema.v
