(* ===== verification/Prelude.v ===== *)
(** * pg_synapse: verification of the agent runtime and its hosts

    pg_synapse runs language-model agents beside Postgres.  A host (the
    Postgres extension, the sidecar or the demo server) builds a [Runtime] from
    profile and agent rows and asks it to execute an agent on an input.  The
    runtime resolves the row into an execution context and hands it to an
    executor, which alternates completions of a language model with calls of
    tools until the model answers, a cap is reached or the host interrupts.
    Providers, compactors and tools are plugins behind traits; jobs, schedules,
    apps, settings and the audit trail are tables and functions of a SQL
    schema.  Saved questions, an MCP server, a browser and a command line stand
    on those functions.

    This development translates the program from its sources under [src/], and
    proves what its parts promise for every behaviour of the model, the tools,
    the network, the clock, the database and the host.

    ** How the code is modelled

    - An [async fn] is a [prog] ([Effects]): a finite tree whose nodes are the
      requests it makes of its surroundings and whose branches are all the
      possible answers.  Nothing is assumed of an answer.  [steps p tr a] is
      one execution with its requests and answers; [wp] is a weakest
      precondition over all executions, with the sink that a run shares with
      its caller; [run] executes a [prog] in a scripted environment.
    - [tokio::time::timeout] is [with_timeout], or [with_backstop] when the
      caller can see the sink: the deadline may fire at each await and the
      rest of the future is lost.
    - A [&mut self] method is a function from the state of its receiver, a
      record, into [prog] and a new state.  What tasks share behind a lock or
      an atomic is a state that a step relation changes, one atomic action a
      step ([ToolsDelegate], [PgQueueProps], [DemoRuns]).
    - A trait object is a record of operations ([Traits]); what is implemented
      outside the sources appears as the [external_*] values, which ask their
      surroundings.
    - Inside the extension an effect is also a statement sent to Postgres, a
      savepoint, or a [raise] that unwinds to the host ([PgSpi], [PgHost]); a
      connection of the other hosts is a series of requests ([Sqlx],
      [DemoApps]).
    - Integers are [Z] with the wrap-around or saturation of their width
      written out, [f64] and [f32] are IEEE numbers ([F64], [Embeddings.F32]),
      a string the sequence of its UTF-8 bytes ([RustStr], [StrSlice]), a
      [HashMap] a [gmap], a JSON object a list of entries sorted by key
      ([Json]).
    - A panic of a string slice or of an index is a value
      ([StrSlice.outcome]), a panic of a tool a case of its answer
      ([tool_answer]), a panic of a handler ends its [prog] ([raise]).

    ** The files

    The kernel, [crates/pg-synapse-core/src]:
    - [Prelude]: the [result] type, machine integers, durations, automation.
      [RustStr], [StrSlice], [F64], [Json], [Net], [NumText]: what the sources
      use of the standard library and of serde_json's value type.
    - [Errors], [Types], [HarnessText], [Rows], [TypesJson]: [error.rs],
      [types/*.rs], and their forms as JSON.
    - [Effects], [Traits]: the requests, and the traits of the kernel.
    - [LoopHarness], [Executors]: [executor/loop_harness.rs],
      [conversation.rs], [react.rs], [reflection.rs]; [HarnessSpec],
      [ExecutorSpec]: their invariants.
    - [Registry], [Builder]: [tool/mod.rs], [tool/builtin.rs],
      [plugin/mod.rs], [runtime/builder.rs].  [Runtime], [RuntimeSpec]:
      [runtime/mod.rs], [resolver.rs].
    - [Layers]: [llm/retry_layer.rs] and [recovery_layer.rs].  [Services]:
      [executor/service.rs] and [examples/layer_recipes.rs].
    - [Mcp]: [tool/mcp_client.rs].  [Testing], [Cassette]: [testing/*.rs].

    Providers and tools, [plugins/pg-synapse-*]:
    - [Wire], [Anthropic], [OpenAi], [OpenAiExtract], [LlamaCpp], [Providers]:
      [client.rs] and [factory.rs] of the three network providers.
    - [Embeddings]: the local embeddings, and the downloads of model files.
    - [Compaction]: the default compactor.
    - [ToolInput]: the derive macro.  [ToolsHttp], [ToolsDelegate],
      [ToolsSpec]; [Fs], [ToolsFs], [ToolsFsSpec]: a file system with symbolic
      links and the file tools over it; [ToolsSql]; [ToolsLoad],
      [ToolsLoadSpec]; [ToolsBasic] (calculator and clock); [ToolsWeb] (news,
      articles, schema context); [ToolsLede]; [ToolsRemote].

    The hosts:
    - [PgGuc], [PgSpi], [PgHost], [PgExecute], [PgExecuteSpec], [PgAdmin],
      [PgQueue]: [crates/pg-synapse-pgrx/src], from settings and statements to
      the entry points, the configuration functions, the queue, its worker and
      the triggers.  [PgDatabase] and [PgSchema] model the parts of
      [sql/schema.sql] that theorems need or that are programs of their own:
      the configuration tables, the scheduler, the apps.
    - [Sqlx], [Sidecar]: [crates/pg-synapse-sidecar/src].
    - [DemoApps], [DemoRuns], [DemoApi]: [demo/harness/src].  [Cli]:
      [clients/pg-synapse-cli/src/main.rs].

    Theorems: [ExecutorProps], [ProviderProps], [RuntimeProps], [WireProps],
    [ToolProps], [ToolDataProps], [ToolWebProps], [McpProps], [PgProps],
    [PgQueueProps], [PgAdminProps], [SidecarProps], [ReviewProps],
    [DemoProps], and those at the end of [Cassette], [Embeddings], [Services],
    [Cli] and [PgSchema].  [Sample] and [PgSample] hold concrete data on which
    they are instantiated.

    ** What is proved

    - Executors: every request to the model carries a log numbered from zero
      in which each tool call is answered in order; the loop returns within
      [max_iterations] model calls; a completed run ends with its non-blank
      answer; the progress sink mirrors the run; no request follows the cost
      cap; failures of tools do not end a run; a call repeated too often is
      refused; reflection is bounded and runs no tool.
    - Runtime: what [Runtime::execute] returns, cut by the backstop or not;
      every await of a budgeted run is raced against the backstop; the tools,
      providers and secrets a run sees.
    - Wrappers, compactor, services: the requests and pauses of a retried and
      of a recovered completion, the shape of a compaction, and what the
      layers of the example read at the call and at the await.
    - Providers: private parameters stay private, tool calls survive the round
      trip, the search for tool calls in text ends and finds only valid ones;
      a recorded run replays; local embeddings are the masked mean of the
      hidden states.
    - Tools: the HTTP guard and the addresses it blocks, the bound on nested
      delegations under any interleaving, the sandbox of the file tools, what
      a load binds and an export writes, the seal on remote calls, what an MCP
      registration inserts.
    - The extension: a run that returns is audited once, unless Postgres
      refuses the audit call and a run with an outcome says so; audit tokens
      do not outlive their call, SQL tools are atomic, rows and settings stay
      within bounds, the always-on cap holds after every write, a job is in
      one hand at a time and runs once, trigger bodies quote what they are
      given.
    - The SQL schema: a tick enqueues one job for each schedule that is due
      and fails only as a whole; where the arithmetic of times is exact it
      moves each to its first time after now; no schedule piles up behind
      itself, whatever ticks overlap and however schedules are edited and
      deleted.  A removed app takes its rows with it, breaks no foreign key and
      leaves the audit trail as it was.
    - Sidecar, demo, command line: administration needs the token; only
      reviewed questions run; the browser edits catalogued names only; entries
      of the run registry follow their life cycle; generators obey the flags
      that stop them; the MCP client and the MCP server agree.

    Statements of behaviour that departs from a comment, a document or a
    protocol stand beside them, among others [identical_batch_never_runs],
    [host_ceiling_lost], [recovery_hides_tool_use],
    [compaction_orphans_tool_result], [extraction_can_panic],
    [http_errors_are_transient], [dropped_delegations_block],
    [links_escape_sandbox], [url_readers_are_unguarded],
    [ceiling_is_per_drain], [trigger_names_collide],
    [async_status_ignores_outcome], [sidecar_cannot_load_its_schema],
    [cancel_signals_the_recorded_pid], [insert_lands_after_reset],
    [failed_write_leaves_the_file],
    [cap_is_read_at_the_call], [late_year_fires_again],
    [tiny_interval_blocks_all], [shared_agent_is_removed].

    ** Fuel

    The loop of the conversation and ReAct executors runs on
    [loop_fuel = max_iterations + 1]; [loop_terminates] shows that it returns,
    since the iteration cap is checked on every turn.  Recovery runs on
    [max_attempts + 1] rounds, one per attempt and a last one.  The loops that
    search text run on the length of the text plus one, which is enough
    because every round shortens it.  The recursion of [grep] runs on the
    number of links the kernel follows times the depth of the file system
    ([ToolsFsSpec.grep_returns]).  The other loops are structural.  The
    theorems state that results are reached, not only what holds if they are.

    ** What is assumed

    Libraries outside the sources are arguments of the definitions that use
    them: case and letter tables ([UnicodeTables], [AlphaTable]), printers of
    ids, times, floats and JSON ([Printers], [FloatPrinter], [CassetteText],
    [ClockLib]), readers of JSON and headers ([WireLib], [ParseLib]), URLs
    ([NetLib]), wording of deserialisation errors and schema generation
    ([DeriveLib], [McpLib]), the link limit and error texts of the operating
    system ([FsLib], [DiskLib]), the order of a hash map ([HashOrder]), CSV
    ([LoadLib]), feeds and pages ([FeedLib]), tokenisation and inference
    ([OrtLib]), clients of Postgres ([PgLib], [SqlxLib], [TokioLib]) and its
    arithmetic on times ([PgTime]).  A theorem holds for every instance unless
    it names a law ([HashOrderSpec], [CsvLaws], [DiskLaws], [PgTimeLaws]), and
    a theorem that does has an instance.  [EHttp] and [EFetch] are exchanges as
    the HTTP library shows them, redirects it follows included.

    ** What is not modelled

    Streaming responses (every provider refuses them and nothing calls it);
    the raw debug log of the OpenAI client; routing, request extraction and
    sockets of the web framework; process loops, signals and the permission
    bits of the upload directory; the compile-time half of the derive macro;
    in the SQL schema the grants, migrations, row provenance, the trajectory
    renderer and the functions that write audit rows, which appear as the
    statements that call them; static pages, build files and tests. *)

From Stdlib Require Export ZArith Ascii Lia.
From stdpp Require Export base numbers option strings pretty gmap list.

Declare Scope synapse_scope.
Delimit Scope synapse_scope with syn.

#[export] Set Default Goal Selector "!".
#[global] Open Scope string_scope.
#[global] Open Scope list_scope.
#[global] Open Scope Z_scope.

Create HintDb synapse.

(** ** The [Result] type of Rust *)

Inductive result (A E : Type) : Type :=
| Ok (a : A)
| Err (e : E).
Arguments Ok {A E} a.
Arguments Err {A E} e.

Definition is_ok {A E} (r : result A E) : bool :=
  match r with Ok _ => true | Err _ => false end.

Definition map_err {A E F} (f : E -> F) (r : result A E) : result A F :=
  match r with Ok a => Ok a | Err e => Err (f e) end.

Definition ok_or {A E} (o : option A) (e : E) : result A E :=
  match o with Some a => Ok a | None => Err e end.

(** The [?] operator on pure results. *)
Definition result_bind {A B E} (r : result A E) (k : A -> result B E) : result B E :=
  match r with Ok a => k a | Err e => Err e end.

Notation "x <-? r ;; k" := (result_bind r (fun x => k))
  (at level 100, r at next level, right associativity) : synapse_scope.

#[export] Instance result_eq_dec {A E} `{EqDecision A, EqDecision E} : EqDecision (result A E).
Proof. solve_decision. Defined.

Lemma result_bind_ok {A B E} (r : result A E) (k : A -> result B E) b :
  result_bind r k = Ok b <-> exists a, r = Ok a /\ k a = Ok b.
Proof. destruct r; simpl; naive_solver. Qed.

Lemma result_bind_err {A B E} (r : result A E) (k : A -> result B E) e :
  result_bind r k = Err e <-> r = Err e \/ exists a, r = Ok a /\ k a = Err e.
Proof. destruct r; simpl; naive_solver. Qed.

(** ** Machine integers

    A [u32], [u64] or [usize] is a [Z]; the operations say what happens at
    the ends of the range.  The release profile of the workspace leaves
    overflow checks off, so [+=] wraps. *)

Definition U32_MAX : Z := 4294967295.
Definition U64_MAX : Z := 18446744073709551615.

Definition in_u32 (x : Z) : Prop := 0 <= x <= U32_MAX.
Definition in_u64 (x : Z) : Prop := 0 <= x <= U64_MAX.

Definition wrap32 (x : Z) : Z := x mod (U32_MAX + 1).
Definition wrap64 (x : Z) : Z := x mod (U64_MAX + 1).

Definition saturating_add32 (a b : Z) : Z := Z.min (a + b) U32_MAX.
Definition saturating_mul64 (a b : Z) : Z := Z.min (a * b) U64_MAX.
Definition saturating_sub (a b : Z) : Z := Z.max (a - b) 0.

(** [x.clamp(lo, hi)] *)
Definition clamp (lo hi x : Z) : Z := Z.max lo (Z.min hi x).

Lemma clamp_range lo hi x : lo <= hi -> lo <= clamp lo hi x <= hi.
Proof. unfold clamp. lia. Qed.

(** Unfold the integer operations and call [lia]. *)
Ltac ulia :=
  unfold in_u32, in_u64, wrap32, wrap64, saturating_add32, saturating_mul64,
    saturating_sub, U32_MAX, U64_MAX in *; lia.

Lemma wrap32_range x : in_u32 (wrap32 x).
Proof.
  unfold in_u32, wrap32, U32_MAX. pose proof (Z.mod_pos_bound x (4294967295 + 1)). lia.
Qed.

Lemma wrap64_range x : in_u64 (wrap64 x).
Proof.
  unfold in_u64, wrap64, U64_MAX.
  pose proof (Z.mod_pos_bound x (18446744073709551615 + 1)). lia.
Qed.

Lemma wrap32_small x : in_u32 x -> wrap32 x = x.
Proof. intros. unfold wrap32. apply Z.mod_small. ulia. Qed.

Lemma wrap64_small x : in_u64 x -> wrap64 x = x.
Proof. intros. unfold wrap64. apply Z.mod_small. ulia. Qed.

Lemma wrap32_succ x : wrap32 (wrap32 x + 1) = wrap32 (x + 1).
Proof. unfold wrap32. by rewrite Zplus_mod_idemp_l. Qed.

Lemma saturating_add32_range a b :
  in_u32 a -> in_u32 b -> in_u32 (saturating_add32 a b).
Proof. ulia. Qed.

Lemma saturating_add32_assoc a b c :
  0 <= a -> 0 <= b -> 0 <= c ->
  saturating_add32 (saturating_add32 a b) c = saturating_add32 a (saturating_add32 b c).
Proof. ulia. Qed.

Lemma saturating_add32_comm a b : saturating_add32 a b = saturating_add32 b a.
Proof. ulia. Qed.

#[export] Hint Resolve wrap32_range wrap64_range saturating_add32_range : synapse.

(** ** Durations and time

    A [Duration] is a number of nanoseconds, an [Instant] a point on a
    monotonic clock in nanoseconds. *)

Definition NANOS_PER_MILLI : Z := 1000000.
Definition from_millis (ms : Z) : Z := ms * NANOS_PER_MILLI.
Definition as_millis (d : Z) : Z := d / NANOS_PER_MILLI.
(** [d.as_millis() as u64] *)
Definition as_millis_u64 (d : Z) : Z := wrap64 (as_millis d).

Lemma as_from_millis ms : as_millis (from_millis ms) = ms.
Proof. unfold as_millis, from_millis, NANOS_PER_MILLI. apply Z.div_mul. lia. Qed.

Lemma from_millis_zero ms : from_millis ms = 0 <-> ms = 0.
Proof. unfold from_millis, NANOS_PER_MILLI. lia. Qed.
