(* ===== verification/RustStr.v ===== *)
(** * Strings of the Rust standard library

    A Rust [String] or [&str] is the sequence of its UTF-8 bytes, held as a
    [String.string].  The functions here are the ones the sources call:
    [trim], [chars], [contains], [starts_with], [split_once], [to_lowercase]
    and so on.  A [char] is the byte string that encodes it. *)

From S2P Require Import Prelude.


Definition byte_of (a : ascii) : Z := Z.of_nat (nat_of_ascii a).

(** A continuation byte of UTF-8 is [10xxxxxx]. *)
Definition is_continuation (a : ascii) : bool :=
  (128 <=? byte_of a) && (byte_of a <? 192).

Definition starts_with_continuation (s : string) : bool :=
  match s with EmptyString => false | String a _ => is_continuation a end.

(** [s.chars()]: each lead byte takes the continuation bytes that follow. *)
Fixpoint chars (s : string) : list string :=
  match s with
  | EmptyString => []
  | String a s' =>
      match chars s' with
      | c :: cs =>
          if starts_with_continuation c then String a c :: cs
          else String a EmptyString :: c :: cs
      | [] => [String a EmptyString]
      end
  end.

Definition of_chars (cs : list string) : string := String.concat "" cs.

Definition chars_count (s : string) : Z := Z.of_nat (length (chars s)).

(** [s.chars().take(n).collect::<String>()] *)
Definition take_chars (n : nat) (s : string) : string := of_chars (take n (chars s)).

(** The bytes of a string, for indexing and slicing. *)
Definition str_len (s : string) : Z := Z.of_nat (String.length s).

(** [char::is_whitespace]: the 25 characters of the Unicode property
    White_Space, as UTF-8. *)
Definition ascii_of_Z (z : Z) : ascii := ascii_of_nat (Z.to_nat z).
Definition utf8 (bs : list Z) : string :=
  String.string_of_list_ascii (map ascii_of_Z bs).

Definition whitespace_chars : list string :=
  map utf8
    ([[9]; [10]; [11]; [12]; [13]; [32]; [194; 133]; [194; 160]; [225; 154; 128];
      [226; 128; 168]; [226; 128; 169]; [226; 128; 175]; [226; 129; 159]; [227; 128; 128]]
     ++ map (fun b => [226; 128; b])
          [128; 129; 130; 131; 132; 133; 134; 135; 136; 137; 138]).

Definition is_whitespace (c : string) : bool := bool_decide (c ∈ whitespace_chars).

Fixpoint drop_while {A} (p : A -> bool) (l : list A) : list A :=
  match l with
  | [] => []
  | x :: l' => if p x then drop_while p l' else l
  end.

Definition trim_chars (cs : list string) : list string :=
  reverse (drop_while is_whitespace (reverse (drop_while is_whitespace cs))).

(** [str::trim] *)
Definition trim (s : string) : string := of_chars (trim_chars (chars s)).

(** [s.trim().is_empty()] *)
Definition is_blank (s : string) : bool := String.eqb (trim s) "".

Definition is_empty (s : string) : bool := String.eqb s "".

(** [str::starts_with], [str::ends_with], [str::contains] on string patterns. *)
Definition starts_with (s p : string) : bool := String.prefix p s.

Fixpoint contains (s p : string) : bool :=
  String.prefix p s ||
  match s with EmptyString => false | String _ s' => contains s' p end.

Definition str_rev (s : string) : string :=
  String.string_of_list_ascii (rev (String.list_ascii_of_string s)).
Definition ends_with (s p : string) : bool := String.prefix (str_rev p) (str_rev s).

(** [slice.join(sep)] *)
Definition join (sep : string) (parts : list string) : string := String.concat sep parts.

(** [to_ascii_lowercase] and the ASCII part of [to_lowercase]. *)
Definition lower_byte (a : ascii) : ascii :=
  if (65 <=? byte_of a) && (byte_of a <=? 90) then ascii_of_Z (byte_of a + 32) else a.

Fixpoint map_bytes (f : ascii -> ascii) (s : string) : string :=
  match s with EmptyString => EmptyString | String a s' => String (f a) (map_bytes f s') end.

Definition to_ascii_lowercase (s : string) : string := map_bytes lower_byte s.

Definition is_ascii (s : string) : bool :=
  forallb (fun a => byte_of a <? 128) (String.list_ascii_of_string s).

(** Decimal printing of an integer ([{}] of [u32], [u64], [usize]). *)
Definition show (z : Z) : string := pretty z.

(** The Unicode case tables are the one part of [str] that is not written
    out: [to_lowercase] is exact on ASCII and calls [unicode_lowercase] on
    any other string. *)
Class UnicodeTables := { unicode_lowercase : string -> string }.

Definition to_lowercase `{UnicodeTables} (s : string) : string :=
  if is_ascii s then to_ascii_lowercase s else unicode_lowercase s.

(** ** Lemmas *)

Lemma chars_concat s : of_chars (chars s) = s.
Proof.
  unfold of_chars. induction s as [|a s IH]; [done|].
  simpl. destruct (chars s) as [|c cs] eqn:E.
  - simpl in *. by subst.
  - destruct (starts_with_continuation c); simpl in *;
      destruct cs; simpl in *; by subst.
Qed.

Lemma chars_nil s : chars s = [] -> s = "".
Proof. intros E. by rewrite <- (chars_concat s), E. Qed.

Lemma chars_cons_nonempty s c : c ∈ chars s -> c <> "".
Proof.
  revert c. induction s as [|a s IH]; simpl; intros c Hc; [set_solver|].
  destruct (chars s) as [|c0 cs]; [set_solver|].
  destruct (starts_with_continuation c0); set_solver.
Qed.

Lemma drop_while_head {A} (p : A -> bool) l :
  match drop_while p l with [] => True | x :: _ => p x = false end.
Proof. induction l as [|x l IH]; simpl; [done|]. destruct (p x) eqn:E; done. Qed.

Lemma drop_while_all {A} (p : A -> bool) l :
  drop_while p l = [] <-> forallb p l = true.
Proof.
  induction l as [|x l IH]; simpl; [done|].
  destruct (p x); simpl; [done|]. naive_solver.
Qed.

Lemma drop_while_sub {A} (p : A -> bool) l x : x ∈ drop_while p l -> x ∈ l.
Proof.
  induction l as [|y l IH]; simpl; [done|]. destruct (p y); set_solver.
Qed.

Lemma of_chars_nil_nonempty cs :
  Forall (fun c => c <> "") cs -> of_chars cs = "" -> cs = [].
Proof.
  unfold of_chars. destruct cs as [|c cs]; [done|].
  intros Hall Hc. inversion Hall; subst. destruct c; [done|].
  by destruct cs.
Qed.

(** A string is blank exactly when all its characters are white space. *)
Lemma is_blank_spec s : is_blank s = forallb is_whitespace (chars s).
Proof.
  unfold is_blank, trim, trim_chars.
  set (d := drop_while is_whitespace (chars s)).
  assert (Hne : Forall (fun c => c <> "") (reverse (drop_while is_whitespace (reverse d)))).
  { apply Forall_forall. intros c Hc. rewrite elem_of_reverse in Hc.
    apply drop_while_sub in Hc. rewrite elem_of_reverse in Hc.
    apply drop_while_sub in Hc. by eapply chars_cons_nonempty. }
  apply eq_bool_prop_intro.
  destruct (String.eqb_spec (of_chars (reverse (drop_while is_whitespace (reverse d)))) "") as [E|E].
  - apply of_chars_nil_nonempty in E; [|done].
    apply (f_equal (@reverse _)) in E. rewrite reverse_involutive in E. simpl in E.
    apply drop_while_all in E.
    assert (d = []) as Hd.
    { pose proof (drop_while_head is_whitespace (chars s)) as Hh. fold d in Hh.
      destruct d as [|x d']; [done|].
      rewrite forallb_forall in E. specialize (E x).
      rewrite <- list_elem_of_In, elem_of_reverse in E. rewrite E in Hh; [done|]. set_solver. }
    unfold d in Hd. apply drop_while_all in Hd. by rewrite Hd.
  - destruct (forallb is_whitespace (chars s)) eqn:F; [|done].
    apply drop_while_all in F. unfold d in E. by rewrite F in E.
Qed.

Lemma prefix_spec p s : String.prefix p s = true <-> exists b, s = (p +:+ b).
Proof.
  revert s. induction p as [|x p IH]; intros s; simpl.
  - destruct s; naive_solver.
  - destruct s as [|c s]; simpl; [split; [done|by intros [? ?]]|].
    destruct (ascii_dec x c) as [->|Hne].
    { split.
      - intros [b ->]%IH. by exists b.
      - intros [b [= ->]]. apply IH. by exists b. }
    split; [done|]. intros [b Hb]. by injection Hb as ? ?.
Qed.

Lemma contains_unfold s p :
  contains s p = String.prefix p s ||
    match s with EmptyString => false | String _ s' => contains s' p end.
Proof. by destruct s. Qed.

Lemma contains_spec s p :
  contains s p = true <-> exists a b, s = (a +:+ p +:+ b).
Proof.
  induction s as [|c s IH]; rewrite contains_unfold, orb_true_iff, prefix_spec.
  - split.
    + intros [[b Hb]|]; [|done]. by exists "", b.
    + intros (a & b & E). left. destruct a; [by exists b|done].
  - rewrite IH. split.
    + intros [[b Hb]|(a & b & ->)]; [by exists "", b|by exists (String c a), b].
    + intros (a & b & E). destruct a as [|x a]; simpl in E; [naive_solver|].
      injection E as -> ->. right. by exists a, b.
Qed.

Lemma contains_self_app a p b : contains (a +:+ p +:+ b) p = true.
Proof. apply contains_spec. by exists a, b. Qed.

Lemma lower_byte_idemp a : lower_byte (lower_byte a) = lower_byte a.
Proof. destruct a as [[] [] [] [] [] [] [] []]; reflexivity. Qed.

Lemma to_ascii_lowercase_idemp s :
  to_ascii_lowercase (to_ascii_lowercase s) = to_ascii_lowercase s.
Proof.
  unfold to_ascii_lowercase. induction s; simpl; [done|].
  by rewrite lower_byte_idemp, IHs.
Qed.

#[export] Hint Rewrite @chars_concat to_ascii_lowercase_idemp : synapse.
