(* ===== verification/F64.v ===== *)
(** * IEEE 754 binary64 numbers

    An [f64] is a [spec_float] of precision 53 and maximal exponent 1024, so
    costs and jitter are computed with the rounding the program has.  Casts
    to integers truncate and saturate, as [as u64] does. *)

From S2P Require Import Prelude.
From Stdlib Require Export SpecFloat.

Abbreviation f64 := spec_float.

Definition prec64 : Z := 53.
Definition emax64 : Z := 1024.

Definition f64_add : f64 -> f64 -> f64 := SFadd prec64 emax64.
Definition f64_sub : f64 -> f64 -> f64 := SFsub prec64 emax64.
Definition f64_mul : f64 -> f64 -> f64 := SFmul prec64 emax64.
Definition f64_div : f64 -> f64 -> f64 := SFdiv prec64 emax64.

(** The comparisons of [PartialOrd]: all false on NaN. *)
Definition f64_eqb : f64 -> f64 -> bool := SFeqb.
Definition f64_ltb : f64 -> f64 -> bool := SFltb.
Definition f64_geb (a b : f64) : bool := SFleb b a.
Definition f64_gtb (a b : f64) : bool := SFltb b a.

(** [z as f64] for an integer [z]: nearest, ties to even. *)
Definition f64_of_Z (z : Z) : f64 := binary_normalize prec64 emax64 z 0 false.

(** [0.0]; the literal [n/d] is the correctly rounded quotient. *)
Definition f64_zero : f64 := S754_zero false.
Definition f64_ratio (n d : Z) : f64 := f64_div (f64_of_Z n) (f64_of_Z d).

(** Truncation towards zero of a finite number. *)
Definition trunc_magnitude (m : positive) (e : Z) : Z :=
  if 0 <=? e then Zpos m * 2 ^ e else Zpos m / 2 ^ (- e).

(** [x as uN], [max] being the largest value of the type. *)
Definition f64_to_unsigned (max : Z) (x : f64) : Z :=
  match x with
  | S754_nan | S754_zero _ | S754_infinity true | S754_finite true _ _ => 0
  | S754_infinity false => max
  | S754_finite false m e => Z.min max (trunc_magnitude m e)
  end.

Definition f64_to_u64 : f64 -> Z := f64_to_unsigned U64_MAX.
Definition f64_to_u32 : f64 -> Z := f64_to_unsigned U32_MAX.

(** [f64::round]: nearest integer, halves away from zero. *)
Definition round_magnitude (m : positive) (e : Z) : Z :=
  if 0 <=? e then Zpos m * 2 ^ e
  else (Zpos m + 2 ^ (- e - 1)) / 2 ^ (- e).

Definition f64_round (x : f64) : f64 :=
  match x with
  | S754_finite s m e =>
      if 0 <=? e then x
      else binary_normalize prec64 emax64 (cond_Zopp s (round_magnitude m e)) 0 s
  | _ => x
  end.

(** [f as f64] of an [f32] *)
Definition f64_of_f32 (f : spec_float) : f64 :=
  match f with
  | S754_finite s m e => binary_normalize prec64 emax64 (cond_Zopp s (Zpos m)) e s
  | _ => f
  end.

Lemma trunc_magnitude_nonneg m e : 0 <= trunc_magnitude m e.
Proof.
  unfold trunc_magnitude. case_match eqn:E.
  - apply Z.mul_nonneg_nonneg; [lia|]. apply Z.pow_nonneg. lia.
  - apply Z.div_pos; [lia|]. apply Z.pow_pos_nonneg; lia.
Qed.

Lemma f64_to_unsigned_range max x : 0 <= max -> 0 <= f64_to_unsigned max x <= max.
Proof.
  intros Hm. unfold f64_to_unsigned.
  destruct x as [| [] | | [] m e]; try lia.
  pose proof (trunc_magnitude_nonneg m e). lia.
Qed.

Lemma f64_geb_nan_l x : f64_geb S754_nan x = false.
Proof. by destruct x as [[]|[]| |[]]. Qed.

Lemma f64_geb_nan_r x : f64_geb x S754_nan = false.
Proof. by destruct x as [[]|[]| |[]]. Qed.

Lemma f64_add_nan_l x : f64_add S754_nan x = S754_nan.
Proof. done. Qed.

Lemma f64_add_nan_r x : f64_add x S754_nan = S754_nan.
Proof. by destruct x as [| | |]. Qed.

#[export] Hint Rewrite f64_geb_nan_l f64_geb_nan_r f64_add_nan_l f64_add_nan_r : synapse.

#[export] Instance f64_eq_dec : EqDecision f64.
Proof. solve_decision. Defined.
