(* ===== verification/Json.v ===== *)
(** * JSON values

    [json] has the constructors of [serde_json::Value].  A JSON object is
    the ordered map serde_json uses by default: its entries sorted by key.
    Printing to text and parsing from text are not modelled here; a
    definition that needs them takes them as an argument. *)

From S2P Require Import Prelude.
From S2P Require Import RustStr.
From S2P Require Import F64.

Inductive number :=
| PosInt (n : Z)
| NegInt (n : Z)
| Float (f : f64).

Inductive json :=
| JNull
| JBool (b : bool)
| JNumber (n : number)
| JString (s : string)
| JArray (l : list json)
| JObject (m : list (string * json)).

(** Induction through the nested lists. *)
Section json_induction.
Context (P : json -> Prop).
Context (Hnull : P JNull) (Hbool : forall b, P (JBool b))
  (Hnum : forall n, P (JNumber n)) (Hstr : forall s, P (JString s))
  (Harr : forall l, Forall P l -> P (JArray l))
  (Hobj : forall m, Forall (fun kv => P kv.2) m -> P (JObject m)).

Fixpoint json_ind' (j : json) : P j :=
  match j with
  | JNull => Hnull
  | JBool b => Hbool b
  | JNumber n => Hnum n
  | JString s => Hstr s
  | JArray l =>
      Harr l ((fix go l := match l return Forall P l with
                           | [] => Forall_nil_2 _
                           | x :: l' => Forall_cons_2 _ _ _ (json_ind' x) (go l')
                           end) l)
  | JObject m =>
      Hobj m ((fix go m := match m return Forall (fun kv => P kv.2) m with
                           | [] => Forall_nil_2 _
                           | kv :: m' => Forall_cons_2 _ _ _ (json_ind' kv.2) (go m')
                           end) m)
  end.
End json_induction.

(** Equality of [Value]: structural, with [f64] equality on floats. *)
Definition number_eqb (a b : number) : bool :=
  match a, b with
  | PosInt x, PosInt y | NegInt x, NegInt y => x =? y
  | Float x, Float y => f64_eqb x y
  | _, _ => false
  end.

Fixpoint json_eqb (a b : json) {struct a} : bool :=
  match a, b with
  | JNull, JNull => true
  | JBool x, JBool y => Bool.eqb x y
  | JNumber x, JNumber y => number_eqb x y
  | JString x, JString y => String.eqb x y
  | JArray l1, JArray l2 =>
      (fix go l1 l2 := match l1, l2 with
       | [], [] => true
       | x :: l1', y :: l2' => json_eqb x y && go l1' l2'
       | _, _ => false
       end) l1 l2
  | JObject m1, JObject m2 =>
      (fix go m1 m2 := match m1, m2 with
       | [], [] => true
       | (k1, x) :: m1', (k2, y) :: m2' => String.eqb k1 k2 && json_eqb x y && go m1' m2'
       | _, _ => false
       end) m1 m2
  | _, _ => false
  end.

(** ** Objects *)

Fixpoint obj_get (k : string) (m : list (string * json)) : option json :=
  match m with
  | [] => None
  | (k', v) :: m' => if String.eqb k k' then Some v else obj_get k m'
  end.

(** [Map::insert]: replaces the value of a present key, and otherwise
    inserts at the key's place in byte order. *)
Fixpoint obj_insert (k : string) (v : json) (m : list (string * json)) : list (string * json) :=
  match m with
  | [] => [(k, v)]
  | (k', v') :: m' =>
      match String.compare k k' with
      | Eq => (k, v) :: m'
      | Lt => (k, v) :: (k', v') :: m'
      | Gt => (k', v') :: obj_insert k v m'
      end
  end.

(** [json!({ k1: v1, ... })] *)
Definition json_object (kvs : list (string * json)) : json :=
  JObject (fold_left (fun m kv => obj_insert kv.1 kv.2 m) kvs []).

(** [Value::get], [v[key] = x] on an object, and the [as_*] accessors. *)
Definition json_get (k : string) (j : json) : option json :=
  match j with JObject m => obj_get k m | _ => None end.

Definition json_set (k : string) (v : json) (j : json) : json :=
  match j with JObject m => JObject (obj_insert k v m) | _ => j end.

Definition as_str (j : json) : option string :=
  match j with JString s => Some s | _ => None end.
Definition as_bool (j : json) : option bool :=
  match j with JBool b => Some b | _ => None end.
Definition as_array (j : json) : option (list json) :=
  match j with JArray l => Some l | _ => None end.
Definition as_u64 (j : json) : option Z :=
  match j with JNumber (PosInt n) => Some n | _ => None end.
Definition as_i64 (j : json) : option Z :=
  match j with
  | JNumber (PosInt n) => if n <=? 9223372036854775807 then Some n else None
  | JNumber (NegInt n) => Some n
  | _ => None
  end.
Definition as_f64 (j : json) : option f64 :=
  match j with
  | JNumber (PosInt n) | JNumber (NegInt n) => Some (f64_of_Z n)
  | JNumber (Float f) => Some f
  | _ => None
  end.

(** An [Option] field: absent or null, or a value that [read] accepts. *)
Definition read_opt {A} (read : json -> option A) (f : option json) : option (option A) :=
  match f with
  | None | Some JNull => Some None
  | Some v => Some <$> read v
  end.

(** [json!(n)] for an unsigned integer, and for an [f64]: a float that is
    not finite becomes [null]. *)
Definition json_u64 (n : Z) : json := JNumber (PosInt n).
Definition json_i64 (n : Z) : json := JNumber (if 0 <=? n then PosInt n else NegInt n).
Definition f64_is_finite (f : f64) : bool :=
  match f with S754_zero _ | S754_finite _ _ _ => true | _ => false end.
Definition json_f64 (f : f64) : json :=
  if f64_is_finite f then JNumber (Float f) else JNull.

(** ** Lemmas *)

(** serde_json holds only finite floats. *)
Definition number_wf (n : number) : Prop :=
  match n with Float f => f64_is_finite f = true | _ => True end.

Fixpoint json_wf (j : json) : Prop :=
  match j with
  | JNumber n => number_wf n
  | JArray l => (fix go l := match l with [] => True | x :: l' => json_wf x /\ go l' end) l
  | JObject m =>
      (fix go m := match m with [] => True | kv :: m' => json_wf kv.2 /\ go m' end) m
  | _ => True
  end.

Lemma f64_eqb_refl f : f64_is_finite f = true -> f64_eqb f f = true.
Proof.
  destruct f as [[]|[]| |s m e]; simpl; try done. intros _.
  unfold f64_eqb, SFeqb, SFcompare.
  destruct s; by rewrite Z.compare_refl, Pos.compare_cont_refl.
Qed.

Lemma json_eqb_refl j : json_wf j -> json_eqb j j = true.
Proof.
  induction j as [| | n | |l IH|m IH] using json_ind'; simpl; try done.
  - destruct b; done.
  - destruct n; simpl; [by rewrite Z.eqb_refl ..|]. apply f64_eqb_refl.
  - intros _. apply String.eqb_refl.
  - induction IH as [|x l Hx _ IHl]; [done|]. intros [? ?]. rewrite Hx by done. by apply IHl.
  - induction IH as [|[k x] m Hx _ IHm]; [done|]. intros [? ?]. simpl in *.
    rewrite String.eqb_refl, Hx by done. by apply IHm.
Qed.

Lemma string_compare_refl s : String.compare s s = Eq.
Proof.
  induction s as [|a s IH]; simpl; [done|].
  unfold Ascii.compare. by rewrite N.compare_refl.
Qed.

Lemma obj_get_insert_eq k v m : obj_get k (obj_insert k v m) = Some v.
Proof.
  induction m as [|[k' v'] m IH]; simpl; [by rewrite String.eqb_refl|].
  destruct (String.compare k k') eqn:E; simpl; rewrite ?String.eqb_refl; try done.
  destruct (String.eqb_spec k k') as [->|]; [|done].
  by rewrite string_compare_refl in E.
Qed.

Lemma obj_get_insert_ne k k' v m :
  k <> k' -> obj_get k (obj_insert k' v m) = obj_get k m.
Proof.
  intros Hne. induction m as [|[k'' v''] m IH]; simpl.
  - destruct (String.eqb_spec k k'); done.
  - destruct (String.compare k' k'') eqn:E; simpl.
    + apply String.compare_eq_iff in E as ->. destruct (String.eqb_spec k k''); done.
    + destruct (String.eqb_spec k k'); done.
    + by rewrite IH.
Qed.

Lemma json_get_set_eq k v m : json_get k (json_set k v (JObject m)) = Some v.
Proof. apply obj_get_insert_eq. Qed.

Lemma json_get_set_ne k k' v j : k <> k' -> json_get k (json_set k' v j) = json_get k j.
Proof. destruct j; try done. apply obj_get_insert_ne. Qed.

#[export] Hint Rewrite obj_get_insert_eq json_get_set_eq : synapse.
#[export] Hint Resolve json_eqb_refl : synapse.
