(* ===== verification/Errors.v ===== *)
(** * Error taxonomy ([crates/pg-synapse-core/src/error.rs])

    One inductive type per error enum, and its [Display] text.  The text
    matters: a tool error is fed back to the model as text, and tool hints
    are selected by matching it. *)

From S2P Require Import Prelude.
From S2P Require Import RustStr.
From S2P Require Import F64.

Inductive ToolError :=
| ToolError_NotFound (name : string)
| ToolError_InvalidInput (name reason : string)
| ToolError_Execution (name reason : string)
| ToolError_Timeout (name : string) (timeout_ms : Z)
| ToolError_Mcp (msg : string).

Inductive LlmError :=
| LlmError_Provider (provider reason : string)
| LlmError_Auth (provider : string)
| LlmError_RateLimited (provider : string) (retry_after_ms : option Z)
| LlmError_ContextLengthExceeded (model : string) (tokens limit : Z)
| LlmError_ResponseTruncated (model : string) (tokens_out : Z)
| LlmError_Network (msg : string).

Inductive EmbeddingError :=
| EmbeddingError_Provider (msg : string)
| EmbeddingError_DimensionMismatch (expected actual : Z)
| EmbeddingError_Network (msg : string).

Inductive MemoryError :=
| MemoryError_Backend (msg : string)
| MemoryError_InvalidScope (msg : string)
| MemoryError_NotFound.

Inductive CompressionError :=
| CompressionError_BudgetTooSmall (needed available : Z)
| CompressionError_Backend (msg : string).

Inductive ProviderError :=
| ProviderError_NotRegistered (name : string)
| ProviderError_InvalidProfile (provider reason : string)
| ProviderError_SecretNotFound (name : string).

Inductive ExecutorError :=
| ExecutorError_MaxIterationsReached (n : Z)
| ExecutorError_Timeout (ms : Z)
| ExecutorError_Cancelled (reason : string)
| ExecutorError_CostCapExceeded (cap spent : f64)
| ExecutorError_Tool (e : ToolError)
| ExecutorError_Llm (e : LlmError)
| ExecutorError_Provider (e : ProviderError)
| ExecutorError_Memory (e : MemoryError)
| ExecutorError_Compression (e : CompressionError)
| ExecutorError_Internal (msg : string).

Inductive RuntimeError :=
| RuntimeError_AgentNotFound (name : string)
| RuntimeError_Executor (e : ExecutorError)
| RuntimeError_Config (msg : string)
| RuntimeError_Provider (e : ProviderError).

#[export] Instance ToolError_eq_dec : EqDecision ToolError.
Proof. solve_decision. Defined.
#[export] Instance LlmError_eq_dec : EqDecision LlmError.
Proof. solve_decision. Defined.

(** ** [Display] *)

(** [{:?}] of an [Option<u64>]. *)
Definition debug_option (o : option Z) : string :=
  match o with Some n => "Some(" +:+ show n +:+ ")" | None => "None" end.

Definition ToolError_to_string (e : ToolError) : string :=
  match e with
  | ToolError_NotFound name => "tool '" +:+ name +:+ "' not found in registry"
  | ToolError_InvalidInput name reason =>
      "invalid input for tool '" +:+ name +:+ "': " +:+ reason
  | ToolError_Execution name reason =>
      "tool '" +:+ name +:+ "' execution failed: " +:+ reason
  | ToolError_Timeout name ms =>
      "tool '" +:+ name +:+ "' timed out after " +:+ show ms +:+ "ms"
  | ToolError_Mcp m => "mcp protocol error: " +:+ m
  end.

Definition LlmError_to_string (e : LlmError) : string :=
  match e with
  | LlmError_Provider p reason => "provider error from " +:+ p +:+ ": " +:+ reason
  | LlmError_Auth p => "authentication failed for provider " +:+ p
  | LlmError_RateLimited p after =>
      "rate limited by provider " +:+ p +:+ "; retry after " +:+ debug_option after +:+ "ms"
  | LlmError_ContextLengthExceeded model tokens limit =>
      "context length exceeded for model " +:+ model +:+ ": " +:+ show tokens
        +:+ " > " +:+ show limit
  | LlmError_ResponseTruncated model tokens_out =>
      "response from model " +:+ model +:+ " was cut off at " +:+ show tokens_out
        +:+ " output tokens (finish_reason=length); raise max_tokens in the LLM profile params or on the server"
  | LlmError_Network m => "network error: " +:+ m
  end.

Definition EmbeddingError_to_string (e : EmbeddingError) : string :=
  match e with
  | EmbeddingError_Provider m => "provider error: " +:+ m
  | EmbeddingError_DimensionMismatch expected actual =>
      "dimension mismatch: expected " +:+ show expected +:+ ", got " +:+ show actual
  | EmbeddingError_Network m => "network error: " +:+ m
  end.

Definition MemoryError_to_string (e : MemoryError) : string :=
  match e with
  | MemoryError_Backend m => "backend error: " +:+ m
  | MemoryError_InvalidScope m => "scope invalid: " +:+ m
  | MemoryError_NotFound => "entry not found"
  end.

Definition CompressionError_to_string (e : CompressionError) : string :=
  match e with
  | CompressionError_BudgetTooSmall needed available =>
      "budget too small: needed " +:+ show needed +:+ ", had " +:+ show available
  | CompressionError_Backend m => "backend error: " +:+ m
  end.

Definition ProviderError_to_string (e : ProviderError) : string :=
  match e with
  | ProviderError_NotRegistered p => "provider '" +:+ p +:+ "' not registered"
  | ProviderError_InvalidProfile p reason =>
      "invalid profile for provider '" +:+ p +:+ "': " +:+ reason
  | ProviderError_SecretNotFound n => "secret '" +:+ n +:+ "' not found"
  end.

(** The decimal printer of [f64] is an argument of the two texts that use it. *)
Definition ExecutorError_to_string (fmt_f64 : f64 -> string) (e : ExecutorError) : string :=
  match e with
  | ExecutorError_MaxIterationsReached n =>
      "max iterations (" +:+ show n +:+ ") reached without termination"
  | ExecutorError_Timeout ms => "timeout after " +:+ show ms +:+ "ms"
  | ExecutorError_Cancelled reason => "execution cancelled: " +:+ reason
  | ExecutorError_CostCapExceeded cap spent =>
      "cost cap $" +:+ fmt_f64 cap +:+ " exceeded at $" +:+ fmt_f64 spent
  | ExecutorError_Tool e => "tool error: " +:+ ToolError_to_string e
  | ExecutorError_Llm e => "llm error: " +:+ LlmError_to_string e
  | ExecutorError_Provider e => "provider hydration failed: " +:+ ProviderError_to_string e
  | ExecutorError_Memory e => "memory error: " +:+ MemoryError_to_string e
  | ExecutorError_Compression e => "compression error: " +:+ CompressionError_to_string e
  | ExecutorError_Internal m => "internal: " +:+ m
  end.

Definition RuntimeError_to_string (fmt_f64 : f64 -> string) (e : RuntimeError) : string :=
  match e with
  | RuntimeError_AgentNotFound n => "agent '" +:+ n +:+ "' not found"
  | RuntimeError_Executor e => "executor: " +:+ ExecutorError_to_string fmt_f64 e
  | RuntimeError_Config m => "config: " +:+ m
  | RuntimeError_Provider e => "provider: " +:+ ProviderError_to_string e
  end.
