(* ===== verification/Types.v ===== *)
(** * Core data types ([crates/pg-synapse-core/src/types/])

    Messages, LLM requests and responses, tool outputs, trace levels and
    events, run outcomes and the redacted diagnostics bundle. *)

From S2P Require Import Prelude.
From S2P Require Import RustStr.
From S2P Require Import F64.
From S2P Require Import Json.

(** A [Uuid] is its 128-bit value, a [DateTime<Utc>] an instant. *)
Abbreviation Uuid := Z.
Abbreviation Timestamp := Z.

(** ** Messages ([types/message.rs]) *)

Inductive Role := System | User | Assistant | Tool.

#[export] Instance Role_eq_dec : EqDecision Role.
Proof. solve_decision. Defined.

Record Message := mkMessage {
  msg_execution_id : Uuid;
  msg_seq : Z;
  msg_role : Role;
  msg_content : option string;
  msg_tool_call_id : option string;
  msg_tool_name : option string;
  msg_tool_input : option json;
  msg_tool_output : option json;
  msg_timestamp : Timestamp }.

(** ** Requests and responses ([types/llm.rs]) *)

(** A [ToolSchema] wraps a JSON Schema document. *)
Abbreviation ToolSchema := json.

Record ToolDefinition := mkToolDefinition {
  td_name : string;
  td_description : string;
  td_schema : ToolSchema }.

(** [ToolDefinition::to_openai_function]; the schema document is JSON
    already, so its conversion cannot fail. *)
Definition to_openai_function (d : ToolDefinition) : json :=
  json_object
    [("name", JString (td_name d));
     ("description", JString (td_description d));
     ("parameters", td_schema d)].

Record CompletionRequest := mkCompletionRequest {
  req_messages : list Message;
  req_tools : list ToolDefinition;
  req_model : option string;
  req_temperature : option spec_float;
  req_max_tokens : option Z;
  req_params : json }.

Record ToolCall := mkToolCall {
  tc_id : string;
  tc_name : string;
  tc_args : json }.

Record Usage := mkUsage {
  tokens_in : Z;
  tokens_out : Z;
  cost_usd : option f64 }.

(** [impl Add for Usage] *)
Definition usage_add (a b : Usage) : Usage :=
  {| tokens_in := saturating_add32 (tokens_in a) (tokens_in b);
     tokens_out := saturating_add32 (tokens_out a) (tokens_out b);
     cost_usd := match cost_usd a, cost_usd b with
                 | Some x, Some y => Some (f64_add x y)
                 | Some x, None => Some x
                 | None, Some y => Some y
                 | None, None => None
                 end |}.

Record CompletionResponse := mkCompletionResponse {
  resp_content : option string;
  resp_tool_calls : list ToolCall;
  resp_finish_reason : string;
  resp_usage : Usage }.

(** ** Tools ([types/tool.rs]) *)

Inductive ToolOutput :=
| OutText (s : string)
| OutJson (v : json)
| OutEmpty.

Record ToolCtx := mkToolCtx {
  tctx_execution_id : Uuid;
  tctx_caller_role : option string;
  tctx_agent_name : option string }.

(** ** Compression ([types/compression.rs]) *)

Record Compressed := mkCompressed {
  summary : string;
  collapsed_indices : list Z }.

Definition Compressed_default : Compressed := mkCompressed "" [].

Record CompressionBudget := mkCompressionBudget {
  target_tokens : Z;
  hard_limit_tokens : Z }.

(** ** Trace levels and events ([types/trace.rs]) *)

Inductive TraceLevel := Off | Error | Info | Debug | Full.

#[export] Instance TraceLevel_eq_dec : EqDecision TraceLevel.
Proof. solve_decision. Defined.

Definition TraceLevel_default : TraceLevel := Info.

(** The discriminants, which [Ord] compares. *)
Definition trace_rank (l : TraceLevel) : Z :=
  match l with Off => 0 | Error => 1 | Info => 2 | Debug => 3 | Full => 4 end.

Definition should_persist_messages (l : TraceLevel) (run_succeeded : bool) : bool :=
  match l with Off => false | Error => negb run_succeeded | _ => true end.

Definition should_persist_events (l : TraceLevel) : bool :=
  match l with Debug | Full => true | _ => false end.

Definition should_persist_raw_payloads (l : TraceLevel) : bool :=
  match l with Full => true | _ => false end.

Definition TraceLevel_from_str (s : string) : result TraceLevel string :=
  let lc := to_ascii_lowercase s in
  if String.eqb lc "off" then Ok Off
  else if String.eqb lc "error" then Ok Error
  else if String.eqb lc "info" then Ok Info
  else if String.eqb lc "debug" then Ok Debug
  else if String.eqb lc "full" then Ok Full
  else Err ("unknown trace level: " +:+ s).

Definition TraceLevel_to_string (l : TraceLevel) : string :=
  match l with
  | Off => "off" | Error => "error" | Info => "info" | Debug => "debug" | Full => "full"
  end.

Inductive EventKind :=
| LlmRequest | LlmResponse | ToolStart | ToolEnd | ToolErrorEvent | EmptyTurn
| RepeatedToolCall | RetryAttempt | CostCapCheck | IterationCapCheck | TimeoutCheck.

#[export] Instance EventKind_eq_dec : EqDecision EventKind.
Proof. solve_decision. Defined.

Definition EventKind_as_str (k : EventKind) : string :=
  match k with
  | LlmRequest => "llm_request"
  | LlmResponse => "llm_response"
  | ToolStart => "tool_start"
  | ToolEnd => "tool_end"
  | ToolErrorEvent => "tool_error"
  | EmptyTurn => "empty_turn"
  | RepeatedToolCall => "repeated_tool_call"
  | RetryAttempt => "retry_attempt"
  | CostCapCheck => "cost_cap_check"
  | IterationCapCheck => "iteration_cap_check"
  | TimeoutCheck => "timeout_check"
  end.

Record ExecutionEvent := mkExecutionEvent {
  ev_kind : EventKind;
  ev_payload : json }.

(** ** Outcomes ([types/outcome.rs]) *)

Inductive OutcomeStatus :=
| Completed
| MaxIterations
| TimedOut
| CostCapExceeded
| Errored (detail : string).

#[export] Instance OutcomeStatus_eq_dec : EqDecision OutcomeStatus.
Proof. solve_decision. Defined.

Record ExecutorOutcome := mkExecutorOutcome {
  out_output : string;
  out_messages : list Message;
  out_tool_calls : list ToolCall;
  out_tokens_in : Z;
  out_tokens_out : Z;
  out_cost_usd : option f64;
  out_duration_ms : Z;
  out_status : OutcomeStatus;
  out_events : list ExecutionEvent }.

Definition ExecutorOutcome_default : ExecutorOutcome :=
  mkExecutorOutcome "" [] [] 0 0 None 0 Completed [].

(** ** Diagnostics ([types/diagnostics.rs]) *)

Record DiagnosticsBundle := mkDiagnosticsBundle {
  diag_trace_level : TraceLevel;
  diag_status : OutcomeStatus;
  diag_output : string;
  diag_tokens_in : Z;
  diag_tokens_out : Z;
  diag_cost_usd : option f64;
  diag_duration_ms : Z;
  diag_messages : list Message;
  diag_events : list ExecutionEvent }.

Definition export_diagnostics (outcome : ExecutorOutcome) (trace_level : TraceLevel)
  : DiagnosticsBundle :=
  let run_succeeded := bool_decide (out_status outcome = Completed) in
  let messages :=
    if should_persist_messages trace_level run_succeeded then out_messages outcome else [] in
  let events := if should_persist_events trace_level then out_events outcome else [] in
  {| diag_trace_level := trace_level;
     diag_status := out_status outcome;
     diag_output := out_output outcome;
     diag_tokens_in := out_tokens_in outcome;
     diag_tokens_out := out_tokens_out outcome;
     diag_cost_usd := out_cost_usd outcome;
     diag_duration_ms := out_duration_ms outcome;
     diag_messages := messages;
     diag_events := events |}.

(** ** Profile rows ([types/profile.rs]) *)

Record LlmProfileRow := mkLlmProfileRow {
  llm_name : string;
  llm_provider : string;
  llm_model : string;
  llm_api_key_secret : option string;
  llm_base_url : option string;
  llm_params : json }.

Record EmbeddingProfileRow := mkEmbeddingProfileRow {
  emb_name : string;
  emb_provider : string;
  emb_model : string;
  emb_dimension : Z;
  emb_api_key_secret : option string;
  emb_base_url : option string;
  emb_params : json }.

(** A dense vector of [f32] ([types/embedding.rs]). *)
Abbreviation EmbeddingVector := (list spec_float).

(** ** Memory ([types/memory.rs]) *)

Record MemoryScope := mkMemoryScope {
  scope_agent_name : string;
  scope_session_id : option string;
  scope_tags : list string }.

Record MemoryEntry := mkMemoryEntry {
  mem_id : Uuid;
  mem_content : string;
  mem_source : string;
  mem_created_at : Timestamp;
  mem_tags : list string }.

Abbreviation MemorySnapshot := (list MemoryEntry).

(** ** Lemmas *)

Definition usage_wf (u : Usage) : Prop := in_u32 (tokens_in u) /\ in_u32 (tokens_out u).

Lemma usage_add_wf a b : usage_wf a -> usage_wf b -> usage_wf (usage_add a b).
Proof. unfold usage_wf. intros [] []. split; simpl; auto with synapse. Qed.

Lemma usage_add_tokens_assoc a b c :
  usage_wf a -> usage_wf b -> usage_wf c ->
  tokens_in (usage_add (usage_add a b) c) = tokens_in (usage_add a (usage_add b c)) /\
  tokens_out (usage_add (usage_add a b) c) = tokens_out (usage_add a (usage_add b c)).
Proof.
  unfold usage_wf. intros [] [] []. split; apply saturating_add32_assoc; ulia.
Qed.

Lemma trace_level_roundtrip l : TraceLevel_from_str (TraceLevel_to_string l) = Ok l.
Proof. by destruct l. Qed.

(** More verbose levels persist at least as much. *)
Lemma should_persist_monotone l1 l2 ok :
  trace_rank l1 <= trace_rank l2 ->
  (should_persist_messages l1 ok = true -> should_persist_messages l2 ok = true) /\
  (should_persist_events l1 = true -> should_persist_events l2 = true) /\
  (should_persist_raw_payloads l1 = true -> should_persist_raw_payloads l2 = true).
Proof. destruct l1, l2, ok; simpl; naive_solver lia. Qed.

#[export] Hint Resolve usage_add_wf : synapse.
