(* ===== verification/Net.v ===== *)
(** * Addresses of the Rust standard library, and what an HTTP client shows

    [std::net::IpAddr] with the predicates and the parser the sources call,
    a parsed URL, and the requests and responses of the HTTP tools. *)

From S2P Require Import Prelude.
From S2P Require Import RustStr.
From S2P Require Import Json.

(** Octets and segments, first to last. *)
Inductive IpAddr :=
| V4 (a b c d : Z)
| V6 (s0 s1 s2 s3 s4 s5 s6 s7 : Z).

#[export] Instance IpAddr_eq_dec : EqDecision IpAddr.
Proof. solve_decision. Defined.

Definition in_range (lo hi x : Z) : bool := (lo <=? x) && (x <=? hi).

(** ** [Ipv4Addr] *)

Definition v4_is_private (a b c d : Z) : bool :=
  (a =? 10) || ((a =? 172) && in_range 16 31 b) || ((a =? 192) && (b =? 168)).
Definition v4_is_loopback (a b c d : Z) : bool := a =? 127.
Definition v4_is_link_local (a b c d : Z) : bool := (a =? 169) && (b =? 254).
Definition v4_is_unspecified (a b c d : Z) : bool :=
  (a =? 0) && (b =? 0) && (c =? 0) && (d =? 0).
Definition v4_is_broadcast (a b c d : Z) : bool :=
  (a =? 255) && (b =? 255) && (c =? 255) && (d =? 255).
Definition v4_is_documentation (a b c d : Z) : bool :=
  ((a =? 192) && (b =? 0) && (c =? 2)) || ((a =? 198) && (b =? 51) && (c =? 100))
  || ((a =? 203) && (b =? 0) && (c =? 113)).

(** ** [Ipv6Addr] *)

Definition all_zero (l : list Z) : bool := forallb (fun x => x =? 0) l.

Definition v6_is_loopback (l : list Z) : bool :=
  match l with
  | [a; b; c; d; e; f; g; h] => all_zero [a; b; c; d; e; f; g] && (h =? 1)
  | _ => false
  end.
Definition v6_is_unspecified (l : list Z) : bool := all_zero l.

(** [to_ipv4_mapped]: the address in [::ffff:0:0/96]. *)
Definition to_ipv4_mapped (l : list Z) : option (Z * Z * Z * Z) :=
  match l with
  | [a; b; c; d; e; f; ab; cd] =>
      if all_zero [a; b; c; d; e] && (f =? 65535)
      then Some (Z.shiftr ab 8, Z.land ab 255, Z.shiftr cd 8, Z.land cd 255) else None
  | _ => None
  end.

(** ** [str::parse::<IpAddr>]

    The parser of the standard library: every reader returns what it read and
    the rest of the input, and consumes nothing when it fails. *)

Definition digit_value (radix : Z) (c : ascii) : option Z :=
  let n := byte_of c in
  let v := if in_range 48 57 n then n - 48
           else if in_range 97 122 n then n - 87
           else if in_range 65 90 n then n - 55 else 99 in
  if v <? radix then Some v else None.

(** The digits of a number, at most [fuel] of them and one more. *)
Fixpoint read_digits (radix : Z) (max : nat) (acc : Z) (cnt : nat) (s : list ascii)
  : option (Z * nat * list ascii) :=
  match s with
  | c :: s' =>
      match digit_value radix c with
      | Some v =>
          match max with
          | O => None
          | S max => read_digits radix max (acc * radix + v) (S cnt) s'
          end
      | None => Some (acc, cnt, s)
      end
  | [] => Some (acc, cnt, s)
  end.

(** [read_number]: at least one digit, at most [max], no superfluous zero
    unless allowed, and a value within the type. *)
Definition read_number (radix : Z) (max : nat) (allow_zero_prefix : bool) (limit : Z)
    (s : list ascii) : option (Z * list ascii) :=
  match read_digits radix max 0 O s with
  | Some (v, cnt, rest) =>
      if Nat.eqb cnt 0 then None
      else if negb allow_zero_prefix && Nat.ltb 1 cnt
                && bool_decide (head s = Some "0"%char) then None
      else if limit <? v then None else Some (v, rest)
  | None => None
  end.

Definition read_given_char (c : ascii) (s : list ascii) : option (list ascii) :=
  match s with x :: s' => if Ascii.eqb x c then Some s' else None | [] => None end.

(** [read_separator]: a separator before every item but the first. *)
Definition read_separator {A} (sep : ascii) (index : nat)
    (read : list ascii -> option (A * list ascii)) (s : list ascii) : option (A * list ascii) :=
  match index with O => read s | S _ => s' ← read_given_char sep s; read s' end.

Definition read_octet : list ascii -> option (Z * list ascii) := read_number 10 3 false 255.

Definition read_ipv4 (s : list ascii) : option ((Z * Z * Z * Z) * list ascii) :=
  '(a, s) ← read_octet s;
  '(b, s) ← read_separator "." 1 read_octet s;
  '(c, s) ← read_separator "." 2 read_octet s;
  '(d, s) ← read_separator "." 3 read_octet s;
  Some ((a, b, c, d), s).

(** [read_groups]: the groups before the next one that does not parse, at
    most [room]; an IPv4 address counts as the last two. *)
Fixpoint read_groups (room index : nat) (s : list ascii) : list Z * bool * list ascii :=
  match room with
  | O => ([], false, s)
  | S room' =>
      match (if Nat.ltb 1 room then read_separator ":" index read_ipv4 s else None) with
      | Some ((a, b, c, d), s') => ([a * 256 + b; c * 256 + d], true, s')
      | None =>
          match read_separator ":" index (read_number 16 4 true 65535) s with
          | Some (g, s') =>
              let '(gs, v4, rest) := read_groups room' (S index) s' in (g :: gs, v4, rest)
          | None => ([], false, s)
          end
      end
  end.

Definition segments_of (l : list Z) : option IpAddr :=
  match l with
  | [a; b; c; d; e; f; g; h] => Some (V6 a b c d e f g h)
  | _ => None
  end.

Definition read_ipv6 (s : list ascii) : option (IpAddr * list ascii) :=
  let '(head, head_ipv4, s1) := read_groups 8 0 s in
  if Nat.eqb (length head) 8 then ip ← segments_of head; Some (ip, s1)
  else if head_ipv4 then None
  else
    s2 ← read_given_char ":" s1;
    s3 ← read_given_char ":" s2;
    let '(tail, _, rest) := read_groups (8 - (length head + 1)) 0 s3 in
    ip ← segments_of (head ++ replicate (8 - length head - length tail) 0 ++ tail);
    Some (ip, rest).

Definition parse_ip (s : string) : option IpAddr :=
  let l := String.list_ascii_of_string s in
  match (match read_ipv4 l with
         | Some ((a, b, c, d), rest) => Some (V4 a b c d, rest)
         | None => read_ipv6 l
         end) with
  | Some (ip, []) => Some ip
  | _ => None
  end.

Example parse_v4 : parse_ip "169.254.169.254" = Some (V4 169 254 169 254).
Proof. reflexivity. Qed.
Example parse_v4_octal : parse_ip "010.0.0.1" = None.
Proof. reflexivity. Qed.
Example parse_mapped : parse_ip "::ffff:127.0.0.1" = Some (V6 0 0 0 0 0 65535 32512 1).
Proof. reflexivity. Qed.
Example parse_v6 : parse_ip "fe80::1:2" = Some (V6 65152 0 0 0 0 0 1 2).
Proof. reflexivity. Qed.
Example parse_full : parse_ip "1:2:3:4:5:6:7:8" = Some (V6 1 2 3 4 5 6 7 8).
Proof. reflexivity. Qed.
Example parse_bracketed : parse_ip "[::1]" = None.
Proof. reflexivity. Qed.

(** ** The HTTP client *)

(** A URL, as the URL library shows it. *)
Record Url := mkUrl {
  url_scheme : string;
  url_host_str : option string;
  url_port_or_known_default : option Z }.

(** A request of an HTTP tool and its response: the headers as they were
    given, each response header with its text if it is text, and the body. *)
Record fetch_request := mkFetchRequest {
  fetch_method : string;
  fetch_url : string;
  fetch_headers : list (string * string);
  fetch_json : option json }.

Record fetch_response := mkFetchResponse {
  fetch_status : Z;
  fetch_response_headers : list (string * option string);
  fetch_text : result string string }.

(** [str::split] at one ASCII character. *)
Fixpoint split_on (c : ascii) (s : string) : list string :=
  match s with
  | EmptyString => [EmptyString]
  | String a s' =>
      if Ascii.eqb a c then EmptyString :: split_on c s'
      else match split_on c s' with
           | w :: ws => String a w :: ws
           | [] => [String a EmptyString]
           end
  end.
