(* ===== verification/NumText.v ===== *)
(** * Numbers as text

    [str::parse] and [from_str_radix] of the integer types, and hexadecimal
    printing, which they undo. *)

From S2P Require Import Prelude.
From S2P Require Import RustStr.
From S2P Require Import Net.

Definition I64_MIN : Z := -9223372036854775808.
Definition I64_MAX : Z := 9223372036854775807.
Definition I32_MIN : Z := -2147483648.
Definition I32_MAX : Z := 2147483647.
Definition U128_MAX : Z := 340282366920938463463374607431768211455.

(** ** Parsing *)

Fixpoint digits_value (radix acc : Z) (s : list ascii) : option Z :=
  match s with
  | [] => Some acc
  | c :: s' => v ← digit_value radix c; digits_value radix (acc * radix + v) s'
  end.

(** At least one digit, and a value in the range of the type. *)
Definition number_in (radix lo hi sign : Z) (digits : list ascii) : option Z :=
  match digits with
  | [] => None
  | _ =>
      v ← digits_value radix 0 digits;
      if (lo <=? sign * v) && (sign * v <=? hi) then Some (sign * v) else None
  end.

Definition parse_unsigned (radix max : Z) (s : string) : option Z :=
  match String.list_ascii_of_string s with
  | "+"%char :: digits => number_in radix 0 max 1 digits
  | digits => number_in radix 0 max 1 digits
  end.

Definition parse_signed (lo hi : Z) (s : string) : option Z :=
  match String.list_ascii_of_string s with
  | "+"%char :: digits => number_in 10 lo hi 1 digits
  | "-"%char :: digits => number_in 10 lo hi (-1) digits
  | digits => number_in 10 lo hi 1 digits
  end.

Definition parse_i64 : string -> option Z := parse_signed I64_MIN I64_MAX.
Definition parse_i32 : string -> option Z := parse_signed I32_MIN I32_MAX.

(** The two's complement value of an [i32]. *)
Definition wrap_i32 (x : Z) : Z := (x + 2147483648) mod 4294967296 - 2147483648.

(** ** Hexadecimal text *)

Definition hex_digit (d : Z) : ascii :=
  if d <? 10 then ascii_of_Z (48 + d) else ascii_of_Z (87 + d).

Fixpoint hex_digits (fuel : nat) (n : Z) (acc : string) : string :=
  match fuel with
  | O => acc
  | S fuel =>
      if n =? 0 then acc else hex_digits fuel (n / 16) (String (hex_digit (n mod 16)) acc)
  end.

(** [{:0width x}] of a type of [digits] hexadecimal digits. *)
Definition fmt_hex (digits width : nat) (n : Z) : string :=
  let s := hex_digits digits n "" in
  of_chars (replicate (width - String.length s) "0") +:+ s.

(** ** Lemmas *)

Lemma hex_digit_cases d :
  0 <= d < 16 ->
  In d [0;1;2;3;4;5;6;7;8;9;10;11;12;13;14;15].
Proof. simpl. lia. Qed.

Lemma digit_value_hex d : 0 <= d < 16 -> digit_value 16 (hex_digit d) = Some d.
Proof.
  intros H%hex_digit_cases. simpl in H.
  repeat (destruct H as [<-|H]; [reflexivity|]). done.
Qed.

Lemma hex_digit_plain d : 0 <= d < 16 -> hex_digit d <> "+"%char.
Proof.
  intros H%hex_digit_cases. simpl in H.
  repeat (destruct H as [<-|H]; [done|]). done.
Qed.

Lemma digits_value_app radix acc l1 l2 :
  digits_value radix acc (l1 ++ l2) =
  a ← digits_value radix acc l1; digits_value radix a l2.
Proof.
  revert acc. induction l1 as [|c l IH]; intros acc; [done|]. simpl.
  destruct (digit_value radix c); [apply IH|done].
Qed.

Lemma digits_value_zeros n acc : digits_value 16 0 (replicate n "0"%char ++ acc) = digits_value 16 0 acc.
Proof. induction n as [|n IH]; [done|]. apply IH. Qed.

(** The digits printed are those of the number, and no sign. *)
Lemma hex_digits_value fuel n acc :
  0 <= n < 16 ^ Z.of_nat fuel ->
  exists ds, String.list_ascii_of_string (hex_digits fuel n acc)
             = ds ++ String.list_ascii_of_string acc
    /\ digits_value 16 0 ds = Some n /\ "+"%char ∉ ds /\ (length ds <= fuel)%nat.
Proof.
  revert n acc. induction fuel as [|fuel IH]; intros n acc Hn.
  - exists []. assert (n = 0) as -> by (simpl in Hn; lia).
    split_and!; [done|done|set_solver|done].
  - simpl hex_digits. destruct (Z.eqb_spec n 0) as [->|Hnz].
    { exists []. split_and!; [done|done|set_solver|simpl; lia]. }
    assert (Hm : 0 <= n mod 16 < 16) by (apply Z.mod_pos_bound; lia).
    destruct (IH (n / 16) (String (hex_digit (n mod 16)) acc)) as (ds & Hl & Hv & Hp & Hlen).
    { split; [apply Z.div_pos; lia|]. apply Z.div_lt_upper_bound; [lia|].
      rewrite Nat2Z.inj_succ, Z.pow_succ_r in Hn by lia. lia. }
    exists (ds ++ [hex_digit (n mod 16)]). split_and!.
    + rewrite Hl. simpl. by rewrite <- app_assoc.
    + rewrite digits_value_app, Hv. simpl. rewrite digit_value_hex by done. simpl.
      f_equal. pose proof (Z.div_mod n 16). lia.
    + rewrite elem_of_app, list_elem_of_singleton. intros [?|Hx]; [done|].
      by apply (hex_digit_plain (n mod 16)).
    + rewrite length_app. simpl. lia.
Qed.

Lemma list_ascii_app s t :
  String.list_ascii_of_string (s +:+ t) =
  String.list_ascii_of_string s ++ String.list_ascii_of_string t.
Proof. induction s as [|a s IH]; [done|]. simpl. by rewrite IH. Qed.

Lemma of_zeros_bytes n :
  String.list_ascii_of_string (of_chars (replicate n "0")) = replicate n "0"%char.
Proof.
  induction n as [|[|n] IH]; [done..|].
  change (of_chars (replicate (S (S n)) "0")) with ("0" +:+ of_chars (replicate (S n) "0")).
  by rewrite list_ascii_app, IH.
Qed.

(** Reading back what was printed at a positive width. *)
Lemma parse_fmt_hex digits width n :
  (0 < width)%nat -> 0 <= n < 16 ^ Z.of_nat digits ->
  parse_unsigned 16 (16 ^ Z.of_nat digits - 1) (fmt_hex digits width n) = Some n.
Proof.
  intros Hw Hn. unfold parse_unsigned, fmt_hex.
  set (s := hex_digits digits n "").
  destruct (hex_digits_value digits n "" Hn) as (ds & Hl & Hv & Hp & _).
  rewrite list_ascii_app, of_zeros_bytes. fold s in Hl. rewrite Hl. simpl. rewrite app_nil_r.
  set (l := replicate _ _ ++ ds).
  assert (Hne : l <> []).
  { unfold l. destruct ds; [|by destruct (replicate _ _)]. rewrite app_nil_r.
    assert (s = "") as ->. { destruct s; [done|]. by simpl in Hl. }
    simpl. destruct width; [lia|]. done. }
  transitivity (number_in 16 0 (16 ^ Z.of_nat digits - 1) 1 l).
  { destruct l as [|c l'] eqn:El; [done|].
    assert (c <> "+"%char).
    { intros ->. assert ("+"%char ∈ l) as Hin by (rewrite El; set_solver).
      unfold l in Hin. apply elem_of_app in Hin as [Hin|]; [|done].
      by apply elem_of_replicate in Hin as [? _]. }
    destruct c as [[] [] [] [] [] [] [] []]; done. }
  unfold number_in. destruct l as [|c l'] eqn:El; [done|]. rewrite <- El.
  assert (digits_value 16 0 l = Some n) as ->.
  { rewrite El. rewrite <- El. unfold l. by rewrite digits_value_zeros. }
  simpl. rewrite !Z.mul_1_l.
  rewrite (proj2 (Z.leb_le 0 n)) by lia. by rewrite (proj2 (Z.leb_le n _)) by lia.
Qed.

Example parse_sevens :
  (parse_i64 "7", parse_i64 "007", parse_i64 "+7", parse_i64 "-", parse_i64 "9223372036854775808")
  = (Some 7, Some 7, Some 7, None, None).
Proof. reflexivity. Qed.
