(* ===== verification/Effects.v ===== *)
(** * Effects: asynchronous code as a finite tree of requests

    An [async fn] of the program becomes a [prog]: a finite tree whose inner
    nodes are the requests it makes of its surroundings (clock, language
    model, tools, sleeping, the shared progress sink) and whose branches are
    the possible answers.  Nothing is assumed of the answers, so a statement
    about all the paths of a [prog] holds for every model, tool and clock.

    A future may be dropped only while it awaits; [suspends] says which
    requests await.  [tokio::time::timeout] is [with_timeout]: at each await
    the deadline may fire first, and the rest of the future is then lost. *)

From S2P Require Import Prelude.
From S2P Require Import RustStr.
From S2P Require Import F64.
From S2P Require Import Json.
From S2P Require Import Errors.
From S2P Require Import Types.
From S2P Require Import Net.

Inductive panic_payload :=
| PanicStr (s : string)
| PanicString (s : string)
| PanicOther.

Inductive tool_answer :=
| ToolReturned (r : result ToolOutput ToolError)
| ToolPanicked (p : panic_payload).

(** An HTTP exchange, as the client library shows it: header names in lower
    case, the headers of a response that hold text, its body as text (empty
    when it cannot be read) and as JSON. *)
Record http_request := mkHttpRequest {
  http_method : string;
  http_url : string;
  http_headers : gmap string string;
  http_body : option json }.

Record http_response := mkHttpResponse {
  http_status : Z;
  http_response_headers : gmap string string;
  http_text : string;
  http_json : result json string }.

(** Statements sent to Postgres: typed arguments and columns, and the ways a
    statement ends.  [SpiDone n rows] is success, with [n] the number of rows
    processed; [SpiErr] a failure the library reports as a value; [SpiRaised]
    an error that Postgres raises through the caller. *)
Inductive pg_type := TText | TInt4 | TInt8 | TFloat8 | TBool | TJsonb | TTextArray | TUuid | TNumeric.

(** [DNumeric] holds the [f64] the number converts to, if it does. *)
Inductive datum :=
| DText (s : string)
| DInt4 (n : Z)
| DInt8 (n : Z)
| DFloat8 (f : f64)
| DBool (b : bool)
| DJsonb (j : json)
| DTextArray (l : list string)
| DUuid (u : Uuid)
| DNumeric (f : option f64)
| DNull (t : pg_type).

Inductive spi_answer :=
| SpiDone (processed : Z) (rows : list (list datum))
| SpiErr (e : string)
| SpiRaised (e : string).

(** The same through the asynchronous client library: how to connect, and a
    column of a row with what it holds, [VOther] for a type the sources do not
    decode.  [VNumeric] holds the decimal text. *)
Record PgConnectOptions := mkPgConnectOptions {
  pg_host : string;
  pg_port : Z;
  pg_username : string;
  pg_database : string;
  pg_password : option string;
  pg_options : list (string * string) }.

Inductive pg_value :=
| VJson (j : json)
| VBool (b : bool)
| VInt8 (n : Z)
| VInt4 (n : Z)
| VFloat8 (f : f64)
| VNumeric (s : string)
| VUuid (u : Uuid)
| VTimestamptz (t : Timestamp)
| VText (s : string)
| VTextArray (l : list string)
| VNull
| VOther.

(** The demo server's client library: the text of an error, with the message
    and the code of the server when it comes from there; the calls, and the
    messages of the simple protocol. *)
Record TokioError := mkTokioError {
  tk_text : string; tk_message : option string; tk_code : option string }.

Inductive tokio_call :=
| TkConnect (url : string)
| TkQuery (sql : string) (args : list datum)
| TkBatch (sql : string).

Inductive SimpleQueryMessage :=
| SimpleRow (columns : list string) (cells : list (option string))
| CommandComplete (n : Z)
| OtherMessage.

(** Operations on internal subtransactions. *)
Inductive subxact := SubBegin | SubRelease | SubRollback.

(** A child process fed on its standard input: where it failed, or whether it
    exited with success, and its two outputs as text, with what is not UTF-8
    replaced. *)
Inductive process_answer :=
| SpawnFailed (e : string)
| WriteFailed (e : string)
| WaitFailed (e : string)
| Exited (success : bool) (stdout stderr : string).

(** The requests.  [ESink f] updates the outcome behind the shared
    [ProgressSink] with [f]; [ERace d e] is [e] raced against a timer of [d],
    answered [None] when the timer wins.  [EDepth d] adds [d] to the
    process-wide count of delegations and answers its old value; [ERuntime]
    is an execution of an agent by the shared runtime.  [EInterruptFlags] reads
    Postgres' pending cancel and pending terminate flags, [EWarning msg]
    reports a warning to the client.  [EConnect o] opens a connection and
    [ESqlx db sql args] runs a statement on the connection of [db], or on the
    host's own, answering the rows it affected and returned.  [ETokio] and
    [ESimple] use the last connection opened so.  [EProcess] runs a command and
    waits for it without yielding.  [ERaise msg] raises a
    Postgres error, or panics: nothing follows it. *)
Inductive eff : Type -> Type :=
| EInstant : eff Z
| EUtcNow : eff Timestamp
| EUuid : eff Uuid
| ESystemNanos : eff (option Z)
| ECounter : eff Z
| EInterrupt : eff (option string)
| ESink (f : ExecutorOutcome -> ExecutorOutcome) : eff unit
| ELlm (id : string) (req : CompletionRequest) : eff (result CompletionResponse LlmError)
| ETool (id : string) (args : json) (ctx : ToolCtx) : eff tool_answer
| ECompress (id : string) (msgs : list Message) (b : CompressionBudget)
    : eff (result Compressed CompressionError)
| EEmbed (id : string) (texts : list string)
    : eff (result (list EmbeddingVector) EmbeddingError)
| ESleep (ms : Z) : eff unit
| EHttp (req : http_request) : eff (result http_response string)
| EExecute (id : string) (input : string) : eff (result ExecutorOutcome ExecutorError)
| EFetch (req : fetch_request) : eff (result fetch_response string)
| EResolve (host : string) (port : Z) : eff (result (list IpAddr) string)
| EDepth (delta : Z) : eff Z
| ERuntime (agent input : string) : eff (result ExecutorOutcome RuntimeError)
| ESpi (sql : string) (args : list datum) : eff spi_answer
| ESub (op : subxact) : eff unit
| EConnect (o : PgConnectOptions) : eff (result unit string)
| ESqlx (db : option PgConnectOptions) (sql : string) (args : list datum)
    : eff (result (Z * list (list (string * pg_value))) string)
| ETokio (c : tokio_call) : eff (result (Z * list (list datum)) TokioError)
| ESimple (sql : string) : eff (result (list SimpleQueryMessage) TokioError)
| EProcess (argv : list string) (stdin : string) : eff process_answer
| EInterruptFlags : eff (bool * bool)
| EWarning (msg : string) : eff unit
| ERaise (msg : string) : eff Empty_set
| ERace {X : Type} (d : Z) (e : eff X) : eff (option X).

Fixpoint suspends {X} (e : eff X) : bool :=
  match e with
  | ELlm _ _ | ETool _ _ _ | ECompress _ _ _ | EEmbed _ _ | ESleep _ | EHttp _ | EExecute _ _
  | EFetch _ | EResolve _ _ | ERuntime _ _ | EConnect _ | ESqlx _ _ _ | ETokio _ | ESimple _ => true
  | ERace _ e' => suspends e'
  | _ => false
  end.

Definition sink_after {X} (e : eff X) (s : ExecutorOutcome) : ExecutorOutcome :=
  match e with ESink f => f s | _ => s end.

(** The completion request, or the tool call, that a request carries. *)
Fixpoint llm_request_of {X} (e : eff X) : option CompletionRequest :=
  match e with ELlm _ r => Some r | ERace _ e' => llm_request_of e' | _ => None end.

Fixpoint tool_request_of {X} (e : eff X) : option (string * json * ToolCtx) :=
  match e with
  | ETool id a c => Some (id, a, c) | ERace _ e' => tool_request_of e' | _ => None
  end.

Inductive prog (A : Type) : Type :=
| Ret (a : A)
| Vis {X : Type} (e : eff X) (k : X -> prog A).
Arguments Ret {A} a.
Arguments Vis {A X} e k.

Fixpoint prog_bind {A B} (p : prog A) (f : A -> prog B) : prog B :=
  match p with
  | Ret a => f a
  | Vis e k => Vis e (fun x => prog_bind (k x) f)
  end.

#[export] Instance prog_mret : MRet prog := fun A a => Ret a.
#[export] Instance prog_mbind : MBind prog := fun A B f p => prog_bind p f.

Definition perform {X} (e : eff X) : prog X := Vis e Ret.

(** [catch_unwind]: what [p] returns, or the message it raised. *)
Fixpoint guard {A} (p : prog A) : prog (A + string) :=
  match p with
  | Ret a => Ret (inl a)
  | Vis e k =>
      match e in eff X return (X -> prog (A + string)) -> prog (A + string) with
      | ERaise msg => fun _ => Ret (inr msg)
      | e' => fun k' => Vis e' k'
      end (fun x => guard (k x))
  end.

Definition raise {A} (msg : string) : prog A :=
  Vis (ERaise msg) (fun x : Empty_set => match x with end).

(** [m.await?] *)
Definition prog_try {A B E} (m : prog (result A E)) (k : A -> prog (result B E))
  : prog (result B E) :=
  r ← m; match r with Ok a => k a | Err e => mret (Err e) end.

(** [tokio::time::timeout(d, p).await] *)
Fixpoint with_timeout {A} (d : Z) (p : prog A) : prog (option A) :=
  match p with
  | Ret a => Ret (Some a)
  | Vis e k =>
      if suspends e then
        Vis (ERace d e) (fun r => match r with
                                  | Some x => with_timeout d (k x)
                                  | None => Ret None
                                  end)
      else Vis e (fun x => with_timeout d (k x))
  end.

(** The same with the sink the future shares with its caller: when the
    deadline fires, the caller sees the sink as it stands. *)
Fixpoint with_backstop {A} (d : Z) (s : ExecutorOutcome) (p : prog A)
  : prog (A + ExecutorOutcome) :=
  match p with
  | Ret a => Ret (inl a)
  | Vis e k =>
      if suspends e then
        Vis (ERace d e) (fun r => match r with
                                  | Some x => with_backstop d s (k x)
                                  | None => Ret (inr s)
                                  end)
      else Vis e (fun x => with_backstop d (sink_after e s) (k x))
  end.

(** ** Weakest preconditions

    [wp R C p s Q]: started with the sink at [s], whatever answers
    allowed by [R] come, every request satisfies [C] (with the sink as it
    then is) and the result satisfies [Q]. *)

Definition env := forall X, eff X -> X -> Prop.
Definition call_pred := ExecutorOutcome -> forall X, eff X -> Prop.

(** Every answer is possible. *)
Definition any_env : env := fun _ _ _ => True.
Definition any_call : call_pred := fun _ _ _ => True.

Fixpoint wp {A} (R : env) (C : call_pred) (p : prog A) (s : ExecutorOutcome)
    (Q : ExecutorOutcome -> A -> Prop) : Prop :=
  match p with
  | Ret a => Q s a
  | Vis e k =>
      C (sink_after e s) _ e /\ forall x, R _ e x -> wp R C (k x) (sink_after e s) Q
  end.

Lemma wp_ret {A} R C (a : A) s (Q : _ -> _ -> Prop) : Q s a -> wp R C (mret a) s Q.
Proof. done. Qed.

Lemma wp_mono {A} R (C C' : call_pred) (p : prog A) s (Q Q' : _ -> _ -> Prop) :
  wp R C p s Q ->
  (forall s X (e : eff X), C s X e -> C' s X e) ->
  (forall s a, Q s a -> Q' s a) ->
  wp R C' p s Q'.
Proof.
  intros Hp HC HQ. revert s Hp. induction p as [a|X e k IH]; simpl; [naive_solver|].
  intros s [Hc Hk]. split; [by apply HC|]. intros x Hx. apply IH. by apply Hk.
Qed.

Lemma wp_bind {A B} R C (p : prog A) (f : A -> prog B) s Q :
  wp R C (p ≫= f) s Q <-> wp R C p s (fun s a => wp R C (f a) s Q).
Proof.
  revert s. induction p as [a|X e k IH]; intros s; [done|]. simpl.
  split; intros [Hc Hk]; (split; [done|]); intros x Hx; apply IH; by apply Hk.
Qed.

(** The rule used most: run [p], then the continuation from its result. *)
Lemma wp_seq {A B} R C (p : prog A) (f : A -> prog B) s (P : _ -> _ -> Prop) Q :
  wp R C p s P -> (forall s' a, P s' a -> wp R C (f a) s' Q) -> wp R C (p ≫= f) s Q.
Proof. intros Hp Hf. apply wp_bind. eapply wp_mono; eauto. Qed.

Lemma wp_perform {X} (R : env) (C : call_pred) (e : eff X) s (Q : _ -> _ -> Prop) :
  C (sink_after e s) X e -> (forall x, R X e x -> Q (sink_after e s) x) ->
  wp R C (perform e) s Q.
Proof. by split. Qed.

(** What a timer may do to the environment: an answer in time is one the
    raced request allows, and racing a request does not change what it asks. *)
Class RaceClosed (R : env) (C : call_pred) := {
  race_answer : forall X d (e : eff X) x, R _ (ERace d e) (Some x) -> R _ e x;
  race_call : forall s X d (e : eff X), C s _ e -> C s _ (ERace d e) }.

Lemma suspends_sink {X} (e : eff X) s : suspends e = true -> sink_after e s = s.
Proof. by destruct e. Qed.

Lemma wp_with_timeout {A} R C `{!RaceClosed R C} d (p : prog A) s Q :
  wp R (fun s X e => C s X e /\ Q s None) p s (fun s a => Q s (Some a)) ->
  wp R C (with_timeout d p) s Q.
Proof.
  revert s. induction p as [a|X e k IH]; [done|]. simpl. intros s [[Hc HN] Hk].
  destruct (suspends e) eqn:E; simpl.
  - rewrite (suspends_sink e) in * by done. split; [by apply race_call|].
    intros [x|] Hx; [|done]. apply IH. apply Hk. by eapply race_answer.
  - split; [done|]. intros x Hx. apply IH. by apply Hk.
Qed.

(** The backstop returns the value, or the sink at one of the awaits. *)
Lemma wp_with_backstop {A} R C `{!RaceClosed R C} d (p : prog A) s (Q : _ -> _ -> Prop) :
  wp R (fun s X e => C s X e /\ (suspends e = true -> Q s (inr s))) p s
     (fun s a => Q s (inl a)) ->
  wp R C (with_backstop d s p) s Q.
Proof.
  revert s. induction p as [a|X e k IH]; [done|]. simpl. intros s [[Hc HN] Hk].
  destruct (suspends e) eqn:E; simpl.
  - rewrite (suspends_sink e) in * by done. split; [by apply race_call|].
    intros [x|] Hx; [|by apply HN]. apply IH. apply Hk. by eapply race_answer.
  - split; [done|]. intros x Hx. apply IH. by apply Hk.
Qed.

(** ** Traces

    [steps p tr a]: [p] can make the requests of [tr], get the answers of
    [tr], and return [a]. *)
Inductive call :=
| Call {X : Type} (e : eff X) (x : X).

Fixpoint steps {A} (p : prog A) (tr : list call) (a : A) : Prop :=
  match p with
  | Ret b => tr = [] /\ a = b
  | Vis e k => exists x tr', tr = Call e x :: tr' /\ steps (k x) tr' a
  end.

Lemma steps_bind {A B} (p : prog A) (f : A -> prog B) tr b :
  steps (p ≫= f) tr b <->
  exists tr1 tr2 a, tr = tr1 ++ tr2 /\ steps p tr1 a /\ steps (f a) tr2 b.
Proof.
  revert tr. induction p as [a|X e k IH]; intros tr; simpl.
  - split; [by intros; exists [], tr, a|]. by intros (tr1 & tr2 & a' & -> & [-> ->] & ?).
  - split.
    + intros (x & tr' & -> & Hs). apply IH in Hs as (tr1 & tr2 & a & -> & ? & ?).
      exists (Call e x :: tr1), tr2, a. split; [done|]. split; [|done]. by exists x, tr1.
    + intros (tr1 & tr2 & a & -> & (x & tr' & -> & ?) & ?).
      exists x, (tr' ++ tr2). split; [done|]. apply IH. by exists tr', tr2, a.
Qed.

Lemma steps_perform {X} (e : eff X) tr x : steps (perform e) tr x <-> tr = [Call e x].
Proof. simpl. naive_solver. Qed.

Lemma steps_prog_try {A B E} (p : prog (result A E)) (k : A -> prog (result B E)) tr r :
  steps (prog_try p k) tr r <->
  (exists a tr1 tr2, tr = tr1 ++ tr2 /\ steps p tr1 (Ok a) /\ steps (k a) tr2 r) \/
  (exists e, steps p tr (Err e) /\ r = Err e).
Proof.
  unfold prog_try. rewrite steps_bind. split.
  - intros (tr1 & tr2 & [a|e] & -> & Hp & Hk); [left; by exists a, tr1, tr2|right].
    destruct Hk as [-> ->]. exists e. by rewrite app_nil_r.
  - intros [(a & tr1 & tr2 & -> & Hp & Hk)|(e & Hp & ->)].
    + by exists tr1, tr2, (Ok a).
    + exists tr, [], (Err e). by rewrite app_nil_r.
Qed.

(** The model requests of a trace with their answers, the compactions and
    the pauses. *)
Definition llm_exchange (c : call)
  : option (CompletionRequest * result CompletionResponse LlmError) :=
  match c with
  | Call e x =>
      match e in eff X return X -> option _ with
      | ELlm _ req => fun r => Some (req, r)
      | _ => fun _ => None
      end x
  end.

Definition pause (c : call) : option Z :=
  match c with Call (ESleep ms) _ => Some ms | _ => None end.

Definition llm_exchanges (tr : list call) := omap llm_exchange tr.
Definition pauses (tr : list call) := omap pause tr.

Lemma llm_exchanges_app l1 l2 : llm_exchanges (l1 ++ l2) = llm_exchanges l1 ++ llm_exchanges l2.
Proof. apply omap_app. Qed.
Lemma pauses_app l1 l2 : pauses (l1 ++ l2) = pauses l1 ++ pauses l2.
Proof. apply omap_app. Qed.

(** ** Running against a concrete environment *)

(** [None] where there is no answer: after [ERaise]. *)
Definition handler (W : Type) := forall X, eff X -> W -> option (X * W).

Fixpoint run {W A} (h : handler W) (p : prog A) (w : W) (s : ExecutorOutcome)
  : option (A * W * ExecutorOutcome) :=
  match p with
  | Ret a => Some (a, w, s)
  | Vis e k =>
      match h _ e w with
      | Some (x, w') => run h (k x) w' (sink_after e s)
      | None => None
      end
  end.

Lemma run_wp {W A} (R : env) C (h : handler W) (p : prog A) w s a w' s' (Q : _ -> _ -> Prop) :
  (forall X (e : eff X) w x w', h X e w = Some (x, w') -> R X e x) ->
  wp R C p s Q -> run h p w s = Some (a, w', s') -> Q s' a.
Proof.
  intros HR. revert w s. induction p as [b|X e k IH]; intros w s; simpl.
  { intros Hq. by intros [= -> -> ->]. }
  intros [_ Hk]. destruct (h X e w) as [[x w1]|] eqn:E; [|done].
  apply IH, Hk. by eapply HR.
Qed.

(** Running is one of the executions, and running a sequence is running its
    parts. *)
Lemma run_steps {W A} (h : handler W) (p : prog A) w s a w' s' :
  run h p w s = Some (a, w', s') -> exists tr, steps p tr a.
Proof.
  revert w s. induction p as [b|X e k IH]; intros w s; simpl.
  { intros [= -> _ _]. by exists []. }
  destruct (h X e w) as [[x w1]|] eqn:E; [|done]. intros [tr Htr]%IH.
  by exists (Call e x :: tr), x, tr.
Qed.

Lemma run_bind {W A B} (h : handler W) (p : prog A) (f : A -> prog B) w s :
  run h (p ≫= f) w s =
  match run h p w s with
  | Some (a, w', s') => run h (f a) w' s'
  | None => None
  end.
Proof.
  revert w s. induction p as [a|X e k IH]; intros w s; [done|]. simpl.
  destruct (h X e w) as [[x w']|]; [apply IH|done].
Qed.

(** A scripted environment: answers are popped from lists; the clock moves
    by [sc_tick] at each reading; a timer wins when [sc_race] says so. *)
Record script := mkScript {
  sc_clock : Z;
  sc_tick : Z;
  sc_llm : list (result CompletionResponse LlmError);
  sc_tools : list tool_answer;
  sc_compress : list (result Compressed CompressionError);
  sc_race : list bool;
  sc_spi : list spi_answer }.

Definition script_handler : handler script :=
  fix go X (e : eff X) (w : script) : option (X * script) :=
  let '(mkScript clk tick llm tools cmp race spi) := w in
  match e in eff X return option (X * script) with
  | EInstant => Some (clk, mkScript (clk + tick) tick llm tools cmp race spi)
  | EUtcNow => Some (clk, w)
  | EUuid => Some (7, w)
  | ESystemNanos => Some (Some 0, w)
  | ECounter => Some (0, w)
  | EInterrupt => Some (None, w)
  | ESink _ => Some (tt, w)
  | ELlm _ _ =>
      Some match llm with
      | r :: rest => (r, mkScript clk tick rest tools cmp race spi)
      | [] => (Err (LlmError_Network "script exhausted"), w)
      end
  | ETool _ _ _ =>
      Some match tools with
      | r :: rest => (r, mkScript clk tick llm rest cmp race spi)
      | [] => (ToolReturned (Ok OutEmpty), w)
      end
  | ECompress _ _ _ =>
      Some match cmp with
      | r :: rest => (r, mkScript clk tick llm tools rest race spi)
      | [] => (Ok Compressed_default, w)
      end
  | EEmbed _ _ => Some (Ok [], w)
  | ESleep ms => Some (tt, mkScript (clk + from_millis ms) tick llm tools cmp race spi)
  | EHttp _ => Some (Err "unscripted", w)
  | EExecute _ _ => Some (Err (ExecutorError_Internal "unscripted"), w)
  | EFetch _ => Some (Err "unscripted", w)
  | EResolve _ _ => Some (Err "unscripted", w)
  | EDepth _ => Some (0, w)
  | ERuntime _ _ => Some (Err (RuntimeError_Config "unscripted"), w)
  | ESpi _ _ =>
      Some match spi with
      | r :: rest => (r, mkScript clk tick llm tools cmp race rest)
      | [] => (SpiDone 0 [], w)
      end
  | ESub _ => Some (tt, w)
  | EConnect _ => Some (Err "unscripted", w)
  | ESqlx _ _ _ => Some (Err "unscripted", w)
  | ETokio _ => Some (Err (mkTokioError "unscripted" None None), w)
  | ESimple _ => Some (Err (mkTokioError "unscripted" None None), w)
  | EProcess _ _ => Some (SpawnFailed "unscripted", w)
  | EInterruptFlags => Some ((false, false), w)
  | EWarning _ => Some (tt, w)
  | ERaise _ => None
  | ERace _ e' =>
      match race with
      | true :: rest => Some (None, mkScript clk tick llm tools cmp rest spi)
      | _ => match go _ e' (mkScript clk tick llm tools cmp (tail race) spi) with
             | Some (x, w') => Some (Some x, w')
             | None => None
             end
      end
  end.

#[export] Hint Resolve wp_ret : synapse.
