(* ===== verification/HarnessText.v ===== *)
(** * Harness components ([types/harness.rs])

    Always-on text, on-demand skills and tool-error hints of an agent. *)

From S2P Require Import Prelude.
From S2P Require Import RustStr.

Definition ALWAYS_ON_MAX_CHARS : Z := 24000.

Definition SKILL_TRIGGER_HEADER : string :=
  "Skills (load one with the `load_skill` tool when its situation applies):".

Record Skill := mkSkill {
  skill_name : string;
  skill_description : string;
  skill_body : string }.

Record ToolHint := mkToolHint {
  hint_tool_name : option string;
  hint_error_pattern : string;
  hint_hint : string }.

Record Harness := mkHarness {
  guardrails : option string;
  memory : option string;
  critique : option string;
  skills : list Skill;
  tool_hints : list ToolHint }.

Definition Harness_default : Harness := mkHarness None None None [] [].

Definition newline : string := String (ascii_of_nat 10) "".

Definition harness_is_empty (h : Harness) : bool :=
  match guardrails h, memory h, critique h, skills h, tool_hints h with
  | None, None, None, [], [] => true
  | _, _, _, _, _ => false
  end.

(** [s.map(str::trim).filter(|s| !s.is_empty())] *)
Definition non_blank (s : option string) : option string :=
  match s with
  | Some s => let t := trim s in if is_empty t then None else Some t
  | None => None
  end.

Definition skill_trigger_line (s : Skill) : string :=
  newline +:+ "- When " +:+ trim (skill_description s) +:+ ", load the `"
    +:+ skill_name s +:+ "` skill.".

Definition skill_trigger_block (h : Harness) : option string :=
  match skills h with
  | [] => None
  | ss => Some (SKILL_TRIGGER_HEADER +:+ join "" (map skill_trigger_line ss))
  end.

Definition option_list {A} (o : option A) : list A :=
  match o with Some a => [a] | None => [] end.

Definition always_on_parts (h : Harness) : list string :=
  option_list (non_blank (guardrails h)) ++
  option_list (non_blank (memory h)) ++
  option_list (skill_trigger_block h).

Definition always_on_block (h : Harness) : option string :=
  match always_on_parts h with
  | [] => None
  | parts => Some (join (newline +:+ newline) parts)
  end.

Definition always_on_chars (h : Harness) : Z :=
  match always_on_block h with Some b => chars_count b | None => 0 end.

Definition total_always_on_chars (h : Harness) (system_prompt : string)
    (soul : option string) : Z :=
  chars_count system_prompt
  + match soul with Some s => chars_count s | None => 0 end
  + always_on_chars h.

Section hints.
Context `{UnicodeTables}.

Definition hint_applies (tool : string) (h : ToolHint) : bool :=
  match hint_tool_name h with None => true | Some t => String.eqb t tool end.

Definition hint_matches (err_lc : string) (h : ToolHint) : bool :=
  let pat := to_lowercase (trim (hint_error_pattern h)) in
  negb (is_empty pat) && contains err_lc pat.

Definition hint_for (hs : Harness) (tool error : string) : option string :=
  let err_lc := to_lowercase error in
  hint_hint <$> List.find (hint_matches err_lc)
                  (List.filter (hint_applies tool) (tool_hints hs)).
End hints.

Definition skill (h : Harness) (name : string) : option Skill :=
  List.find (fun s => String.eqb (skill_name s) name) (skills h).

(** ** Lemmas *)

Lemma non_blank_none s :
  non_blank s = None <-> forall t, s = Some t -> is_blank t = true.
Proof.
  unfold non_blank, is_blank, is_empty. destruct s as [s|]; [|naive_solver].
  destruct (String.eqb (trim s) "") eqn:E.
  - split; [|done]. by intros _ t [= <-].
  - split; [done|]. intros H. rewrite (H s) in E; done.
Qed.

Lemma find_app {A} (f : A -> bool) l1 l2 :
  List.find f (l1 ++ l2) =
  match List.find f l1 with Some x => Some x | None => List.find f l2 end.
Proof. induction l1 as [|x l IH]; simpl; [done|]. by destruct (f x). Qed.

Lemma find_filter {A} (f g : A -> bool) l :
  List.find f (List.filter g l) = List.find (fun x => g x && f x) l.
Proof.
  induction l as [|x l IH]; simpl; [done|]. destruct (g x); simpl; [|done]. by destruct (f x).
Qed.

(** [find] returns the first match. *)
Lemma find_spec {A} (f : A -> bool) l x :
  List.find f l = Some x <->
  exists l1 l2, l = l1 ++ x :: l2 /\ f x = true /\ Forall (fun y => f y = false) l1.
Proof.
  split.
  - induction l as [|y l IH]; simpl; [done|]. destruct (f y) eqn:E.
    + intros [= ->]. by exists [], l.
    + intros (l1 & l2 & -> & ? & ?)%IH. exists (y :: l1), l2. eauto.
  - intros (l1 & l2 & -> & Hx & Hall). induction Hall as [|y l1 Hy _ IH]; simpl.
    + by rewrite Hx.
    + by rewrite Hy.
Qed.

Lemma find_none {A} (f : A -> bool) l :
  List.find f l = None <-> Forall (fun y => f y = false) l.
Proof.
  induction l as [|y l IH]; simpl; [naive_solver|].
  rewrite Forall_cons. destruct (f y); naive_solver.
Qed.
