(* ===== verification/Traits.v ===== *)
(** * The kernel's traits, as records of operations

    A value of a Rust trait object is a record of its operations; an
    [async fn] is a function into [prog].  The implementations under
    verification (executors, retry and recovery wrappers, the compactor, the
    skill loader) are values of these records; implementations elsewhere
    (network providers, SQL tools) appear as the [external_*] values that ask
    their surroundings. *)

From S2P Require Import Prelude.
From S2P Require Import RustStr.
From S2P Require Import F64.
From S2P Require Import Json.
From S2P Require Import Errors.
From S2P Require Import Types.
From S2P Require Import Effects.
From S2P Require Import HarnessText.

(** [llm/mod.rs] *)
Record ProviderCapabilities := mkProviderCapabilities {
  tool_use : bool;
  streaming : bool;
  json_mode : bool;
  vision : bool;
  max_context_tokens : option Z;
  max_output_tokens : option Z }.

Definition ProviderCapabilities_default : ProviderCapabilities :=
  mkProviderCapabilities false false false false None None.

(** The [stream] operation has no caller in the kernel and is left out. *)
Record LlmProvider := mkLlmProvider {
  llm_complete : CompletionRequest -> prog (result CompletionResponse LlmError);
  llm_model_name : string;
  llm_capabilities : ProviderCapabilities }.

(** [tool/mod.rs] *)
Record ToolObj := mkToolObj {
  tool_name : string;
  tool_schema : ToolSchema;
  tool_run : json -> ToolCtx -> prog tool_answer }.

(** [compression/mod.rs] *)
Record Compressor := mkCompressor {
  compress : list Message -> CompressionBudget -> prog (result Compressed CompressionError) }.

(** [embedding/mod.rs] *)
Record EmbeddingProvider := mkEmbeddingProvider {
  embed_texts : list string -> prog (result (list EmbeddingVector) EmbeddingError);
  embed_dimension : Z;
  embed_model_name : string }.

(** [memory/mod.rs] *)
Record MemoryProvider := mkMemoryProvider {
  mem_read : MemoryScope -> prog (result MemorySnapshot MemoryError);
  mem_write : MemoryScope -> MemoryEntry -> prog (result Uuid MemoryError);
  mem_search : MemoryScope -> string -> Z -> prog (result (list MemoryEntry) MemoryError) }.

(** [ToolRegistry]: a [HashMap] from name to tool.  Its iteration order is
    not specified; [hash_keys] is that order. *)
Class HashOrder := { hash_keys : forall V, gmap string V -> list string }.
Arguments hash_keys {_ V} m.

Class HashOrderSpec `{HashOrder} := {
  hash_keys_perm : forall V (m : gmap string V), hash_keys m ≡ₚ (map_to_list m).*1 }.

Abbreviation ToolRegistry := (gmap string ToolObj).

(** [types/context.rs] *)
Inductive ProgressSink := TheSink.

Abbreviation InterruptCheck := (prog (option string)).

Record ExecutionContext := mkExecutionContext {
  ctx_execution_id : Uuid;
  ctx_agent_name : string;
  ctx_system_prompt : string;
  ctx_soul : option string;
  ctx_input : string;
  ctx_executor_name : string;
  ctx_tools : ToolRegistry;
  ctx_llm : LlmProvider;
  ctx_judge_llm : option LlmProvider;
  ctx_small_llm : option LlmProvider;
  ctx_embeddings : option EmbeddingProvider;
  ctx_memory : option MemoryProvider;
  ctx_compressor : option Compressor;
  ctx_max_iterations : Z;
  ctx_timeout : Z;
  ctx_cost_cap_usd : option f64;
  ctx_caller_role : option string;
  ctx_trace_level : TraceLevel;
  ctx_interrupt_check : option InterruptCheck;
  ctx_harness : Harness;
  ctx_progress : option ProgressSink }.

(** [executor/mod.rs] *)
Abbreviation Executor := (ExecutionContext -> prog (result ExecutorOutcome ExecutorError)).

(** Providers and tools outside this development. *)
Definition external_llm (id model : string) (caps : ProviderCapabilities) : LlmProvider :=
  {| llm_complete := fun req => perform (ELlm id req);
     llm_model_name := model;
     llm_capabilities := caps |}.

Definition external_tool (name : string) (schema : ToolSchema) : ToolObj :=
  {| tool_name := name;
     tool_schema := schema;
     tool_run := fun args ctx => perform (ETool name args ctx) |}.

Definition external_compressor (id : string) : Compressor :=
  {| compress := fun msgs b => perform (ECompress id msgs b) |}.

(** Keys in the order of the map's own enumeration: one hash order. *)
Definition canonical_hash_order : HashOrder :=
  {| hash_keys := fun V m => (map_to_list m).*1 |}.

Lemma canonical_hash_order_spec : @HashOrderSpec canonical_hash_order.
Proof. by constructor. Qed.
