(* ===== verification/LoopHarness.v ===== *)
(** * The loop harness ([executor/loop_harness.rs])

    The mutable bookkeeping shared by the executors: one LLM turn, one tool
    dispatch, the caps, the trace and the progress mirror.  A [&mut self]
    method is a function from the harness state into [prog]. *)

From S2P Require Import Prelude.
From S2P Require Import RustStr.
From S2P Require Import F64.
From S2P Require Import Json.
From S2P Require Import Errors.
From S2P Require Import Types.
From S2P Require Import Effects.
From S2P Require Import HarnessText.
From S2P Require Import Traits.

(** Printers of other crates: [Uuid], [DateTime<Utc>] and JSON text. *)
Class Printers := {
  fmt_uuid : Uuid -> string;
  fmt_timestamp : Timestamp -> string;
  json_to_string : json -> string }.

(** The [Serialize] derives of [Message] and [ToolCall]. *)
Definition json_option {A} (f : A -> json) (o : option A) : json :=
  match o with Some a => f a | None => JNull end.

Definition role_to_json (r : Role) : json :=
  JString (match r with
           | System => "system" | User => "user" | Assistant => "assistant" | Tool => "tool"
           end).

Definition message_to_json `{Printers} (m : Message) : json :=
  json_object
    [("execution_id", JString (fmt_uuid (msg_execution_id m)));
     ("seq", json_u64 (msg_seq m));
     ("role", role_to_json (msg_role m));
     ("content", json_option JString (msg_content m));
     ("tool_call_id", json_option JString (msg_tool_call_id m));
     ("tool_name", json_option JString (msg_tool_name m));
     ("tool_input", json_option id (msg_tool_input m));
     ("tool_output", json_option id (msg_tool_output m));
     ("timestamp", JString (fmt_timestamp (msg_timestamp m)))].

Definition tool_call_to_json (tc : ToolCall) : json :=
  json_object [("id", JString (tc_id tc)); ("name", JString (tc_name tc)); ("args", tc_args tc)].

Definition panic_reason (p : panic_payload) : string :=
  match p with PanicStr s => s | PanicString s => s | PanicOther => "unknown panic" end.

Inductive TurnResult :=
| AssistantText (text : string)
| ToolCalls (calls : list ToolCall)
| TurnEmpty.

Record LoopHarness := mkLoopHarness {
  lh_iteration : Z;
  lh_cost_so_far : f64;
  lh_tokens_in : Z;
  lh_tokens_out : Z;
  lh_messages : list Message;
  lh_issued_tool_calls : list ToolCall;
  lh_events : list ExecutionEvent;
  lh_seq : Z;
  lh_started_at : Z;
  lh_prepend_system : option string }.

(** Assignments to fields. *)
Definition set_iteration (v : Z) (h : LoopHarness) : LoopHarness :=
  mkLoopHarness v (lh_cost_so_far h) (lh_tokens_in h) (lh_tokens_out h) (lh_messages h)
    (lh_issued_tool_calls h) (lh_events h) (lh_seq h) (lh_started_at h) (lh_prepend_system h).
Definition set_usage (cost : f64) (tin tout : Z) (h : LoopHarness) : LoopHarness :=
  mkLoopHarness (lh_iteration h) cost tin tout (lh_messages h)
    (lh_issued_tool_calls h) (lh_events h) (lh_seq h) (lh_started_at h) (lh_prepend_system h).
Definition push_harness_message (m : Message) (h : LoopHarness) : LoopHarness :=
  mkLoopHarness (lh_iteration h) (lh_cost_so_far h) (lh_tokens_in h) (lh_tokens_out h)
    (lh_messages h ++ [m]) (lh_issued_tool_calls h) (lh_events h) (wrap32 (lh_seq h + 1))
    (lh_started_at h) (lh_prepend_system h).
Definition push_issued (tcs : list ToolCall) (h : LoopHarness) : LoopHarness :=
  mkLoopHarness (lh_iteration h) (lh_cost_so_far h) (lh_tokens_in h) (lh_tokens_out h)
    (lh_messages h) (lh_issued_tool_calls h ++ tcs) (lh_events h) (lh_seq h)
    (lh_started_at h) (lh_prepend_system h).
Definition push_event (e : ExecutionEvent) (h : LoopHarness) : LoopHarness :=
  mkLoopHarness (lh_iteration h) (lh_cost_so_far h) (lh_tokens_in h) (lh_tokens_out h)
    (lh_messages h) (lh_issued_tool_calls h) (lh_events h ++ [e]) (lh_seq h)
    (lh_started_at h) (lh_prepend_system h).
Definition set_prepend (p : string) (h : LoopHarness) : LoopHarness :=
  mkLoopHarness (lh_iteration h) (lh_cost_so_far h) (lh_tokens_in h) (lh_tokens_out h)
    (lh_messages h) (lh_issued_tool_calls h) (lh_events h) (lh_seq h)
    (lh_started_at h) (Some p).

(** Updates of the mirrored outcome. *)
Definition out_push_message (m : Message) (o : ExecutorOutcome) : ExecutorOutcome :=
  mkExecutorOutcome (out_output o) (out_messages o ++ [m]) (out_tool_calls o)
    (out_tokens_in o) (out_tokens_out o) (out_cost_usd o) (out_duration_ms o) (out_status o)
    (out_events o).
Definition out_push_calls (tcs : list ToolCall) (o : ExecutorOutcome) : ExecutorOutcome :=
  mkExecutorOutcome (out_output o) (out_messages o) (out_tool_calls o ++ tcs)
    (out_tokens_in o) (out_tokens_out o) (out_cost_usd o) (out_duration_ms o) (out_status o)
    (out_events o).
Definition out_push_event (e : ExecutionEvent) (o : ExecutorOutcome) : ExecutorOutcome :=
  mkExecutorOutcome (out_output o) (out_messages o) (out_tool_calls o)
    (out_tokens_in o) (out_tokens_out o) (out_cost_usd o) (out_duration_ms o) (out_status o)
    (out_events o ++ [e]).
Definition out_set_usage (tin tout : Z) (cost : option f64) (ms : Z) (o : ExecutorOutcome)
  : ExecutorOutcome :=
  mkExecutorOutcome (out_output o) (out_messages o) (out_tool_calls o)
    tin tout cost ms (out_status o) (out_events o).

(** [(cost > 0.0).then_some(cost)] *)
Definition positive_cost (cost : f64) : option f64 :=
  if f64_gtb cost f64_zero then Some cost else None.

(** ** Methods that touch only the harness *)

Definition HM (A : Type) : Type := LoopHarness -> prog (LoopHarness * A).

#[export] Instance HM_mret : MRet HM := fun A a h => mret (h, a).
#[export] Instance HM_mbind : MBind HM := fun A B f m h =>
  m h ≫= fun r => f r.2 r.1.

Definition get_harness : HM LoopHarness := fun h => mret (h, h).
Definition modify (f : LoopHarness -> LoopHarness) : HM unit := fun h => mret (f h, tt).
Definition lift {A} (p : prog A) : HM A := fun h => p ≫= fun a => mret (h, a).

(** [m?] *)
Definition try_bind {A B E} (m : HM (result A E)) (k : A -> HM (result B E))
  : HM (result B E) :=
  m ≫= fun r => match r with Ok a => k a | Err e => mret (Err e) end.

Notation "'let?' x := m 'in' k" := (try_bind m (fun x => k))
  (at level 200, x binder, m at level 100, k at level 200, right associativity)
  : synapse_scope.
#[local] Open Scope synapse_scope.

(** [prior] includes the call being dispatched. *)
Definition same_call (tc p : ToolCall) : bool :=
  String.eqb (tc_name p) (tc_name tc) && json_eqb (tc_args p) (tc_args tc).

Definition seen_calls (prior : list ToolCall) (tc : ToolCall) : Z :=
  Z.of_nat (length (List.filter (same_call tc) prior)).

Definition repeated_call_refusal (prior : list ToolCall) (tc : ToolCall) : option string :=
  let limit := 2 in
  let seen := seen_calls prior tc in
  if limit <? seen then
    Some ("Refused: you have already called `" +:+ tc_name tc +:+ "` " +:+ show (seen - 1)
          +:+ " times with exactly these arguments and got the same result each time. Calling it again will not change the answer. Use what you already have, or do something different.")
  else None.

Section harness.
Context `{UnicodeTables, Printers, HashOrder}.
Context (ctx : ExecutionContext).

Definition harness_new : prog LoopHarness :=
  t ← perform EInstant;
  mret (mkLoopHarness 0 f64_zero 0 0 [] [] [] 0 t None).

Definition new_with_prefix (prefix : string) : prog LoopHarness :=
  h ← harness_new; mret (set_prepend prefix h).

Definition mirror (f : ExecutorOutcome -> ExecutorOutcome) : HM unit :=
  match ctx_progress ctx with
  | Some _ => lift (perform (ESink f))
  | None => mret tt
  end.

Definition record_event (kind : EventKind) (payload : json) : HM unit :=
  let ev := mkExecutionEvent kind payload in
  mirror (out_push_event ev);;
  modify (push_event ev).

Definition new_message (role : Role) : HM Message :=
  t ← lift (perform EUtcNow);
  mret (mkMessage (ctx_execution_id ctx) 0 role None None None None None t).

Definition set_msg_seq (seq : Z) (m : Message) : Message :=
  mkMessage (msg_execution_id m) seq (msg_role m) (msg_content m) (msg_tool_call_id m)
    (msg_tool_name m) (msg_tool_input m) (msg_tool_output m) (msg_timestamp m).
Definition set_msg_content (c : option string) (m : Message) : Message :=
  mkMessage (msg_execution_id m) (msg_seq m) (msg_role m) c (msg_tool_call_id m)
    (msg_tool_name m) (msg_tool_input m) (msg_tool_output m) (msg_timestamp m).
Definition set_msg_call (tc : ToolCall) (m : Message) : Message :=
  mkMessage (msg_execution_id m) (msg_seq m) (msg_role m) (msg_content m) (Some (tc_id tc))
    (Some (tc_name tc)) (Some (tc_args tc)) (msg_tool_output m) (msg_timestamp m).
Definition set_msg_output (o : option json) (m : Message) : Message :=
  mkMessage (msg_execution_id m) (msg_seq m) (msg_role m) (msg_content m)
    (msg_tool_call_id m) (msg_tool_name m) (msg_tool_input m) o (msg_timestamp m).

Definition append (msg : Message) : HM unit :=
  h ← get_harness;
  let msg := set_msg_seq (lh_seq h) msg in
  mirror (out_push_message msg);;
  modify (push_harness_message msg).

Definition push_message (role : Role) (content : option string) (tool_output : option json)
  : HM unit :=
  msg ← new_message role;
  append (set_msg_output tool_output (set_msg_content content msg)).

Definition push_user_message (content : string) : HM unit :=
  push_message User (Some content) None.

Definition push_system_message (content : string) : HM unit :=
  push_message System (Some content) None.

(** The parts of the system message, in order. *)
Definition non_blank_part (o : option string) : list string :=
  match o with Some s => if is_blank s then [] else [s] | None => [] end.

Definition system_parts (h : LoopHarness) : list string :=
  non_blank_part (lh_prepend_system h)
  ++ non_blank_part (Some (ctx_system_prompt ctx))
  ++ non_blank_part (ctx_soul ctx)
  ++ option_list (always_on_block (ctx_harness ctx)).

Definition seed_messages : HM unit :=
  h ← get_harness;
  (match system_parts h with
   | [] => mret tt
   | parts => push_message System (Some (join newline parts)) None
   end);;
  push_message User (Some (ctx_input ctx)) None.

Definition check_interrupt : HM (result unit ExecutorError) :=
  match ctx_interrupt_check ctx with
  | Some check =>
      r ← lift check;
      match r with
      | Some reason => mret (Err (ExecutorError_Cancelled reason))
      | None => mret (Ok tt)
      end
  | None => mret (Ok tt)
  end.

Definition check_cost_cap : HM (result unit ExecutorError) :=
  h ← get_harness;
  match ctx_cost_cap_usd ctx with
  | Some cap =>
      if f64_geb (lh_cost_so_far h) cap
      then mret (Err (ExecutorError_CostCapExceeded cap (lh_cost_so_far h)))
      else mret (Ok tt)
  | None => mret (Ok tt)
  end.

Definition check_iteration_cap : HM (result unit ExecutorError) :=
  h ← get_harness;
  if ctx_max_iterations ctx <? lh_iteration h then
    record_event IterationCapCheck
      (json_object [("iteration", json_u64 (lh_iteration h));
                    ("max", json_u64 (ctx_max_iterations ctx));
                    ("tripped", JBool true)]);;
    mret (Err (ExecutorError_MaxIterationsReached (ctx_max_iterations ctx)))
  else mret (Ok tt).

(** [self.started_at.elapsed()]; an [Instant] difference saturates at zero. *)
Definition elapsed : HM Z :=
  h ← get_harness;
  t ← lift (perform EInstant);
  mret (saturating_sub t (lh_started_at h)).

Definition remaining_budget : HM (option Z) :=
  let budget := ctx_timeout ctx in
  if budget =? 0 then mret None
  else
    spent ← elapsed;
    mret (Some (Z.max (saturating_sub budget spent) (from_millis 1))).

Definition check_deadline : HM (result unit ExecutorError) :=
  let budget := ctx_timeout ctx in
  if budget =? 0 then mret (Ok tt)
  else
    spent ← elapsed;
    if budget <=? spent then
      record_event TimeoutCheck
        (json_object [("elapsed_ms", json_u64 (as_millis_u64 spent));
                      ("budget_ms", json_u64 (as_millis_u64 budget));
                      ("tripped", JBool true)]);;
      mret (Err (ExecutorError_Timeout (as_millis_u64 spent)))
    else mret (Ok tt).

Definition bump_iteration : HM unit :=
  modify (fun h => set_iteration (wrap32 (lh_iteration h + 1)) h).

Definition finalize (output : string) (status : OutcomeStatus) : HM ExecutorOutcome :=
  spent ← elapsed;
  h ← get_harness;
  mret (mkExecutorOutcome output (lh_messages h) (lh_issued_tool_calls h) (lh_tokens_in h)
          (lh_tokens_out h) (positive_cost (lh_cost_so_far h)) (as_millis_u64 spent)
          status (lh_events h)).

Definition build_request (model : string) (h : LoopHarness) : CompletionRequest :=
  let tools := omap (fun name =>
    match ctx_tools ctx !! name with
    | Some tool => Some (mkToolDefinition name "" (tool_schema tool))
    | None => None
    end) (hash_keys (ctx_tools ctx)) in
  mkCompletionRequest (lh_messages h) tools (Some model) None None JNull.

Definition record_usage (resp : CompletionResponse) : HM unit :=
  modify (fun h =>
    set_usage
      (match cost_usd (resp_usage resp) with
       | Some c => f64_add (lh_cost_so_far h) c
       | None => lh_cost_so_far h
       end)
      (saturating_add32 (lh_tokens_in h) (tokens_in (resp_usage resp)))
      (saturating_add32 (lh_tokens_out h) (tokens_out (resp_usage resp))) h);;
  h ← get_harness;
  spent ← elapsed;
  mirror (out_set_usage (lh_tokens_in h) (lh_tokens_out h)
            (positive_cost (lh_cost_so_far h)) (as_millis_u64 spent)).

Fixpoint record_calls (tcs : list ToolCall) : HM unit :=
  match tcs with
  | [] => mret tt
  | tc :: rest =>
      msg ← new_message Assistant;
      append (set_msg_call tc msg);;
      record_calls rest
  end.

Definition record_assistant_response (resp : CompletionResponse) : HM unit :=
  match resp_tool_calls resp with
  | [] => push_message Assistant (Some (default "" (resp_content resp))) None
  | tcs => record_calls tcs
  end.

Definition push_tool_result (tc : ToolCall) (output : ToolOutput) : HM Message :=
  msg ← new_message Tool;
  let msg := set_msg_call tc msg in
  let '(content, json) :=
    match output with
    | OutText s => (Some s, Some (JString s))
    | OutJson v => (Some (json_to_string v), Some v)
    | OutEmpty => (None, None)
    end in
  let msg := set_msg_output json (set_msg_content content msg) in
  append msg;;
  mret msg.

Definition tool_error_text (tc : ToolCall) (err : ToolError) : string :=
  let text := "ERROR: " +:+ ToolError_to_string err in
  match hint_for (ctx_harness ctx) (tc_name tc) (ToolError_to_string err) with
  | Some hint => text +:+ newline +:+ "HINT: " +:+ hint
  | None => text
  end.

Definition push_tool_error (tc : ToolCall) (err : ToolError) : HM unit :=
  msg ← new_message Tool;
  let msg := set_msg_call tc msg in
  let text := tool_error_text tc err in
  let msg := set_msg_output (Some (json_object [("error", JString text)]))
               (set_msg_content (Some text) msg) in
  append msg;;
  record_event ToolErrorEvent
    (json_object [("tool", JString (tc_name tc)); ("call_id", JString (tc_id tc));
                  ("error", JString (ToolError_to_string err))]).

Definition EMPTY_TURN_NUDGE : string :=
  "Your last response had no tool call and no text. If you are finished, reply with your final answer as plain text. Otherwise, call a tool to continue.".

Definition push_empty_turn_nudge : HM unit :=
  push_user_message EMPTY_TURN_NUDGE;;
  record_event EmptyTurn (json_object []).
(** ** One LLM turn *)

Definition request_payload (provider : LlmProvider) (req : CompletionRequest)
    (h : LoopHarness) : json :=
  let payload := json_object
    [("iteration", json_u64 (lh_iteration h));
     ("model", JString (llm_model_name provider));
     ("messages", json_u64 (Z.of_nat (length (req_messages req))));
     ("tools", json_u64 (Z.of_nat (length (req_tools req))))] in
  if should_persist_raw_payloads (ctx_trace_level ctx)
  then json_set "raw_messages" (JArray (map message_to_json (req_messages req))) payload
  else payload.

Definition response_payload (resp : CompletionResponse) (h : LoopHarness) : json :=
  let payload := json_object
    [("iteration", json_u64 (lh_iteration h));
     ("tokens_in", json_u64 (tokens_in (resp_usage resp)));
     ("tokens_out", json_u64 (tokens_out (resp_usage resp)));
     ("tool_calls", json_u64 (Z.of_nat (length (resp_tool_calls resp))));
     ("has_text", JBool (match resp_content resp with
                         | Some c => negb (is_empty c) | None => false end));
     ("finish_reason", JString (resp_finish_reason resp))] in
  if should_persist_raw_payloads (ctx_trace_level ctx)
  then json_set "raw_tool_calls" (JArray (map tool_call_to_json (resp_tool_calls resp)))
         (json_set "raw_content" (json_option JString (resp_content resp)) payload)
  else payload.

(** The provider call, bounded by the remaining budget. *)
Definition bounded_complete (provider : LlmProvider) (req : CompletionRequest)
  : HM (result CompletionResponse ExecutorError) :=
  remaining ← remaining_budget;
  match remaining with
  | Some d =>
      r ← lift (with_timeout d (llm_complete provider req));
      match r with
      | Some r => mret (map_err ExecutorError_Llm r)
      | None =>
          spent ← elapsed;
          record_event TimeoutCheck
            (json_object [("elapsed_ms", json_u64 (as_millis_u64 spent));
                          ("budget_ms", json_u64 (as_millis_u64 (ctx_timeout ctx)));
                          ("tripped", JBool true);
                          ("during", JString "llm_call")]);;
          mret (Err (ExecutorError_Timeout (as_millis_u64 spent)))
      end
  | None =>
      r ← lift (llm_complete provider req);
      mret (map_err ExecutorError_Llm r)
  end.

(** What the turn makes of a response that is not truncated. *)
Definition turn_of_response (resp : CompletionResponse) : HM TurnResult :=
  match resp_tool_calls resp with
  | [] =>
      let text := default "" (resp_content resp) in
      if is_blank text then mret TurnEmpty else mret (AssistantText text)
  | tcs =>
      modify (push_issued tcs);;
      mirror (out_push_calls tcs);;
      mret (ToolCalls tcs)
  end.

Definition one_llm_turn_with (provider : LlmProvider) : HM (result TurnResult ExecutorError) :=
  let? _ := check_interrupt in
  h ← get_harness;
  let req := build_request (llm_model_name provider) h in
  record_event LlmRequest (request_payload provider req h);;
  let? resp := bounded_complete provider req in
  h ← get_harness;
  record_event LlmResponse (response_payload resp h);;
  record_usage resp;;
  if String.eqb (resp_finish_reason resp) "length" then
    mret (Err (ExecutorError_Llm (LlmError_ResponseTruncated (llm_model_name provider)
                                    (tokens_out (resp_usage resp)))))
  else
    record_assistant_response resp;;
    r ← turn_of_response resp;
    mret (Ok r).

Definition one_llm_turn : HM (result TurnResult ExecutorError) :=
  one_llm_turn_with (ctx_llm ctx).

(** ** Tool dispatch *)

Definition start_payload (tc : ToolCall) : json :=
  let payload := json_object [("tool", JString (tc_name tc)); ("call_id", JString (tc_id tc))] in
  if should_persist_raw_payloads (ctx_trace_level ctx)
  then json_set "args" (tc_args tc) payload else payload.

Definition output_to_json (o : ToolOutput) : json :=
  match o with OutText s => JString s | OutJson v => v | OutEmpty => JNull end.

Definition end_payload (tc : ToolCall) (output : ToolOutput) : json :=
  let payload := json_object [("tool", JString (tc_name tc)); ("call_id", JString (tc_id tc));
                              ("ok", JBool true)] in
  if should_persist_raw_payloads (ctx_trace_level ctx)
  then json_set "output" (output_to_json output) payload else payload.

Definition contain_panic (tc : ToolCall) (a : tool_answer) : result ToolOutput ToolError :=
  match a with
  | ToolReturned r => r
  | ToolPanicked p =>
      Err (ToolError_Execution (tc_name tc) ("tool panicked: " +:+ panic_reason p))
  end.

Definition tool_ctx : ToolCtx :=
  mkToolCtx (ctx_execution_id ctx) (ctx_caller_role ctx) (Some (ctx_agent_name ctx)).

Definition run_tool (tool : ToolObj) (tc : ToolCall) : HM (result Message ExecutorError) :=
  record_event ToolStart (start_payload tc);;
  a ← lift (tool_run tool (tc_args tc) tool_ctx);
  match contain_panic tc a with
  | Ok output =>
      record_event ToolEnd (end_payload tc output);;
      msg ← push_tool_result tc output;
      mret (Ok msg)
  | Err e => mret (Err (ExecutorError_Tool e))
  end.

Definition dispatch_tool_call (tc : ToolCall) : HM (result Message ExecutorError) :=
  h ← get_harness;
  match repeated_call_refusal (lh_issued_tool_calls h) tc with
  | Some refusal =>
      record_event RepeatedToolCall
        (json_object [("tool", JString (tc_name tc)); ("call_id", JString (tc_id tc))]);;
      msg ← push_tool_result tc (OutText refusal);
      mret (Ok msg)
  | None =>
      match ctx_tools ctx !! tc_name tc with
      | Some tool => run_tool tool tc
      | None => mret (Err (ExecutorError_Tool (ToolError_NotFound (tc_name tc))))
      end
  end.
End harness.
