(* ===== verification/Executors.v ===== *)
(** * The reference executors ([executor/])

    [ConversationExecutor], [ReActExecutor] and [ReflectionExecutor].  The
    [loop] of the first two runs on fuel; [None] means that the fuel ran
    out, and the theorems show that it does not when the fuel exceeds the
    iteration cap. *)

From S2P Require Import Prelude.
From S2P Require Import RustStr.
From S2P Require Import F64.
From S2P Require Import Json.
From S2P Require Import Errors.
From S2P Require Import Types.
From S2P Require Import Effects.
From S2P Require Import HarnessText.
From S2P Require Import Traits.
From S2P Require Import LoopHarness.
#[local] Open Scope synapse_scope.

Section executors.
Context `{UnicodeTables, Printers, HashOrder}.

Section loop.
Context (ctx : ExecutionContext).

Abbreviation run_result := (result ExecutorOutcome ExecutorError).

(** [for tc in &calls { match dispatch(tc) ... }]: a tool error is fed
    back to the model, any other error ends the run. *)
Fixpoint dispatch_all (calls : list ToolCall) : HM (result unit ExecutorError) :=
  match calls with
  | [] => mret (Ok tt)
  | tc :: rest =>
      r ← dispatch_tool_call ctx tc;
      match r with
      | Ok _ => dispatch_all rest
      | Err (ExecutorError_Tool te) => push_tool_error ctx tc te;; dispatch_all rest
      | Err other => mret (Err other)
      end
  end.

Definition finish (output : string) (status : OutcomeStatus) : HM (option run_result) :=
  o ← finalize output status; mret (Some (Ok o)).

(** [match harness.one_llm_turn().await]: the run's result, or [None] to
    go on with the loop. *)
Definition handle_turn (r : result TurnResult ExecutorError) : HM (option run_result) :=
  match r with
  | Ok (AssistantText text) => finish text Completed
  | Ok TurnEmpty => push_empty_turn_nudge ctx;; mret None
  | Ok (ToolCalls calls) =>
      r ← dispatch_all calls;
      match r with
      | Ok _ => mret None
      | Err e => mret (Some (Err e))
      end
  | Err (ExecutorError_Timeout _) => finish "" TimedOut
  | Err e => mret (Some (Err e))
  end.

(** One pass of the [loop] body: the run's result, or [None] to go on. *)
Definition conversation_step : HM (option run_result) :=
  bump_iteration;;
  c ← check_iteration_cap ctx;
  match c with
  | Err (ExecutorError_MaxIterationsReached _) => finish "" MaxIterations
  | Err other => mret (Some (Err other))
  | Ok _ =>
      k ← check_cost_cap ctx;
      match k with
      | Err e => mret (Some (Err e))
      | Ok _ =>
          d ← check_deadline ctx;
          match d with
          | Err _ => finish "" TimedOut
          | Ok _ =>
              r ← one_llm_turn ctx;
              handle_turn r
          end
      end
  end.

Fixpoint conversation_loop (fuel : nat) : HM (option run_result) :=
  match fuel with
  | O => mret None
  | S fuel =>
      r ← conversation_step;
      match r with
      | Some res => mret (Some res)
      | None => conversation_loop fuel
      end
  end.
End loop.

(** [ConversationExecutor::execute] *)
Definition conversation_execute (fuel : nat) (ctx : ExecutionContext)
  : prog (option (result ExecutorOutcome ExecutorError)) :=
  h ← harness_new;
  r ← (seed_messages ctx;; conversation_loop ctx fuel) h;
  mret r.2.

Definition REACT_SYSTEM_ADDENDUM : string :=
  "When solving problems, think step by step. For each action, first reason about what to do, then call the appropriate tool. After observing the tool result, reason again before the next step.".

(** [ReActExecutor::execute]: the loop body is the same code. *)
Definition react_execute (fuel : nat) (ctx : ExecutionContext)
  : prog (option (result ExecutorOutcome ExecutorError)) :=
  h ← new_with_prefix REACT_SYSTEM_ADDENDUM;
  r ← (seed_messages ctx;; conversation_loop ctx fuel) h;
  mret r.2.

(** ** Reflection *)

Definition ACCEPT_TOKEN : string := "[ACCEPT]".

Definition DEFAULT_CRITIQUE : string :=
  "Critique the previous answer, in this order:" +:+ newline +:+
  "1. DELIVERY: is everything the request asked for present, in the requested form?" +:+ newline +:+
  "2. CONFORMANCE: does it follow the stated constraints, format and allowed values exactly?" +:+ newline +:+
  "3. FIDELITY: check every claim, figure and name against the source material and tool results in this conversation; reject invented specifics." +:+ newline +:+
  "4. INTERNAL CONSISTENCY: do totals, counts and cross-references agree with each other?" +:+ newline +:+
  "5. OPERATIONAL FITNESS: can the intended reader or system act on it without redoing work?" +:+ newline +:+
  "6. FINISH: no placeholders, no trailing questions, no unexplained omissions." +:+ newline +:+
  "If it is acceptable as-is, reply with the literal token [ACCEPT] followed by a brief confirmation. Otherwise, list concrete problems and what to change.".

Definition REVISE_PROMPT : string :=
  "Revise your previous answer to address the critique. Reply with only the revised answer; no preamble.".

Definition critique_prompt (ctx : ExecutionContext) : string :=
  default DEFAULT_CRITIQUE (non_blank (critique (ctx_harness ctx))).

Section reflection.
Context (ctx : ExecutionContext).
Abbreviation run_result := (result ExecutorOutcome ExecutorError).

Definition finish_now (output : string) (status : OutcomeStatus) : HM run_result :=
  o ← finalize output status; mret (Ok o).

(** The guards before each phase of a round. *)
Definition phase_guards (current : string) (k : HM run_result) : HM run_result :=
  let? _ := check_cost_cap ctx in
  bump_iteration;;
  c ← check_iteration_cap ctx;
  match c with
  | Err _ => finish_now current MaxIterations
  | Ok _ =>
      d ← check_deadline ctx;
      match d with
      | Err _ => finish_now current TimedOut
      | Ok _ => k
      end
  end.

(** A turn read as text: tool calls and empty turns give [fallback]. *)
Definition text_turn (provider : LlmProvider) (fallback current : string)
    (k : string -> HM run_result) : HM run_result :=
  r ← one_llm_turn_with ctx provider;
  match r with
  | Ok (AssistantText t) => k t
  | Ok (ToolCalls _) | Ok TurnEmpty => k fallback
  | Err (ExecutorError_Timeout _) => finish_now current TimedOut
  | Err e => mret (Err e)
  end.

Definition judge : LlmProvider := default (ctx_llm ctx) (ctx_judge_llm ctx).

(** [for _round in 0..max_revisions] *)
Fixpoint reflection_rounds (rounds : nat) (current : string) : HM run_result :=
  match rounds with
  | O => finish_now current Completed
  | S rounds =>
      phase_guards current
        (push_user_message ctx (critique_prompt ctx);;
         text_turn judge "" current (fun critique =>
           if contains critique ACCEPT_TOKEN then finish_now current Completed
           else
             phase_guards current
               (push_user_message ctx REVISE_PROMPT;;
                text_turn (ctx_llm ctx) current current (fun revised =>
                  reflection_rounds rounds revised))))
  end.

Definition reflection_body (max_revisions : nat) : HM run_result :=
  seed_messages ctx;;
  bump_iteration;;
  let? _ := check_cost_cap ctx in
  text_turn (ctx_llm ctx) "" "" (fun draft => reflection_rounds max_revisions draft).
End reflection.

(** [ReflectionExecutor::execute] *)
Definition reflection_execute (max_revisions : nat) : Executor := fun ctx =>
  h ← harness_new;
  r ← reflection_body ctx max_revisions h;
  mret r.2.
End executors.
