(* ===== verification/HarnessSpec.v ===== *)
(** * What the loop harness guarantees

    Specifications of the methods of [LoopHarness] in the weakest
    precondition calculus of [Effects]: the message log is numbered, the
    progress sink mirrors the harness at every await, and one turn extends
    the log by what the model answered. *)

From S2P Require Import Prelude.
From S2P Require Import RustStr.
From S2P Require Import F64.
From S2P Require Import Json.
From S2P Require Import Errors.
From S2P Require Import Types.
From S2P Require Import Effects.
From S2P Require Import HarnessText.
From S2P Require Import Traits.
From S2P Require Import LoopHarness.
#[local] Open Scope synapse_scope.

(** ** Invariants *)

(** Message [i] of the log carries sequence number [i] (as a [u32]) and the
    id of the run. *)
Definition numbered_log (ctx : ExecutionContext) (msgs : list Message) : Prop :=
  forall i m, msgs !! i = Some m ->
    msg_seq m = wrap32 (Z.of_nat i) /\ msg_execution_id m = ctx_execution_id ctx.

Definition numbered (ctx : ExecutionContext) (h : LoopHarness) : Prop :=
  lh_seq h = wrap32 (Z.of_nat (length (lh_messages h))) /\ numbered_log ctx (lh_messages h).

(** The shared sink holds what the harness holds. *)
Definition same_progress (s : ExecutorOutcome) (h : LoopHarness) : Prop :=
  out_messages s = lh_messages h /\
  out_tool_calls s = lh_issued_tool_calls h /\
  out_events s = lh_events h /\
  out_tokens_in s = lh_tokens_in h /\
  out_tokens_out s = lh_tokens_out h /\
  out_cost_usd s = positive_cost (lh_cost_so_far h) /\
  out_output s = "".

Definition mirrored (ctx : ExecutionContext) (s : ExecutorOutcome) (h : LoopHarness) : Prop :=
  is_Some (ctx_progress ctx) -> same_progress s h.

(** The number of LLM requests in a trace. *)
Definition is_llm_request (e : ExecutionEvent) : bool :=
  bool_decide (ev_kind e = LlmRequest).
Definition llm_requests (evs : list ExecutionEvent) : Z :=
  Z.of_nat (length (List.filter is_llm_request evs)).

Lemma llm_requests_app l1 l2 : llm_requests (l1 ++ l2) = llm_requests l1 + llm_requests l2.
Proof. unfold llm_requests. rewrite List.filter_app, length_app. lia. Qed.

Lemma llm_requests_nil : llm_requests [] = 0.
Proof. done. Qed.

Lemma llm_requests_one k p :
  llm_requests [mkExecutionEvent k p] = if bool_decide (k = LlmRequest) then 1 else 0.
Proof. by destruct k. Qed.

#[export] Hint Rewrite llm_requests_app llm_requests_nil llm_requests_one : synapse.

(** What every method but [bump_iteration] leaves in place, [n] being the
    LLM requests it may record. *)
Definition frame (ctx : ExecutionContext) (n : Z) (h h' : LoopHarness) : Prop :=
  lh_iteration h' = lh_iteration h /\
  (numbered ctx h -> numbered ctx h') /\
  llm_requests (lh_events h') <= llm_requests (lh_events h) + n.

Lemma frame_refl ctx h : frame ctx 0 h h.
Proof. split; [done|split; [done|lia]]. Qed.

Lemma frame_trans ctx n1 n2 h1 h2 h3 :
  frame ctx n1 h1 h2 -> frame ctx n2 h2 h3 -> frame ctx (n1 + n2) h1 h3.
Proof. intros (? & ? & ?) (? & ? & ?). split; [congruence|split; [auto|lia]]. Qed.

Lemma frame_weaken ctx n n' h h' : frame ctx n h h' -> n <= n' -> frame ctx n' h h'.
Proof. intros (? & ? & ?) ?. split; [done|split; [done|lia]]. Qed.

Lemma numbered_log_snoc ctx l m :
  numbered_log ctx l -> msg_seq m = wrap32 (Z.of_nat (length l)) ->
  msg_execution_id m = ctx_execution_id ctx -> numbered_log ctx (l ++ [m]).
Proof.
  intros Hl Hs He i m' Hi. apply lookup_snoc_Some in Hi as [[? Hi]|[-> <-]]; auto.
Qed.

Lemma frame_push_message ctx m h :
  msg_execution_id m = ctx_execution_id ctx ->
  frame ctx 0 h (push_harness_message (set_msg_seq (lh_seq h) m) h).
Proof.
  intros He. split; [done|]. split; [|simpl; lia]. intros [Hs Hn]. split; simpl.
  - rewrite Hs, wrap32_succ, length_app. simpl. f_equal. lia.
  - by apply numbered_log_snoc.
Qed.

Lemma frame_push_event ctx ev h :
  frame ctx (if is_llm_request ev then 1 else 0) h (push_event ev h).
Proof.
  split; [done|]. split; [done|]. simpl.
  unfold llm_requests. rewrite List.filter_app, length_app. simpl.
  destruct (is_llm_request ev); simpl; lia.
Qed.

(** An event that is not an LLM request, after any method. *)
Lemma frame_then_event ctx n ev h h' :
  is_llm_request ev = false -> frame ctx n h h' -> frame ctx n h (push_event ev h').
Proof.
  intros Hev Hf. rewrite <- (Z.add_0_r n). eapply frame_trans; [done|].
  pose proof (frame_push_event ctx ev h') as He. by rewrite Hev in He.
Qed.

Lemma frame_push_issued ctx tcs h : frame ctx 0 h (push_issued tcs h).
Proof. split; [done|]. split; [done|]. simpl. lia. Qed.

Lemma frame_set_usage ctx c i o h : frame ctx 0 h (set_usage c i o h).
Proof. split; [done|]. split; [done|]. simpl. lia. Qed.

#[export] Hint Resolve frame_refl frame_push_message frame_push_event frame_push_issued
  frame_set_usage : synapse.

(** ** Surroundings

    What a run needs of the objects it is handed: they may ask anything
    allowed by [C], but they do not write the run's progress sink.  [P] is
    what holds of every completion request, [T] of every tool call. *)
Class PassiveCalls (C : call_pred) := {
  passive_call : forall s X (e : eff X), suspends e = false -> C s X e }.

Section quiet.
Context (R : env) (C : call_pred).

(** A computation that leaves the sink alone. *)
Definition quiet {A} (p : prog A) (s : ExecutorOutcome) : Prop :=
  wp R (fun s' X e => C s' X e /\ s' = s) p s (fun s' _ => s' = s).

Definition ProviderOk (P : ExecutorOutcome -> CompletionRequest -> Prop)
    (p : LlmProvider) : Prop :=
  forall req s, P s req -> quiet (llm_complete p req) s.

Definition ToolOk (T : ExecutorOutcome -> string -> json -> Prop) (name : string)
    (t : ToolObj) : Prop :=
  forall args c s, T s name args -> quiet (tool_run t args c) s.

Record Surroundings (ctx : ExecutionContext)
    (P : ExecutorOutcome -> CompletionRequest -> Prop)
    (T : ExecutorOutcome -> string -> json -> Prop) : Prop := {
  sur_llm : ProviderOk P (ctx_llm ctx);
  sur_judge : forall p, ctx_judge_llm ctx = Some p -> ProviderOk P p;
  sur_tools : forall name t, ctx_tools ctx !! name = Some t -> ToolOk T name t;
  sur_interrupt : forall p s, ctx_interrupt_check ctx = Some p -> quiet p s }.
End quiet.

Section spec.
Context `{UnicodeTables, Printers, HashOrder}.
Context (ctx : ExecutionContext).
Context (R : env) (C : call_pred) `{!RaceClosed R C, !PassiveCalls C}.

(** Weakest precondition of a harness method. *)
Definition hwp {A} (m : HM A) (h : LoopHarness) (s : ExecutorOutcome)
    (Q : LoopHarness -> ExecutorOutcome -> A -> Prop) : Prop :=
  wp R C (m h) s (fun s' r => Q r.1 s' r.2).

Lemma hwp_mono {A} (m : HM A) h s (Q Q' : _ -> _ -> _ -> Prop) :
  hwp m h s Q -> (forall h' s' a, Q h' s' a -> Q' h' s' a) -> hwp m h s Q'.
Proof. intros Hm HQ. eapply wp_mono; [apply Hm|done|]. naive_solver. Qed.

Lemma hwp_ret {A} (a : A) h s (Q : _ -> _ -> _ -> Prop) : Q h s a -> hwp (mret a) h s Q.
Proof. done. Qed.

Lemma hwp_bind {A B} (m : HM A) (f : A -> HM B) h s Q :
  hwp m h s (fun h' s' a => hwp (f a) h' s' Q) -> hwp (m ≫= f) h s Q.
Proof. intros Hm. apply wp_bind. eapply wp_mono; [apply Hm|done|]. naive_solver. Qed.

Lemma hwp_seq {A B} (m : HM A) (f : A -> HM B) h s (P : _ -> _ -> _ -> Prop) Q :
  hwp m h s P -> (forall h' s' a, P h' s' a -> hwp (f a) h' s' Q) -> hwp (m ≫= f) h s Q.
Proof. intros Hm Hf. apply hwp_bind. by eapply hwp_mono. Qed.

Lemma hwp_try {A B E} (m : HM (result A E)) (k : A -> HM (result B E)) h s
    (P : _ -> _ -> _ -> Prop) (Q : _ -> _ -> _ -> Prop) :
  hwp m h s P ->
  (forall h' s' a, P h' s' (Ok a) -> hwp (k a) h' s' Q) ->
  (forall h' s' e, P h' s' (Err e) -> Q h' s' (Err e)) ->
  hwp (try_bind m k) h s Q.
Proof.
  intros Hm Hk He. eapply hwp_seq; [done|]. intros h' s' [a|e] HP; [by apply Hk|].
  by apply hwp_ret, He.
Qed.

Lemma hwp_get h s (Q : _ -> _ -> _ -> Prop) : Q h s h -> hwp get_harness h s Q.
Proof. done. Qed.

Lemma hwp_modify f h s (Q : _ -> _ -> _ -> Prop) : Q (f h) s tt -> hwp (modify f) h s Q.
Proof. done. Qed.

Lemma hwp_passive {X} (e : eff X) h s (Q : _ -> _ -> _ -> Prop) :
  suspends e = false -> (forall x, Q h (sink_after e s) x) -> hwp (lift (perform e)) h s Q.
Proof.
  intros He HQ. unfold hwp, lift. apply wp_bind. apply wp_perform; [by apply passive_call|].
  intros x _. apply wp_ret. apply HQ.
Qed.

(** A quiet computation that always satisfies [C] on the way. *)
Lemma hwp_lift_quiet {A} (p : prog A) h s (Q : _ -> _ -> _ -> Prop) :
  quiet R C p s -> (forall a, Q h s a) -> hwp (lift p) h s Q.
Proof.
  intros Hp HQ. unfold hwp, lift. apply wp_bind. eapply wp_mono; [apply Hp| |].
  - naive_solver.
  - intros s' a ->. apply wp_ret, HQ.
Qed.

Lemma hwp_lift {A} (p : prog A) h s (Q : _ -> _ -> _ -> Prop) :
  wp R C p s (fun s' a => Q h s' a) -> hwp (lift p) h s Q.
Proof. intros Hp. unfold hwp, lift. apply wp_bind. eapply wp_mono; [apply Hp|done|done]. Qed.

Lemma hwp_mirror f h s (Q : _ -> _ -> _ -> Prop) :
  Q h (if ctx_progress ctx then f s else s) tt -> hwp (mirror ctx f) h s Q.
Proof.
  intros HQ. unfold mirror. destruct (ctx_progress ctx); [|by apply hwp_ret].
  apply hwp_passive; [done|]. by intros [].
Qed.

Lemma hwp_elapsed h s (Q : _ -> _ -> _ -> Prop) :
  (forall t, 0 <= t -> Q h s t) -> hwp elapsed h s Q.
Proof.
  intros HQ. unfold elapsed. apply hwp_bind, hwp_get. apply hwp_bind.
  apply hwp_passive; [done|]. intros t. apply hwp_ret. apply HQ. unfold saturating_sub. lia.
Qed.

(** *** Events and messages *)

Lemma hwp_record_event k p h s :
  mirrored ctx s h ->
  hwp (record_event ctx k p) h s (fun h' s' _ =>
    h' = push_event (mkExecutionEvent k p) h /\ mirrored ctx s' h').
Proof.
  intros Hm. unfold record_event. apply hwp_bind, hwp_mirror, hwp_modify. split; [done|].
  intros HS. specialize (Hm HS). destruct HS as [? Hp]. rewrite Hp.
  destruct Hm as (? & ? & He & ? & ? & ? & ?). repeat split; simpl; by rewrite ?He.
Qed.

Lemma hwp_append msg h s :
  mirrored ctx s h ->
  hwp (append ctx msg) h s (fun h' s' _ =>
    h' = push_harness_message (set_msg_seq (lh_seq h) msg) h /\ mirrored ctx s' h').
Proof.
  intros Hm. unfold append. apply hwp_bind, hwp_get. apply hwp_bind, hwp_mirror, hwp_modify.
  split; [done|]. intros HS. specialize (Hm HS). destruct HS as [? Hp]. rewrite Hp.
  destruct Hm as (He & ? & ? & ? & ? & ? & ?). repeat split; simpl; by rewrite ?He.
Qed.

Lemma hwp_new_message role h s (Q : _ -> _ -> _ -> Prop) :
  (forall t, Q h s (mkMessage (ctx_execution_id ctx) 0 role None None None None None t)) ->
  hwp (new_message ctx role) h s Q.
Proof.
  intros HQ. unfold new_message. apply hwp_bind, hwp_passive; [done|].
  intros t. by apply hwp_ret.
Qed.

(** A method that appends one message satisfying [M]. *)
Definition appends (M : Message -> Prop) (h h' : LoopHarness) : Prop :=
  frame ctx 0 h h' /\ lh_issued_tool_calls h' = lh_issued_tool_calls h /\
  exists m, lh_messages h' = lh_messages h ++ [m] /\ M m.

Lemma appends_push (M : Message -> Prop) m h :
  msg_execution_id m = ctx_execution_id ctx -> M (set_msg_seq (lh_seq h) m) ->
  appends M h (push_harness_message (set_msg_seq (lh_seq h) m) h).
Proof. intros. split; [auto with synapse|]. split; [done|]. eexists. by split. Qed.

Lemma appends_event (M : Message -> Prop) ev h h1 :
  is_llm_request ev = false -> appends M h h1 -> appends M h (push_event ev h1).
Proof.
  intros Hev (? & ? & m & ? & ?). split; [|split; [done|by exists m]].
  by apply frame_then_event.
Qed.

Lemma hwp_push_message role c o h s :
  mirrored ctx s h ->
  hwp (push_message ctx role c o) h s (fun h' s' _ =>
    appends (fun m => msg_role m = role /\ msg_content m = c /\ msg_tool_call_id m = None)
      h h' /\
    lh_events h' = lh_events h /\ mirrored ctx s' h').
Proof.
  intros Hm. unfold push_message. apply hwp_bind, hwp_new_message. intros t.
  eapply hwp_mono; [by apply hwp_append|]. intros h' s' _ [-> ?].
  split; [|done]. by apply appends_push.
Qed.

(** The message that answers a tool call. *)
Definition answers (tc : ToolCall) (m : Message) : Prop :=
  msg_role m = Tool /\ msg_tool_call_id m = Some (tc_id tc) /\
  msg_tool_name m = Some (tc_name tc) /\ msg_tool_input m = Some (tc_args tc).

(** The message that records a tool call of the model. *)
Definition records (tc : ToolCall) (m : Message) : Prop :=
  msg_role m = Assistant /\ msg_tool_call_id m = Some (tc_id tc) /\
  msg_tool_name m = Some (tc_name tc) /\ msg_tool_input m = Some (tc_args tc).

Lemma hwp_push_tool_result tc out h s :
  mirrored ctx s h ->
  hwp (push_tool_result ctx tc out) h s (fun h' s' m =>
    appends (fun m' => answers tc m' /\ msg_content m' = msg_content m) h h' /\
    lh_events h' = lh_events h /\ mirrored ctx s' h' /\
    msg_content m = match out with
                    | OutText t => Some t | OutJson v => Some (json_to_string v)
                    | OutEmpty => None end).
Proof.
  intros Hm. unfold push_tool_result. apply hwp_bind, hwp_new_message. intros t.
  destruct out; apply hwp_bind; (eapply hwp_mono; [by apply hwp_append|]);
    intros h' s' _ [-> ?]; apply hwp_ret; (split; [by apply appends_push|done]).
Qed.

Lemma hwp_push_tool_error tc err h s :
  mirrored ctx s h ->
  hwp (push_tool_error ctx tc err) h s (fun h' s' _ =>
    appends (fun m => answers tc m /\
               msg_content m = Some (tool_error_text ctx tc err)) h h' /\
    mirrored ctx s' h').
Proof.
  intros Hm. unfold push_tool_error. apply hwp_bind, hwp_new_message. intros t.
  eapply hwp_seq; [by apply hwp_append|]. intros h1 s1 _ [-> Hm1].
  eapply hwp_mono; [by apply hwp_record_event|]. intros h2 s2 _ [-> Hm2]. split; [|done].
  apply appends_event; [done|]. by apply appends_push.
Qed.

(** *** The checks *)

Lemma hwp_check_interrupt P T h s :
  Surroundings R C ctx P T ->
  hwp (check_interrupt ctx) h s (fun h' s' r =>
    h' = h /\ s' = s /\
    match r with Ok _ => True | Err e => exists why, e = ExecutorError_Cancelled why end).
Proof.
  intros HS. unfold check_interrupt. destruct (ctx_interrupt_check ctx) eqn:E; [|by apply hwp_ret].
  apply hwp_bind, hwp_lift_quiet; [by eapply sur_interrupt|].
  intros [why|]; apply hwp_ret; naive_solver.
Qed.

Lemma hwp_check_cost_cap h s (Q : _ -> _ -> _ -> Prop) :
  Q h s (match ctx_cost_cap_usd ctx with
         | Some cap =>
             if f64_geb (lh_cost_so_far h) cap
             then Err (ExecutorError_CostCapExceeded cap (lh_cost_so_far h)) else Ok tt
         | None => Ok tt
         end) ->
  hwp (check_cost_cap ctx) h s Q.
Proof.
  intros HQ. unfold check_cost_cap. apply hwp_bind, hwp_get.
  destruct (ctx_cost_cap_usd ctx); [|by apply hwp_ret].
  destruct (f64_geb _ _); by apply hwp_ret.
Qed.

Lemma hwp_check_iteration_cap h s :
  mirrored ctx s h ->
  hwp (check_iteration_cap ctx) h s (fun h' s' r =>
    frame ctx 0 h h' /\ lh_messages h' = lh_messages h /\ mirrored ctx s' h' /\
    lh_cost_so_far h' = lh_cost_so_far h /\
    r = if ctx_max_iterations ctx <? lh_iteration h
        then Err (ExecutorError_MaxIterationsReached (ctx_max_iterations ctx)) else Ok tt).
Proof.
  intros Hm. unfold check_iteration_cap. apply hwp_bind, hwp_get.
  destruct (_ <? _); [|apply hwp_ret; auto with synapse].
  apply hwp_bind. eapply hwp_mono; [by apply hwp_record_event|].
  intros h' s' _ [-> ?]. apply hwp_ret. split; [apply frame_push_event|done].
Qed.

Lemma hwp_check_deadline h s :
  mirrored ctx s h ->
  hwp (check_deadline ctx) h s (fun h' s' r =>
    frame ctx 0 h h' /\ lh_messages h' = lh_messages h /\ mirrored ctx s' h' /\
    lh_cost_so_far h' = lh_cost_so_far h /\
    match r with Ok _ => h' = h | Err e => exists ms, e = ExecutorError_Timeout ms end).
Proof.
  intros Hm. unfold check_deadline. destruct (_ =? _); [apply hwp_ret; auto with synapse|].
  apply hwp_bind, hwp_elapsed. intros t Ht.
  destruct (_ <=? _); [|apply hwp_ret; auto with synapse].
  apply hwp_bind. eapply hwp_mono; [by apply hwp_record_event|].
  intros h' s' _ [-> ?]. apply hwp_ret. split; [apply frame_push_event|]. naive_solver.
Qed.

(** *** One turn *)

Definition turn_error (e : ExecutorError) : Prop :=
  match e with
  | ExecutorError_Cancelled _ | ExecutorError_Timeout _ | ExecutorError_Llm _ => True
  | _ => False
  end.

Definition turn_post (h h' : LoopHarness) (r : result TurnResult ExecutorError) : Prop :=
  frame ctx 1 h h' /\
  match r with
  | Ok (AssistantText t) =>
      is_blank t = false /\ exists m, lh_messages h' = lh_messages h ++ [m] /\
      msg_role m = Assistant /\ msg_content m = Some t /\ msg_tool_call_id m = None
  | Ok TurnEmpty =>
      exists m, lh_messages h' = lh_messages h ++ [m] /\
      msg_role m = Assistant /\ msg_tool_call_id m = None
  | Ok (ToolCalls tcs) =>
      tcs <> [] /\ lh_issued_tool_calls h' = lh_issued_tool_calls h ++ tcs /\
      exists ms, lh_messages h' = lh_messages h ++ ms /\ Forall2 records tcs ms
  | Err e => turn_error e /\ lh_messages h' = lh_messages h
  end.

Lemma hwp_bounded_complete P p req h s :
  ProviderOk R C P p -> mirrored ctx s h -> P s req ->
  hwp (bounded_complete ctx p req) h s (fun h' s' r =>
    frame ctx 0 h h' /\ lh_messages h' = lh_messages h /\
    lh_issued_tool_calls h' = lh_issued_tool_calls h /\ mirrored ctx s' h' /\
    match r with Ok _ => True | Err e => turn_error e end).
Proof.
  intros Hp Hm HP. unfold bounded_complete. apply hwp_bind. unfold remaining_budget.
  assert (Hrest : forall r : result CompletionResponse LlmError,
    hwp (mret (map_err ExecutorError_Llm r)) h s (fun h' s' r =>
    frame ctx 0 h h' /\ lh_messages h' = lh_messages h /\
    lh_issued_tool_calls h' = lh_issued_tool_calls h /\ mirrored ctx s' h' /\
    match r with Ok _ => True | Err e => turn_error e end)).
  { intros [a|e]; apply hwp_ret; simpl; auto with synapse. }
  destruct (_ =? _).
  - apply hwp_ret. apply hwp_bind, hwp_lift_quiet; [by apply Hp|]. apply Hrest.
  - apply hwp_bind, hwp_elapsed. intros t _. apply hwp_ret. apply hwp_bind.
    apply hwp_lift, wp_with_timeout; [done|]. eapply wp_mono; [by apply Hp| |].
    + intros s' X e [HC ->]. split; [done|].
      apply hwp_bind, hwp_elapsed. intros t' _. apply hwp_bind.
      eapply hwp_mono; [by apply hwp_record_event|]. intros h' s'' _ [-> Hm'].
      apply hwp_ret. simpl. split; [apply frame_push_event|done].
    + intros s' r ->. apply Hrest.
Qed.

Lemma hwp_record_usage resp h s :
  mirrored ctx s h ->
  hwp (record_usage ctx resp) h s (fun h' s' _ =>
    frame ctx 0 h h' /\ lh_messages h' = lh_messages h /\
    lh_issued_tool_calls h' = lh_issued_tool_calls h /\ mirrored ctx s' h').
Proof.
  intros Hm. unfold record_usage. apply hwp_bind, hwp_modify. apply hwp_bind, hwp_get.
  apply hwp_bind, hwp_elapsed. intros t _. apply hwp_mirror.
  split; [auto with synapse|]. split; [done|]. split; [done|].
  intros HS. specialize (Hm HS). destruct HS as [? Hp]. rewrite Hp.
  destruct Hm as (? & ? & ? & ? & ? & ? & ?). by repeat split.
Qed.

Lemma hwp_record_calls tcs h s :
  mirrored ctx s h ->
  hwp (record_calls ctx tcs) h s (fun h' s' _ =>
    frame ctx 0 h h' /\ lh_issued_tool_calls h' = lh_issued_tool_calls h /\
    mirrored ctx s' h' /\
    exists ms, lh_messages h' = lh_messages h ++ ms /\ Forall2 records tcs ms).
Proof.
  revert h s. induction tcs as [|tc tcs IH]; intros h s Hm; simpl.
  - apply hwp_ret. split_and!; auto with synapse. exists []. by rewrite app_nil_r.
  - apply hwp_bind, hwp_new_message. intros t.
    eapply hwp_seq; [by apply hwp_append|]. intros h1 s1 _ [-> Hm1].
    eapply hwp_mono; [by apply IH|]. intros h2 s2 _ (Hf & Hi & Hm2 & ms & Hms & Hall).
    split; [|split; [done|split; [done|]]].
    + eapply (frame_trans ctx 0 0); [|done]. by apply frame_push_message.
    + eexists (_ :: ms). rewrite Hms. simpl. rewrite <- app_assoc. split; [done|].
      by constructor.
Qed.

(** What is recorded and returned for a response that is not truncated. *)
Lemma hwp_settle resp h s :
  mirrored ctx s h ->
  hwp (record_assistant_response ctx resp;; r ← turn_of_response ctx resp; mret (Ok r)) h s
    (fun h' s' r => mirrored ctx s' h' /\
       forall h0, frame ctx 1 h0 h -> lh_messages h = lh_messages h0 ->
         lh_issued_tool_calls h = lh_issued_tool_calls h0 -> turn_post h0 h' r).
Proof.
  intros Hm. unfold record_assistant_response, turn_of_response, turn_post.
  destruct (resp_tool_calls resp) as [|tc tcs].
  - eapply hwp_seq; [by apply hwp_push_message|].
    intros h1 s1 _ ((Hf & _ & m & Hms & Hr & Hc & Hid) & _ & Hm1).
    assert (Hframe : forall h0, frame ctx 1 h0 h -> frame ctx 1 h0 h1)
      by (intros h0 Hf0; exact (frame_trans ctx 1 0 _ _ _ Hf0 Hf)).
    destruct (is_blank _) eqn:Hb; apply hwp_ret; (split; [done|]); intros h0 Hf0 Hms0 _;
      rewrite <- Hms0; (split; [by apply Hframe|]).
    + by exists m.
    + split; [done|]. by exists m.
  - eapply hwp_seq; [by apply hwp_record_calls|].
    intros h1 s1 _ (Hf & Hi & Hm1 & ms & Hms & Hall).
    apply hwp_bind, hwp_bind, hwp_modify. apply hwp_bind, hwp_mirror.
    apply hwp_ret, hwp_ret. split.
    + intros HS. specialize (Hm1 HS). destruct HS as [? Hp]. rewrite Hp.
      destruct Hm1 as (? & He & ? & ? & ? & ? & ?). split_and!; simpl; by rewrite ?He.
    + intros h0 Hf0 Hms0 Hi0. simpl. rewrite Hi, Hi0, <- Hms0. split; [|by eauto 10].
      eapply (frame_trans ctx 1 0); [done|].
      eapply (frame_trans ctx 0 0); [done|apply frame_push_issued].
Qed.

Lemma hwp_one_llm_turn_with P T p h s :
  Surroundings R C ctx P T -> ProviderOk R C P p -> mirrored ctx s h ->
  (forall s' ev, mirrored ctx s' (push_event ev h) ->
     P s' (build_request ctx (llm_model_name p) h)) ->
  hwp (one_llm_turn_with ctx p) h s (fun h' s' r => mirrored ctx s' h' /\ turn_post h h' r).
Proof.
  intros HS Hp Hm HP. unfold one_llm_turn_with.
  eapply hwp_try; [by eapply hwp_check_interrupt| |].
  2: { intros h' s' e (-> & -> & why & ->). split; [done|]. split; [|done].
       by apply (frame_weaken ctx 0); [apply frame_refl|]. }
  intros h' s' [] (-> & -> & _). apply hwp_bind, hwp_get.
  eapply hwp_seq; [by apply hwp_record_event|]. intros h1 s1 _ [-> Hm1].
  pose proof (frame_push_event ctx (mkExecutionEvent LlmRequest
    (request_payload ctx p (build_request ctx (llm_model_name p) h) h)) h) as Hf1.
  eapply hwp_try; [by eapply hwp_bounded_complete; [done|done|eapply HP]| |].
  2: { intros h2 s2 e (Hf & Hms & _ & Hm2 & He). split; [done|]. split; [|done].
       exact (frame_trans ctx 1 0 _ _ _ Hf1 Hf). }
  intros h2 s2 resp (Hf2 & Hms2 & Hi2 & Hm2 & _). apply hwp_bind, hwp_get.
  eapply hwp_seq; [by apply hwp_record_event|]. intros h3 s3 _ [-> Hm3].
  eapply hwp_seq; [by apply hwp_record_usage|]. intros h4 s4 _ (Hf4 & Hms4 & Hi4 & Hm4).
  assert (Hf : frame ctx 1 h h4).
  { eapply (frame_trans ctx 1 0); [|exact Hf4]. apply frame_then_event; [done|].
    exact (frame_trans ctx 1 0 _ _ _ Hf1 Hf2). }
  destruct (String.eqb _ _).
  - apply hwp_ret. split; [done|]. split; [done|]. split; [done|].
    by rewrite Hms4; simpl; rewrite Hms2.
  - eapply hwp_mono; [by apply hwp_settle|]. intros h5 s5 r [Hm5 Hpost]. split; [done|].
    apply Hpost; [done|by rewrite Hms4; simpl; rewrite Hms2|by rewrite Hi4; simpl; rewrite Hi2].
Qed.

(** *** Tool dispatch *)

Lemma hwp_run_tool T tool tc h s :
  ToolOk R C T (tc_name tc) tool -> mirrored ctx s h ->
  (forall s' ev, is_llm_request ev = false -> mirrored ctx s' (push_event ev h) ->
     T s' (tc_name tc) (tc_args tc)) ->
  hwp (run_tool ctx tool tc) h s (fun h' s' r =>
    mirrored ctx s' h' /\ lh_issued_tool_calls h' = lh_issued_tool_calls h /\
    match r with
    | Ok _ => appends (answers tc) h h'
    | Err e => frame ctx 0 h h' /\ lh_messages h' = lh_messages h /\
               exists te, e = ExecutorError_Tool te
    end).
Proof.
  intros Ht Hm HT. unfold run_tool.
  eapply hwp_seq; [by apply hwp_record_event|]. intros h1 s1 _ [-> Hm1].
  apply hwp_bind, hwp_lift_quiet; [by apply Ht; eapply HT; [|done]|]. intros a.
  pose proof (frame_push_event ctx (mkExecutionEvent ToolStart (start_payload ctx tc)) h) as Hf1.
  destruct (contain_panic tc a) as [out|te].
  - eapply hwp_seq; [by apply hwp_record_event|]. intros h2 s2 _ [-> Hm2].
    eapply hwp_seq; [by apply hwp_push_tool_result|].
    intros h3 s3 m ((Hf & Hi & m' & Hms & Ha & _) & _ & Hm3 & _). apply hwp_ret.
    split; [done|]. split; [done|]. split; [|split; [done|by exists m']].
    eapply (frame_trans ctx 0 0); [|exact Hf]. by apply frame_then_event.
  - apply hwp_ret. split; [done|]. split; [done|]. split; [exact Hf1|]. split; [done|]. by exists te.
Qed.

(** A refused call is answered without asking any tool. *)
Lemma hwp_dispatch_refused tc h s why :
  mirrored ctx s h -> repeated_call_refusal (lh_issued_tool_calls h) tc = Some why ->
  hwp (dispatch_tool_call ctx tc) h s (fun h' s' r =>
    mirrored ctx s' h' /\ lh_issued_tool_calls h' = lh_issued_tool_calls h /\
    is_ok r = true /\
    appends (fun m => answers tc m /\ msg_content m = Some why) h h').
Proof.
  intros Hm E. unfold dispatch_tool_call. apply hwp_bind, hwp_get. rewrite E.
  eapply hwp_seq; [by apply hwp_record_event|]. intros h1 s1 _ [-> Hm1].
  eapply hwp_seq; [by apply hwp_push_tool_result|].
  intros h2 s2 m ((Hf & Hi & m' & Hms & Ha & Hc) & _ & Hm2 & Hc'). apply hwp_ret.
  split; [done|]. split; [done|]. split; [done|]. split; [|split; [done|]].
  - eapply (frame_trans ctx 0 0); [|exact Hf]. apply frame_then_event; auto with synapse.
  - exists m'. split; [done|]. split; [done|]. by rewrite Hc, Hc'.
Qed.

Lemma hwp_dispatch_tool_call T tc h s :
  (forall name t, ctx_tools ctx !! name = Some t -> ToolOk R C T name t) -> mirrored ctx s h ->
  (repeated_call_refusal (lh_issued_tool_calls h) tc = None ->
   forall s' ev, is_llm_request ev = false -> mirrored ctx s' (push_event ev h) ->
     T s' (tc_name tc) (tc_args tc)) ->
  hwp (dispatch_tool_call ctx tc) h s (fun h' s' r =>
    mirrored ctx s' h' /\ lh_issued_tool_calls h' = lh_issued_tool_calls h /\
    match r with
    | Ok _ => appends (answers tc) h h'
    | Err e => frame ctx 0 h h' /\ lh_messages h' = lh_messages h /\
               exists te, e = ExecutorError_Tool te
    end).
Proof.
  intros HS Hm HT. destruct (repeated_call_refusal (lh_issued_tool_calls h) tc) as [why|] eqn:E.
  - eapply hwp_mono; [by eapply hwp_dispatch_refused|].
    intros h' s' [m|e] (Hm' & Hi & Hok & Hf & Hi' & m' & Hms & Ha & _); [|done].
    split; [done|]. split; [done|]. split; [done|]. split; [done|]. by exists m'.
  - unfold dispatch_tool_call. apply hwp_bind, hwp_get. rewrite E.
    destruct (ctx_tools ctx !! tc_name tc) as [tool|] eqn:Et.
    + eapply hwp_run_tool; [by apply HS|done|by apply HT].
    + apply hwp_ret. split; [done|]. split; [done|]. eauto with synapse.
Qed.
End spec.

(** Use the specification [lem] for the first method of a sequence, or for
    the last one; side conditions that are instances or immediate go away. *)
Ltac hspec lem := eapply lem; first [exact _ | done | idtac].
Ltac happ lem := eapply lem; try exact _.
Ltac hseq lem := eapply hwp_seq; [hspec lem|].
Ltac hlast lem := eapply hwp_mono; [hspec lem|].
