(* ===== verification/ExecutorSpec.v ===== *)
(** * What the executors guarantee

    Invariants of [ConversationExecutor], [ReActExecutor] and
    [ReflectionExecutor] for every behaviour of the model, the tools, the clock
    and the host. *)

From S2P Require Import Prelude.
From S2P Require Import RustStr.
From S2P Require Import F64.
From S2P Require Import Json.
From S2P Require Import Errors.
From S2P Require Import Types.
From S2P Require Import Effects.
From S2P Require Import HarnessText.
From S2P Require Import Traits.
From S2P Require Import LoopHarness.
From S2P Require Import Executors.
From S2P Require Import HarnessSpec.
#[local] Open Scope synapse_scope.

(** ** Well-formed transcripts

    Every block of tool calls of the model is followed, before anything
    else, by one answer per call, in the order of the calls. *)

Definition plain (m : Message) : Prop :=
  msg_role m <> Tool /\ msg_tool_call_id m = None.

Inductive well_paired : list Message -> Prop :=
| wp_start : well_paired []
| wp_plain l m : well_paired l -> plain m -> well_paired (l ++ [m])
| wp_block l tcs calls replies :
    well_paired l -> Forall2 records tcs calls -> Forall2 answers tcs replies ->
    well_paired (l ++ calls ++ replies).

#[export] Hint Constructors well_paired : synapse.

(** In a well-formed transcript there are as many answers as calls. *)
Definition is_answer (m : Message) : bool := bool_decide (msg_role m = Tool).
Definition is_call (m : Message) : bool :=
  bool_decide (msg_role m <> Tool /\ is_Some (msg_tool_call_id m)).

Lemma well_paired_balanced l :
  well_paired l -> length (List.filter is_answer l) = length (List.filter is_call l).
Proof.
  induction 1 as [|l m _ IH [Hr Hid]|l tcs calls replies _ IH Hc Ha]; [done| |].
  - rewrite !List.filter_app, !length_app, IH. simpl. unfold is_answer, is_call.
    rewrite Hid, !bool_decide_eq_false_2; [done| |done]. by intros [_ []].
  - rewrite !List.filter_app, !length_app, IH. clear IH. f_equal.
    assert (Hcalls : List.filter is_answer calls = [] /\ List.filter is_call calls = calls).
    { clear Ha. induction Hc as [|tc m tcs calls (Hr & Hid & _) _ [IH1 IH2]]; [done|].
      simpl. unfold is_answer at 1, is_call at 1. rewrite Hr, Hid, bool_decide_eq_false_2 by done.
      rewrite bool_decide_eq_true_2 by (split; [done|by eexists]). by rewrite IH1, IH2. }
    assert (Hreplies : List.filter is_answer replies = replies /\ List.filter is_call replies = []).
    { clear Hc Hcalls. induction Ha as [|tc m tcs replies (Hr & _) _ [IH1 IH2]]; [done|].
      simpl. unfold is_answer at 1, is_call at 1. rewrite Hr, bool_decide_eq_true_2 by done.
      rewrite bool_decide_eq_false_2 by (by intros [? _]). by rewrite IH1, IH2. }
    destruct Hcalls as [-> ->], Hreplies as [-> ->]. simpl.
    apply Forall2_length in Hc, Ha. lia.
Qed.

(** [I] holds at every await, [P] of every model request, [T] of every tool
    call. *)
Definition asks (I : ExecutorOutcome -> Prop)
    (P : ExecutorOutcome -> CompletionRequest -> Prop)
    (T : ExecutorOutcome -> string -> json -> Prop) : call_pred := fun s X e =>
  (suspends e = true -> I s) /\
  (forall req, llm_request_of e = Some req -> P s req) /\
  (forall n a c, tool_request_of e = Some (n, a, c) -> T s n a).

Definition any_state (s : ExecutorOutcome) : Prop := True.
Definition any_tool (s : ExecutorOutcome) (name : string) (args : json) : Prop := True.
Definition any_request (s : ExecutorOutcome) (req : CompletionRequest) : Prop := True.
Definition no_tool (s : ExecutorOutcome) (name : string) (args : json) : Prop := False.

#[export] Instance asks_race I P T : RaceClosed any_env (asks I P T).
Proof. by split. Qed.

Lemma passive_requests {X} (e : eff X) :
  suspends e = false -> llm_request_of e = None /\ tool_request_of e = None.
Proof. by induction e. Qed.

#[export] Instance asks_passive I P T : PassiveCalls (asks I P T).
Proof.
  split. intros s X e He. destruct (passive_requests e He) as [E1 E2].
  split; [congruence|]. split; [intros ? Hr|intros ? ? ? Hr]; congruence.
Qed.

Lemma asks_mono (I I' : _ -> Prop) (P P' : _ -> _ -> Prop) (T T' : _ -> _ -> _ -> Prop) :
  (forall s, I s -> I' s) -> (forall s r, P s r -> P' s r) -> (forall s n a, T s n a -> T' s n a) ->
  forall s X (e : eff X), asks I P T s X e -> asks I' P' T' s X e.
Proof. intros HI HP HT s X e (? & ? & ?). split_and!; naive_solver. Qed.

Lemma external_llm_ok (I : _ -> Prop) (P : _ -> _ -> Prop) T id model caps :
  (forall s req, P s req -> I s) ->
  ProviderOk any_env (asks I P T) P (external_llm id model caps).
Proof.
  intros HI req s HP. apply wp_perform; [|done]. split; [|done].
  split; [by intros _; eapply HI|]. split; simpl; [|done]. by intros ? [= <-].
Qed.

Lemma external_tool_ok (I : _ -> Prop) P (T : _ -> _ -> _ -> Prop) name schema :
  (forall s n a, T s n a -> I s) ->
  ToolOk any_env (asks I P T) T name (external_tool name schema).
Proof.
  intros HI args c s HT. apply wp_perform; [|done]. split; [|done].
  split; [by intros _; eapply HI|]. split; simpl; [done|]. by intros ? ? ? [= <- <- <-].
Qed.

Section spec.
Context `{UnicodeTables, Printers, HashOrder}.
Context (ctx : ExecutionContext).

Definition within_cost_cap (s : ExecutorOutcome) : Prop :=
  match ctx_cost_cap_usd ctx, out_cost_usd s with
  | Some cap, Some spent => f64_geb spent cap = false
  | _, _ => True
  end.

(** What holds of the sink at every await: a reader that drops the run there
    finds a numbered log and no more model requests than the cap. *)
Definition cut_ok (s : ExecutorOutcome) : Prop :=
  is_Some (ctx_progress ctx) ->
  numbered_log ctx (out_messages s) /\
  llm_requests (out_events s) <= ctx_max_iterations ctx /\
  out_output s = "".

Definition tool_call_ok (s : ExecutorOutcome) (name : string) (args : json) : Prop := cut_ok s.

(** What holds whenever the model is asked. *)
Definition request_ok (s : ExecutorOutcome) (req : CompletionRequest) : Prop :=
  cut_ok s /\
  well_paired (req_messages req) /\ numbered_log ctx (req_messages req) /\
  (is_Some (ctx_progress ctx) -> out_messages s = req_messages req /\ within_cost_cap s).

(** The sink agrees with the outcome. *)
Definition sink_matches (s o : ExecutorOutcome) : Prop :=
  out_messages s = out_messages o /\ out_tool_calls s = out_tool_calls o /\
  out_events s = out_events o /\ out_tokens_in s = out_tokens_in o /\
  out_tokens_out s = out_tokens_out o /\ out_cost_usd s = out_cost_usd o.

(** A completed run ends with the answer it returns; any other run
    returns no text. *)
Definition honest_status (o : ExecutorOutcome) : Prop :=
  match out_status o with
  | Completed =>
      is_blank (out_output o) = false /\
      exists l m, out_messages o = l ++ [m] /\ msg_role m = Assistant /\
                  msg_content m = Some (out_output o) /\ msg_tool_call_id m = None
  | MaxIterations | TimedOut => out_output o = ""
  | CostCapExceeded | Errored _ => False
  end.

Definition outcome_ok (s o : ExecutorOutcome) : Prop :=
  numbered_log ctx (out_messages o) /\
  llm_requests (out_events o) <= ctx_max_iterations ctx /\
  honest_status o /\
  (is_Some (ctx_progress ctx) -> sink_matches s o).

(** The errors that can end a run. *)
Definition run_error (e : ExecutorError) : Prop :=
  match e with
  | ExecutorError_Cancelled _ | ExecutorError_CostCapExceeded _ _ | ExecutorError_Llm _ => True
  | _ => False
  end.

(** The harness between two passes of the loop. *)
Definition loop_inv (h : LoopHarness) : Prop :=
  well_paired (lh_messages h) /\ numbered ctx h /\
  llm_requests (lh_events h) <= lh_iteration h <= ctx_max_iterations ctx /\
  0 <= lh_iteration h.

Abbreviation C := (asks cut_ok request_ok tool_call_ok).
Context (HS : Surroundings any_env C ctx request_ok tool_call_ok).
Context (Hmax : 0 <= ctx_max_iterations ctx < U32_MAX).

Abbreviation hwp' := (hwp any_env C).

Lemma appends_plain (M : Message -> Prop) h h' :
  (forall m, M m -> plain m) -> appends ctx M h h' ->
  well_paired (lh_messages h) -> well_paired (lh_messages h').
Proof. intros HM (_ & _ & m & -> & Hm) ?. apply wp_plain; auto. Qed.

Lemma hwp_seed_messages h s :
  mirrored ctx s h -> lh_messages h = [] -> numbered ctx h -> lh_iteration h = 0 ->
  llm_requests (lh_events h) = 0 ->
  hwp' (seed_messages ctx) h s (fun h' s' _ =>
    mirrored ctx s' h' /\ loop_inv h' /\ lh_iteration h' = 0).
Proof.
  intros Hm Hms Hn Hi He. unfold seed_messages. apply hwp_bind, hwp_get.
  eapply (hwp_seq _ _ _ _ _ _ (fun h' s' _ => mirrored ctx s' h' /\
    well_paired (lh_messages h') /\ frame ctx 0 h h')).
  { destruct (system_parts ctx h).
    - apply hwp_ret. rewrite Hms. auto with synapse.
    - hlast hwp_push_message.
      intros h1 s1 _ (Ha & _ & Hm1). split; [done|]. split; [|apply Ha].
      eapply appends_plain; [|done|by rewrite Hms; constructor].
      intros m (Hr & _ & ?). split; [by rewrite Hr|done]. }
  intros h1 s1 _ (Hm1 & Hp1 & Hf1).
  hlast hwp_push_message.
  intros h2 s2 _ (Ha & _ & Hm2).
  destruct (frame_trans ctx 0 0 _ _ _ Hf1 (proj1 Ha)) as (Hi2 & Hn2 & He2).
  split; [done|]. split; [|by rewrite Hi2]. split; [|split; [auto|]].
  - eapply appends_plain; [|done|done]. intros m (Hr & _ & ?). split; [by rewrite Hr|done].
  - rewrite Hi2. lia.
Qed.

Lemma mirrored_cut_ok h s ev :
  numbered ctx h -> llm_requests (lh_events h) + llm_requests [ev] <= ctx_max_iterations ctx ->
  mirrored ctx s (push_event ev h) -> cut_ok s.
Proof.
  intros [_ Hn] He Hm HS'. destruct (Hm HS') as (-> & _ & -> & _ & _ & _ & ->). split; [done|].
  simpl. by rewrite llm_requests_app.
Qed.

Lemma llm_requests_other ev : is_llm_request ev = false -> llm_requests [ev] = 0.
Proof. intros E. unfold llm_requests. simpl. by rewrite E. Qed.

(** All the calls of a turn are answered, and none ends the run. *)
Lemma hwp_dispatch_all calls h s :
  mirrored ctx s h -> numbered ctx h ->
  llm_requests (lh_events h) <= ctx_max_iterations ctx ->
  hwp' (dispatch_all ctx calls) h s (fun h' s' r =>
    mirrored ctx s' h' /\ frame ctx 0 h h' /\ r = Ok tt /\
    exists replies, lh_messages h' = lh_messages h ++ replies /\ Forall2 answers calls replies).
Proof.
  revert h s. induction calls as [|tc calls IH]; intros h s Hm Hn He; simpl.
  - apply hwp_ret. split_and!; auto with synapse. exists []. by rewrite app_nil_r.
  - assert (Hnext : forall h1 s1, mirrored ctx s1 h1 -> frame ctx 0 h h1 ->
      (exists m, lh_messages h1 = lh_messages h ++ [m] /\ answers tc m) ->
      hwp' (dispatch_all ctx calls) h1 s1 (fun h' s' r =>
        mirrored ctx s' h' /\ frame ctx 0 h h' /\ r = Ok tt /\
        exists replies, lh_messages h' = lh_messages h ++ replies /\
                        Forall2 answers (tc :: calls) replies)).
    { intros h1 s1 Hm1 Hf1 (m & Hms1 & Ha). pose proof Hf1 as (_ & Hn1 & He1).
      eapply hwp_mono; [apply IH; [done|auto|lia]|].
      intros h2 s2 r (Hm2 & Hf2 & -> & rs & Hms2 & Hall). split; [done|].
      split; [exact (frame_trans ctx 0 0 _ _ _ Hf1 Hf2)|]. split; [done|].
      exists (m :: rs). rewrite Hms2, Hms1, <- app_assoc. split; [done|]. by constructor. }
    eapply hwp_seq; [eapply hwp_dispatch_tool_call with (T := tool_call_ok); [try exact _; first [apply HS|done|idtac]..|]|].
    { intros _ s' ev Hev Hm'. eapply mirrored_cut_ok; [done| |done].
      rewrite llm_requests_other; [lia|done]. }
    intros h1 s1 [m|e] (Hm1 & _ & Hr); [by apply Hnext; [done|apply Hr..]|].
    destruct Hr as (Hf1 & Hms1 & te & ->).
    hseq hwp_push_tool_error.
    intros h2 s2 _ ((Hf2 & _ & m & Hms2 & Ha & _) & Hm2). apply Hnext; [done| |].
    + exact (frame_trans ctx 0 0 _ _ _ Hf1 Hf2).
    + exists m. by rewrite Hms2, Hms1.
Qed.

(** The result of a run, [None] being the end of the fuel. *)
Definition run_post (s : ExecutorOutcome) (r : result ExecutorOutcome ExecutorError) : Prop :=
  match r with Ok o => outcome_ok s o | Err e => run_error e end.

Lemma hwp_finish out status h s :
  mirrored ctx s h -> numbered ctx h ->
  llm_requests (lh_events h) <= ctx_max_iterations ctx ->
  (forall o, out_status o = status -> out_output o = out ->
     out_messages o = lh_messages h -> honest_status o) ->
  hwp' (finish out status) h s (fun h' s' r => exists res, r = Some res /\ run_post s' res).
Proof.
  intros Hm [_ Hn] He Hs. unfold finish, finalize. apply hwp_bind, hwp_bind. happ hwp_elapsed.
  intros t _. apply hwp_bind, hwp_get. apply hwp_ret, hwp_ret. eexists. split; [done|].
  simpl. split; [done|]. split; [done|]. split; [by apply Hs|].
  intros HS'. destruct (Hm HS') as (? & ? & ? & ? & ? & ? & ?). by split_and!.
Qed.

(** What one pass of the loop establishes; [n] is the iteration reached. *)
Definition step_post (n : Z) (h' : LoopHarness) (s' : ExecutorOutcome)
    (r : option (result ExecutorOutcome ExecutorError)) : Prop :=
  match r with
  | Some res => run_post s' res
  | None => mirrored ctx s' h' /\ loop_inv h' /\ lh_iteration h' = n
  end.

Lemma hwp_finish_soft status h s n :
  status = MaxIterations \/ status = TimedOut ->
  mirrored ctx s h -> numbered ctx h ->
  llm_requests (lh_events h) <= ctx_max_iterations ctx ->
  hwp' (finish "" status) h s (step_post n).
Proof.
  intros Hst Hm Hn He. hlast hwp_finish.
  - intros o Ho1 Ho2 _. unfold honest_status. rewrite Ho1. by destruct Hst as [-> | ->].
  - by intros h' s' r (res & -> & ?).
Qed.

(** The harness right after a turn that started in a loop state. *)
Definition turn_start (h : LoopHarness) : Prop :=
  well_paired (lh_messages h) /\ numbered ctx h /\ 0 <= lh_iteration h /\
  llm_requests (lh_events h) + 1 <= lh_iteration h <= ctx_max_iterations ctx.

Lemma hwp_nudge h s :
  mirrored ctx s h -> well_paired (lh_messages h) ->
  hwp' (push_empty_turn_nudge ctx) h s (fun h' s' _ =>
    mirrored ctx s' h' /\ frame ctx 0 h h' /\ well_paired (lh_messages h')).
Proof.
  intros Hm Hp. unfold push_empty_turn_nudge, push_user_message.
  hseq hwp_push_message. intros h1 s1 _ (Ha & _ & Hm1).
  hlast hwp_record_event. intros h2 s2 _ [-> Hm2]. split; [done|]. split.
  - by apply frame_then_event; [|apply Ha].
  - eapply (appends_plain _ h h1); [|exact Ha|done].
    intros m (Hr & _ & ?). by split; [rewrite Hr|].
Qed.

Lemma hwp_handle_turn h h1 s r :
  mirrored ctx s h1 -> turn_start h -> turn_post ctx h h1 r ->
  hwp' (handle_turn ctx r) h1 s (step_post (lh_iteration h)).
Proof.
  intros Hm (Hp & Hn & Hi & He) ((Hi1 & Hn1 & He1) & Hr). unfold handle_turn.
  destruct r as [[text|calls|]|e].
  - destruct Hr as (Hb & m & Hms & Hrole & Hc & Hid).
    hlast (hwp_finish text Completed); [auto|lia| |].
    + intros o Ho1 Ho2 Ho3. unfold honest_status. rewrite Ho1, Ho2, Ho3. eauto 10.
    + by intros h' s' r (res & -> & ?).
  - destruct Hr as (_ & _ & ms & Hms & Hrec).
    eapply hwp_seq; [apply hwp_dispatch_all; [done|auto|lia]|].
    intros h2 s2 r (Hm2 & (Hi2 & Hn2 & He2) & -> & rs & Hms2 & Hans).
    apply hwp_ret. split; [done|]. split; [|by rewrite Hi2].
    split; [|split; [auto|rewrite Hi2, Hi1; lia]].
    rewrite Hms2, Hms, <- app_assoc. by apply (wp_block _ calls).
  - destruct Hr as (m & Hms & Hrole & Hid). hseq hwp_nudge.
    { rewrite Hms. apply wp_plain; [done|]. by split; [rewrite Hrole|]. }
    intros h2 s2 _ (Hm2 & (Hi2 & Hn2 & He2) & Hp2). apply hwp_ret.
    split; [done|]. split; [|by rewrite Hi2]. split; [done|].
    split; [auto|rewrite Hi2, Hi1; lia].
  - destruct Hr as (Hte & Hms). destruct e; try done; try (by apply hwp_ret).
    apply hwp_finish_soft; [by right|done|auto|lia].
Qed.

(** One pass of the loop. *)
Lemma hwp_conversation_step h s :
  mirrored ctx s h -> loop_inv h ->
  hwp' (conversation_step ctx) h s (step_post (lh_iteration h + 1)).
Proof.
  intros Hm (Hp & Hn & He & Hi). unfold conversation_step.
  assert (Hwrap : wrap32 (lh_iteration h + 1) = lh_iteration h + 1)
    by (apply wrap32_small; ulia).
  set (h0 := set_iteration (wrap32 (lh_iteration h + 1)) h).
  apply hwp_bind, hwp_modify. fold h0. assert (Hn0 : numbered ctx h0) by done.
  hseq hwp_check_iteration_cap.
  intros h1 s1 c ((Hi1 & Hn1 & He1) & Hms1 & Hm1 & Hc1 & ->). simpl in Hi1, He1, Hms1.
  destruct (ctx_max_iterations ctx <? lh_iteration h0) eqn:Ecap.
  { apply hwp_finish_soft; [by left|done|auto|lia]. }
  apply Z.ltb_ge in Ecap. simpl in Ecap. apply hwp_bind, hwp_check_cost_cap.
  destruct (match ctx_cost_cap_usd ctx with Some _ => _ | None => _ end) eqn:Ecost.
  2: { apply hwp_ret. destruct (ctx_cost_cap_usd ctx); [|done].
       destruct (f64_geb _ _); [|done]. by injection Ecost as <-. }
  hseq hwp_check_deadline.
  intros h2 s2 d ((Hi2 & Hn2 & He2) & Hms2 & Hm2 & Hc2 & Hd). destruct d as [[]|e].
  2: { apply hwp_finish_soft; [by right|done|auto|lia]. }
  subst h2. hseq hwp_one_llm_turn_with; [apply HS| |].
  { intros s' ev Hm'. split; [|split; [simpl; by rewrite Hms1|split; [apply Hn1, Hn0|]]].
    { eapply mirrored_cut_ok; [by apply Hn1, Hn0| |done].
      unfold llm_requests at 2. simpl. destruct (is_llm_request ev); simpl; lia. }
    intros Hprog. destruct (Hm' Hprog) as (Hmsg & _ & _ & _ & _ & Hcost & _).
    split; [done|]. unfold within_cost_cap. rewrite Hcost. simpl. unfold positive_cost.
    destruct (ctx_cost_cap_usd ctx); [|done]. destruct (f64_gtb _ _); [|done].
    by destruct (f64_geb _ _). }
  intros h3 s3 r [Hm3 Hpost]. rewrite <- Hwrap, <- Hi1.
  apply hwp_handle_turn; [done| |done].
  split; [by rewrite Hms1|]. split; [auto|]. rewrite Hi1, Hwrap in *. lia.
Qed.

(** The loop returns before its fuel is gone, with a good result. *)
Lemma hwp_conversation_loop fuel h s :
  mirrored ctx s h -> loop_inv h ->
  hwp' (conversation_loop ctx fuel) h s (fun _ s' r =>
    match r with
    | Some res => run_post s' res
    | None => Z.of_nat fuel <= ctx_max_iterations ctx - lh_iteration h
    end).
Proof.
  revert h s. induction fuel as [|fuel IH]; intros h s Hm Hinv; simpl.
  - apply hwp_ret. destruct Hinv as (_ & _ & ? & _). lia.
  - hseq hwp_conversation_step. intros h1 s1 [res|]; [by intros; apply hwp_ret|].
    intros (Hm1 & Hinv1 & Hi1). eapply hwp_mono; [by apply IH|].
    intros h2 s2 [res|]; [done|]. lia.
Qed.

(** The state [harness_new] builds. *)
Definition fresh_harness (h : LoopHarness) : Prop :=
  exists t p, h = mkLoopHarness 0 f64_zero 0 0 [] [] [] 0 t p.

Lemma fresh_mirrored h : fresh_harness h -> mirrored ctx ExecutorOutcome_default h.
Proof. by intros (t & p & ->) _. Qed.

Lemma hwp_loop_run fuel h :
  fresh_harness h -> ctx_max_iterations ctx < Z.of_nat fuel ->
  hwp' (seed_messages ctx;; conversation_loop ctx fuel) h ExecutorOutcome_default
    (fun _ s' r => exists res, r = Some res /\ run_post s' res).
Proof.
  intros Hf Hfuel. pose proof (fresh_mirrored h Hf) as Hm. destruct Hf as (t & p & ->).
  hseq hwp_seed_messages. intros h1 s1 _ (Hm1 & Hinv1 & Hi1).
  eapply hwp_mono; [by apply hwp_conversation_loop|].
  intros h2 s2 [res|] Hr; [by exists res|lia].
Qed.
End spec.

(** ** Repeated calls *)

Lemma refusal_some prior tc :
  2 < seen_calls prior tc -> exists why, repeated_call_refusal prior tc = Some why.
Proof.
  intros Hs. unfold repeated_call_refusal. rewrite (proj2 (Z.ltb_lt 2 _)) by done. by eexists.
Qed.

Lemma refusal_text prior tc why :
  repeated_call_refusal prior tc = Some why ->
  exists rest, why = "Refused: you have already called `" +:+ rest.
Proof. unfold repeated_call_refusal. destruct (_ <? _); [|done]. intros [= <-]. by eexists. Qed.

Lemma same_call_refl tc : json_wf (tc_args tc) -> same_call tc tc = true.
Proof. intros Hwf. unfold same_call. by rewrite String.eqb_refl, json_eqb_refl. Qed.

Lemma seen_calls_batch earlier tc :
  json_wf (tc_args tc) -> 2 < seen_calls (earlier ++ [tc; tc; tc]) tc.
Proof.
  intros Hwf. unfold seen_calls. rewrite List.filter_app, length_app. simpl.
  rewrite same_call_refl by done. simpl. lia.
Qed.

Section refused.
Context `{UnicodeTables, Printers, HashOrder}.
Context (ctx : ExecutionContext) (I : ExecutorOutcome -> Prop)
  (P : ExecutorOutcome -> CompletionRequest -> Prop)
  (T : ExecutorOutcome -> string -> json -> Prop).

Definition refused (tc : ToolCall) (m : Message) : Prop :=
  answers tc m /\ exists why,
    msg_content m = Some ("Refused: you have already called `" +:+ why).

(** When every call of a turn is over the limit, none is executed. *)
Lemma hwp_dispatch_all_refused calls h s :
  mirrored ctx s h ->
  Forall (fun tc => 2 < seen_calls (lh_issued_tool_calls h) tc) calls ->
  hwp any_env (asks I P T) (dispatch_all ctx calls) h s (fun h' s' r =>
    r = Ok tt /\
    exists ms, lh_messages h' = lh_messages h ++ ms /\ Forall2 refused calls ms).
Proof.
  revert h s. induction calls as [|tc calls IH]; intros h s Hm Hall; simpl.
  - apply hwp_ret. split; [done|]. exists []. by rewrite app_nil_r.
  - inversion Hall as [|? ? Htc Hrest]; subst.
    destruct (refusal_some _ _ Htc) as [why E].
    hseq hwp_dispatch_refused.
    intros h1 s1 [m|e] (Hm1 & Hi1 & Hok & _ & _ & m' & Hms & Ha & Hc); [|done].
    eapply hwp_mono; [apply IH; [done|by rewrite Hi1]|].
    intros h2 s2 r (-> & ms & Hms2 & Hf). split; [done|].
    exists (m' :: ms). rewrite Hms2, Hms, <- app_assoc. split; [done|].
    constructor; [|done]. split; [done|]. rewrite Hc.
    destruct (refusal_text _ _ _ E) as [rest ->]. by exists rest.
Qed.
End refused.

(** ** The two executors that run the chat loop *)

(** The providers, tools and interrupt probe of [ctx] do not write the
    progress sink of the run, and pass on the requests they are given. *)
Definition well_behaved (ctx : ExecutionContext) : Prop :=
  Surroundings any_env (asks (cut_ok ctx) (request_ok ctx) (tool_call_ok ctx)) ctx
    (request_ok ctx) (tool_call_ok ctx).

Definition u32_cap (ctx : ExecutionContext) : Prop := 0 <= ctx_max_iterations ctx < U32_MAX.

Section loop_executors.
Context `{UnicodeTables, Printers, HashOrder}.

(** The two executors that run the chat loop. *)
Definition loop_executor (react : bool) (fuel : nat) (ctx : ExecutionContext)
  : prog (option (result ExecutorOutcome ExecutorError)) :=
  if react then react_execute fuel ctx else conversation_execute fuel ctx.

Lemma wp_loop_executor react fuel ctx :
  well_behaved ctx -> u32_cap ctx -> ctx_max_iterations ctx < Z.of_nat fuel ->
  wp any_env (asks (cut_ok ctx) (request_ok ctx) (tool_call_ok ctx)) (loop_executor react fuel ctx)
    ExecutorOutcome_default (fun s r => exists res, r = Some res /\ run_post ctx s res).
Proof.
  intros HS Hmax Hfuel. unfold loop_executor.
  assert (Hrun : forall h, fresh_harness h ->
    wp any_env (asks (cut_ok ctx) (request_ok ctx) (tool_call_ok ctx))
      (r ← (seed_messages ctx;; conversation_loop ctx fuel) h; mret r.2)
      ExecutorOutcome_default (fun s r => exists res, r = Some res /\ run_post ctx s res)).
  { intros h Hf. eapply wp_seq; [by eapply hwp_loop_run|]. intros s [h' r] Hr. exact Hr. }
  destruct react; unfold react_execute, conversation_execute, new_with_prefix, harness_new.
  - apply wp_bind, wp_bind, wp_bind, wp_perform; [by apply passive_call|]. intros t _.
    apply wp_ret, wp_ret. apply Hrun. by eexists _, _.
  - apply wp_bind, wp_bind, wp_perform; [by apply passive_call|]. intros t _.
    apply wp_ret. apply Hrun. by eexists _, _.
Qed.
End loop_executors.

(** ** What the reflection executor guarantees

    Reflection makes a bounded number of model calls, never runs a tool, and
    returns the best draft it has when a budget runs out. *)

Section spec.
Context `{UnicodeTables, Printers, HashOrder}.
Context (ctx : ExecutionContext).

(** What holds of a request, and the prohibition of tool calls. *)
Definition numbered_request (s : ExecutorOutcome) (req : CompletionRequest) : Prop :=
  numbered_log ctx (req_messages req) /\
  (is_Some (ctx_progress ctx) -> out_messages s = req_messages req).

Definition soft_status (st : OutcomeStatus) : Prop :=
  st = Completed \/ st = MaxIterations \/ st = TimedOut.

Definition reflection_post (n : Z) (s : ExecutorOutcome)
    (r : result ExecutorOutcome ExecutorError) : Prop :=
  match r with
  | Ok o =>
      numbered_log ctx (out_messages o) /\ llm_requests (out_events o) <= n /\
      soft_status (out_status o) /\ (is_Some (ctx_progress ctx) -> sink_matches s o)
  | Err e => run_error e
  end.

Abbreviation C := (asks any_state numbered_request no_tool).
Abbreviation hwp' := (hwp any_env C).
Context (HS : Surroundings any_env C ctx numbered_request no_tool).

(** A state from which [n] model calls in total are still affordable. *)
Definition refl_inv (n : Z) (h : LoopHarness) (s : ExecutorOutcome) : Prop :=
  mirrored ctx s h /\ numbered ctx h /\ llm_requests (lh_events h) <= n.

Lemma refl_inv_frame n m h h' s' :
  llm_requests (lh_events h) <= n -> numbered ctx h -> frame ctx m h h' ->
  mirrored ctx s' h' -> refl_inv (n + m) h' s'.
Proof. intros He Hn (_ & Hn' & He') Hm. split; [done|]. split; [auto|lia]. Qed.

Lemma refl_inv_frame0 n h h' s' :
  llm_requests (lh_events h) <= n -> numbered ctx h -> frame ctx 0 h h' ->
  mirrored ctx s' h' -> refl_inv n h' s'.
Proof. rewrite <- (Z.add_0_r n) at 2. apply refl_inv_frame. Qed.

Lemma refl_inv_weaken n m h s : refl_inv n h s -> n <= m -> refl_inv m h s.
Proof. intros (? & ? & ?) ?. split; [done|]. split; [done|lia]. Qed.

Lemma hwp_finish_now n out status h s :
  refl_inv n h s -> soft_status status ->
  hwp' (finish_now out status) h s (fun _ s' r => reflection_post n s' r).
Proof.
  intros (Hm & [_ Hn] & He) Hs. unfold finish_now, finalize.
  apply hwp_bind, hwp_bind. happ hwp_elapsed. intros t _. apply hwp_bind, hwp_get.
  apply hwp_ret, hwp_ret. split; [done|]. split; [done|]. split; [done|].
  intros HS'. destruct (Hm HS') as (? & ? & ? & ? & ? & ? & ?). by split_and!.
Qed.

Lemma hwp_reflection_seed h s n :
  refl_inv n h s -> hwp' (seed_messages ctx) h s (fun h' s' _ => refl_inv n h' s').
Proof.
  intros (Hm & Hn & He). unfold seed_messages. apply hwp_bind, hwp_get.
  eapply (hwp_seq _ _ _ _ _ _ (fun h' s' _ => refl_inv n h' s')).
  { destruct (system_parts ctx h); [by apply hwp_ret|].
    hlast hwp_push_message. intros h1 s1 _ ((Hf & _) & _ & Hm1).
    by eapply refl_inv_frame0. }
  intros h1 s1 _ (Hm1 & Hn1 & He1). hlast hwp_push_message.
  intros h2 s2 _ ((Hf & _) & _ & Hm2). by eapply refl_inv_frame0.
Qed.

Lemma hwp_push_user n text h s :
  refl_inv n h s -> hwp' (push_user_message ctx text) h s (fun h' s' _ => refl_inv n h' s').
Proof.
  intros (Hm & Hn & He). unfold push_user_message. hlast hwp_push_message.
  intros h1 s1 _ ((Hf & _) & _ & Hm1). by eapply refl_inv_frame0.
Qed.

(** The guards keep the state and may end the run. *)
Lemma hwp_phase_guards n N current k h s :
  refl_inv n h s -> n <= N ->
  (forall h' s', refl_inv n h' s' ->
     hwp' k h' s' (fun _ s' r => reflection_post N s' r)) ->
  hwp' (phase_guards ctx current k) h s (fun _ s' r => reflection_post N s' r).
Proof.
  intros Hinv HN Hk. unfold phase_guards, try_bind. apply hwp_bind, hwp_check_cost_cap.
  destruct (match ctx_cost_cap_usd ctx with Some _ => _ | None => _ end) eqn:Ecost.
  2: { apply hwp_ret. destruct (ctx_cost_cap_usd ctx); [|done].
       destruct (f64_geb _ _); [|done]. by injection Ecost as <-. }
  apply hwp_bind, hwp_modify. destruct Hinv as (Hm & Hn & He).
  set (h0 := set_iteration (wrap32 (lh_iteration h + 1)) h).
  change (numbered ctx h0) in Hn. change (llm_requests (lh_events h0) <= n) in He.
  hseq hwp_check_iteration_cap. intros h1 s1 c (Hf1 & _ & Hm1 & _ & ->).
  pose proof (refl_inv_frame0 n _ _ _ He Hn Hf1 Hm1) as Hinv1.
  destruct (_ <? _).
  { apply hwp_finish_now; [by eapply refl_inv_weaken|unfold soft_status; auto]. }
  destruct Hinv1 as (_ & Hn1 & He1). hseq hwp_check_deadline.
  intros h2 s2 d (Hf2 & _ & Hm2 & _ & _).
  pose proof (refl_inv_frame0 n _ _ _ He1 Hn1 Hf2 Hm2) as Hinv2.
  destruct d; [by apply Hk|].
  apply hwp_finish_now; [by eapply refl_inv_weaken|unfold soft_status; auto].
Qed.

(** One turn read as text. *)
Lemma hwp_text_turn n N p fallback current k h s :
  ProviderOk any_env C numbered_request p -> refl_inv n h s -> n + 1 <= N ->
  (forall t h' s', refl_inv (n + 1) h' s' ->
     hwp' (k t) h' s' (fun _ s' r => reflection_post N s' r)) ->
  hwp' (text_turn ctx p fallback current k) h s (fun _ s' r => reflection_post N s' r).
Proof.
  intros Hp (Hm & Hn & He) HN Hk. unfold text_turn. hseq hwp_one_llm_turn_with.
  { intros s' ev Hm'. split; [apply Hn|]. intros Hprog. apply (Hm' Hprog). }
  intros h1 s1 r [Hm1 [Hf Hr]].
  assert (Hinv : refl_inv (n + 1) h1 s1) by (by eapply refl_inv_frame).
  destruct r as [[]|e]; [by apply Hk..|].
  destruct Hr as [He' _]. destruct e; try done; try (by apply hwp_ret).
  apply hwp_finish_now; [by eapply refl_inv_weaken|unfold soft_status; auto].
Qed.

Lemma judge_ok : ProviderOk any_env C numbered_request (judge ctx).
Proof.
  unfold judge. destruct (ctx_judge_llm ctx) eqn:E; [by eapply sur_judge|apply HS].
Qed.

Lemma hwp_reflection_rounds rounds n current h s :
  refl_inv n h s ->
  hwp' (reflection_rounds ctx rounds current) h s (fun _ s' r =>
    reflection_post (n + 2 * Z.of_nat rounds) s' r).
Proof.
  revert n current h s. induction rounds as [|rounds IH]; intros n current h s Hinv.
  - simpl. rewrite Z.add_0_r. apply hwp_finish_now; [done|unfold soft_status; auto].
  - cbn [reflection_rounds]. eapply hwp_phase_guards; [done|lia|]. intros h1 s1 Hinv1.
    hseq hwp_push_user. intros h2 s2 [] Hinv2.
    eapply hwp_text_turn; [apply judge_ok|done|lia|]. intros critique h3 s3 Hinv3.
    destruct (contains critique ACCEPT_TOKEN).
    { apply hwp_finish_now; [eapply refl_inv_weaken; [done|lia]|unfold soft_status; auto]. }
    eapply hwp_phase_guards; [done|lia|]. intros h4 s4 Hinv4.
    hseq hwp_push_user. intros h5 s5 [] Hinv5.
    eapply hwp_text_turn; [apply HS|done|lia|]. intros revised h6 s6 Hinv6.
    replace (n + 2 * Z.of_nat (S rounds)) with (n + 1 + 1 + 2 * Z.of_nat rounds) by lia.
    by apply IH.
Qed.

Lemma hwp_reflection_body rounds h :
  fresh_harness h ->
  hwp' (reflection_body ctx rounds) h ExecutorOutcome_default (fun _ s' r =>
    reflection_post (1 + 2 * Z.of_nat rounds) s' r).
Proof.
  intros Hf. pose proof (fresh_mirrored ctx h Hf) as Hm. destruct Hf as (t & p & ->).
  unfold reflection_body. eapply hwp_seq; [apply (hwp_reflection_seed _ _ 0)|].
  { split; [done|]. split; [by split|]. done. }
  intros h1 s1 [] Hinv1. apply hwp_bind, hwp_modify.
  unfold try_bind. apply hwp_bind, hwp_check_cost_cap.
  destruct (match ctx_cost_cap_usd ctx with Some _ => _ | None => _ end) eqn:Ecost.
  2: { apply hwp_ret. destruct (ctx_cost_cap_usd ctx); [|done].
       destruct (f64_geb _ _); [|done]. by injection Ecost as <-. }
  eapply (hwp_text_turn 0); [apply HS|exact Hinv1|lia|].
  intros draft h2 s2 Hinv2. by apply (hwp_reflection_rounds rounds (0 + 1)).
Qed.
End spec.
