(* ===== verification/Registry.v ===== *)
(** * Registries and the kernel's own tool

    [tool/mod.rs], [tool/builtin.rs] and [plugin/mod.rs]: the maps from names
    to tools, executors and provider factories, the built-in executors and
    [LoadSkillTool].  A [HashMap] is a [gmap]. *)

From S2P Require Import Prelude.
From S2P Require Import RustStr.
From S2P Require Import F64.
From S2P Require Import Json.
From S2P Require Import Errors.
From S2P Require Import Types.
From S2P Require Import Effects.
From S2P Require Import HarnessText.
From S2P Require Import Traits.
From S2P Require Import LoopHarness.
From S2P Require Import Executors.

(** ** [ToolRegistry] *)

Module ToolReg.
Definition new : ToolRegistry := ∅.
Definition add (tool : ToolObj) (r : ToolRegistry) : ToolRegistry := <[tool_name tool := tool]> r.
Definition add_arc (name : string) (tool : ToolObj) (r : ToolRegistry) : ToolRegistry :=
  <[name := tool]> r.
Definition contains (name : string) (r : ToolRegistry) : bool := bool_decide (is_Some (r !! name)).
Definition get (name : string) (r : ToolRegistry) : option ToolObj := r !! name.
Definition names `{HashOrder} (r : ToolRegistry) : list string := hash_keys r.
Definition len (r : ToolRegistry) : Z := Z.of_nat (size r).
Definition is_empty (r : ToolRegistry) : bool := bool_decide (size r = O).
End ToolReg.

(** ** [LoadSkillTool] *)

Definition LOAD_SKILL_TOOL : string := "load_skill".

Section load_skill.
Context (skills : list Skill).

Definition load_skill_schema : ToolSchema :=
  json_object
    [("type", JString "object");
     ("properties", json_object
        [("name", json_object
            [("type", JString "string");
             ("description", JString "The skill to load.");
             ("enum", JArray (map (fun s => JString (skill_name s)) skills))])]);
     ("required", JArray [JString "name"]);
     ("additionalProperties", JBool false)].

Definition available : string := join ", " (map skill_name skills).

(** The [name] field: a string that is not blank, trimmed. *)
Definition requested_name (input : json) : option string :=
  match json_get "name" input with
  | Some v =>
      match as_str v with
      | Some s => let t := trim s in if is_empty t then None else Some t
      | None => None
      end
  | None => None
  end.

Definition load_skill_run (input : json) : result ToolOutput ToolError :=
  match requested_name input with
  | None =>
      Err (ToolError_InvalidInput LOAD_SKILL_TOOL
             ("missing field `name`; available skills: " +:+ available))
  | Some name =>
      match List.find (fun s => String.eqb (skill_name s) name) skills with
      | Some s => Ok (OutText ("# Skill: " +:+ skill_name s +:+ newline +:+ newline
                                 +:+ trim (skill_body s)))
      | None =>
          Err (ToolError_InvalidInput LOAD_SKILL_TOOL
                 ("no skill named '" +:+ name +:+ "'; available skills: " +:+ available))
      end
  end.

Definition LoadSkillTool : ToolObj :=
  {| tool_name := LOAD_SKILL_TOOL;
     tool_schema := load_skill_schema;
     tool_run := fun input _ => mret (ToolReturned (load_skill_run input)) |}.
End load_skill.

(** ** [Registry] *)

Record LlmProviderFactory := mkLlmProviderFactory {
  llm_provider_name : string;
  llm_build : LlmProfileRow -> result LlmProvider ProviderError }.

Record EmbeddingProviderFactory := mkEmbeddingProviderFactory {
  emb_provider_name : string;
  emb_build : EmbeddingProfileRow -> result EmbeddingProvider ProviderError }.

Abbreviation ExecutorRegistry := (gmap string Executor).
Abbreviation LlmFactoryRegistry := (gmap string LlmProviderFactory).
Abbreviation EmbeddingFactoryRegistry := (gmap string EmbeddingProviderFactory).

Definition insert_llm_factory (f : LlmProviderFactory) (r : LlmFactoryRegistry)
  : LlmFactoryRegistry := <[llm_provider_name f := f]> r.
Definition insert_embedding_factory (f : EmbeddingProviderFactory)
    (r : EmbeddingFactoryRegistry) : EmbeddingFactoryRegistry := <[emb_provider_name f := f]> r.
Definition insert_executor (name : string) (e : Executor) (r : ExecutorRegistry)
  : ExecutorRegistry := <[name := e]> r.

Record Registry := mkRegistry {
  reg_tools : ToolRegistry;
  reg_executors : ExecutorRegistry;
  reg_llm_factories : LlmFactoryRegistry;
  reg_embedding_factories : EmbeddingFactoryRegistry;
  reg_memory : option MemoryProvider;
  reg_compressor : option Compressor }.

Definition Registry_new : Registry := mkRegistry ∅ ∅ ∅ ∅ None None.

Section builtin.
Context `{UnicodeTables, Printers, HashOrder}.

(** The executors as values of the trait.  One unit of fuel more than the
    iteration cap is enough, so the default is never returned. *)
Definition loop_fuel (ctx : ExecutionContext) : nat := S (Z.to_nat (ctx_max_iterations ctx)).

Definition run_on_fuel
    (execute : nat -> ExecutionContext -> prog (option (result ExecutorOutcome ExecutorError)))
  : Executor := fun ctx =>
  r ← execute (loop_fuel ctx) ctx;
  mret (default (Err (ExecutorError_Internal "out of fuel")) r).

Definition ConversationExecutor : Executor := run_on_fuel conversation_execute.
Definition ReActExecutor : Executor := run_on_fuel react_execute.
Definition ReflectionExecutor (max_revisions : nat) : Executor :=
  reflection_execute max_revisions.

Definition register_builtin_executors (r : Registry) : Registry :=
  mkRegistry (reg_tools r)
    (insert_executor "reflection" (ReflectionExecutor 3)
      (insert_executor "react" ReActExecutor
        (insert_executor "conversation" ConversationExecutor (reg_executors r))))
    (reg_llm_factories r) (reg_embedding_factories r) (reg_memory r) (reg_compressor r).
End builtin.

(** ** Lemmas *)

Lemma find_named (skills : list Skill) s :
  NoDup (map skill_name skills) -> s ∈ skills ->
  List.find (fun s' => String.eqb (skill_name s') (skill_name s)) skills = Some s.
Proof.
  induction skills as [|s' l IH]; simpl; intros Hnd Hin; [by inversion Hin|].
  apply NoDup_cons in Hnd as [Hn Hnd]. apply elem_of_cons in Hin as [->|Hin].
  - by rewrite String.eqb_refl.
  - destruct (String.eqb_spec (skill_name s') (skill_name s)) as [E|E]; [|by apply IH].
    destruct Hn. rewrite E. by apply list_elem_of_fmap_2.
Qed.
