(* ===== verification/Layers.v ===== *)
(** * Wrappers of a provider ([llm/retry_layer.rs], [llm/recovery_layer.rs])

    [RetryProvider] repeats a completion after a transient error, waiting in
    between for the time the server asked for, or for a jittered exponential
    backoff; [RecoveryProvider] compacts the history of a request that
    overflowed the model's window and asks again. *)

From S2P Require Import Prelude.
From S2P Require Import RustStr.
From S2P Require Import F64.
From S2P Require Import Json.
From S2P Require Import Errors.
From S2P Require Import Types.
From S2P Require Import Effects.
From S2P Require Import HarnessText.
From S2P Require Import Traits.
From S2P Require Import LoopHarness.
From S2P Require Import HarnessSpec.
From S2P Require Import ExecutorSpec.

Record RetryConfig := mkRetryConfig {
  max_retries : Z;
  base_delay_ms : Z;
  max_delay_ms : Z;
  jitter_fraction : f64 }.

Definition RetryConfig_default : RetryConfig :=
  mkRetryConfig 3 1000 30000 (f64_ratio 1 4).

Definition is_transient (err : LlmError) : bool :=
  match err with
  | LlmError_RateLimited _ _ | LlmError_Provider _ _ | LlmError_Network _ => true
  | _ => false
  end.

Definition exp_delay (config : RetryConfig) (attempt : Z) : Z :=
  let shift := Z.min attempt 63 in
  saturating_mul64 (base_delay_ms config) (Z.shiftl 1 shift).

Definition compute_delay (config : RetryConfig) (attempt : Z) (jitter_seed : f64) : Z :=
  let capped := Z.min (exp_delay config attempt) (max_delay_ms config) in
  let one := f64_of_Z 1 in
  let jitter_multiplier :=
    f64_add one (f64_mul (jitter_fraction config)
                   (f64_sub (f64_mul (f64_of_Z 2) jitter_seed) one)) in
  let jittered := f64_to_u64 (f64_round (f64_mul (f64_of_Z capped) jitter_multiplier)) in
  Z.min (Z.max jittered 1) (max_delay_ms config).

Definition retry_after_hint (err : LlmError) : option Z :=
  match err with LlmError_RateLimited _ (Some ms) => Some ms | _ => None end.

(** The mixing of the clock's nanoseconds with the thread's counter. *)
Definition random_of (nanos ctr : Z) : f64 :=
  let mixed := wrap32 (wrap32 (nanos * 2654435761) + ctr) in
  f64_div (f64_of_Z mixed) (f64_of_Z U32_MAX).

Definition cheap_random_f64 : prog f64 :=
  nanos ← perform ESystemNanos;
  ctr ← perform ECounter;
  mret (random_of (default 0 nanos) ctr).

Definition retry_delay (config : RetryConfig) (attempt : Z) (err : LlmError) : prog Z :=
  match retry_after_hint err with
  | Some hint => mret hint
  | None => seed ← cheap_random_f64; mret (compute_delay config attempt seed)
  end.

Section retry.
Context (inner : LlmProvider) (config : RetryConfig) (req : CompletionRequest).

(** The [for] loop over the attempts that are left. *)
Fixpoint retry_loop (attempts : list Z) (last_err : option LlmError)
  : prog (result CompletionResponse LlmError) :=
  match attempts with
  | [] =>
      mret (Err (default (LlmError_Provider "retry" "retry loop exited without result") last_err))
  | attempt :: rest =>
      r ← llm_complete inner req;
      match r with
      | Ok resp => mret (Ok resp)
      | Err err =>
          if negb (is_transient err) || (attempt =? max_retries config) then mret (Err err)
          else
            delay_ms ← retry_delay config attempt err;
            perform (ESleep delay_ms);;
            retry_loop rest (Some err)
      end
  end.

Definition retry_complete : prog (result CompletionResponse LlmError) :=
  retry_loop (seqZ 0 (max_retries config + 1)) None.
End retry.

Definition RetryProvider (inner : LlmProvider) (config : RetryConfig) : LlmProvider :=
  {| llm_complete := retry_complete inner config;
     llm_model_name := llm_model_name inner;
     llm_capabilities := llm_capabilities inner |}.

(** ** Lemmas *)

Definition config_wf (config : RetryConfig) : Prop :=
  in_u32 (max_retries config) /\ in_u64 (base_delay_ms config) /\ in_u64 (max_delay_ms config).

Lemma exp_delay_range config attempt :
  config_wf config -> 0 <= attempt -> in_u64 (exp_delay config attempt).
Proof.
  intros (_ & Hb & _) Ha. unfold exp_delay. rewrite Z.shiftl_1_l.
  pose proof (Z.pow_nonneg 2 (Z.min attempt 63) ltac:(lia)). unfold in_u64, saturating_mul64 in *.
  assert (0 <= base_delay_ms config * 2 ^ Z.min attempt 63) by nia. ulia.
Qed.

(** The backoff doubles until it saturates. *)
Lemma exp_delay_succ config attempt :
  config_wf config -> 0 <= attempt < 63 ->
  exp_delay config (attempt + 1) = saturating_mul64 (exp_delay config attempt) 2.
Proof.
  intros (_ & Hb & _) Ha. unfold exp_delay. rewrite !Z.shiftl_1_l, !Z.min_l by lia.
  rewrite Z.pow_add_r by lia. change (2 ^ 1) with 2.
  pose proof (Z.pow_nonneg 2 attempt ltac:(lia)). unfold in_u64 in Hb.
  unfold saturating_mul64, U64_MAX in *. nia.
Qed.

Lemma compute_delay_range config attempt seed :
  config_wf config ->
  0 <= compute_delay config attempt seed <= max_delay_ms config /\
  (1 <= max_delay_ms config -> 1 <= compute_delay config attempt seed).
Proof. intros (_ & _ & ?). unfold compute_delay. ulia. Qed.

(** The delay between two attempts: what the server asked for, or at most
    [max_delay_ms]. *)
Definition delay_ok (config : RetryConfig) (err : LlmError) (d : Z) : Prop :=
  match retry_after_hint err with
  | Some hint => d = hint
  | None => 0 <= d <= max_delay_ms config
  end.

Lemma steps_retry_delay config attempt err tr d :
  config_wf config -> steps (retry_delay config attempt err) tr d ->
  llm_exchanges tr = [] /\ pauses tr = [] /\ delay_ok config err d.
Proof.
  intros Hwf. unfold retry_delay, delay_ok. destruct (retry_after_hint err).
  - by intros [-> ->].
  - intros (n & tr1 & -> & c & tr2 & -> & -> & ->). split; [done|]. split; [done|].
    by apply compute_delay_range.
Qed.

(** What an attempt that is not the last one leaves in the trace. *)
Definition failed_attempt (config : RetryConfig) (x : LlmError * Z) : Prop :=
  is_transient x.1 = true /\ delay_ok config x.1 x.2.

Lemma steps_external {X} (e : eff X) tr x : steps (Vis e Ret) tr x -> tr = [Call e x].
Proof. simpl. naive_solver. Qed.

Lemma steps_retry_loop id model caps config req n tr r last a :
  config_wf config -> a + Z.of_nat n = max_retries config ->
  steps (retry_loop (external_llm id model caps) config req (seqZ a (Z.of_nat (S n))) last) tr r ->
  exists failed : list (LlmError * Z),
    llm_exchanges tr = map (fun x => (req, Err x.1)) failed ++ [(req, r)] /\
    pauses tr = failed.*2 /\
    Forall (failed_attempt config) failed /\
    (length failed <= n)%nat /\
    (length failed = n \/ forall e, r = Err e -> is_transient e = false).
Proof.
  intros Hwf. revert tr a last. induction n as [|n IH]; intros tr a last Ha.
  - rewrite seqZ_cons by lia. simpl. intros (x & tr' & -> & Hs). exists [].
    replace (a =? max_retries config) with true in Hs by lia.
    assert (tr' = [] /\ r = x) as [-> ->].
    { destruct x; [exact Hs|]. rewrite orb_true_r in Hs. exact Hs. }
    split_and!; auto.
  - rewrite seqZ_cons by lia. simpl retry_loop. intros (x & tr' & -> & Hs).
    destruct x as [resp|err].
    { destruct Hs as [-> ->]. exists []. split_and!; [done..|simpl; lia|by right]. }
    destruct (is_transient err) eqn:Et; simpl in Hs.
    2: { destruct Hs as [-> ->]. exists []. split_and!; [done..|simpl; lia|right; naive_solver]. }
    replace (a =? max_retries config) with false in Hs by lia.
    apply steps_bind in Hs as (tr1 & tr2 & d & -> & Hd & Hs).
    destruct Hs as (? & tr3 & -> & Hs).
    apply steps_retry_delay in Hd as (Hl1 & Hp1 & Hok); [|done].
    replace (Z.pred (Z.of_nat (S (S n)))) with (Z.of_nat (S n)) in Hs by lia.
    apply IH in Hs as (failed & Hl & Hp & Hall & Hlen & Hend); [|lia].
    exists ((err, d) :: failed). split_and!.
    + cbn. f_equal. change (omap llm_exchange) with llm_exchanges. rewrite llm_exchanges_app, Hl1. by rewrite <- Hl.
    + cbn. change (omap pause) with pauses. rewrite pauses_app, Hp1. by rewrite <- Hp.
    + constructor; [by split|done].
    + simpl. lia.
    + simpl. destruct Hend; [left; lia|by right].
Qed.

(** Wrapping a provider that leaves the sink alone gives one that does. *)
Lemma retry_provider_ok I P T inner config :
  (forall s r, P s r -> I s) ->
  ProviderOk any_env (asks I P T) P inner ->
  ProviderOk any_env (asks I P T) P (RetryProvider inner config).
Proof.
  intros HI Hinner req s HP. unfold quiet, RetryProvider, llm_complete, retry_complete.
  generalize (@None LlmError). induction (seqZ 0 (max_retries config + 1)) as [|a l IH];
    intros last; [done|]. simpl.
  eapply wp_seq; [by apply Hinner|]. intros s' [resp|err] ->; [done|].
  destruct (_ || _); [done|].
  assert (Hsleep : forall d, wp any_env (fun s' X e => asks I P T s' X e /\ s' = s)
    (perform (ESleep d);; retry_loop inner config req l (Some err)) s (fun s' _ => s' = s)).
  { intros d. split; [split; [|done]|intros [] _; apply IH].
    split; [by intros _; eapply HI|by split]. }
  unfold retry_delay. destruct (retry_after_hint err); [by apply Hsleep|].
  split; [by split; [apply passive_call|]|]. intros n _.
  split; [by split; [apply passive_call|]|]. intros c _. apply Hsleep.
Qed.

(** ** Recovery from context overflow ([llm/recovery_layer.rs])

    [RecoveryProvider] compacts the history of a request that overflowed the
    model's window and asks again. *)

Record RecoveryConfig := mkRecoveryConfig {
  max_attempts : Z;
  target_ratio : f64 }.

Definition RecoveryConfig_default : RecoveryConfig := mkRecoveryConfig 1 (f64_ratio 1 2).

(** The digest: a system message that borrows run id and time from the
    first message it replaces. *)
Definition digest_of (t : Message) (digest : string) : Message :=
  mkMessage (msg_execution_id t) 0 System (Some digest) None None None None (msg_timestamp t).

Definition summary_message (template : option Message) (digest : string) : prog Message :=
  match template with
  | Some t => mret (digest_of t digest)
  | None =>
      now ← perform EUtcNow;
      mret (mkMessage 0 0 System (Some digest) None None None None now)
  end.

(** [collapsed.iter().copied().min()] *)
Fixpoint list_min (l : list Z) : option Z :=
  match l with
  | [] => None
  | x :: l' => Some (match list_min l' with Some y => Z.min x y | None => x end)
  end.

Section rebuild.
Context (messages : list Message) (digest : string) (collapsed : list Z).

(** The digest message; the result is [None] when indexing [messages] by the
    smallest collapsed index panics. *)
Definition digest_message : prog (option Message) :=
  match list_min collapsed with
  | Some fc =>
      match messages !! Z.to_nat fc with
      | Some t => m ← summary_message (Some t) digest; mret (Some m)
      | None => mret None
      end
  | None => m ← summary_message None digest; mret (Some m)
  end.

(** The loop over [messages.iter().enumerate()], from index [i]. *)
Fixpoint rebuild_from (i : Z) (ms : list Message) (inserted : bool) (out : list Message)
  : prog (option (list Message)) :=
  match ms with
  | [] => mret (Some out)
  | m :: rest =>
      let idx := wrap32 i in
      if bool_decide (idx ∈ collapsed) then
        if inserted then rebuild_from (i + 1) rest inserted out
        else
          d ← digest_message;
          match d with
          | Some d => rebuild_from (i + 1) rest true (out ++ [d])
          | None => mret None
          end
      else rebuild_from (i + 1) rest inserted (out ++ [m])
  end.

Definition rebuild_messages : prog (option (list Message)) :=
  rebuild_from 0 messages false [].
End rebuild.

Definition set_req_messages (ms : list Message) (req : CompletionRequest) : CompletionRequest :=
  mkCompletionRequest ms (req_tools req) (req_model req) (req_temperature req)
    (req_max_tokens req) (req_params req).

Section recovery.
Context (inner : LlmProvider) (compressor : Compressor) (config : RecoveryConfig).

Definition recovery_budget (limit : Z) : CompressionBudget :=
  mkCompressionBudget (f64_to_u32 (f64_mul (f64_of_Z limit) (target_ratio config))) limit.

(** The [loop]; [None] when its fuel is gone or the rebuild panics. *)
Fixpoint recover_loop (fuel : nat) (req : CompletionRequest) (attempts : Z)
  : prog (option (result CompletionResponse LlmError)) :=
  match fuel with
  | O => mret None
  | S fuel =>
      r ← llm_complete inner req;
      match r with
      | Ok resp => mret (Some (Ok resp))
      | Err (LlmError_ContextLengthExceeded model tokens limit) =>
          let overflow := LlmError_ContextLengthExceeded model tokens limit in
          if max_attempts config <=? attempts then mret (Some (Err overflow))
          else
            c ← compress compressor (req_messages req) (recovery_budget limit);
            match c with
            | Err _ => mret (Some (Err overflow))
            | Ok c =>
                match collapsed_indices c with
                | [] => mret (Some (Err overflow))
                | _ =>
                    ms ← rebuild_messages (req_messages req) (summary c) (collapsed_indices c);
                    match ms with
                    | Some ms => recover_loop fuel (set_req_messages ms req) (attempts + 1)
                    | None => mret None
                    end
                end
            end
      | Err other => mret (Some (Err other))
      end
  end.

Definition recovery_fuel : nat := S (Z.to_nat (max_attempts config)).

Definition recovery_complete (req : CompletionRequest)
  : prog (result CompletionResponse LlmError) :=
  r ← recover_loop recovery_fuel req 0;
  mret (default (Err (LlmError_Provider "recovery" "panicked")) r).

(** [capabilities] is not among the methods [RecoveryProvider] implements,
    so the default of the trait answers. *)
Definition RecoveryProvider : LlmProvider :=
  {| llm_complete := recovery_complete;
     llm_model_name := llm_model_name inner;
     llm_capabilities := ProviderCapabilities_default |}.
End recovery.

(** ** Lemmas *)

Lemma list_min_in l m : list_min l = Some m -> m ∈ l.
Proof.
  revert m. induction l as [|x l IH]; simpl; [done|].
  destruct (list_min l) as [y|]; intros m [= <-]; [|set_solver].
  destruct (Z.min_spec x y) as [[_ ->]|[_ ->]]; [set_solver|]. right. by apply IH.
Qed.

Lemma list_min_le l m x : list_min l = Some m -> x ∈ l -> m <= x.
Proof.
  revert m. induction l as [|y l IH]; intros m; simpl; [done|].
  destruct (list_min l) as [z|] eqn:E; intros [= <-] Hx; inversion Hx as [|? ? ? Hl]; subst.
  - lia.
  - specialize (IH z eq_refl Hl). lia.
  - lia.
  - destruct l; [by inversion Hl|]. simpl in E. by destruct (list_min l).
Qed.

Lemma list_min_none l : list_min l = None -> l = [].
Proof. destruct l; [done|]. simpl. by destruct (list_min l). Qed.

(** The messages, from index [i], whose index is not in [collapsed]. *)
Fixpoint kept_from (collapsed : list Z) (i : Z) (ms : list Message) : list Message :=
  match ms with
  | [] => []
  | m :: rest =>
      if bool_decide (i ∈ collapsed) then kept_from collapsed (i + 1) rest
      else m :: kept_from collapsed (i + 1) rest
  end.

(** What [rebuild_messages] is for: the messages before the first collapsed
    one, the digest, and those of the rest that are kept. *)
Definition rebuilt (messages : list Message) (digest : string) (collapsed : list Z)
  : list Message :=
  match list_min collapsed with
  | Some fc =>
      match messages !! Z.to_nat fc with
      | Some t =>
          take (Z.to_nat fc) messages ++
          digest_of t digest :: kept_from collapsed fc (drop (Z.to_nat fc) messages)
      | None => messages
      end
  | None => messages
  end.

Lemma rebuild_from_inserted ms digest collapsed messages i out :
  0 <= i -> i + Z.of_nat (length ms) <= U32_MAX + 1 ->
  rebuild_from messages digest collapsed i ms true out =
  mret (Some (out ++ kept_from collapsed i ms)).
Proof.
  revert i out. induction ms as [|m ms IH]; intros i out Hi Hlen; simpl.
  - by rewrite app_nil_r.
  - simpl in Hlen. rewrite wrap32_small by ulia.
    destruct (bool_decide _); rewrite IH by lia; [done|]. by rewrite <- app_assoc.
Qed.

Lemma kept_from_all collapsed i ms :
  (forall j, i <= j < i + Z.of_nat (length ms) -> j ∉ collapsed) ->
  kept_from collapsed i ms = ms.
Proof.
  revert i. induction ms as [|m ms IH]; intros i Hj; simpl; [done|]. simpl in Hj.
  rewrite bool_decide_eq_false_2 by (apply Hj; lia). rewrite IH; [done|].
  intros j ?. apply Hj. lia.
Qed.

(** Before the first collapsed index, messages are copied. *)
Lemma rebuild_from_copy messages digest collapsed pre ms i out :
  0 <= i -> i + Z.of_nat (length (pre ++ ms)) <= U32_MAX + 1 ->
  (forall j, i <= j < i + Z.of_nat (length pre) -> j ∉ collapsed) ->
  rebuild_from messages digest collapsed i (pre ++ ms) false out =
  rebuild_from messages digest collapsed (i + Z.of_nat (length pre)) ms false (out ++ pre).
Proof.
  revert i out. induction pre as [|m pre IH]; intros i out Hi Hlen Hj; simpl in *.
  - by rewrite Z.add_0_r, app_nil_r.
  - rewrite wrap32_small by ulia. rewrite bool_decide_eq_false_2 by (apply Hj; lia).
    rewrite IH; [|lia..|].
    + rewrite <- app_assoc. f_equal. lia.
    + intros j ?. apply Hj. lia.
Qed.

(** The rebuild never panics, never reads the clock, and computes [rebuilt]. *)
Lemma rebuild_messages_rebuilt messages digest collapsed :
  Forall in_u32 collapsed -> Z.of_nat (length messages) <= U32_MAX + 1 ->
  rebuild_messages messages digest collapsed = mret (Some (rebuilt messages digest collapsed)).
Proof.
  intros Hc Hlen. unfold rebuild_messages, rebuilt.
  destruct (list_min collapsed) as [fc|] eqn:Emin.
  2: { apply list_min_none in Emin as ->. rewrite <- (app_nil_r messages) at 2.
       rewrite rebuild_from_copy; rewrite ?app_nil_r; [done|lia..|set_solver]. }
  pose proof (list_min_in _ _ Emin) as Hin.
  assert (Hbefore : forall j, j < fc -> j ∉ collapsed).
  { intros j Hj Hjc. pose proof (list_min_le _ _ _ Emin Hjc). lia. }
  assert (Hfc : in_u32 fc) by (by eapply Forall_forall in Hc).
  destruct (messages !! Z.to_nat fc) as [t|] eqn:Et.
  - pose proof (lookup_lt_Some _ _ _ Et) as Hlt.
    assert (Htake : length (take (Z.to_nat fc) messages) = Z.to_nat fc)
      by (rewrite length_take; lia).
    rewrite <- (take_drop (Z.to_nat fc) messages) at 2.
    rewrite rebuild_from_copy; rewrite ?take_drop, ?Htake; [|ulia..|intros; apply Hbefore; ulia].
    replace (0 + Z.of_nat (Z.to_nat fc)) with fc by ulia.
    rewrite (drop_S _ _ _ Et). simpl. rewrite wrap32_small by done.
    rewrite bool_decide_eq_true_2 by done. unfold digest_message. rewrite Emin, Et. simpl.
    rewrite rebuild_from_inserted; [|ulia|rewrite length_drop; ulia].
    by rewrite <- app_assoc.
  - apply lookup_ge_None in Et. rewrite <- (app_nil_r messages) at 2.
    rewrite rebuild_from_copy; rewrite ?app_nil_r; [done|lia..|intros; apply Hbefore; ulia].
Qed.

Lemma length_kept_from collapsed i ms : (length (kept_from collapsed i ms) <= length ms)%nat.
Proof.
  revert i. induction ms as [|m ms IH]; intros i; simpl; [done|]. specialize (IH (i + 1)).
  destruct (bool_decide _); simpl; lia.
Qed.

(** Compaction never lengthens a history. *)
Lemma length_rebuilt messages digest collapsed :
  Forall in_u32 collapsed -> (length (rebuilt messages digest collapsed) <= length messages)%nat.
Proof.
  intros Hc. unfold rebuilt. destruct (list_min collapsed) as [fc|] eqn:E; [|done].
  destruct (messages !! Z.to_nat fc) as [t|] eqn:Et; [|done].
  pose proof (lookup_lt_Some _ _ _ Et) as Hlt. pose proof (list_min_in _ _ E) as Hin.
  assert (in_u32 fc) by (by eapply Forall_forall in Hc).
  rewrite (drop_S _ _ _ Et). cbn [kept_from]. rewrite bool_decide_eq_true_2 by done.
  rewrite length_app, length_take. simpl.
  pose proof (length_kept_from collapsed (fc + 1) (drop (S (Z.to_nat fc)) messages)) as Hk.
  rewrite length_drop in Hk. lia.
Qed.
