(* ===== verification/Runtime.v ===== *)
(** * The runtime ([runtime/])

    [RuntimeBuilder::build] turns profile rows into providers; [Runtime]
    resolves an agent row into an execution context, runs its executor under
    the wall-clock backstop, embeds text and calls tools directly. *)

From S2P Require Import Prelude.
From S2P Require Import RustStr.
From S2P Require Import F64.
From S2P Require Import Json.
From S2P Require Import Errors.
From S2P Require Import Types.
From S2P Require Import Effects.
From S2P Require Import HarnessText.
From S2P Require Import Traits.
From S2P Require Import LoopHarness.
From S2P Require Import Registry.
From S2P Require Import Layers.

(** ** Rows and sources *)

(** [types/profile.rs] *)
Record AgentRow := mkAgentRow {
  ar_name : string;
  ar_system_prompt : string;
  ar_soul : option string;
  ar_executor_name : string;
  ar_llm_profile_main : option string;
  ar_llm_profile_small : option string;
  ar_llm_profile_judge : option string;
  ar_embedding_profile : option string;
  ar_tools : list string;
  ar_max_iterations : Z;
  ar_timeout_ms : Z;
  ar_cost_cap_usd : option f64;
  ar_trace_level : option string;
  ar_components : Harness }.

Abbreviation Secrets := (gmap string string).

(** The trait [ProfileSource]: implemented by the hosts. *)
Record ProfileSource := mkProfileSource {
  src_llm_profiles : prog (result (list LlmProfileRow) RuntimeError);
  src_embedding_profiles : prog (result (list EmbeddingProfileRow) RuntimeError);
  src_agents : prog (result (list AgentRow) RuntimeError);
  src_secrets : list string -> prog (result Secrets RuntimeError) }.

(** ** Secrets ([runtime/resolver.rs]) *)

(** The two loops over [api_key_secret] share [seen] and [out]. *)
Fixpoint collect_secrets (names : list (option string)) (seen : gset string) (out : list string)
  : gset string * list string :=
  match names with
  | [] => (seen, out)
  | Some name :: rest =>
      if bool_decide (name ∈ seen) then collect_secrets rest seen out
      else collect_secrets rest ({[name]} ∪ seen) (out ++ [name])
  | None :: rest => collect_secrets rest seen out
  end.

Definition collect_secret_names (llm_profiles : list LlmProfileRow)
    (embedding_profiles : list EmbeddingProfileRow) : list string :=
  let '(seen, out) := collect_secrets (map llm_api_key_secret llm_profiles) ∅ [] in
  (collect_secrets (map emb_api_key_secret embedding_profiles) seen out).2.

Definition RESOLVED_KEY : string := "_resolved_api_key".

Definition inject_resolved_key (params : json) (secret_name : option string)
    (secrets : Secrets) : json :=
  match secret_name with
  | None => params
  | Some name =>
      match secrets !! name with
      | None => params
      | Some val =>
          let obj := match params with JObject m => m | _ => [] end in
          JObject (obj_insert RESOLVED_KEY (JString val) obj)
      end
  end.

(** ** The runtime value *)

Record Runtime := mkRuntime {
  rt_registry : Registry;
  rt_llm_providers : gmap string LlmProvider;
  rt_embedding_providers : gmap string EmbeddingProvider;
  rt_agents : gmap string AgentRow;
  rt_default_embedding_profile : option string;
  rt_interrupt_check : option InterruptCheck }.

(** ** [RuntimeBuilder] ([runtime/builder.rs]) *)

Record RuntimeBuilder := mkRuntimeBuilder {
  rb_registry : Registry;
  rb_profile_source : option ProfileSource;
  rb_default_embedding_profile : option string;
  rb_inline_llm_profiles : list LlmProfileRow;
  rb_inline_embedding_profiles : list EmbeddingProfileRow;
  rb_inline_agents : list AgentRow;
  rb_inline_secrets : Secrets;
  rb_retry_config : option RetryConfig;
  rb_interrupt_check : option InterruptCheck }.

Definition set_params (params : json) (p : LlmProfileRow) : LlmProfileRow :=
  mkLlmProfileRow (llm_name p) (llm_provider p) (llm_model p) (llm_api_key_secret p)
    (llm_base_url p) params.
Definition set_embedding_params (params : json) (p : EmbeddingProfileRow)
  : EmbeddingProfileRow :=
  mkEmbeddingProfileRow (emb_name p) (emb_provider p) (emb_model p) (emb_dimension p)
    (emb_api_key_secret p) (emb_base_url p) params.

(** One pass of the loop that hydrates LLM providers. *)
Definition hydrate_llm (b : RuntimeBuilder) (secrets : Secrets) (profile : LlmProfileRow)
  : result LlmProvider RuntimeError :=
  match reg_llm_factories (rb_registry b) !! llm_provider profile with
  | None => Err (RuntimeError_Provider (ProviderError_NotRegistered (llm_provider profile)))
  | Some factory =>
      let p := set_params
                 (inject_resolved_key (llm_params profile) (llm_api_key_secret profile) secrets)
                 profile in
      match llm_build factory p with
      | Err e => Err (RuntimeError_Provider e)
      | Ok provider =>
          Ok (match rb_retry_config b with
              | Some cfg => RetryProvider provider cfg
              | None => provider
              end)
      end
  end.

Definition hydrate_embedding (b : RuntimeBuilder) (secrets : Secrets)
    (profile : EmbeddingProfileRow) : result EmbeddingProvider RuntimeError :=
  match reg_embedding_factories (rb_registry b) !! emb_provider profile with
  | None => Err (RuntimeError_Provider (ProviderError_NotRegistered (emb_provider profile)))
  | Some factory =>
      map_err RuntimeError_Provider
        (emb_build factory
           (set_embedding_params
              (inject_resolved_key (emb_params profile) (emb_api_key_secret profile) secrets)
              profile))
  end.

(** [for p in &profiles { map.insert(name(p), hydrate(p)?) }] *)
Fixpoint hydrate_all {P V} (hydrate : P -> result V RuntimeError) (name : P -> string)
    (profiles : list P) (acc : gmap string V) : result (gmap string V) RuntimeError :=
  match profiles with
  | [] => Ok acc
  | p :: rest =>
      match hydrate p with
      | Ok v => hydrate_all hydrate name rest (<[name p := v]> acc)
      | Err e => Err e
      end
  end.

Definition index_agents (agents : list AgentRow) : gmap string AgentRow :=
  fold_left (fun m a => <[ar_name a := a]> m) agents ∅.

(** Steps 2 to 4 of [build], on the gathered rows. *)
Definition assemble (b : RuntimeBuilder) (llm_profiles : list LlmProfileRow)
    (embedding_profiles : list EmbeddingProfileRow) (agents : list AgentRow)
    (secrets : Secrets) : result Runtime RuntimeError :=
  match hydrate_all (hydrate_llm b secrets) llm_name llm_profiles ∅ with
  | Err e => Err e
  | Ok llm_providers =>
      match hydrate_all (hydrate_embedding b secrets) emb_name embedding_profiles ∅ with
      | Err e => Err e
      | Ok embedding_providers =>
          Ok (mkRuntime (rb_registry b) llm_providers embedding_providers (index_agents agents)
                (rb_default_embedding_profile b) (rb_interrupt_check b))
      end
  end.

(** [secrets.entry(k).or_insert(v)] for every fetched pair: inline secrets
    win. *)
Definition merge_secrets (inline fetched : Secrets) : Secrets := inline ∪ fetched.

Definition build (b : RuntimeBuilder) : prog (result Runtime RuntimeError) :=
  match rb_profile_source b with
  | None =>
      mret (assemble b (rb_inline_llm_profiles b) (rb_inline_embedding_profiles b)
              (rb_inline_agents b) (rb_inline_secrets b))
  | Some src =>
      prog_try (src_llm_profiles src) (fun llm =>
      prog_try (src_embedding_profiles src) (fun emb =>
      prog_try (src_agents src) (fun ags =>
        let llm_profiles := rb_inline_llm_profiles b ++ llm in
        let embedding_profiles := rb_inline_embedding_profiles b ++ emb in
        let agents := rb_inline_agents b ++ ags in
        let needed := collect_secret_names llm_profiles embedding_profiles in
        match needed with
        | [] => mret (assemble b llm_profiles embedding_profiles agents (rb_inline_secrets b))
        | _ =>
            prog_try (src_secrets src needed) (fun fetched =>
              mret (assemble b llm_profiles embedding_profiles agents
                      (merge_secrets (rb_inline_secrets b) fetched)))
        end)))
  end.

(** ** [Runtime] ([runtime/mod.rs]) *)

Definition budget_grace (budget : Z) : Z :=
  clamp (from_millis 50) (from_millis 5000) (budget / 10).

Section runtime.
Context (rt : Runtime).

Definition NO_LLM_PROFILE : string :=
  "no LLM profile for this agent: it does not name one and no default is configured for its tier (see pg_synapse.default_llm_profile_main / _small)".

Definition resolve_llm (name : option string) : result LlmProvider RuntimeError :=
  match name with
  | None => Err (RuntimeError_Config NO_LLM_PROFILE)
  | Some key =>
      ok_or (rt_llm_providers rt !! key)
        (RuntimeError_Provider (ProviderError_NotRegistered ("llm profile '" +:+ key +:+ "'")))
  end.

Definition resolve_tools (allowed : list string) : ToolRegistry :=
  fold_left (fun sub name =>
    match reg_tools (rt_registry rt) !! name with
    | Some t => ToolReg.add_arc name t sub
    | None => sub
    end) allowed ToolReg.new.

Definition optional_provider {A} (m : gmap string A) (name : option string) : option A :=
  match name with Some p => m !! p | None => None end.

(** The tools of the execution: the allow list, and the skill loader when
    the agent has skills. *)
Definition agent_tools (agent : AgentRow) : ToolRegistry :=
  let tools := resolve_tools (ar_tools agent) in
  match skills (ar_components agent) with
  | [] => tools
  | ss => ToolReg.add (LoadSkillTool ss) tools
  end.

Definition effective_timeout (agent : AgentRow) (max_timeout : option Z) : Z :=
  match max_timeout with
  | Some cap => Z.min (from_millis (ar_timeout_ms agent)) cap
  | None => from_millis (ar_timeout_ms agent)
  end.

Definition agent_progress (agent : AgentRow) : option ProgressSink :=
  if from_millis (ar_timeout_ms agent) =? 0 then None else Some TheSink.

Definition agent_trace_level (agent : AgentRow) : TraceLevel :=
  match ar_trace_level agent with
  | Some s => match TraceLevel_from_str s with Ok l => l | Err _ => TraceLevel_default end
  | None => TraceLevel_default
  end.

(** The execution context of an agent whose main provider is [llm]. *)
Definition agent_context (agent : AgentRow) (llm : LlmProvider) (id : Uuid) (input : string)
    (caller_role : option string) (max_timeout : option Z) : ExecutionContext :=
  {| ctx_execution_id := id;
     ctx_agent_name := ar_name agent;
     ctx_system_prompt := ar_system_prompt agent;
     ctx_soul := ar_soul agent;
     ctx_input := input;
     ctx_executor_name := ar_executor_name agent;
     ctx_tools := agent_tools agent;
     ctx_llm := llm;
     ctx_judge_llm := optional_provider (rt_llm_providers rt) (ar_llm_profile_judge agent);
     ctx_small_llm := optional_provider (rt_llm_providers rt) (ar_llm_profile_small agent);
     ctx_embeddings :=
       optional_provider (rt_embedding_providers rt) (ar_embedding_profile agent);
     ctx_memory := reg_memory (rt_registry rt);
     ctx_compressor := reg_compressor (rt_registry rt);
     ctx_max_iterations := ar_max_iterations agent;
     ctx_timeout := effective_timeout agent max_timeout;
     ctx_cost_cap_usd := ar_cost_cap_usd agent;
     ctx_caller_role := caller_role;
     ctx_trace_level := agent_trace_level agent;
     ctx_interrupt_check := rt_interrupt_check rt;
     ctx_harness := ar_components agent;
     ctx_progress := agent_progress agent |}.

Definition set_out_status (st : OutcomeStatus) (ms : Z) (o : ExecutorOutcome) : ExecutorOutcome :=
  mkExecutorOutcome (out_output o) (out_messages o) (out_tool_calls o) (out_tokens_in o)
    (out_tokens_out o) (out_cost_usd o) ms st (out_events o).

(** The outcome of a run that the backstop cut, [s] being its sink. *)
Definition cut_outcome (ctx : ExecutionContext) (hard_stop : Z) (s : ExecutorOutcome)
  : ExecutorOutcome :=
  let partial := match ctx_progress ctx with Some _ => s | None => ExecutorOutcome_default end in
  set_out_status TimedOut (as_millis_u64 hard_stop) partial.

(** The run under the wall-clock backstop. *)
Definition run_bounded (executor : Executor) (ctx : ExecutionContext)
  : prog (result ExecutorOutcome RuntimeError) :=
  let budget := ctx_timeout ctx in
  if budget =? 0 then
    r ← executor ctx; mret (map_err RuntimeError_Executor r)
  else
    let hard_stop := budget + budget_grace budget in
    r ← with_backstop hard_stop ExecutorOutcome_default (executor ctx);
    mret (match r with
          | inl r => map_err RuntimeError_Executor r
          | inr s => Ok (cut_outcome ctx hard_stop s)
          end).

Definition needs_tool_use (agent : AgentRow) : bool :=
  negb (bool_decide (ar_tools agent = [])) || negb (ToolReg.is_empty (agent_tools agent)).

(** The checks before a run, in their order. *)
Definition preflight (agent_name : string)
  : result (AgentRow * LlmProvider * Executor) RuntimeError :=
  match rt_agents rt !! agent_name with
  | None => Err (RuntimeError_AgentNotFound agent_name)
  | Some agent =>
      match resolve_llm (ar_llm_profile_main agent) with
      | Err e => Err e
      | Ok llm =>
          match reg_executors (rt_registry rt) !! ar_executor_name agent with
          | None =>
              Err (RuntimeError_Config
                     ("executor '" +:+ ar_executor_name agent +:+ "' not registered for agent '"
                        +:+ agent_name +:+ "'"))
          | Some executor =>
              if needs_tool_use agent && negb (tool_use (llm_capabilities llm)) then
                Err (RuntimeError_Config
                       ("agent '" +:+ agent_name +:+ "' has tools but its LLM provider ('"
                          +:+ llm_model_name llm +:+ "') does not support tool_use"))
              else Ok (agent, llm, executor)
          end
      end
  end.

Definition execute_inner (agent_name input : string) (caller_role : option string)
    (max_timeout : option Z) : prog (result ExecutorOutcome RuntimeError) :=
  match preflight agent_name with
  | Err e => mret (Err e)
  | Ok (agent, llm, executor) =>
      id ← perform EUuid;
      run_bounded executor (agent_context agent llm id input caller_role max_timeout)
  end.

Definition execute (agent_name input : string) : prog (result ExecutorOutcome RuntimeError) :=
  execute_inner agent_name input None None.
Definition execute_with_caller (agent_name input : string) (caller_role : option string)
  : prog (result ExecutorOutcome RuntimeError) :=
  execute_inner agent_name input caller_role None.
Definition execute_with_budget (agent_name input : string) (caller_role : option string)
    (max_timeout : Z) : prog (result ExecutorOutcome RuntimeError) :=
  execute_inner agent_name input caller_role (Some max_timeout).

Definition embed (text : string) (profile : option string)
  : prog (result EmbeddingVector RuntimeError) :=
  match (match profile with Some p => Some p | None => rt_default_embedding_profile rt end) with
  | None => mret (Err (RuntimeError_Config "no embedding profile specified"))
  | Some key =>
      match rt_embedding_providers rt !! key with
      | None =>
          mret (Err (RuntimeError_Config ("embedding profile '" +:+ key +:+ "' not registered")))
      | Some provider =>
          r ← embed_texts provider [text];
          mret (match r with
                | Ok vectors => Ok (default [] (last vectors))
                | Err e =>
                    Err (RuntimeError_Config ("embedding error: " +:+ EmbeddingError_to_string e))
                end)
      end
  end.

(** A panic of the tool is not caught here: it unwinds to the caller. *)
Definition call_tool (name : string) (input : json) (caller_role : option string)
  : prog (result json RuntimeError + panic_payload) :=
  match reg_tools (rt_registry rt) !! name with
  | None => mret (inl (Err (RuntimeError_Config ("tool '" +:+ name +:+ "' not registered"))))
  | Some tool =>
      id ← perform EUuid;
      a ← tool_run tool input (mkToolCtx id caller_role None);
      mret (match a with
            | ToolReturned (Ok out) => inl (Ok (output_to_json out))
            | ToolReturned (Err e) =>
                inl (Err (RuntimeError_Config
                            ("tool '" +:+ name +:+ "' failed: " +:+ ToolError_to_string e)))
            | ToolPanicked p => inr p
            end)
  end.

Definition has_agent (name : string) : bool := bool_decide (is_Some (rt_agents rt !! name)).

Definition provider_capabilities (profile : string) : option ProviderCapabilities :=
  llm_capabilities <$> rt_llm_providers rt !! profile.
End runtime.
