(* ===== verification/Builder.v ===== *)
(** * Plugins and the runtime builder ([plugin/mod.rs], [runtime/builder.rs],
    the accessors and the test source of [runtime/mod.rs])

    The fluent methods of [RuntimeBuilder], the look-ups of the registries, the
    plugin trait, and [MockProfileSource]. *)

From S2P Require Import Prelude.
From S2P Require Import RustStr.
From S2P Require Import Json.
From S2P Require Import Errors.
From S2P Require Import Types.
From S2P Require Import Effects.
From S2P Require Import Traits.
From S2P Require Import LoopHarness.
From S2P Require Import Registry.
From S2P Require Import Layers.
From S2P Require Import Runtime.

(** ** Registries by name

    [ExecutorRegistry], [LlmFactoryRegistry] and [EmbeddingFactoryRegistry]
    have the same look-ups. *)
Module NamedReg.
Definition get {V} (name : string) (r : gmap string V) : option V := r !! name.
Definition names `{HashOrder} {V} (r : gmap string V) : list string := hash_keys r.
Definition contains {V} (name : string) (r : gmap string V) : bool :=
  bool_decide (is_Some (r !! name)).
Definition len {V} (r : gmap string V) : Z := Z.of_nat (size r).
Definition is_empty {V} (r : gmap string V) : bool := bool_decide (size r = O).
End NamedReg.

(** The trait [Plugin]. *)
Record Plugin := mkPlugin {
  plugin_name : string;
  plugin_version : string;
  plugin_register : Registry -> Registry }.

(** The version every crate of the workspace has. *)
Definition CARGO_PKG_VERSION : string := "0.2.0".

Definition with_llm_factory (f : LlmProviderFactory) (r : Registry) : Registry :=
  mkRegistry (reg_tools r) (reg_executors r) (insert_llm_factory f (reg_llm_factories r))
    (reg_embedding_factories r) (reg_memory r) (reg_compressor r).
Definition with_embedding_factory (f : EmbeddingProviderFactory) (r : Registry) : Registry :=
  mkRegistry (reg_tools r) (reg_executors r) (reg_llm_factories r)
    (insert_embedding_factory f (reg_embedding_factories r)) (reg_memory r) (reg_compressor r).

(** ** The fluent methods *)

Section builder.
Context `{UnicodeTables, Printers, HashOrder}.

Definition RuntimeBuilder_new : RuntimeBuilder :=
  {| rb_registry := register_builtin_executors Registry_new;
     rb_profile_source := None;
     rb_default_embedding_profile := None;
     rb_inline_llm_profiles := [];
     rb_inline_embedding_profiles := [];
     rb_inline_agents := [];
     rb_inline_secrets := ∅;
     rb_retry_config := None;
     rb_interrupt_check := None |}.

(** [Runtime::builder] *)
Definition builder : RuntimeBuilder := RuntimeBuilder_new.
End builder.

Definition with_plugin (p : Plugin) (b : RuntimeBuilder) : RuntimeBuilder :=
  let '(mkRuntimeBuilder r s d l e a sec rc ic) := b in
  mkRuntimeBuilder (plugin_register p r) s d l e a sec rc ic.
Definition with_llm_profile (p : LlmProfileRow) (b : RuntimeBuilder) : RuntimeBuilder :=
  let '(mkRuntimeBuilder r s d l e a sec rc ic) := b in
  mkRuntimeBuilder r s d (l ++ [p]) e a sec rc ic.
Definition with_embedding_profile (p : EmbeddingProfileRow) (b : RuntimeBuilder)
  : RuntimeBuilder :=
  let '(mkRuntimeBuilder r s d l e a sec rc ic) := b in
  mkRuntimeBuilder r s d l (e ++ [p]) a sec rc ic.
Definition with_agent (x : AgentRow) (b : RuntimeBuilder) : RuntimeBuilder :=
  let '(mkRuntimeBuilder r s d l e a sec rc ic) := b in
  mkRuntimeBuilder r s d l e (a ++ [x]) sec rc ic.
Definition with_secret (name value : string) (b : RuntimeBuilder) : RuntimeBuilder :=
  let '(mkRuntimeBuilder r s d l e a sec rc ic) := b in
  mkRuntimeBuilder r s d l e a (<[name := value]> sec) rc ic.
Definition with_default_embedding_profile (name : string) (b : RuntimeBuilder)
  : RuntimeBuilder :=
  let '(mkRuntimeBuilder r s d l e a sec rc ic) := b in
  mkRuntimeBuilder r s (Some name) l e a sec rc ic.
Definition load_profiles_from (source : ProfileSource) (b : RuntimeBuilder) : RuntimeBuilder :=
  let '(mkRuntimeBuilder r s d l e a sec rc ic) := b in
  mkRuntimeBuilder r (Some source) d l e a sec rc ic.
Definition with_retry_config (config : RetryConfig) (b : RuntimeBuilder) : RuntimeBuilder :=
  let '(mkRuntimeBuilder r s d l e a sec rc ic) := b in
  mkRuntimeBuilder r s d l e a sec (Some config) ic.
Definition with_interrupt_check (check : InterruptCheck) (b : RuntimeBuilder) : RuntimeBuilder :=
  let '(mkRuntimeBuilder r s d l e a sec rc ic) := b in
  mkRuntimeBuilder r s d l e a sec rc (Some check).

(** ** Accessors of [Runtime]

    Iteration is in the order of the hash maps. *)

Definition registry (rt : Runtime) : Registry := rt_registry rt.
Definition agents `{HashOrder} (rt : Runtime) : list AgentRow :=
  omap (fun k => rt_agents rt !! k) (hash_keys (rt_agents rt)).
Definition llm_profile_names `{HashOrder} (rt : Runtime) : list string :=
  hash_keys (rt_llm_providers rt).
Definition embedding_profile_names `{HashOrder} (rt : Runtime) : list string :=
  hash_keys (rt_embedding_providers rt).

(** ** [test_utils::MockProfileSource] *)

Record MockProfileSource := mkMockProfileSource {
  mps_llm : list LlmProfileRow;
  mps_embeddings : list EmbeddingProfileRow;
  mps_agents : list AgentRow;
  mps_secrets : Secrets;
  mps_force_error : option string }.

Module Mock.
Definition new : MockProfileSource := mkMockProfileSource [] [] [] ∅ None.
Definition with_llm_profile (p : LlmProfileRow) (m : MockProfileSource) : MockProfileSource :=
  mkMockProfileSource (mps_llm m ++ [p]) (mps_embeddings m) (mps_agents m) (mps_secrets m)
    (mps_force_error m).
Definition with_embedding_profile (p : EmbeddingProfileRow) (m : MockProfileSource)
  : MockProfileSource :=
  mkMockProfileSource (mps_llm m) (mps_embeddings m ++ [p]) (mps_agents m) (mps_secrets m)
    (mps_force_error m).
Definition with_agent (a : AgentRow) (m : MockProfileSource) : MockProfileSource :=
  mkMockProfileSource (mps_llm m) (mps_embeddings m) (mps_agents m ++ [a]) (mps_secrets m)
    (mps_force_error m).
Definition with_secret (name value : string) (m : MockProfileSource) : MockProfileSource :=
  mkMockProfileSource (mps_llm m) (mps_embeddings m) (mps_agents m)
    (<[name := value]> (mps_secrets m)) (mps_force_error m).
Definition force_error (reason : string) (m : MockProfileSource) : MockProfileSource :=
  mkMockProfileSource (mps_llm m) (mps_embeddings m) (mps_agents m) (mps_secrets m) (Some reason).

(** Every query of the source fails once an error is forced. *)
Definition answer {A} (m : MockProfileSource) (a : A) : prog (result A RuntimeError) :=
  mret (match mps_force_error m with
        | Some reason => Err (RuntimeError_Config reason)
        | None => Ok a
        end).

Definition resolve (names : list string) (secrets : Secrets) : Secrets :=
  fold_left (fun out n => match secrets !! n with Some v => <[n := v]> out | None => out end)
    names ∅.

Definition source (m : MockProfileSource) : ProfileSource :=
  {| src_llm_profiles := answer m (mps_llm m);
     src_embedding_profiles := answer m (mps_embeddings m);
     src_agents := answer m (mps_agents m);
     src_secrets := fun names => answer m (resolve names (mps_secrets m)) |}.
End Mock.

(** ** Lemmas *)

Lemma resolve_lookup names secrets n :
  Mock.resolve names secrets !! n = if bool_decide (n ∈ names) then secrets !! n else None.
Proof.
  unfold Mock.resolve.
  assert (Hgen : forall acc : Secrets,
    fold_left (fun out n => match secrets !! n with Some v => <[n := v]> out | None => out end)
      names acc !! n =
    match (if bool_decide (n ∈ names) then secrets !! n else None) with
    | Some v => Some v | None => acc !! n end).
  { induction names as [|k l IH]; intros acc; [done|]. simpl. rewrite IH. clear IH.
    destruct (decide (n = k)) as [->|Hne].
    - rewrite (bool_decide_eq_true_2 (k ∈ k :: l)) by set_solver.
      destruct (secrets !! k) eqn:E; destruct (bool_decide _); try done; by rewrite lookup_insert_eq.
    - rewrite (bool_decide_ext (n ∈ k :: l) (n ∈ l)) by set_solver.
      destruct (if bool_decide (n ∈ l) then _ else _); [done|].
      destruct (secrets !! k); [|done]. by rewrite lookup_insert_ne. }
  rewrite Hgen. by destruct (if bool_decide _ then _ else _).
Qed.

(** Looking through the agents for a name is looking the name up. *)
Lemma agents_find `{HashOrderSpec} rt n :
  (forall k a, rt_agents rt !! k = Some a -> ar_name a = k) ->
  List.find (fun a => String.eqb (ar_name a) n) (agents rt) = rt_agents rt !! n.
Proof.
  intros Hkeys. unfold agents.
  assert (Hin : forall k, k ∈ hash_keys (rt_agents rt) <-> is_Some (rt_agents rt !! k)).
  { intros k. rewrite (hash_keys_perm _ (rt_agents rt)), list_elem_of_fmap. split.
    - intros ([k' a] & -> & Hm%elem_of_map_to_list). by exists a.
    - intros [a Ha]. exists (k, a). split; [done|]. by apply elem_of_map_to_list. }
  destruct (rt_agents rt !! n) as [a|] eqn:E.
  - assert (n ∈ hash_keys (rt_agents rt)) as Hn by (apply Hin; by exists a).
    clear Hin. induction (hash_keys (rt_agents rt)) as [|k l IH]; [by inversion Hn|]. simpl.
    destruct (rt_agents rt !! k) as [b|] eqn:Eb; simpl.
    + destruct (String.eqb_spec (ar_name b) n) as [Hb|Hb].
      * rewrite (Hkeys _ _ Eb) in Hb. congruence.
      * apply IH. apply elem_of_cons in Hn as [->|]; [|done]. by rewrite (Hkeys _ _ Eb) in Hb.
    + apply IH. apply elem_of_cons in Hn as [->|]; [congruence|done].
  - destruct (List.find _ _) as [b|] eqn:Eb; [|done].
    apply List.find_some in Eb as [Hb Hname%String.eqb_eq].
    apply list_elem_of_In, list_elem_of_omap in Hb as (k & Hk & Hkb).
    rewrite (Hkeys _ _ Hkb) in Hname. congruence.
Qed.
