(* ===== verification/RuntimeSpec.v ===== *)
(** * What the runtime guarantees: lemmas

    The backstop, the maps the builder fills, the sub-registry of an agent
    and the secrets. *)

From S2P Require Import Prelude.
From S2P Require Import RustStr.
From S2P Require Import F64.
From S2P Require Import Json.
From S2P Require Import Errors.
From S2P Require Import Types.
From S2P Require Import Effects.
From S2P Require Import HarnessText.
From S2P Require Import Traits.
From S2P Require Import LoopHarness.
From S2P Require Import HarnessSpec.
From S2P Require Import Executors.
From S2P Require Import ExecutorSpec.
From S2P Require Import Registry.
From S2P Require Import Layers.
From S2P Require Import Runtime.

(** ** The backstop *)

(** The request is raced against a timer of [d]. *)
Definition raced (d : Z) {X} (e : eff X) : Prop :=
  match e with ERace d' _ => d' = d | _ => False end.

Definition awaits_raced (P : Z -> Prop) : call_pred := fun _ _ e =>
  suspends e = true -> exists d, raced d e /\ P d.

(** Under a backstop every await is raced, whatever the executor. *)
Lemma wp_backstop_raced {A} (P : Z -> Prop) d (p : prog A) s s0 :
  P d -> wp any_env (awaits_raced P) (with_backstop d s0 p) s (fun _ _ => True).
Proof.
  intros Hd. revert s s0. induction p as [a|X e k IH]; intros s s0; [done|]. simpl.
  destruct (suspends e) eqn:E; simpl.
  - split; [by intros _; exists d|]. intros [x|] _; [apply IH|done].
  - split; [by unfold awaits_raced; rewrite E|]. intros x _. apply IH.
Qed.

Lemma budget_grace_bounds budget :
  from_millis 50 <= budget_grace budget <= from_millis 5000.
Proof. unfold budget_grace, clamp, from_millis, NANOS_PER_MILLI. lia. Qed.

(** ** Maps *)

(** The last row of the name. *)
Definition last_named {P} (name : P -> string) (n : string) (l : list P) : option P :=
  last (List.filter (fun p => String.eqb (name p) n) l).

Lemma last_named_cons {P} (name : P -> string) n p l :
  last_named name n (p :: l) =
  match last_named name n l with
  | Some q => Some q
  | None => if String.eqb (name p) n then Some p else None
  end.
Proof.
  unfold last_named. simpl. destruct (String.eqb (name p) n).
  - rewrite last_cons. by destruct (last _).
  - by destruct (last _).
Qed.

Lemma hydrate_all_ok {P V} (hydrate : P -> result V RuntimeError) name l acc m :
  hydrate_all hydrate name l acc = Ok m ->
  (forall p, p ∈ l -> exists v, hydrate p = Ok v) /\
  forall n, match last_named name n l with
            | Some p => exists v, hydrate p = Ok v /\ m !! n = Some v
            | None => m !! n = acc !! n
            end.
Proof.
  revert acc. induction l as [|p l IH]; intros acc; simpl.
  { intros [= <-]. split; [set_solver|done]. }
  destruct (hydrate p) as [v|e] eqn:E; [|done]. intros Hm.
  destruct (IH _ Hm) as [Hall Hn]. split.
  - intros q [->|Hq]%elem_of_cons; eauto.
  - intros n. specialize (Hn n). rewrite last_named_cons.
    destruct (last_named name n l); [done|].
    destruct (String.eqb_spec (name p) n) as [<-|Hne].
    + exists v. by rewrite Hn, lookup_insert_eq.
    + by rewrite Hn, lookup_insert_ne.
Qed.

(** The first row that cannot be hydrated ends the build. *)
Lemma hydrate_all_err {P V} (hydrate : P -> result V RuntimeError) name l acc e :
  hydrate_all hydrate name l acc = Err e <->
  exists l1 p l2, l = l1 ++ p :: l2 /\ hydrate p = Err e /\
    Forall (fun q => is_ok (hydrate q) = true) l1.
Proof.
  revert acc. induction l as [|p l IH]; intros acc; simpl.
  { split; [done|]. intros ([] & ? & ? & ? & _); done. }
  destruct (hydrate p) as [v|e'] eqn:E.
  - rewrite IH. split.
    + intros (l1 & q & l2 & -> & ? & ?). exists (p :: l1), q, l2. split_and!; try done.
      constructor; [by rewrite E|done].
    + intros ([|p' l1] & q & l2 & [= -> ->] & Hq & Hall); [congruence|].
      inversion Hall; subst. by exists l1, q, l2.
  - split.
    + intros [= ->]. by exists [], p, l.
    + intros ([|p' l1] & q & l2 & [= -> ->] & Hq & Hall); [congruence|].
      inversion Hall as [|? ? Hok]; subst. by rewrite E in Hok.
Qed.

Lemma index_agents_last l n :
  index_agents l !! n = last_named ar_name n l.
Proof.
  unfold index_agents.
  assert (Hgen : forall acc : gmap string AgentRow,
    fold_left (fun m a => <[ar_name a := a]> m) l acc !! n =
    match last_named ar_name n l with Some a => Some a | None => acc !! n end).
  { induction l as [|a l IH]; intros acc; [done|]. simpl. rewrite IH, last_named_cons.
    destruct (last_named ar_name n l); [done|].
    destruct (String.eqb_spec (ar_name a) n) as [<-|?].
    - by rewrite lookup_insert_eq.
    - by rewrite lookup_insert_ne. }
  rewrite Hgen. by destruct (last_named _ _ _).
Qed.

(** ** Sub-registries *)

Lemma resolve_tools_lookup rt allowed n :
  resolve_tools rt allowed !! n =
  if bool_decide (n ∈ allowed) then reg_tools (rt_registry rt) !! n else None.
Proof.
  unfold resolve_tools.
  assert (Hgen : forall acc : ToolRegistry,
    fold_left (fun sub name => match reg_tools (rt_registry rt) !! name with
      | Some t => ToolReg.add_arc name t sub | None => sub end) allowed acc !! n =
    match (if bool_decide (n ∈ allowed) then reg_tools (rt_registry rt) !! n else None) with
    | Some t => Some t | None => acc !! n end).
  { induction allowed as [|a l IH]; intros acc; [done|]. simpl. rewrite IH. clear IH.
    destruct (decide (n = a)) as [->|Hne].
    - rewrite (bool_decide_eq_true_2 (a ∈ a :: l)) by set_solver.
      unfold ToolReg.add_arc. destruct (reg_tools _ !! a) as [t|]; destruct (bool_decide _);
        try done. by rewrite lookup_insert_eq.
    - rewrite (bool_decide_ext (n ∈ a :: l) (n ∈ l)) by set_solver.
      destruct (if bool_decide (n ∈ l) then _ else _); [done|].
      destruct (reg_tools _ !! a); [|done]. unfold ToolReg.add_arc.
      by rewrite lookup_insert_ne. }
  rewrite Hgen. by destruct (if bool_decide _ then _ else _).
Qed.

(** ** Secrets *)

Lemma collect_secrets_spec names seen out :
  (forall n, n ∈ seen <-> n ∈ out) -> NoDup out ->
  let r := collect_secrets names seen out in
  (forall n, n ∈ r.1 <-> n ∈ r.2) /\ NoDup r.2 /\
  forall n, n ∈ r.2 <-> n ∈ out \/ Some n ∈ names.
Proof.
  revert seen out. induction names as [|[a|] l IH]; intros seen out Hs Hnd; simpl.
  - split; [done|]. split; [done|]. set_solver.
  - case_bool_decide as Ha.
    + destruct (IH seen out Hs Hnd) as (? & ? & H3). split_and!; try done.
      intros n. rewrite H3. apply Hs in Ha. set_solver.
    + assert (Hs' : forall n, n ∈ {[a]} ∪ seen <-> n ∈ out ++ [a]) by set_solver.
      assert (Hnd' : NoDup (out ++ [a])).
      { apply NoDup_app. split; [done|]. split; [|by apply NoDup_singleton].
        intros x Hx. apply Hs in Hx. set_solver. }
      destruct (IH _ _ Hs' Hnd') as (? & ? & H3). split_and!; try done.
      intros n. rewrite H3. set_solver.
  - destruct (IH seen out Hs Hnd) as (? & ? & H3). split_and!; try done.
    intros n. rewrite H3. set_solver.
Qed.

Lemma collect_secret_names_spec llms embs :
  NoDup (collect_secret_names llms embs) /\
  forall n, n ∈ collect_secret_names llms embs <->
    Some n ∈ map llm_api_key_secret llms \/ Some n ∈ map emb_api_key_secret embs.
Proof.
  unfold collect_secret_names.
  destruct (collect_secrets_spec (map llm_api_key_secret llms) ∅ []) as (Hs & Hnd & Hn);
    [set_solver|constructor|].
  destruct (collect_secrets (map llm_api_key_secret llms) ∅ []) as [seen out]. simpl in *.
  destruct (collect_secrets_spec (map emb_api_key_secret embs) seen out Hs Hnd) as (_ & ? & H3).
  split; [done|]. intros n. rewrite H3, Hn. set_solver.
Qed.

(** ** A run of a chat-loop executor under the runtime *)

Section run.
Context `{UnicodeTables, Printers, HashOrder}.

(** The outcome of a run, whether it returned or was cut. *)
Definition run_ok (ctx : ExecutionContext) (r : result ExecutorOutcome RuntimeError) : Prop :=
  match r with
  | Ok o =>
      numbered_log ctx (out_messages o) /\
      llm_requests (out_events o) <= ctx_max_iterations ctx /\ honest_status o
  | Err e => exists e', e = RuntimeError_Executor e' /\ run_error e'
  end.

Definition chat_executor (react : bool) : Executor :=
  if react then ReActExecutor else ConversationExecutor.

Lemma wp_chat_executor react ctx :
  well_behaved ctx -> u32_cap ctx ->
  wp any_env (asks (cut_ok ctx) (request_ok ctx) (tool_call_ok ctx)) (chat_executor react ctx)
    ExecutorOutcome_default (fun s r => run_post ctx s r).
Proof.
  intros HS Hmax. assert (Hfuel : ctx_max_iterations ctx < Z.of_nat (loop_fuel ctx)).
  { unfold loop_fuel, u32_cap in *. lia. }
  pose proof (wp_loop_executor react (loop_fuel ctx) ctx HS Hmax Hfuel) as Hwp.
  destruct react; (eapply wp_seq; [exact Hwp|]); by intros s r (res & -> & Hr).
Qed.

Lemma run_post_ok ctx s r :
  run_post ctx s r -> run_ok ctx (map_err RuntimeError_Executor r).
Proof. destruct r as [o|e]; simpl; [|by exists e]. by intros (? & ? & ? & _). Qed.

Lemma cut_run_ok ctx d s :
  is_Some (ctx_progress ctx) -> cut_ok ctx s -> run_ok ctx (Ok (cut_outcome ctx d s)).
Proof.
  intros Hp Hs. destruct (Hs Hp) as (? & ? & Hout). unfold cut_outcome.
  destruct Hp as [p ->]. by split_and!.
Qed.

Lemma wp_run_bounded react ctx :
  well_behaved ctx -> u32_cap ctx -> (ctx_timeout ctx <> 0 -> is_Some (ctx_progress ctx)) ->
  wp any_env any_call (run_bounded (chat_executor react) ctx) ExecutorOutcome_default
    (fun _ r => run_ok ctx r).
Proof.
  intros HS Hmax Hprog. pose proof (wp_chat_executor react ctx HS Hmax) as Hwp.
  unfold run_bounded. destruct (ctx_timeout ctx =? 0) eqn:E.
  - eapply wp_seq; [eapply wp_mono; [exact Hwp|done|done]|]. intros s r Hr. by eapply run_post_ok.
  - apply Z.eqb_neq in E. eapply wp_seq with (P := fun _ r => match r with
      | inl r => exists s, run_post ctx s r | inr s => cut_ok ctx s end).
    + apply wp_with_backstop; [done|]. eapply wp_mono; [exact Hwp| |].
      * intros s X e (Hi & _). by split.
      * intros s r Hr. by exists s.
    + intros s [r|s'] Hr; [destruct Hr as [? Hr]; by eapply run_post_ok|].
      apply cut_run_ok; auto.
Qed.
End run.
