(* ===== verification/StrSlice.v ===== *)
(** * Searching and slicing strings, loops that may panic, and SQL constants

    [str::find], byte-range slices that panic out of range or off a character
    boundary, [lines], and [while] loops as iterated steps on fuel; then
    concatenation, [str::replace] of one character, and the constants SQL
    quotes by doubling their delimiter. *)

From S2P Require Import Prelude.
From S2P Require Import RustStr.

(** ** Computations that may panic *)

Inductive outcome (A : Type) :=
| Done (a : A)
| Panics
| OutOfFuel.
Arguments Done {A} a.
Arguments Panics {A}.
Arguments OutOfFuel {A}.

#[export] Instance outcome_mret : MRet outcome := fun A a => Done a.
#[export] Instance outcome_mbind : MBind outcome := fun A B f m =>
  match m with Done a => f a | Panics => Panics | OutOfFuel => OutOfFuel end.

(** An operation that panics on [None]. *)
Definition or_panic {A} (o : option A) : outcome A :=
  match o with Some a => Done a | None => Panics end.

(** A [while] loop: [inl] goes on, [inr] leaves it. *)
Fixpoint loop {S R} (step : S -> outcome (S + R)) (fuel : nat) (s : S) : outcome R :=
  match fuel with
  | O => OutOfFuel
  | Datatypes.S fuel =>
      match step s with
      | Done (inl s') => loop step fuel s'
      | Done (inr r) => Done r
      | Panics => Panics
      | OutOfFuel => OutOfFuel
      end
  end.

(** [runs Q m]: [m] does not run out of fuel, and its result, if it does not
    panic, satisfies [Q]. *)
Definition runs {A} (Q : A -> Prop) (m : outcome A) : Prop :=
  match m with Done a => Q a | Panics => True | OutOfFuel => False end.

Lemma runs_mono {A} (P Q : A -> Prop) (m : outcome A) :
  runs P m -> (forall a, P a -> Q a) -> runs Q m.
Proof. destruct m; simpl; auto. Qed.

Lemma runs_bind {A B} (P : A -> Prop) (Q : B -> Prop) (m : outcome A) (f : A -> outcome B) :
  runs P m -> (forall a, P a -> runs Q (f a)) -> runs Q (m ≫= f).
Proof. destruct m; simpl; auto. Qed.

Lemma runs_or_panic {A B} (Q : B -> Prop) (o : option A) (f : A -> outcome B) :
  (forall a, o = Some a -> runs Q (f a)) -> runs Q (or_panic o ≫= f).
Proof. destruct o; simpl; auto. Qed.

Lemma runs_or_panic_any {A} (o : option A) : runs (fun _ => True) (or_panic o).
Proof. by destruct o. Qed.

(** A loop whose steps keep an invariant and decrease a measure. *)
Lemma loop_runs {S R} (step : S -> outcome (S + R)) (size : S -> nat) (I : S -> Prop)
    (Q : R -> Prop) fuel s :
  (forall s, I s -> runs (fun r => match r with
     | inl s' => I s' /\ (size s' < size s)%nat | inr r => Q r end) (step s)) ->
  I s -> (size s < fuel)%nat -> runs Q (loop step fuel s).
Proof.
  intros Hstep. revert s. induction fuel as [|fuel IH]; intros s Hi Hs; [lia|]. simpl.
  specialize (Hstep s Hi). destruct (step s) as [[s'|r]| |]; try done.
  simpl in Hstep. destruct Hstep. apply IH; [done|lia].
Qed.

(** ** Positions *)

(** [s.find(p)]: the byte index of the first occurrence. *)
Fixpoint find_str (p s : string) : option nat :=
  if String.prefix p s then Some O
  else match s with
       | EmptyString => None
       | String _ s' => S <$> find_str p s'
       end.

(** [s.rfind(p)] *)
Fixpoint rfind_str (p s : string) : option nat :=
  match s with
  | EmptyString => if String.prefix p s then Some O else None
  | String _ s' =>
      match rfind_str p s' with
      | Some i => Some (S i)
      | None => if String.prefix p s then Some O else None
      end
  end.

Definition is_char_boundary (s : string) (i : nat) : bool :=
  match String.get i s with
  | Some a => negb (is_continuation a)
  | None => Nat.eqb i (String.length s)
  end.

Fixpoint str_drop (i : nat) (s : string) : string :=
  match i, s with
  | S i, String _ s' => str_drop i s'
  | _, _ => s
  end.

Fixpoint str_take (i : nat) (s : string) : string :=
  match i, s with
  | S i, String a s' => String a (str_take i s')
  | _, _ => EmptyString
  end.

(** [&s[i..]], [&s[..i]] and [&s[i..j]]; [None] is the panic. *)
Definition slice_from (s : string) (i : nat) : option string :=
  if is_char_boundary s i then Some (str_drop i s) else None.
Definition slice_to (s : string) (i : nat) : option string :=
  if is_char_boundary s i then Some (str_take i s) else None.
Definition slice (s : string) (i j : nat) : option string :=
  if Nat.leb i j && is_char_boundary s i && is_char_boundary s j
  then Some (str_take (j - i) (str_drop i s)) else None.

(** [s.strip_prefix(p)] and [s.strip_suffix(p)] *)
Definition strip_prefix (p s : string) : option string :=
  if String.prefix p s then Some (str_drop (String.length p) s) else None.
Definition strip_suffix (p s : string) : option string :=
  if ends_with s p then Some (str_take (String.length s - String.length p) s) else None.

(** [s.trim_start_matches(set)] for a set of ASCII characters. *)
Fixpoint trim_start_matches (set : list ascii) (s : string) : string :=
  match s with
  | String a s' => if bool_decide (a ∈ set) then trim_start_matches set s' else s
  | EmptyString => EmptyString
  end.

(** [s.find([c1, c2])] for ASCII characters. *)
Fixpoint find_any (set : list ascii) (s : string) : option nat :=
  match s with
  | EmptyString => None
  | String a s' => if bool_decide (a ∈ set) then Some O else S <$> find_any set s'
  end.

(** [str::lines]: split at line feeds, a final carriage return dropped, and
    no last empty line; a return at the end of an unterminated line stays. *)
Definition LF : ascii := ascii_of_nat 10.
Definition CR : ascii := ascii_of_nat 13.

Fixpoint split_lines (s : string) : list string :=
  match s with
  | EmptyString => [EmptyString]
  | String a s' =>
      if Ascii.eqb a LF then EmptyString :: split_lines s'
      else match split_lines s' with
           | l :: ls => String a l :: ls
           | [] => [String a EmptyString]
           end
  end.

Definition strip_cr (l : string) : string := default l (strip_suffix (String CR "") l).

Definition lines (s : string) : list string :=
  let ls := split_lines s in
  let unterminated := List.last ls "" in
  map strip_cr (removelast ls) ++ (if is_empty unterminated then [] else [unterminated]).

(** ** Lemmas *)

Lemma length_str_drop i s : String.length (str_drop i s) = (String.length s - i)%nat.
Proof. revert s. induction i as [|i IH]; intros [|a s]; simpl; auto with lia. Qed.

Lemma get_some_lt i s a : String.get i s = Some a -> (i < String.length s)%nat.
Proof.
  revert s. induction i as [|i IH]; intros [|b s]; simpl; try done; [lia|].
  intros H%IH. lia.
Qed.

Lemma boundary_le s i : is_char_boundary s i = true -> (i <= String.length s)%nat.
Proof.
  unfold is_char_boundary. destruct (String.get i s) eqn:E.
  - apply get_some_lt in E. lia.
  - intros H%Nat.eqb_eq. lia.
Qed.

Lemma slice_from_some s i t :
  slice_from s i = Some t -> (i <= String.length s)%nat /\
  String.length t = (String.length s - i)%nat.
Proof.
  unfold slice_from. destruct (is_char_boundary s i) eqn:E; [|done].
  intros [= <-]. split; [by apply boundary_le|apply length_str_drop].
Qed.

Lemma find_str_lt p s i :
  find_str p s = Some i -> (i + String.length p <= String.length s)%nat.
Proof.
  assert (Hpre : forall p s, String.prefix p s = true -> (String.length p <= String.length s)%nat).
  { clear. induction p as [|a p IH]; intros [|b s]; simpl; try done; [lia..|].
    destruct (ascii_dec a b); [|done]. intros ?%IH. lia. }
  revert i. induction s as [|a s IH]; intros i; cbn [find_str].
  - destruct (String.prefix p "") eqn:E; [|done]. intros [= <-]. apply Hpre in E. simpl in *. lia.
  - destruct (String.prefix p (String a s)) eqn:E.
    + intros [= <-]. apply Hpre in E. simpl in *. lia.
    + destruct (find_str p s) as [j|]; [|done]. intros [= <-]. specialize (IH j eq_refl). simpl. lia.
Qed.

Lemma length_trim_start set s :
  (String.length (trim_start_matches set s) <= String.length s)%nat.
Proof. induction s as [|a s IH]; simpl; [done|]. destruct (bool_decide _); simpl; lia. Qed.

(** [c] does not occur in [s]. *)
Fixpoint free_of (c : ascii) (s : string) : Prop :=
  match s with EmptyString => True | String a s' => a <> c /\ free_of c s' end.

Lemma free_of_drop c i s : free_of c s -> free_of c (str_drop i s).
Proof. revert s. induction i as [|i IH]; intros [|a s]; simpl; try done. intros [_ ?]. auto. Qed.

Lemma free_of_trim c set s : free_of c s -> free_of c (trim_start_matches set s).
Proof.
  induction s as [|a s IH]; simpl; [done|]. intros [? ?].
  destruct (bool_decide _); [auto|]. by split.
Qed.

Lemma free_of_slice_from c s i t : slice_from s i = Some t -> free_of c s -> free_of c t.
Proof.
  unfold slice_from. destruct (is_char_boundary s i); [|done]. intros [= <-]. apply free_of_drop.
Qed.

(** Up to its first occurrence, a character does not occur. *)
Lemma find_str_free c s i : find_str (String c "") s = Some i -> free_of c (str_take i s).
Proof.
  revert i. induction s as [|a s IH]; intros i; cbn [find_str]; [done|].
  destruct (String.prefix (String c "") (String a s)) eqn:E; [by intros [= <-]|].
  destruct (find_str (String c "") s) as [j|]; [|done]. intros [= <-]. simpl.
  split; [|by apply IH]. intros ->. simpl in E. destruct (ascii_dec c c); [|done].
  by destruct s.
Qed.

Lemma slice_free c s i t :
  find_str (String c "") s = Some i -> slice s 1 i = Some t -> free_of c t.
Proof.
  intros Hf%find_str_free. unfold slice. destruct (_ && _) eqn:E; [|done]. intros [= <-].
  apply andb_true_iff in E as [E _]. apply andb_true_iff in E as [E _]. apply Nat.leb_le in E.
  destruct s as [|a s]; [by destruct (i - 1)%nat|]. destruct i as [|i]; [lia|].
  replace (S i - 1)%nat with i by lia. simpl. apply Hf.
Qed.

(** The first character after a trim is neither trimmed nor absent. *)
Lemma trim_head set c s :
  free_of c s ->
  match trim_start_matches set s with String a _ => a ∉ set /\ a <> c | EmptyString => True end.
Proof.
  induction s as [|a s IH]; simpl; [done|]. intros [? Hc].
  destruct (bool_decide (a ∈ set)) eqn:E; [by apply IH|].
  by apply bool_decide_eq_false_1 in E.
Qed.

Lemma find_any_head set s e :
  match s with String a _ => a ∉ set | EmptyString => True end ->
  find_any set s = Some e -> (1 <= e)%nat.
Proof.
  destruct s as [|a s]; simpl; [done|]. intros Ha. rewrite bool_decide_eq_false_2 by done.
  destruct (find_any set s); [|done]. intros [= <-]. lia.
Qed.

Lemma nonempty_length s : is_empty s = false -> (1 <= String.length s)%nat.
Proof. destruct s; [done|simpl; lia]. Qed.

(** Decompose a computation, keeping what its slices say. *)
Ltac runs_step :=
  match goal with
  | |- runs _ (or_panic _ ≫= _) => apply runs_or_panic; intros ? ?
  | |- runs _ (Done _ ≫= _) => simpl mbind
  | |- runs _ (if ?b then _ else _) => destruct b eqn:?
  | |- runs _ (match ?o with Some _ => _ | None => _ end) => destruct o eqn:?
  end.
Ltac slices :=
  repeat match goal with
  | H : slice_from _ _ = Some _ |- _ => apply slice_from_some in H as [? ?]
  | H : find_str _ _ = Some _ |- _ => apply find_str_lt in H
  end.

(** ** Text of SQL statements

    Concatenation, [str::replace] of one character, and the constants that
    SQL quotes by doubling their delimiter: how they are written, and how
    Postgres reads them back. *)

(** [s.replace(c, r)] for an ASCII character. *)
Fixpoint replace_char (c : ascii) (r s : string) : string :=
  match s with
  | "" => ""
  | String a s' => if Ascii.eqb a c then r +:+ replace_char c r s' else String a (replace_char c r s')
  end.

Definition dquote : ascii := ascii_of_nat 34.

(** Every delimiter in [s] twice. *)
Definition double (q : ascii) (s : string) : string :=
  replace_char q (String q (String q "")) s.

(** The rest of a constant after its opening delimiter: its value and what
    follows it.  For a string constant, with [standard_conforming_strings]
    on. *)
Fixpoint read_quoted (q : ascii) (s : string) : option (string * string) :=
  match s with
  | "" => None
  | String a s' =>
      if Ascii.eqb a q then
        match s' with
        | String b s2 =>
            if Ascii.eqb b q then (fun r => (String q r.1, r.2)) <$> read_quoted q s2
            else Some ("", s')
        | "" => Some ("", "")
        end
      else (fun r => (String a r.1, r.2)) <$> read_quoted q s'
  end.

Definition head_is (q : ascii) (s : string) : bool :=
  match s with String a _ => Ascii.eqb a q | "" => false end.

(** ** Lemmas *)

Lemma str_app_assoc (a b c : string) : a +:+ (b +:+ c) = (a +:+ b) +:+ c.
Proof. induction a as [|x a IH]; [done|]. exact (f_equal (String x) IH). Qed.

Lemma str_app_nil (a : string) : a +:+ "" = a.
Proof. induction a as [|x a IH]; [done|]. exact (f_equal (String x) IH). Qed.

Lemma str_app_inj a b c : a +:+ b = a +:+ c -> b = c.
Proof. induction a as [|x a IH]; [done|]. intros [= E]. by apply IH. Qed.

Lemma length_str_app a b : String.length (a +:+ b) = (String.length a + String.length b)%nat.
Proof. induction a as [|x a IH]; [done|]. simpl. by rewrite IH. Qed.

Lemma strip_prefix_app p rest : strip_prefix p (p +:+ rest) = Some rest.
Proof.
  unfold strip_prefix. rewrite (proj2 (prefix_spec p _)) by by exists rest. f_equal.
  induction p as [|x p IH]; [by destruct rest|exact IH].
Qed.

Lemma strip_prefix_none p s : String.prefix p s = false -> strip_prefix p s = None.
Proof. unfold strip_prefix. by intros ->. Qed.

(** A doubled constant is read back, and ends where it was closed. *)
Lemma read_double q s rest :
  head_is q rest = false ->
  read_quoted q (double q s +:+ String q rest) = Some (s, rest).
Proof.
  intros Hr. unfold double. induction s as [|a s IH]; simpl.
  - rewrite Ascii.eqb_refl. destruct rest as [|b rest]; [done|]. simpl in Hr. by rewrite Hr.
  - destruct (Ascii.eqb a q) eqn:E.
    + apply Ascii.eqb_eq in E as ->. simpl. rewrite !Ascii.eqb_refl.
      change ("" +:+ replace_char q (String q (String q "")) s)
        with (replace_char q (String q (String q "")) s).
      by rewrite IH.
    + simpl. rewrite E, IH. done.
Qed.
