(* ===== verification/Wire.v ===== *)
(** * Common parts of the network providers

    The libraries the OpenAI and Anthropic clients rely on, and the pieces of
    the two clients that are the same. *)

From S2P Require Import Prelude.
From S2P Require Import RustStr.
From S2P Require Import F64.
From S2P Require Import Json.
From S2P Require Import Errors.
From S2P Require Import Types.
From S2P Require Import Effects.

(** [serde_json::from_str], the decimal parser of [f64], the checks of
    header names and values and the [Display] of a status code. *)
Class WireLib := {
  json_from_str : string -> option json;
  parse_f64 : string -> option f64;
  header_name_ok : string -> bool;
  header_value_ok : string -> bool;
  fmt_status : Z -> string }.

(** [StatusCode::is_success] *)
Definition is_success (status : Z) : bool := (200 <=? status) && (status <=? 299).

(** [trim_end_matches('/')] *)
Definition is_slash (c : string) : bool := String.eqb c "/".
Definition trim_end_matches (p : string -> bool) (s : string) : string :=
  of_chars (reverse (drop_while p (reverse (chars s)))).
Definition strip_trailing_slash (s : string) : string := trim_end_matches is_slash s.

(** [v.get(k).and_then(|v| v.as_str()).unwrap_or(d).to_string()] *)
Definition str_field (k d : string) (v : json) : string :=
  default d (json_get k v ≫= as_str).

(** [... .as_u64()).unwrap_or(0) as u32] *)
Definition u32_field (k : string) (v : json) : Z :=
  wrap32 (default 0 (json_get k v ≫= as_u64)).

(** [v.get(0)] on an array *)
Definition json_first (v : json) : option json :=
  match v with JArray (x :: _) => Some x | _ => None end.

(** The merge of the request's extra parameters into the payload, but for
    the keys that [skip] selects. *)
Definition merge_extras (skip : string -> bool) (extras payload : json) : json :=
  match extras, payload with
  | JObject extra, JObject _ =>
      fold_left (fun p kv => if skip kv.1 then p else json_set kv.1 kv.2 p) extra payload
  | _, _ => payload
  end.

Definition is_private (k : string) : bool := starts_with k "_".

(** ** Lemmas *)

Lemma json_set_object k v j : (exists m, j = JObject m) -> exists m, json_set k v j = JObject m.
Proof. intros [m ->]. by eexists. Qed.

Lemma merge_extras_skips skip extras payload k :
  skip k = true -> json_get k payload = None -> json_get k (merge_extras skip extras payload) = None.
Proof.
  intros Hk Hp. unfold merge_extras. destruct extras as [| | | | |extra]; try done.
  destruct payload as [| | | | |m]; try done. revert m Hp.
  induction extra as [|[k' v] extra IH]; intros m Hp; [done|]. simpl.
  destruct (skip k') eqn:E; [by apply IH|]. apply IH. simpl.
  rewrite obj_get_insert_ne; [done|]. intros ->. by rewrite Hk in E.
Qed.

Lemma json_get_set_other k k' v j :
  String.eqb k k' = false -> json_get k (json_set k' v j) = json_get k j.
Proof. intros E. apply json_get_set_ne. by apply String.eqb_neq. Qed.

Lemma is_private_not k k' : is_private k = true -> is_private k' = false -> k <> k'.
Proof. intros H1 H2 ->. by rewrite H1 in H2. Qed.
