(* ===== verification/Anthropic.v ===== *)
(** * The Anthropic client ([plugins/pg-synapse-provider-anthropic])

    The translation of a completion request into the Messages API and of its
    response back. *)

From S2P Require Import Prelude.
From S2P Require Import RustStr.
From S2P Require Import F64.
From S2P Require Import Json.
From S2P Require Import Errors.
From S2P Require Import Types.
From S2P Require Import Effects.
From S2P Require Import HarnessText.
From S2P Require Import Traits.
From S2P Require Import LoopHarness.
From S2P Require Import Registry.
From S2P Require Import Wire.
#[local] Open Scope synapse_scope.

Module Anthropic.

Definition ANTHROPIC_VERSION : string := "2023-06-01".
Definition DEFAULT_MAX_TOKENS : Z := 4096.

Record AnthropicProvider := mkAnthropicProvider {
  ap_base_url : string;
  ap_api_key : option string;
  ap_model : string;
  ap_prompt_caching : bool }.

Definition new (model base_url : string) : AnthropicProvider :=
  mkAnthropicProvider (strip_trailing_slash base_url) None model false.

Definition with_api_key (key : string) (p : AnthropicProvider) : AnthropicProvider :=
  mkAnthropicProvider (ap_base_url p) (Some key) (ap_model p) (ap_prompt_caching p).

Definition with_prompt_caching (enabled : bool) (p : AnthropicProvider) : AnthropicProvider :=
  mkAnthropicProvider (ap_base_url p) (ap_api_key p) (ap_model p) enabled.

(** ** The factory *)

Definition factory_base_url (profile : LlmProfileRow) : string :=
  match llm_base_url profile with
  | Some u => u
  | None => default "https://api.anthropic.com" (json_get "base_url" (llm_params profile) ≫= as_str)
  end.

Definition factory_api_key (profile : LlmProfileRow) : option string :=
  match json_get "_resolved_api_key" (llm_params profile) ≫= as_str with
  | Some k => Some k
  | None => json_get "api_key" (llm_params profile) ≫= as_str
  end.

Definition factory_build (profile : LlmProfileRow) : AnthropicProvider :=
  let prompt_caching :=
    default false (json_get "prompt_caching" (llm_params profile) ≫= as_bool) in
  let p := with_prompt_caching prompt_caching (new (llm_model profile) (factory_base_url profile)) in
  match factory_api_key profile with
  | Some k => with_api_key k p
  | None => p
  end.

Section client.
Context `{Printers, WireLib}.

Definition build_headers (p : AnthropicProvider) : result (gmap string string) LlmError :=
  let h : gmap string string :=
    <["anthropic-version" := ANTHROPIC_VERSION]> {["content-type" := "application/json"]} in
  match ap_api_key p with
  | Some k =>
      if header_value_ok k then Ok (<["x-api-key" := k]> h) else Err (LlmError_Auth "anthropic")
  | None => Ok h
  end.

(** The text of a tool result: the structured output first. *)
Definition result_text (m : Message) : string :=
  match msg_tool_output m, msg_content m with
  | Some v, _ => json_to_string v
  | None, Some t => t
  | None, None => ""
  end.

Definition tool_result_message (tcid : string) (m : Message) : json :=
  json_object
    [("role", JString "user");
     ("content", JArray [json_object
        [("type", JString "tool_result"); ("tool_use_id", JString tcid);
         ("content", JString (result_text m))]])].

Definition plain_message (role : string) (m : Message) : json :=
  json_object [("role", JString role); ("content", JString (default "" (msg_content m)))].

Definition tool_use_block (id name : string) (input : json) : json :=
  json_object
    [("type", JString "tool_use"); ("id", JString id); ("name", JString name); ("input", input)].

Definition assistant_message (m : Message) : json :=
  match msg_tool_call_id m, msg_tool_name m with
  | Some id, Some name =>
      let input := default (json_object []) (msg_tool_input m) in
      let text := match msg_content m with
                  | Some t => if is_empty t then []
                              else [json_object [("type", JString "text"); ("text", JString t)]]
                  | None => []
                  end in
      json_object [("role", JString "assistant");
                   ("content", JArray (text ++ [tool_use_block id name input]))]
  | _, _ => plain_message "assistant" m
  end.

(** One pass of the loop over the messages: the entry it pushes. *)
Definition wire_message (m : Message) : option json :=
  match msg_role m with
  | System => None
  | User =>
      match msg_tool_call_id m with
      | Some tcid => Some (tool_result_message tcid m)
      | None => Some (plain_message "user" m)
      end
  | Assistant => Some (assistant_message m)
  | Tool => Some (tool_result_message (default "" (msg_tool_call_id m)) m)
  end.

Definition system_texts (ms : list Message) : list string :=
  omap (fun m => match msg_role m with System => msg_content m | _ => None end) ms.

Definition chosen_model (p : AnthropicProvider) (req : CompletionRequest) : string :=
  match req_model req with
  | Some m => if is_empty m then ap_model p else m
  | None => ap_model p
  end.

Definition system_block (p : AnthropicProvider) (text : string) : json :=
  if ap_prompt_caching p then
    JArray [json_object
      [("type", JString "text"); ("text", JString text);
       ("cache_control", json_object [("type", JString "ephemeral")])]]
  else JString text.

Definition wire_tool (td : ToolDefinition) : json :=
  json_object
    [("name", JString (td_name td)); ("description", JString (td_description td));
     ("input_schema", td_schema td)].

Definition skip_extra (k : string) : bool :=
  is_private k || String.eqb k "prompt_caching" || String.eqb k "base_url" || String.eqb k "api_key".

(** The payload before the extra parameters. *)
Definition core_payload (p : AnthropicProvider) (req : CompletionRequest) : json :=
  let payload := json_object
    [("model", JString (chosen_model p req));
     ("max_tokens", json_u64 (default DEFAULT_MAX_TOKENS (req_max_tokens req)));
     ("messages", JArray (omap wire_message (req_messages req)))] in
  let payload :=
    match system_texts (req_messages req) with
    | [] => payload
    | parts => json_set "system" (system_block p (join (newline +:+ newline) parts)) payload
    end in
  let payload :=
    match req_temperature req with
    | Some t => json_set "temperature" (json_f64 t) payload
    | None => payload
    end in
  match req_tools req with
  | [] => payload
  | tools => json_set "tools" (JArray (map wire_tool tools)) payload
  end.

Definition build_payload (p : AnthropicProvider) (req : CompletionRequest) : json :=
  merge_extras skip_extra (req_params req) (core_payload p req).

Definition map_http_error (status : Z) (body : string) : LlmError :=
  if (status =? 401) || (status =? 403) then LlmError_Auth "anthropic"
  else if status =? 429 then LlmError_RateLimited "anthropic" None
  else LlmError_Provider "anthropic" ("HTTP " +:+ fmt_status status +:+ ": " +:+ body).

(** The text, or the tool call, of a content block. *)
Definition block_text (block : json) : option string :=
  if String.eqb (str_field "type" "" block) "text"
  then json_get "text" block ≫= as_str else None.

Definition block_call (block : json) : option ToolCall :=
  if String.eqb (str_field "type" "" block) "tool_use" then
    Some (mkToolCall (str_field "id" "" block) (str_field "name" "" block)
            (default (json_object []) (json_get "input" block)))
  else None.

Definition parse_response (body : json) : CompletionResponse :=
  let blocks := default [] (json_get "content" body ≫= as_array) in
  let content := match omap block_text blocks with
                 | [] => None
                 | parts => Some (join "" parts)
                 end in
  let usage := default JNull (json_get "usage" body) in
  mkCompletionResponse content (omap block_call blocks)
    (str_field "stop_reason" "end_turn" body)
    (mkUsage (u32_field "input_tokens" usage) (u32_field "output_tokens" usage) None).

Definition complete (p : AnthropicProvider) (req : CompletionRequest)
  : prog (result CompletionResponse LlmError) :=
  match build_headers p with
  | Err e => mret (Err e)
  | Ok headers =>
      r ← perform (EHttp (mkHttpRequest "POST" (ap_base_url p +:+ "/v1/messages") headers
                            (Some (build_payload p req))));
      mret (match r with
            | Err e => Err (LlmError_Network e)
            | Ok resp =>
                if (200 <=? http_status resp) && (http_status resp <=? 299) then
                  match http_json resp with
                  | Ok body => Ok (parse_response body)
                  | Err e => Err (LlmError_Provider "anthropic" ("invalid JSON: " +:+ e))
                  end
                else Err (map_http_error (http_status resp) (http_text resp))
            end)
  end.

Definition provider (p : AnthropicProvider) : LlmProvider :=
  {| llm_complete := complete p;
     llm_model_name := ap_model p;
     llm_capabilities := mkProviderCapabilities true true true true None None |}.

Definition factory : LlmProviderFactory :=
  {| llm_provider_name := "anthropic";
     llm_build := fun profile => Ok (provider (factory_build profile)) |}.
End client.
End Anthropic.
