(* ===== verification/OpenAi.v ===== *)
(** * The OpenAI client ([plugins/pg-synapse-provider-openai])

    The translation of a completion request into Chat Completions and of its
    response back.  The recovery of tool calls from plain text is in
    [OpenAiExtract]. *)

From S2P Require Import Prelude.
From S2P Require Import RustStr.
From S2P Require Import F64.
From S2P Require Import Json.
From S2P Require Import Errors.
From S2P Require Import Types.
From S2P Require Import Effects.
From S2P Require Import HarnessText.
From S2P Require Import Traits.
From S2P Require Import LoopHarness.
From S2P Require Import Wire.
#[local] Open Scope synapse_scope.

Module OpenAi.

Definition DEFAULT_MAX_TOKENS : Z := 4096.
Definition REASONING_MAX_TOKENS : Z := 2048.

(** ** Schemas *)

Definition is_object (j : json) : bool := match j with JObject _ => true | _ => false end.

Definition string_schema : json := json_object [("type", JString "string")].

(** The recursion goes over the values after the replacement; replacing
    [items] in place is the same as replacing each value named [items] on
    the way. *)
Fixpoint sanitize_tool_schema (v : json) : json :=
  match v with
  | JObject m =>
      JObject
        ((fix go m := match m with
          | [] => []
          | (k, x) :: m' =>
              (k, if String.eqb k "items" && negb (is_object x) then string_schema
                  else sanitize_tool_schema x) :: go m'
          end) m)
  | JArray l =>
      JArray ((fix go l := match l with [] => [] | x :: l' => sanitize_tool_schema x :: go l' end) l)
  | _ => v
  end.

(** ** The provider *)

Record OpenAiProvider := mkOpenAiProvider {
  op_base_url : string;
  op_api_key : option string;
  op_model : string;
  op_extra_headers : list (string * string);
  op_cost_per_million_in : option f64;
  op_cost_per_million_out : option f64;
  op_max_tokens : option Z }.

Definition new (model base_url : string) : OpenAiProvider :=
  mkOpenAiProvider (strip_trailing_slash base_url) None model [] None None None.

Definition with_max_tokens (n : option Z) (p : OpenAiProvider) : OpenAiProvider :=
  mkOpenAiProvider (op_base_url p) (op_api_key p) (op_model p) (op_extra_headers p)
    (op_cost_per_million_in p) (op_cost_per_million_out p) n.
Definition with_api_key (key : string) (p : OpenAiProvider) : OpenAiProvider :=
  mkOpenAiProvider (op_base_url p) (Some key) (op_model p) (op_extra_headers p)
    (op_cost_per_million_in p) (op_cost_per_million_out p) (op_max_tokens p).
Definition with_cost (i o : option f64) (p : OpenAiProvider) : OpenAiProvider :=
  mkOpenAiProvider (op_base_url p) (op_api_key p) (op_model p) (op_extra_headers p) i o
    (op_max_tokens p).
Definition with_extra_header (k v : string) (p : OpenAiProvider) : OpenAiProvider :=
  mkOpenAiProvider (op_base_url p) (op_api_key p) (op_model p) (op_extra_headers p ++ [(k, v)])
    (op_cost_per_million_in p) (op_cost_per_million_out p) (op_max_tokens p).

(** ** The factory *)

Definition factory_base_url (profile : LlmProfileRow) : string :=
  match llm_base_url profile with
  | Some u => u
  | None => default "https://api.openai.com/v1" (json_get "base_url" (llm_params profile) ≫= as_str)
  end.

Definition factory_api_key (profile : LlmProfileRow) : option string :=
  match json_get "_resolved_api_key" (llm_params profile) ≫= as_str with
  | Some k => Some k
  | None => json_get "api_key" (llm_params profile) ≫= as_str
  end.

Definition factory_extra_headers (params : json) : list (string * string) :=
  match json_get "extra_headers" params with
  | Some (JObject obj) => omap (fun kv => (fun s => (kv.1, s)) <$> as_str kv.2) obj
  | _ => []
  end.

Definition factory_build (profile : LlmProfileRow) : OpenAiProvider :=
  let params := llm_params profile in
  let cost_in := json_get "cost_per_million_tokens_in" params ≫= as_f64 in
  let cost_out := json_get "cost_per_million_tokens_out" params ≫= as_f64 in
  let max_tokens := (fun n => Z.min n U32_MAX) <$> (json_get "max_tokens" params ≫= as_u64) in
  let p := with_max_tokens max_tokens
             (with_cost cost_in cost_out (new (llm_model profile) (factory_base_url profile))) in
  let p := match factory_api_key profile with Some k => with_api_key k p | None => p end in
  fold_left (fun p kv => with_extra_header kv.1 kv.2 p) (factory_extra_headers params) p.

Section client.
Context `{UnicodeTables, Printers, WireLib}.

Definition is_reasoning_model (model : string) : bool :=
  let lower := to_lowercase model in
  starts_with lower "gpt-5" || starts_with lower "o1" || starts_with lower "o3"
    || starts_with lower "o4".

(** The loop over the extra headers; names are stored in lower case. *)
Fixpoint add_headers (l : list (string * string)) (h : gmap string string)
  : result (gmap string string) LlmError :=
  match l with
  | [] => Ok h
  | (k, v) :: rest =>
      if header_name_ok k then
        if header_value_ok v then add_headers rest (<[to_ascii_lowercase k := v]> h)
        else Err (LlmError_Provider "openai" ("invalid header value for " +:+ k))
      else Err (LlmError_Provider "openai" ("invalid header name: " +:+ k))
  end.

Definition build_headers (p : OpenAiProvider) : result (gmap string string) LlmError :=
  let h : gmap string string := {["content-type" := "application/json"]} in
  match op_api_key p with
  | Some k =>
      if header_value_ok ("Bearer " +:+ k) then
        add_headers (op_extra_headers p) (<["authorization" := "Bearer " +:+ k]> h)
      else Err (LlmError_Auth "openai")
  | None => add_headers (op_extra_headers p) h
  end.

(** ** The request *)

Definition role_name (r : Role) : string :=
  match r with
  | System => "system" | User => "user" | Assistant => "assistant" | Tool => "tool"
  end.

Definition tool_message (m : Message) : json :=
  let content := match msg_tool_output m, msg_content m with
                 | Some v, _ => json_to_string v
                 | None, Some t => t
                 | None, None => ""
                 end in
  let obj := json_object [("role", JString "tool"); ("content", JString content)] in
  match msg_tool_call_id m with
  | Some tcid => json_set "tool_call_id" (JString tcid) obj
  | None => obj
  end.

(** The entry of [tool_calls] for a recorded call. *)
Definition call_entry (id name : string) (input : option json) : json :=
  let args_str := match input with Some v => json_to_string v | None => "{}" end in
  json_object
    [("id", JString id); ("type", JString "function");
     ("function", json_object [("name", JString name); ("arguments", JString args_str)])].

Definition wire_message (m : Message) : json :=
  match msg_role m, msg_tool_call_id m, msg_tool_name m with
  | Tool, _, _ => tool_message m
  | Assistant, Some id, Some name =>
      json_object
        [("role", JString "assistant"); ("content", json_option JString (msg_content m));
         ("tool_calls", JArray [call_entry id name (msg_tool_input m)])]
  | r, _, _ =>
      json_object [("role", JString (role_name r)); ("content", json_option JString (msg_content m))]
  end.

Definition chosen_model (p : OpenAiProvider) (req : CompletionRequest) : string :=
  match req_model req with
  | Some m => if is_empty m then op_model p else m
  | None => op_model p
  end.

(** [a.or(b).unwrap_or(d)] *)
Definition token_limit (p : OpenAiProvider) (req : CompletionRequest) (d : Z) : Z :=
  match req_max_tokens req with Some n => n | None => default d (op_max_tokens p) end.

Definition wire_tool (td : ToolDefinition) : json :=
  json_object
    [("type", JString "function");
     ("function", sanitize_tool_schema (to_openai_function td))].

Definition core_payload (p : OpenAiProvider) (req : CompletionRequest) (stream : bool) : json :=
  let model := chosen_model p req in
  let payload := json_object
    [("model", JString model); ("messages", JArray (map wire_message (req_messages req)))] in
  let payload :=
    if is_reasoning_model model then
      json_set "max_completion_tokens" (json_u64 (token_limit p req REASONING_MAX_TOKENS)) payload
    else
      json_set "max_tokens" (json_u64 (token_limit p req DEFAULT_MAX_TOKENS))
        (match req_temperature req with
         | Some t => json_set "temperature" (json_f64 t) payload
         | None => payload
         end) in
  let payload := if stream then json_set "stream" (JBool true) payload else payload in
  match req_tools req with
  | [] => payload
  | tools => json_set "tools" (JArray (map wire_tool tools)) payload
  end.

Definition build_payload (p : OpenAiProvider) (req : CompletionRequest) (stream : bool) : json :=
  merge_extras is_private (req_params req) (core_payload p req stream).

(** ** The response *)

Definition million : f64 := f64_of_Z 1000000.

Definition compute_cost (p : OpenAiProvider) (tin tout : Z) : option f64 :=
  match op_cost_per_million_in p, op_cost_per_million_out p with
  | Some ci, Some co =>
      Some (f64_add (f64_mul (f64_div (f64_of_Z tin) million) ci)
                    (f64_mul (f64_div (f64_of_Z tout) million) co))
  | _, _ => None
  end.

Definition parse_retry_after (headers : gmap string string) : option Z :=
  match headers !! "retry-after" with
  | Some val =>
      match parse_f64 (trim val) with
      | Some secs =>
          if f64_gtb secs f64_zero
          then Some (f64_to_u64 (f64_round (f64_mul secs (f64_of_Z 1000)))) else None
      | None => None
      end
  | None => None
  end.

Definition map_http_error (status : Z) (body : string) (retry_after_ms : option Z) : LlmError :=
  if (status =? 401) || (status =? 403) then LlmError_Auth "openai"
  else if status =? 429 then LlmError_RateLimited "openai" retry_after_ms
  else LlmError_Provider "openai" ("HTTP " +:+ fmt_status status +:+ ": " +:+ body).

Definition parse_call (tc : json) : ToolCall :=
  let func := default JNull (json_get "function" tc) in
  let args_str := str_field "arguments" "{}" func in
  mkToolCall (str_field "id" "" tc) (str_field "name" "" func)
    (match json_from_str args_str with
     | Some v => v
     | None => json_object [("_raw", JString args_str)]
     end).

Definition parse_content (message : json) : option string :=
  match json_get "content" message with
  | Some (JString s) => Some s
  | Some JNull => Some ""
  | _ => None
  end.

(** The part of [complete] that reads the body, up to the fallback on text. *)
Definition parse_body (p : OpenAiProvider) (body : json) : result CompletionResponse LlmError :=
  first <-? ok_or (json_get "choices" body ≫= json_first)
              (LlmError_Provider "openai" "no choices in response") ;;
  message <-? ok_or (json_get "message" first)
                (LlmError_Provider "openai" "no message in choice[0]") ;;
  let usage := default JNull (json_get "usage" body) in
  let tin := u32_field "prompt_tokens" usage in
  let tout := u32_field "completion_tokens" usage in
  Ok (mkCompletionResponse (parse_content message)
        (map parse_call (default [] (json_get "tool_calls" message ≫= as_array)))
        (str_field "finish_reason" "stop" first)
        (mkUsage tin tout (compute_cost p tin tout))).
End client.
End OpenAi.
