(* ===== verification/OpenAiExtract.v ===== *)
(** * Tool calls in plain text ([plugins/pg-synapse-provider-openai/src/client.rs])

    Some servers leave a tool call of the model in the text of the response.
    [extract_tool_calls_from_content] looks for four formats.  A call is
    found as a name and an argument object; its id is made afterwards, in the
    same order.  Slices may panic, and the loops run on fuel. *)

From S2P Require Import Prelude.
From S2P Require Import RustStr.
From S2P Require Import F64.
From S2P Require Import Json.
From S2P Require Import Errors.
From S2P Require Import Types.
From S2P Require Import NumText.
From S2P Require Import Effects.
From S2P Require Import StrSlice.
From S2P Require Import Wire.
From S2P Require Import OpenAi.
#[local] Open Scope synapse_scope.

(** A call without its id. *)
Abbreviation RawCall := (string * json)%type.

Definition tag_open : string := "<tool_call>".
Definition tag_close : string := "</tool_call>".
Definition func_open : string := "<function=".
Definition func_close : string := "</function>".
Definition param_open : string := "<parameter=".
Definition param_close : string := "</parameter>".
Definition fence : string := "```".
Definition dquote : ascii := ascii_of_nat 34.

(** Gemma's delimiters. *)
Definition OPEN : string := "<|tool_call>call:".
Definition CLOSE : string := "<tool_call|>".
Definition QMARK : string := "<|" +:+ String dquote "|>".

(** Fuel for a loop that shortens [s] at each pass. *)
Definition fuel_of (s : string) : nat := S (String.length s).

Section extract.
Context `{UnicodeTables, WireLib}.
Context (tool_names : list string).

Definition sent_tool (name : string) : bool := bool_decide (name ∈ tool_names).

(** The closure [try_parse]. *)
Definition try_parse (raw : string) : option RawCall :=
  match json_from_str (trim raw) with
  | None => None
  | Some v =>
      match json_get "name" v ≫= as_str with
      | None => None
      | Some name =>
          if sent_tool name then
            let args := match json_get "arguments" v with
                        | Some a => a
                        | None => default (JObject []) (json_get "parameters" v)
                        end in
            if OpenAi.is_object args then Some (name, args) else None
          else None
      end
  end.

(** A JSON value, or the text itself. *)
Definition json_or_string (val : string) : json := default (JString val) (json_from_str val).

(** ** Format 1: tags, with JSON or XML parameters inside *)

(** One pass of the loop over [<parameter=...>]; [inr None] is the [?] that
    gives up. *)
Definition xml_param_step (st : string * list (string * json))
  : outcome ((string * list (string * json)) + option (list (string * json))) :=
  let '(search, args) := st in
  match find_str param_open search with
  | None => Done (inr (Some args))
  | Some p_start =>
      after_p ← or_panic (slice_from search (p_start + String.length param_open));
      match find_str ">" after_p with
      | None => Done (inr None)
      | Some key_end =>
          key ← or_panic (slice_to after_p key_end);
          val_str ← or_panic (slice_from after_p (key_end + 1));
          let val_end := default (String.length val_str) (find_str param_close val_str) in
          val ← or_panic (slice_to val_str val_end);
          rest ← or_panic (slice_from val_str
                   (val_end + Nat.min (String.length param_close) (String.length val_str)));
          Done (inl (rest, obj_insert (trim key) (json_or_string (trim val)) args))
      end
  end.

Definition parse_xml_function_block (inner : string) : outcome (option RawCall) :=
  match find_str func_open inner with
  | None => Done None
  | Some func_start =>
      after_func ← or_panic (slice_from inner (func_start + String.length func_open));
      match find_str ">" after_func with
      | None => Done None
      | Some name_end =>
          name ← or_panic (slice_to after_func name_end);
          let name := trim name in
          if sent_tool name then
            body ← or_panic (slice_from after_func (name_end + 1));
            body ← (match rfind_str func_close body with
                    | Some e => or_panic (slice_to body e)
                    | None => Done body
                    end : outcome string);
            args ← loop xml_param_step (fuel_of body) (body, []);
            Done (match args with Some m => Some (name, JObject m) | None => None end)
          else Done None
      end
  end.

Definition tag_step (st : string * list RawCall)
  : outcome ((string * list RawCall) + list RawCall) :=
  let '(search, results) := st in
  match find_str tag_open search with
  | None => Done (inr results)
  | Some start =>
      after_open ← or_panic (slice_from search (start + String.length tag_open));
      match find_str tag_close after_open with
      | None => Done (inr results)
      | Some e =>
          inner ← or_panic (slice_to after_open e);
          let inner := trim inner in
          found ← (match try_parse inner with
                   | Some tc => Done (Some tc)
                   | None => parse_xml_function_block inner
                   end : outcome (option RawCall));
          rest ← or_panic (slice_from after_open (e + String.length tag_close));
          Done (inl (rest, match found with Some tc => results ++ [tc] | None => results end))
      end
  end.

Definition tagged_calls (content : string) : outcome (list RawCall) :=
  loop tag_step (fuel_of content) (content, []).

(** ** Format 2: Gemma's special tokens *)

(** The items of an array, [a] being what is left of it. *)
Definition gemma_item_step (st : string * list json)
  : outcome ((string * list json) + list json) :=
  let '(a, items) := st in
  if is_empty a then Done (inr items)
  else
    let a := trim_start_matches [","%char; " "%char] a in
    if is_empty a then Done (inr items)
    else if starts_with a QMARK then
      inner ← or_panic (slice_from a (String.length QMARK));
      let close := default (String.length inner) (find_str QMARK inner) in
      item ← or_panic (slice_to inner close);
      rest ← or_panic (slice_from inner (close + String.length QMARK));
      Done (inl (rest, items ++ [JString item]))
    else
      let e := default (String.length a) (find_any [","%char; "]"%char] a) in
      item ← or_panic (slice_to a e);
      rest ← or_panic (slice_from a e);
      Done (inl (rest, items ++ [default JNull (json_from_str (trim item))])).

(** One [key:value] of the slow path. *)
Definition gemma_pair_step (st : string * list (string * json))
  : outcome ((string * list (string * json)) + list (string * json)) :=
  let '(rem, m) := st in
  if is_empty rem then Done (inr m)
  else
    let rem := trim_start_matches [","%char; " "%char; LF; ascii_of_nat 9] rem in
    if is_empty rem then Done (inr m)
    else
      match find_str ":" rem with
      | None => Done (inr m)
      | Some colon =>
          key ← or_panic (slice_to rem colon);
          let key := trim key in
          rem ← or_panic (slice_from rem (colon + 1));
          if starts_with rem QMARK then
            inner ← or_panic (slice_from rem (String.length QMARK));
            let close := default (String.length inner) (find_str QMARK inner) in
            val ← or_panic (slice_to inner close);
            rest ← or_panic (slice_from inner (close + String.length QMARK));
            Done (inl (rest, obj_insert key (JString val) m))
          else if starts_with rem "[" then
            match find_str "]" rem with
            | None => Done (inr m)
            | Some arr_end =>
                arr ← or_panic (slice rem 1 arr_end);
                items ← loop gemma_item_step (fuel_of arr) (arr, []);
                rest ← or_panic (slice_from rem (arr_end + 1));
                Done (inl (rest, obj_insert key (JArray items) m))
            end
          else
            let e := default (String.length rem) (find_str "," rem) in
            val ← or_panic (slice_to rem e);
            rest ← or_panic (slice_from rem e);
            Done (inl (rest, obj_insert key (json_or_string (trim val)) m))
      end.

Definition gemma_args (args_blob : string) : outcome (list (string * json)) :=
  match json_from_str (trim args_blob) with
  | Some (JObject m) => Done m
  | _ => loop gemma_pair_step (fuel_of args_blob) (args_blob, [])
  end.

Definition gemma_step (st : string * list RawCall)
  : outcome ((string * list RawCall) + list RawCall) :=
  let '(search, results) := st in
  match find_str OPEN search with
  | None => Done (inr results)
  | Some start =>
      after ← or_panic (slice_from search (start + String.length OPEN));
      match find_str "{" after with
      | None => Done (inr results)
      | Some brace =>
          name ← or_panic (slice_to after brace);
          let name := trim name in
          rest ← or_panic (slice_from after brace);
          if sent_tool name then
            let e := default (String.length rest) (find_str CLOSE rest) in
            blob ← or_panic (slice_to rest e);
            let blob := trim blob in
            let blob := default blob (strip_prefix "{" blob ≫= strip_suffix "}") in
            m ← gemma_args blob;
            let results := results ++ [(name, JObject m)] in
            if Nat.ltb e (String.length rest) then
              search ← or_panic (slice_from rest (e + String.length CLOSE));
              Done (inl (search, results))
            else Done (inr results)
          else Done (inl (rest, results))
      end
  end.

Definition parse_gemma_tool_call_openai (content : string) : outcome (list RawCall) :=
  loop gemma_step (fuel_of content) (content, []).

(** ** Format 3: Python keyword arguments *)

Definition non_empty_lines (s : string) : list string :=
  List.filter (fun t => negb (is_empty t)) (map trim (lines s)).

Definition is_code_lang (lang : string) : bool :=
  bool_decide (lang ∈ ["python"; "tool_code"; "tool_call"; ""]).

Definition python_fence_step (st : string * list string)
  : outcome ((string * list string) + list string) :=
  let '(s, candidates) := st in
  match find_str fence s with
  | None => Done (inr candidates)
  | Some open =>
      after ← or_panic (slice_from s (open + 3));
      let lang_end := default (String.length after) (find_str (String LF "") after) in
      lang ← or_panic (slice_to after lang_end);
      let lang := to_lowercase (trim lang) in
      let body_start := (lang_end + 1)%nat in
      if Nat.leb (String.length after) body_start then Done (inr candidates)
      else
        body ← or_panic (slice_from after body_start);
        match find_str fence body with
        | None => Done (inr candidates)
        | Some close =>
            block ← or_panic (slice_to body close);
            rest ← or_panic (slice_from body (close + 3));
            Done (inl (rest, if is_code_lang lang then candidates ++ non_empty_lines block
                             else candidates))
        end
  end.

(** The tokens between top-level commas; [cur] is the token being read. *)
Fixpoint split_args (s : string) (depth : Z) (cur : string) : list string :=
  match s with
  | EmptyString => [cur]
  | String a s' =>
      if bool_decide (a ∈ ["("%char; "["%char; "{"%char]) then
        split_args s' (depth + 1) (cur +:+ String a "")
      else if bool_decide (a ∈ [")"%char; "]"%char; "}"%char]) then
        split_args s' (depth - 1) (cur +:+ String a "")
      else if Ascii.eqb a ","%char && (depth =? 0) then cur :: split_args s' depth ""
      else split_args s' depth (cur +:+ String a "")
  end.

Definition quoted_by (q : string) (s : string) : bool := starts_with s q && ends_with s q.

(** The value of a keyword argument: JSON, a quoted string, or text. *)
Definition python_value (raw_val : string) : outcome json :=
  match json_from_str raw_val with
  | Some v => Done v
  | None =>
      if quoted_by "'" raw_val || quoted_by (String dquote "") raw_val then
        inner ← or_panic (slice raw_val 1 (String.length raw_val - 1));
        Done (JString inner)
      else Done (JString raw_val)
  end.

Fixpoint python_args (tokens : list string) (args : list (string * json))
  : outcome (list (string * json)) :=
  match tokens with
  | [] => Done args
  | token :: rest =>
      let token := trim token in
      match find_str "=" token with
      | None => python_args rest args
      | Some eq =>
          key ← or_panic (slice_to token eq);
          let key := trim key in
          if is_empty key || contains key " " then python_args rest args
          else
            raw ← or_panic (slice_from token (eq + 1));
            v ← python_value (trim raw);
            python_args rest (obj_insert key v args)
      end
  end.

(** The loop over the candidate lines; it stops at the first call. *)
Fixpoint python_lines (candidates : list string) : outcome (list RawCall) :=
  match candidates with
  | [] => Done []
  | line :: rest =>
      match find_str "(" line with
      | None => python_lines rest
      | Some paren =>
          name ← or_panic (slice_to line paren);
          let name := trim name in
          if sent_tool name then
            match rfind_str ")" line with
            | None => python_lines rest
            | Some close =>
                if Nat.leb close paren then python_lines rest
                else
                  args_str ← or_panic (slice line (paren + 1) close);
                  if contains args_str "=" then
                    args ← python_args (split_args args_str 0 "") [];
                    match args with
                    | [] => python_lines rest
                    | _ => Done [(name, JObject args)]
                    end
                  else python_lines rest
            end
          else python_lines rest
      end
  end.

Definition parse_python_tool_calls (content : string) : outcome (list RawCall) :=
  fenced ← loop python_fence_step (fuel_of content) (content, []);
  python_lines (fenced ++ non_empty_lines content).

(** ** Format 4: a JSON object, fenced or bare *)

Definition fence_step (st : string * list string)
  : outcome ((string * list string) + list string) :=
  let '(s, c) := st in
  match find_str fence s with
  | None => Done (inr c)
  | Some open =>
      after ← or_panic (slice_from s (open + 3));
      let body_start := match find_str (String LF "") after with Some i => S i | None => O end in
      body ← or_panic (slice_from after body_start);
      match find_str fence body with
      | None => Done (inr c)
      | Some close =>
          block ← or_panic (slice_to body close);
          rest ← or_panic (slice_from body (close + 3));
          Done (inl (rest, c ++ [trim block]))
      end
  end.

Fixpoint first_parsed (candidates : list string) : list RawCall :=
  match candidates with
  | [] => []
  | raw :: rest => match try_parse raw with Some tc => [tc] | None => first_parsed rest end
  end.

Definition fenced_json_calls (content : string) : outcome (list RawCall) :=
  c ← loop fence_step (fuel_of content) (content, []);
  Done (first_parsed (c ++ [trim content])).

(** The next format is tried only when nothing was found. *)
Definition or_else (results : list RawCall) (next : outcome (list RawCall))
  : outcome (list RawCall) :=
  match results with [] => next | _ => Done results end.

Definition extract_calls (content : string) : outcome (list RawCall) :=
  r1 ← tagged_calls content;
  r2 ← or_else r1 (if contains content "<|tool_call>"
                   then parse_gemma_tool_call_openai content else Done []);
  r3 ← or_else r2 (parse_python_tool_calls content);
  or_else r3 (fenced_json_calls content).
End extract.

(** ** Ids and the whole completion *)

Definition uuid_v4_hex : prog string :=
  nanos ← perform ESystemNanos;
  ctr ← perform ECounter;
  mret (fmt_hex 8 8 (default 0 nanos) +:+ fmt_hex 8 4 ctr).

Fixpoint with_ids (calls : list RawCall) : prog (list ToolCall) :=
  match calls with
  | [] => mret []
  | (name, args) :: rest =>
      id ← uuid_v4_hex;
      tcs ← with_ids rest;
      mret (mkToolCall ("call_" +:+ id) name args :: tcs)
  end.

Section complete.
Context `{UnicodeTables, LoopHarness.Printers, WireLib}.

(** The fallback on the text of a response without calls. *)
Definition fallback_calls (req : CompletionRequest) (resp : CompletionResponse)
  : outcome (list RawCall) :=
  match resp_tool_calls resp, req_tools req, resp_content resp with
  | [], _ :: _, Some text =>
      if is_empty text then Done [] else extract_calls (map td_name (req_tools req)) text
  | _, _, _ => Done []
  end.

Definition set_resp_calls (tcs : list ToolCall) (resp : CompletionResponse)
  : CompletionResponse :=
  mkCompletionResponse (resp_content resp) tcs (resp_finish_reason resp) (resp_usage resp).

(** [OpenAiProvider::complete]; a panic of the parser unwinds it. *)
Definition openai_complete (p : OpenAi.OpenAiProvider) (req : CompletionRequest)
  : prog (outcome (result CompletionResponse LlmError)) :=
  match OpenAi.build_headers p with
  | Err e => mret (Done (Err e))
  | Ok headers =>
      r ← perform (EHttp (mkHttpRequest "POST" (OpenAi.op_base_url p +:+ "/chat/completions")
                            headers (Some (OpenAi.build_payload p req false))));
      match r with
      | Err e => mret (Done (Err (LlmError_Network e)))
      | Ok resp =>
          if (200 <=? http_status resp) && (http_status resp <=? 299) then
            match http_json resp with
            | Err e => mret (Done (Err (LlmError_Provider "openai" ("invalid JSON: " +:+ e))))
            | Ok body =>
                match OpenAi.parse_body p body with
                | Err e => mret (Done (Err e))
                | Ok parsed =>
                    match fallback_calls req parsed with
                    | Done [] => mret (Done (Ok parsed))
                    | Done calls =>
                        tcs ← with_ids calls; mret (Done (Ok (set_resp_calls tcs parsed)))
                    | Panics => mret Panics
                    | OutOfFuel => mret OutOfFuel
                    end
                end
            end
          else
            mret (Done (Err (OpenAi.map_http_error (http_status resp) (http_text resp)
                               (OpenAi.parse_retry_after (http_response_headers resp)))))
      end
  end.
End complete.
