(* ===== verification/ToolInput.v ===== *)
(** * Derived tools ([crates/pg-synapse-macros])

    What [#[derive(Tool)]] generates: the arguments are read into the tool's
    struct, or the call is refused as invalid input. *)

From S2P Require Import Prelude.
From S2P Require Import RustStr.
From S2P Require Import Json.
From S2P Require Import Errors.
From S2P Require Import Types.
From S2P Require Import Effects.
From S2P Require Import Traits.

(** The wording of a deserialisation error, and the schema generator. *)
Class DeriveLib := {
  serde_error : string -> json -> string;
  schema_for : string -> ToolSchema }.

(** A struct is read from an object by field name, or from an array by
    position; an element too many is an error. *)
Definition struct_fields (names : list string) (v : json) : option (list (option json)) :=
  match v with
  | JObject m => Some (map (fun k => obj_get k m) names)
  | JArray l =>
      if Nat.leb (length l) (length names)
      then Some (map Some l ++ replicate (length names - length l) None) else None
  | _ => None
  end.

(** The same with the names a field may have, its own first; two of them at
    once are a duplicate field, which is an error. *)
Definition aliased_field (aliases : list string) (m : list (string * json)) : option (option json) :=
  match omap (fun k => obj_get k m) aliases with
  | [] => Some None
  | [v] => Some (Some v)
  | _ => None
  end.

Definition aliased_fields (fields : list (list string)) (v : json) : option (list (option json)) :=
  match v with
  | JObject m => mapM (fun aliases => aliased_field aliases m) fields
  | _ => struct_fields (map (hd "") fields) v
  end.

(** A field of type [String], one with a default, and one of type [BTreeMap<String, String>]
    with [#[serde(default)]]. *)
Definition string_field (f : option json) : option string := f ≫= as_str.

Definition string_or (d : string) (f : option json) : option string :=
  match f with None => Some d | Some v => as_str v end.

(** A field of type [Option<String>]. *)
Definition opt_string_field (f : option json) : option (option string) := read_opt as_str f.

Definition bool_or (d : bool) (f : option json) : option bool :=
  match f with None => Some d | Some v => as_bool v end.

(** An unsigned integer of a width, with a default. *)
Definition uint_or (max d : Z) (f : option json) : option Z :=
  match f with
  | None => Some d
  | Some v => n ← as_u64 v; if n <=? max then Some n else None
  end.

Definition string_entry (kv : string * json) : option (string * string) :=
  s ← as_str kv.2; Some (kv.1, s).
Definition string_map_field (f : option json) : option (list (string * string)) :=
  match f with
  | None => Some []
  | Some (JObject m) => mapM string_entry m
  | Some _ => None
  end.

Section derive.
Context `{DeriveLib}.

(** [from_value(input).map_err(InvalidInput)?] *)
Definition parse_input {A} (name : string) (read : json -> option A) (input : json)
  : result A ToolError :=
  match read input with
  | Some a => Ok a
  | None => Err (ToolError_InvalidInput name (serde_error name input))
  end.

Definition derive_tool {A} (name : string) (read : json -> option A)
    (run : A -> ToolCtx -> prog (result ToolOutput ToolError)) : ToolObj :=
  {| tool_name := name;
     tool_schema := schema_for name;
     tool_run := fun input ctx =>
       match parse_input name read input with
       | Err e => mret (ToolReturned (Err e))
       | Ok a => r ← run a ctx; mret (ToolReturned r)
       end |}.
End derive.
