(* ===== verification/Mcp.v ===== *)
(** * The MCP client ([tool/mcp_client.rs], [ToolRegistry::add_mcp])

    Tools of a Model Context Protocol server: JSON-RPC calls over HTTP, the
    handshake, the listing of tools and their registration.

    The body of a response is read into [JsonRpcResponse] from its JSON value;
    a field that the text gives twice is read as given once. *)

From S2P Require Import Prelude.
From S2P Require Import RustStr.
From S2P Require Import Json.
From S2P Require Import Errors.
From S2P Require Import Types.
From S2P Require Import Effects.
From S2P Require Import HarnessText.
From S2P Require Import Traits.
From S2P Require Import Registry.
From S2P Require Import Builder.
From S2P Require Import Wire.
From S2P Require Import ToolInput.
#[local] Open Scope synapse_scope.

(** What building an HTTP client reports when it fails, and a JSON Schema
    document as [RootSchema] keeps it. *)
Class McpLib := {
  client_build_error : option string;
  root_schema : json -> result ToolSchema string }.

Module Client.

Record McpServerInfo := mkMcpServerInfo { info_name : string; info_version : string }.
Definition McpServerInfo_default : McpServerInfo := mkMcpServerInfo "" "".

Record McpToolDef := mkMcpToolDef {
  def_name : string; def_description : option string; def_input_schema : json }.

Record JsonRpcError := mkJsonRpcError { rpc_code : Z; rpc_message : string }.

(** The fields [jsonrpc] and [id] are read and not used. *)
Record JsonRpcResponse := mkJsonRpcResponse {
  rpc_result : option json; rpc_error : option JsonRpcError }.

Record McpClient := mkMcpClient { server_url : string; server_info : McpServerInfo }.

(** ** Reading the answers

    From an array, the fields without a default must all be there. *)

Definition enough_elements (n : nat) (v : json) : option json :=
  match v with JArray l => if Nat.leb n (length l) then Some v else None | _ => Some v end.

Definition read_info (v : json) : option McpServerInfo :=
  fs ← struct_fields ["name"; "version"] v;
  match fs with
  | [n; w] => name ← string_or "" n; version ← string_or "" w; Some (mkMcpServerInfo name version)
  | _ => None
  end.

Definition read_def (v : json) : option McpToolDef :=
  v ← enough_elements 3 v;
  fs ← struct_fields ["name"; "description"; "inputSchema"] v;
  match fs with
  | [n; d; s] =>
      name ← string_field n; description ← opt_string_field d; schema ← s;
      Some (mkMcpToolDef name description schema)
  | _ => None
  end.

Definition read_rpc_error (v : json) : option JsonRpcError :=
  v ← enough_elements 3 v;
  fs ← struct_fields ["code"; "message"; "data"] v;
  match fs with
  | [c; m; _] => code ← c ≫= as_i64; message ← string_field m; Some (mkJsonRpcError code message)
  | _ => None
  end.

Definition read_response (v : json) : option JsonRpcResponse :=
  v ← enough_elements 2 v;
  fs ← struct_fields ["jsonrpc"; "id"; "result"; "error"] v;
  match fs with
  | [version; _; r; e] =>
      _ ← opt_string_field version;
      result ← read_opt Some r; error ← read_opt read_rpc_error e;
      Some (mkJsonRpcResponse result error)
  | _ => None
  end.

Section client.
Context `{DeriveLib, McpLib}.

Definition read_as {A} (type_name failed : string) (read : json -> option A) (v : json)
  : result A ToolError :=
  match read v with
  | Some a => Ok a
  | None => Err (ToolError_Mcp (failed +:+ ": " +:+ serde_error type_name v))
  end.

(** ** One call *)

Definition rpc_body (id : Z) (method : string) (params : json) : json :=
  json_object
    [("jsonrpc", JString "2.0"); ("id", json_u64 id); ("method", JString method);
     ("params", params)].

(** [.post(url).json(&body)] *)
Definition post_json (url : string) (body : json) : http_request :=
  mkHttpRequest "POST" url {["content-type" := "application/json"]} (Some body).

Definition envelope_result (method : string) (envelope : JsonRpcResponse) : result json ToolError :=
  match rpc_error envelope with
  | Some err =>
      Err (ToolError_Mcp ("jsonrpc error " +:+ show (rpc_code err) +:+ " from " +:+ method +:+ ": "
                            +:+ rpc_message err))
  | None =>
      ok_or (rpc_result envelope) (ToolError_Mcp ("jsonrpc response missing result for " +:+ method))
  end.

Definition read_answer (method : string) (r : result http_response string)
  : result json ToolError :=
  match r with
  | Err e => Err (ToolError_Mcp ("transport error calling " +:+ method +:+ ": " +:+ e))
  | Ok resp =>
      if negb (is_success (http_status resp)) then
        Err (ToolError_Mcp ("http status " +:+ show (http_status resp) +:+ " from " +:+ method))
      else
        match http_json resp with
        | Err e => Err (ToolError_Mcp ("invalid JSON-RPC envelope: " +:+ e))
        | Ok v =>
            envelope <-? read_as "JsonRpcResponse" "invalid JSON-RPC envelope" read_response v ;;
            envelope_result method envelope
        end
  end.

(** [next_id] is the process-wide counter. *)
Definition rpc (url method : string) (params : json) : prog (result json ToolError) :=
  id ← perform ECounter;
  r ← perform (EHttp (post_json url (rpc_body id method params)));
  mret (read_answer method r).

(** ** Methods *)

Definition initialize_params : json :=
  json_object
    [("protocolVersion", JString "2025-11-25"); ("capabilities", json_object []);
     ("clientInfo", json_object [("name", JString "pg-synapse-core");
                                 ("version", JString CARGO_PKG_VERSION)])].

Definition server_info_of (v : json) : result McpServerInfo ToolError :=
  match json_get "serverInfo" v with
  | Some info => read_as "McpServerInfo" "invalid serverInfo" read_info info
  | None => read_as "McpServerInfo" "invalid initialize result" read_info v
  end.

Definition initialize (url : string) : prog (result McpServerInfo ToolError) :=
  prog_try (rpc url "initialize" initialize_params) (fun v => mret (server_info_of v)).

Definition connect (url : string) : prog (result McpClient ToolError) :=
  match client_build_error with
  | Some e => mret (Err (ToolError_Mcp ("http client build failed: " +:+ e)))
  | None => prog_try (initialize url) (fun info => mret (Ok (mkMcpClient url info)))
  end.

Definition read_defs (v : json) : option (list McpToolDef) := as_array v ≫= mapM read_def.

Definition defs_of (v : json) : result (list McpToolDef) ToolError :=
  tools <-? ok_or (json_get "tools" v)
              (ToolError_Mcp "tools/list response missing 'tools' field") ;;
  read_as "Vec<McpToolDef>" "invalid tools/list payload" read_defs tools.

Definition list_tools (c : McpClient) : prog (result (list McpToolDef) ToolError) :=
  prog_try (rpc (server_url c) "tools/list" JNull) (fun v => mret (defs_of v)).

(** The texts of the content, one per line. *)
Definition text_item (item : json) : option string :=
  match json_get "type" item ≫= as_str with
  | Some kind => if String.eqb kind "text" then json_get "text" item ≫= as_str else None
  | None => None
  end.

Definition push_text (out : string) (item : json) : string :=
  match text_item item with
  | Some text => (if is_empty out then out else out +:+ newline) +:+ text
  | None => out
  end.

Definition extract_text (v : json) : option string :=
  content ← json_get "content" v ≫= as_array;
  let out := fold_left push_text content "" in
  if is_empty out then None else Some out.

Definition call_output (name : string) (v : json) : result ToolOutput ToolError :=
  if default false (json_get "isError" v ≫= as_bool) then
    Err (ToolError_Execution name (default "tool reported error" (extract_text v)))
  else
    match extract_text v with
    | Some text => Ok (OutText text)
    | None =>
        match json_get "content" v with
        | Some content => Ok (OutJson content)
        | None => Ok OutEmpty
        end
    end.

Definition call_params (name : string) (args : json) : json :=
  json_object [("name", JString name); ("arguments", args)].

Definition call_tool (c : McpClient) (name : string) (args : json)
  : prog (result ToolOutput ToolError) :=
  prog_try (rpc (server_url c) "tools/call" (call_params name args))
    (fun v => mret (call_output name v)).

(** ** The tools *)

Definition McpTool (c : McpClient) (name : string) (schema : ToolSchema) : ToolObj :=
  {| tool_name := name;
     tool_schema := schema;
     tool_run := fun input _ => r ← call_tool c name input; mret (ToolReturned r) |}.

(** The registry is filled in place: what was inserted before a bad schema
    stays. *)
Fixpoint insert_tools (c : McpClient) (defs : list McpToolDef) (r : ToolRegistry)
  : result unit ToolError * ToolRegistry :=
  match defs with
  | [] => (Ok tt, r)
  | def :: rest =>
      match root_schema (def_input_schema def) with
      | Err e =>
          (Err (ToolError_Mcp ("invalid schema for tool '" +:+ def_name def +:+ "': " +:+ e)), r)
      | Ok schema =>
          insert_tools c rest (<[def_name def := McpTool c (def_name def) schema]> r)
      end
  end.

Definition add_mcp (url : string) (r : ToolRegistry) : prog (result unit ToolError * ToolRegistry) :=
  listed ← prog_try (connect url) (fun c =>
             prog_try (list_tools c) (fun defs => mret (Ok (c, defs))));
  mret (match listed with
        | Ok (c, defs) => insert_tools c defs r
        | Err e => (Err e, r)
        end).
End client.
End Client.
