(* ===== verification/ToolsHttp.v ===== *)
(** * The HTTP tools ([plugins/pg-synapse-tools-http/src/lib.rs])

    [http_get], [http_post] and [http_head], and the guard that decides
    which URLs a tool call may reach. *)

From S2P Require Import Prelude.
From S2P Require Import RustStr.
From S2P Require Import F64.
From S2P Require Import Json.
From S2P Require Import Errors.
From S2P Require Import Types.
From S2P Require Import Net.
From S2P Require Import Effects.
From S2P Require Import Traits.
From S2P Require Import Registry.
From S2P Require Import StrSlice.
From S2P Require Import Wire.
From S2P Require Import ToolInput.

(** The URL parser, and the text of an IPv6 address. *)
Class NetLib := {
  parse_url : string -> result Url string;
  fmt_ipv6 : IpAddr -> string }.

(** ** Blocked addresses *)

Definition blocked_v4 (a b c d : Z) : bool :=
  v4_is_private a b c d || v4_is_loopback a b c d || v4_is_link_local a b c d
  || v4_is_unspecified a b c d || v4_is_broadcast a b c d || v4_is_documentation a b c d.

Definition blocked_v6 (l : list Z) : bool :=
  match to_ipv4_mapped l with
  | Some (a, b, c, d) => blocked_v4 a b c d
  | None =>
      let first := hd 0 l in
      v6_is_loopback l || v6_is_unspecified l
      || (Z.land first 65024 =? 64512)
      || (Z.land first 65472 =? 65152)
  end.

Definition is_blocked_ip (ip : IpAddr) : bool :=
  match ip with
  | V4 a b c d => blocked_v4 a b c d
  | V6 s0 s1 s2 s3 s4 s5 s6 s7 => blocked_v6 [s0; s1; s2; s3; s4; s5; s6; s7]
  end.

(** ** The two lists of hosts

    Each is read once from an environment variable; the first also grows by
    [allow_host]. *)

Definition not_empty (s : string) : bool := negb (is_empty s).

Definition allowlist (raw : option string) : gset string :=
  match raw with
  | Some v => list_to_set (List.filter not_empty (map trim (split_on "," v)))
  | None => ∅
  end.

Definition allow_host (host : string) (set : gset string) : gset string := {[host]} ∪ set.

Definition host_allowlisted (set : gset string) (host : string) : bool :=
  bool_decide (host ∈ set).

Definition egress_allowlist (raw : option string) : option (list string) :=
  (fun v => List.filter not_empty (map (fun h => to_ascii_lowercase (trim h)) (split_on "," v)))
    <$> raw.

Definition egress_match (host entry : string) : bool :=
  match strip_prefix "." entry with
  | Some domain => String.eqb host domain || ends_with host ("." +:+ domain)
  | None => String.eqb host entry
  end.

Definition egress_permitted (allowed : option (list string)) (host : string) : bool :=
  match allowed with
  | None => true
  | Some entries => existsb (egress_match (to_ascii_lowercase host)) entries
  end.

(** ** The guard *)

Section http.
Context `{Printers, WireLib, NetLib, DeriveLib}.
Context (allow : gset string) (egress : option (list string)).

Definition fmt_ip (ip : IpAddr) : string :=
  match ip with
  | V4 a b c d => show a +:+ "." +:+ show b +:+ "." +:+ show c +:+ "." +:+ show d
  | V6 _ _ _ _ _ _ _ _ => fmt_ipv6 ip
  end.

Definition blocked (tool reason : string) : result unit ToolError :=
  Err (ToolError_Execution tool reason).

Definition guard_url (url tool : string) : prog (result unit ToolError) :=
  match parse_url url with
  | Err e => mret (blocked tool ("invalid url: " +:+ e))
  | Ok parsed =>
      if negb (String.eqb (url_scheme parsed) "http" || String.eqb (url_scheme parsed) "https")
      then mret (blocked tool ("scheme '" +:+ url_scheme parsed +:+ "' not allowed"))
      else
        match url_host_str parsed with
        | None => mret (blocked tool "url has no host")
        | Some host =>
            if negb (egress_permitted egress host) then
              mret (blocked tool ("egress to '" +:+ host
                      +:+ "' is not permitted; PG_SYNAPSE_HTTP_EGRESS_ALLOW does not list it"))
            else if host_allowlisted allow host then mret (Ok tt)
            else
              match parse_ip host with
              | Some ip =>
                  if is_blocked_ip ip then
                    mret (blocked tool ("request to internal address " +:+ fmt_ip ip
                                          +:+ " is blocked"))
                  else mret (Ok tt)
              | None =>
                  let port := default 80 (url_port_or_known_default parsed) in
                  r ← perform (EResolve host port);
                  mret (match r with
                        | Err e => blocked tool ("dns resolution failed: " +:+ e)
                        | Ok addrs =>
                            match List.find is_blocked_ip addrs with
                            | Some ip =>
                                blocked tool ("host '" +:+ host +:+ "' resolves to internal address "
                                                +:+ fmt_ip ip +:+ "; blocked")
                            | None => Ok tt
                            end
                        end)
              end
        end
  end.

(** ** The tools *)

Definition HTTP_GET : string := "http_get".
Definition HTTP_POST : string := "http_post".
Definition HTTP_HEAD : string := "http_head".

Record HttpGet := mkHttpGet { get_url : string; get_headers : list (string * string) }.
Record HttpPost := mkHttpPost {
  post_url : string; post_body : json; post_headers : list (string * string) }.
Record HttpHead := mkHttpHead { head_url : string; head_headers : list (string * string) }.

Definition read_get (v : json) : option HttpGet :=
  fs ← struct_fields ["url"; "headers"] v;
  match fs with
  | [u; h] => url ← string_field u; headers ← string_map_field h; Some (mkHttpGet url headers)
  | _ => None
  end.

Definition read_post (v : json) : option HttpPost :=
  fs ← struct_fields ["url"; "body"; "headers"] v;
  match fs with
  | [u; b; h] =>
      url ← string_field u; headers ← string_map_field h;
      Some (mkHttpPost url (default JNull b) headers)
  | _ => None
  end.

Definition read_head (v : json) : option HttpHead :=
  fs ← struct_fields ["url"; "headers"] v;
  match fs with
  | [u; h] => url ← string_field u; headers ← string_map_field h; Some (mkHttpHead url headers)
  | _ => None
  end.

Definition decode_string_body (body : json) : json :=
  match body with
  | JString s =>
      match json_from_str (trim s) with
      | Some (JObject m) => JObject m
      | Some (JArray l) => JArray l
      | _ => body
      end
  | _ => body
  end.

Definition status_body (name : string) (r : result fetch_response string)
  : result ToolOutput ToolError :=
  match r with
  | Err e => Err (ToolError_Execution name e)
  | Ok resp =>
      match fetch_text resp with
      | Err e => Err (ToolError_Execution name e)
      | Ok body =>
          Ok (OutJson (json_object [("status", JNumber (PosInt (fetch_status resp)));
                                    ("body", JString body)]))
      end
  end.

(** Headers that are text; of a repeated name the last value stays. *)
Definition collect_headers (l : list (string * option string)) : json :=
  JObject (fold_left (fun m kv => match kv.2 with
                                  | Some s => obj_insert kv.1 (JString s) m
                                  | None => m
                                  end) l []).

Definition status_headers (name : string) (r : result fetch_response string)
  : result ToolOutput ToolError :=
  match r with
  | Err e => Err (ToolError_Execution name e)
  | Ok resp =>
      Ok (OutJson (json_object [("status", JNumber (PosInt (fetch_status resp)));
                                ("headers", collect_headers (fetch_response_headers resp))]))
  end.

Definition guarded (url tool : string) (k : prog (result ToolOutput ToolError))
  : prog (result ToolOutput ToolError) :=
  g ← guard_url url tool;
  match g with Err e => mret (Err e) | Ok tt => k end.

Definition http_get_run (t : HttpGet) (_ : ToolCtx) : prog (result ToolOutput ToolError) :=
  guarded (get_url t) HTTP_GET
    (r ← perform (EFetch (mkFetchRequest "GET" (get_url t) (get_headers t) None));
     mret (status_body HTTP_GET r)).

Definition http_post_run (t : HttpPost) (_ : ToolCtx) : prog (result ToolOutput ToolError) :=
  guarded (post_url t) HTTP_POST
    (r ← perform (EFetch (mkFetchRequest "POST" (post_url t) (post_headers t)
                            (Some (decode_string_body (post_body t)))));
     mret (status_body HTTP_POST r)).

Definition http_head_run (t : HttpHead) (_ : ToolCtx) : prog (result ToolOutput ToolError) :=
  guarded (head_url t) HTTP_HEAD
    (r ← perform (EFetch (mkFetchRequest "HEAD" (head_url t) (head_headers t) None));
     mret (status_headers HTTP_HEAD r)).

Definition http_get : ToolObj := derive_tool HTTP_GET read_get http_get_run.
Definition http_post : ToolObj := derive_tool HTTP_POST read_post http_post_run.
Definition http_head : ToolObj := derive_tool HTTP_HEAD read_head http_head_run.

Definition HttpToolsPlugin_register (r : Registry) : Registry :=
  mkRegistry
    (ToolReg.add_arc HTTP_HEAD http_head
      (ToolReg.add_arc HTTP_POST http_post
        (ToolReg.add_arc HTTP_GET http_get (reg_tools r))))
    (reg_executors r) (reg_llm_factories r) (reg_embedding_factories r) (reg_memory r)
    (reg_compressor r).
End http.
