(* ===== verification/ToolsDelegate.v ===== *)
(** * The delegation tool ([plugins/pg-synapse-tools-delegate/src/lib.rs])

    [call_agent] runs another agent of the same runtime.  A process-wide
    counter bounds the nesting.  Concurrent activations of the tool, nested
    ones included, interleave at its requests; [pool_step] is one step of the
    process. *)

From S2P Require Import Prelude.
From S2P Require Import RustStr.
From S2P Require Import F64.
From S2P Require Import Json.
From S2P Require Import Errors.
From S2P Require Import Types.
From S2P Require Import Effects.
From S2P Require Import Traits.
From S2P Require Import Registry.
From S2P Require Import ToolInput.

Definition MAX_DELEGATION_DEPTH : Z := 4.
Definition CALL_AGENT : string := "call_agent".

Record CallAgentInput := mkCallAgentInput { ca_agent : string; ca_input : string }.

Definition read_call_agent (v : json) : option CallAgentInput :=
  fs ← struct_fields ["agent"; "input"] v;
  match fs with
  | [a; i] => agent ← string_field a; input ← string_field i; Some (mkCallAgentInput agent input)
  | _ => None
  end.

(** How a runtime executes an agent. *)
Abbreviation runtime_handle := (string -> string -> prog (result ExecutorOutcome RuntimeError)).

(** The [OnceLock] that holds the weak handle, and whether the runtime behind
    a handle is still there. *)
Record CallAgentTool := mkCallAgentTool { handle : option (option runtime_handle) }.

Definition empty : CallAgentTool := mkCallAgentTool None.

Definition inject (weak : option runtime_handle) (t : CallAgentTool) : CallAgentTool :=
  match handle t with None => mkCallAgentTool (Some weak) | Some _ => t end.

Definition runtime_arc (t : CallAgentTool) : result runtime_handle ToolError :=
  ok_or (handle t ≫= id)
    (ToolError_Execution CALL_AGENT "runtime handle not injected or runtime was dropped").

(** The decimal text of an [f64]. *)
Class FloatPrinter := { fmt_f64 : f64 -> string }.

Abbreviation activation := (prog (result ToolOutput ToolError)).

Section run.
Context `{DeriveLib, FloatPrinter}.

Definition refusal (agent : string) : ToolError :=
  ToolError_Execution CALL_AGENT
    ("delegation depth limit (" +:+ show MAX_DELEGATION_DEPTH
       +:+ ") exceeded; refusing to call agent '" +:+ agent +:+ "'").

Definition sub_result (agent : string) (r : result ExecutorOutcome RuntimeError)
  : result ToolOutput ToolError :=
  match r with
  | Ok o => Ok (OutText (out_output o))
  | Err e =>
      Err (ToolError_Execution CALL_AGENT
             ("sub-agent '" +:+ agent +:+ "' failed: " +:+ RuntimeError_to_string fmt_f64 e))
  end.

Definition call_agent_run (t : CallAgentTool) (input : json) : prog (result ToolOutput ToolError) :=
  match parse_input CALL_AGENT read_call_agent input with
  | Err e => mret (Err e)
  | Ok args =>
      match runtime_arc t with
      | Err e => mret (Err e)
      | Ok runtime =>
          depth ← perform (EDepth 1);
          if MAX_DELEGATION_DEPTH <=? depth then
            perform (EDepth (-1));;
            mret (Err (refusal (ca_agent args)))
          else
            r ← runtime (ca_agent args) (ca_input args);
            perform (EDepth (-1));;
            mret (sub_result (ca_agent args) r)
      end
  end.

Definition call_agent (t : CallAgentTool) : ToolObj :=
  {| tool_name := CALL_AGENT;
     tool_schema := schema_for CALL_AGENT;
     tool_run := fun input _ => r ← call_agent_run t input; mret (ToolReturned r) |}.

Definition DelegateToolsPlugin_register (t : CallAgentTool) (r : Registry) : Registry :=
  mkRegistry (ToolReg.add_arc CALL_AGENT (call_agent t) (reg_tools r)) (reg_executors r)
    (reg_llm_factories r) (reg_embedding_factories r) (reg_memory r) (reg_compressor r).

(** ** The process *)

(** The handle of the shared runtime, seen from outside: an execution is one
    request.  The delegations it makes are activations of their own. *)
Definition shared_runtime : runtime_handle := fun agent input => perform (ERuntime agent input).

(** The counter, the activations under way, and how many were dropped while
    they waited for a run they had been let through to. *)
Record pool := mkPool { depth : Z; live : list activation; lost : nat }.

Definition pool0 : pool := mkPool 0 [] 0.

(** The activation's next request, if it is one on the counter. *)
Definition depth_request (p : activation) : option (Z * (Z -> activation)) :=
  match p with
  | Vis e k =>
      match e in eff X return (X -> activation) -> option (Z * (Z -> activation)) with
      | EDepth d => fun k => Some (d, k)
      | _ => fun _ => None
      end k
  | Ret _ => None
  end.

(** Waiting for an answer from outside, and going on with one. *)
Definition waiting (p : activation) : bool :=
  match p with Vis e _ => suspends e | Ret _ => false end.
Definition resumes (p p' : activation) : Prop :=
  match p with Vis e k => suspends e = true /\ exists x, p' = k x | Ret _ => False end.
Definition finished (p : activation) : bool :=
  match p with Ret _ => true | Vis _ _ => false end.

Inductive pool_step : pool -> pool -> Prop :=
| Start s input :
    pool_step s (mkPool (depth s)
                   (live s ++ [call_agent_run (mkCallAgentTool (Some (Some shared_runtime))) input])
                   (lost s))
| Count s l1 p l2 d k :
    live s = l1 ++ p :: l2 -> depth_request p = Some (d, k) ->
    pool_step s (mkPool (wrap32 (depth s + d)) (l1 ++ k (depth s) :: l2) (lost s))
| Resume s l1 p l2 p' :
    live s = l1 ++ p :: l2 -> resumes p p' ->
    pool_step s (mkPool (depth s) (l1 ++ p' :: l2) (lost s))
| Finish s l1 p l2 :
    live s = l1 ++ p :: l2 -> finished p = true ->
    pool_step s (mkPool (depth s) (l1 ++ l2) (lost s))
| Drop s l1 p l2 :
    live s = l1 ++ p :: l2 -> waiting p = true ->
    pool_step s (mkPool (depth s) (l1 ++ l2) (S (lost s))).

Definition running (s : pool) : nat := length (List.filter waiting (live s)).
End run.
