(* ===== verification/ToolsSpec.v ===== *)
(** * What the tools guarantee: lemmas

    The URLs the HTTP guard lets through, the address ranges it blocks, and
    the count of delegations. *)

From S2P Require Import Prelude.
From S2P Require Import RustStr.
From S2P Require Import Json.
From S2P Require Import Errors.
From S2P Require Import Types.
From S2P Require Import Net.
From S2P Require Import Effects.
From S2P Require Import Traits.
From S2P Require Import Wire.
From S2P Require Import ToolInput.
From S2P Require Import ToolsHttp.
From S2P Require Import ToolsDelegate.

(** ** Address ranges *)

(** The first and last address of a network of [w]-bit addresses. *)
Definition net (w len base : Z) : Z * Z := (base, base + 2 ^ (w - len) - 1).

Definition v4_value (a b c d : Z) : Z := ((a * 256 + b) * 256 + c) * 256 + d.

Definition v6_value (l : list Z) : Z := fold_left (fun acc s => acc * 65536 + s) l 0.

Definition ip_value (ip : IpAddr) : Z :=
  match ip with
  | V4 a b c d => v4_value a b c d
  | V6 s0 s1 s2 s3 s4 s5 s6 s7 => v6_value [s0; s1; s2; s3; s4; s5; s6; s7]
  end.

(** Octets and segments at their width. *)
Definition ip_wf (ip : IpAddr) : Prop :=
  match ip with
  | V4 a b c d => Forall (fun x => 0 <= x <= 255) [a; b; c; d]
  | V6 s0 s1 s2 s3 s4 s5 s6 s7 =>
      Forall (fun x => 0 <= x <= 65535) [s0; s1; s2; s3; s4; s5; s6; s7]
  end.

Definition blocked_nets_v4 : list (Z * Z) :=
  [net 32 8 (v4_value 10 0 0 0); net 32 12 (v4_value 172 16 0 0);
   net 32 16 (v4_value 192 168 0 0); net 32 8 (v4_value 127 0 0 0);
   net 32 16 (v4_value 169 254 0 0); net 32 32 (v4_value 0 0 0 0);
   net 32 32 (v4_value 255 255 255 255); net 32 24 (v4_value 192 0 2 0);
   net 32 24 (v4_value 198 51 100 0); net 32 24 (v4_value 203 0 113 0)].

Definition MAPPED : Z := 65535 * 2 ^ 32.

Definition blocked_nets_v6 : list (Z * Z) :=
  [net 128 128 1; net 128 128 0; net 128 7 (64512 * 2 ^ 112); net 128 10 (65152 * 2 ^ 112)]
  ++ map (fun '(lo, hi) => (MAPPED + lo, MAPPED + hi)) blocked_nets_v4.

Definition in_nets (nets : list (Z * Z)) (x : Z) : Prop :=
  Exists (fun '(lo, hi) => lo <= x <= hi) nets.

(** Membership in one network, as a condition on the octets. *)
Ltac net_v4 :=
  unfold ip_wf, net, v4_value, in_range; rewrite !Forall_cons; intros (? & ? & ? & ? & _);
  rewrite ?orb_true_iff, ?andb_true_iff, ?Z.eqb_eq, ?Z.leb_le; cbn; lia.

Lemma private_nets a b c d :
  ip_wf (V4 a b c d) ->
  v4_is_private a b c d = true <->
  in_nets [net 32 8 (v4_value 10 0 0 0); net 32 12 (v4_value 172 16 0 0);
           net 32 16 (v4_value 192 168 0 0)] (v4_value a b c d).
Proof. unfold v4_is_private, in_nets. rewrite !Exists_cons, Exists_nil. net_v4. Qed.

Lemma local_nets a b c d :
  ip_wf (V4 a b c d) ->
  v4_is_loopback a b c d || v4_is_link_local a b c d = true <->
  in_nets [net 32 8 (v4_value 127 0 0 0); net 32 16 (v4_value 169 254 0 0)] (v4_value a b c d).
Proof.
  unfold v4_is_loopback, v4_is_link_local, in_nets. rewrite !Exists_cons, Exists_nil. net_v4.
Qed.

Lemma special_nets a b c d :
  ip_wf (V4 a b c d) ->
  v4_is_unspecified a b c d || v4_is_broadcast a b c d = true <->
  in_nets [net 32 32 (v4_value 0 0 0 0); net 32 32 (v4_value 255 255 255 255)]
    (v4_value a b c d).
Proof.
  unfold v4_is_unspecified, v4_is_broadcast, in_nets. rewrite !Exists_cons, Exists_nil. net_v4.
Qed.

Lemma net24 a b c d p q r :
  ip_wf (V4 a b c d) -> ip_wf (V4 p q r 0) ->
  (a =? p) && (b =? q) && (c =? r) = true <->
  v4_value p q r 0 <= v4_value a b c d <= v4_value p q r 0 + 2 ^ (32 - 24) - 1.
Proof.
  unfold ip_wf, v4_value. rewrite !Forall_cons, !andb_true_iff, !Z.eqb_eq.
  intros (? & ? & ? & ? & _) (? & ? & ? & _). cbn. split; [lia|].
  intros ?. assert (a = p) by lia. assert (b = q) by lia. lia.
Qed.

Lemma documentation_nets a b c d :
  ip_wf (V4 a b c d) ->
  v4_is_documentation a b c d = true <->
  in_nets [net 32 24 (v4_value 192 0 2 0); net 32 24 (v4_value 198 51 100 0);
           net 32 24 (v4_value 203 0 113 0)] (v4_value a b c d).
Proof.
  intros Hwf. unfold v4_is_documentation, in_nets, net.
  rewrite !Exists_cons, Exists_nil, !orb_true_iff.
  pose proof (net24 a b c d 192 0 2 Hwf) as H1. pose proof (net24 a b c d 198 51 100 Hwf) as H2.
  pose proof (net24 a b c d 203 0 113 Hwf) as H3.
  unfold ip_wf in H1, H2, H3. rewrite !Forall_cons in H1, H2, H3. unfold ip_wf in Hwf.
  destruct H1 as [? ?]; [split_and!; auto; lia|]. destruct H2 as [? ?]; [split_and!; auto; lia|].
  destruct H3 as [? ?]; [split_and!; auto; lia|].
  split; [intros [[?|?]|?]; auto|intros [?|[?|[?|[]]]]; auto].
Qed.

Lemma blocked_v4_nets a b c d :
  ip_wf (V4 a b c d) ->
  blocked_v4 a b c d = true <-> in_nets blocked_nets_v4 (v4_value a b c d).
Proof.
  intros Hwf.
  change blocked_nets_v4 with
    (([net 32 8 (v4_value 10 0 0 0); net 32 12 (v4_value 172 16 0 0);
       net 32 16 (v4_value 192 168 0 0)]
      ++ [net 32 8 (v4_value 127 0 0 0); net 32 16 (v4_value 169 254 0 0)])
     ++ ([net 32 32 (v4_value 0 0 0 0); net 32 32 (v4_value 255 255 255 255)]
         ++ [net 32 24 (v4_value 192 0 2 0); net 32 24 (v4_value 198 51 100 0);
             net 32 24 (v4_value 203 0 113 0)])).
  unfold in_nets. rewrite !Exists_app.
  rewrite <- (private_nets a b c d Hwf), <- (local_nets a b c d Hwf),
    <- (special_nets a b c d Hwf), <- (documentation_nets a b c d Hwf).
  unfold blocked_v4. rewrite <- !orb_true_iff, !orb_assoc. done.
Qed.

(** The two masks of the IPv6 ranges select the ranges they mean. *)
Definition masks_ok (x : Z) : bool :=
  Bool.eqb (Z.land x 65024 =? 64512) (in_range 64512 65023 x)
  && Bool.eqb (Z.land x 65472 =? 65152) (in_range 65152 65215 x).

Fixpoint check_from (x : Z) (n : nat) : bool :=
  match n with O => true | S n => masks_ok x && check_from (x + 1) n end.

Lemma check_from_spec x n y :
  check_from x n = true -> x <= y < x + Z.of_nat n -> masks_ok y = true.
Proof.
  revert x. induction n as [|n IH]; intros x; simpl; [lia|].
  intros [H1 H2]%andb_true_iff Hy. destruct (decide (y = x)) as [->|]; [done|].
  apply (IH (x + 1)); [done|lia].
Qed.

Lemma masks_all_ok : check_from 0 (Z.to_nat 65536) = true.
Proof. vm_compute. reflexivity. Qed.

Lemma masks x :
  0 <= x <= 65535 ->
  Z.eqb (Z.land x 65024) 64512 = in_range 64512 65023 x /\
  Z.eqb (Z.land x 65472) 65152 = in_range 65152 65215 x.
Proof.
  intros Hx. pose proof (check_from_spec _ _ x masks_all_ok ltac:(lia)) as Hall.
  unfold masks_ok in Hall. by apply andb_true_iff in Hall as [H1%eqb_prop H2%eqb_prop].
Qed.

Lemma all_zero_spec l : all_zero l = true <-> Forall (fun x => x = 0) l.
Proof.
  unfold all_zero. rewrite forallb_forall, Forall_forall.
  setoid_rewrite Z.eqb_eq. by setoid_rewrite list_elem_of_In.
Qed.

Lemma shiftr_bytes x : Z.shiftr x 8 = x / 256 /\ Z.land x 255 = x mod 256.
Proof.
  split; [by rewrite Z.shiftr_div_pow2|]. change 255 with (Z.ones 8). by rewrite Z.land_ones.
Qed.

Lemma mapped_octets x y :
  0 <= x <= 65535 -> 0 <= y <= 65535 ->
  ip_wf (V4 (x / 256) (x mod 256) (y / 256) (y mod 256)) /\
  v4_value (x / 256) (x mod 256) (y / 256) (y mod 256) = x * 65536 + y.
Proof.
  intros Hx Hy. pose proof (Z.div_mod x 256 ltac:(lia)). pose proof (Z.mod_pos_bound x 256).
  pose proof (Z.div_mod y 256 ltac:(lia)). pose proof (Z.mod_pos_bound y 256).
  unfold ip_wf, v4_value. rewrite !Forall_cons. split; [split_and!; auto; lia|lia].
Qed.

(** The ranges below a mapped address never meet the other IPv6 ranges. *)
Lemma in_nets_shift base nets x :
  in_nets (map (fun '(lo, hi) => (base + lo, base + hi)) nets) (base + x) <-> in_nets nets x.
Proof.
  unfold in_nets. rewrite Exists_exists, Exists_exists. split.
  - intros ([lo hi] & Hin & ?). apply list_elem_of_fmap in Hin as ([lo' hi'] & [= -> ->] & Hin).
    exists (lo', hi'). split; [done|lia].
  - intros ([lo hi] & Hin & ?). exists (base + lo, base + hi). split; [|lia].
    apply list_elem_of_fmap. by exists (lo, hi).
Qed.

Lemma nets_v4_range x : in_nets blocked_nets_v4 x -> 0 <= x < 2 ^ 32.
Proof.
  unfold in_nets, blocked_nets_v4, net, v4_value. rewrite !Exists_cons, Exists_nil.
  intros Hx. cbn in *. lia.
Qed.

Lemma v4_value_range a b c d : ip_wf (V4 a b c d) -> 0 <= v4_value a b c d < 2 ^ 32.
Proof. unfold ip_wf, v4_value. rewrite !Forall_cons. cbn. lia. Qed.

Section v6.
Context (s0 s1 s2 s3 s4 s5 s6 s7 : Z) (Hwf : ip_wf (V6 s0 s1 s2 s3 s4 s5 s6 s7)).
Let l := [s0; s1; s2; s3; s4; s5; s6; s7].

Lemma v6_mapped a b c d :
  to_ipv4_mapped l = Some (a, b, c, d) ->
  ip_wf (V4 a b c d) /\ v6_value l = MAPPED + v4_value a b c d.
Proof.
  unfold l, to_ipv4_mapped. destruct (_ && _) eqn:E; [|done]. intros [= <- <- <- <-].
  rewrite andb_true_iff, all_zero_spec, Z.eqb_eq, !Forall_cons in E.
  destruct E as [(-> & -> & -> & -> & -> & _) ->].
  unfold ip_wf in Hwf. rewrite !Forall_cons in Hwf.
  destruct (shiftr_bytes s6) as [-> ->], (shiftr_bytes s7) as [-> ->].
  destruct (mapped_octets s6 s7) as [H1 H2]; [tauto..|].
  split; [done|]. rewrite H2. unfold MAPPED. cbn. lia.
Qed.

Lemma v6_not_mapped x :
  to_ipv4_mapped l = None -> v6_value l = MAPPED + x -> ~ 0 <= x < 2 ^ 32.
Proof.
  unfold l, to_ipv4_mapped. destruct (_ && _) eqn:E; [done|]. intros _ Hx Hr.
  apply not_true_iff_false in E. apply E.
  rewrite andb_true_iff, all_zero_spec, Z.eqb_eq, !Forall_cons.
  unfold ip_wf in Hwf. rewrite !Forall_cons in Hwf. unfold MAPPED in Hx. cbn in Hx, Hr.
  assert (s0 = 0) by lia. assert (s1 = 0) by lia. assert (s2 = 0) by lia.
  assert (s3 = 0) by lia. assert (s4 = 0) by lia. split_and!; auto; lia.
Qed.

Lemma v6_own_nets :
  v6_is_loopback l || v6_is_unspecified l || (Z.land s0 65024 =? 64512)
    || (Z.land s0 65472 =? 65152) = true <->
  in_nets [net 128 128 1; net 128 128 0; net 128 7 (64512 * 2 ^ 112);
           net 128 10 (65152 * 2 ^ 112)] (v6_value l).
Proof.
  unfold ip_wf in Hwf. rewrite !Forall_cons in Hwf.
  destruct (masks s0) as [M1 M2]; [tauto|].
  unfold in_nets, net, v6_is_loopback, v6_is_unspecified, l.
  rewrite !Exists_cons, Exists_nil, M1, M2, !orb_true_iff, andb_true_iff, !all_zero_spec, Z.eqb_eq,
    !Forall_cons, !Forall_nil. unfold in_range. rewrite !andb_true_iff, !Z.leb_le.
  destruct Hwf as (? & ? & ? & ? & ? & ? & ? & ? & _).
  assert (Hsum : v6_value [s0; s1; s2; s3; s4; s5; s6; s7]
            = s0 * 2 ^ 112 + v6_value [0; s1; s2; s3; s4; s5; s6; s7]) by (cbn; lia).
  assert (0 <= v6_value [0; s1; s2; s3; s4; s5; s6; s7] < 2 ^ 112) by (cbn; lia).
  assert (Hz : v6_value [0; s1; s2; s3; s4; s5; s6; s7] <= 1 ->
            s1 = 0 /\ s2 = 0 /\ s3 = 0 /\ s4 = 0 /\ s5 = 0 /\ s6 = 0) by (cbn; lia).
  assert (Hs7 : s1 = 0 -> s2 = 0 -> s3 = 0 -> s4 = 0 -> s5 = 0 -> s6 = 0 ->
            v6_value [0; s1; s2; s3; s4; s5; s6; s7] = s7) by (intros; subst; reflexivity).
  rewrite Hsum. set (r := v6_value [0; _; _; _; _; _; _; _]) in *. clearbody r. clear Hsum.
  cbn in *. lia.
Qed.
End v6.

Lemma is_blocked_ip_nets ip :
  ip_wf ip ->
  is_blocked_ip ip = true <->
  in_nets (match ip with V4 _ _ _ _ => blocked_nets_v4 | _ => blocked_nets_v6 end) (ip_value ip).
Proof.
  destruct ip as [a b c d|s0 s1 s2 s3 s4 s5 s6 s7]; [apply blocked_v4_nets|].
  intros Hwf. pose proof (v6_own_nets _ _ _ _ _ _ _ _ Hwf) as Hown.
  cbn [is_blocked_ip ip_value]. unfold blocked_nets_v6, in_nets. rewrite Exists_app.
  unfold blocked_v6. destruct (to_ipv4_mapped _) as [[[[a b] c] d]|] eqn:E.
  - destruct (v6_mapped _ _ _ _ _ _ _ _ Hwf _ _ _ _ E) as [Hw Hv].
    rewrite (blocked_v4_nets _ _ _ _ Hw), Hv, <- (in_nets_shift MAPPED). split; [by right|].
    intros [Ho|Hm]; [|done]. exfalso. apply v4_value_range in Hw.
    revert Ho. rewrite !Exists_cons, Exists_nil. unfold net, MAPPED. cbn. lia.
  - cbn [hd]. rewrite Hown. split; [by left|]. intros [Ho|Hm]; [done|]. exfalso.
    apply Exists_exists in Hm as ([lo hi] & Hin & Hr).
    assert (Hm : in_nets blocked_nets_v4 (v6_value [s0; s1; s2; s3; s4; s5; s6; s7] - MAPPED)).
    { apply (in_nets_shift MAPPED). apply Exists_exists. exists (lo, hi). split; [done|]. lia. }
    apply nets_v4_range in Hm. eapply v6_not_mapped; [exact Hwf|exact E| |exact Hm]. lia.
Qed.

(** ** What the guard lets through *)

(** A bracketed host is never an address to [parse_ip]. *)
Lemma parse_ip_bracket s : parse_ip (String "[" s) = None.
Proof. reflexivity. Qed.

Section guard.
Context `{Printers, WireLib, NetLib, DeriveLib}.
Context (allow : gset string) (egress : option (list string)).

(** The address of [url] may be reached, given the name resolutions in [tr]. *)
Definition admitted (tr : list call) (url : string) : Prop :=
  exists u host,
    parse_url url = Ok u /\ (url_scheme u = "http" \/ url_scheme u = "https") /\
    url_host_str u = Some host /\ egress_permitted egress host = true /\
    (host ∈ allow \/
     (exists ip, parse_ip host = Some ip /\ is_blocked_ip ip = false) \/
     (parse_ip host = None /\
      exists port addrs, Call (EResolve host port) (Ok addrs) ∈ tr /\
                         Forall (fun ip => is_blocked_ip ip = false) addrs)).

Definition fetch_of (c : call) : option fetch_request :=
  match c with Call (EFetch req) _ => Some req | _ => None end.
Definition fetches (tr : list call) : list fetch_request := omap fetch_of tr.

Lemma find_none_forall {A} (f : A -> bool) l :
  List.find f l = None -> Forall (fun x => f x = false) l.
Proof.
  intros Hf. apply Forall_forall. intros x Hx. eapply List.find_none; [exact Hf|].
  by apply list_elem_of_In.
Qed.

Lemma guard_url_spec url tool tr r :
  steps (guard_url allow egress url tool) tr r ->
  fetches tr = [] /\ (r = Ok tt -> admitted tr url).
Proof.
  unfold guard_url, admitted.
  destruct (parse_url url) as [u|e] eqn:Eu; [|by intros [-> ->]].
  destruct (negb _) eqn:Es; [by intros [-> ->]|].
  apply negb_false_iff, orb_true_iff in Es. rewrite !String.eqb_eq in Es.
  destruct (url_host_str u) as [host|] eqn:Eh; [|by intros [-> ->]].
  destruct (egress_permitted egress host) eqn:Ee; [|by intros [-> ->]]. cbn [negb].
  unfold host_allowlisted. case_bool_decide as Ha.
  { intros [-> ->]. split; [done|]. intros _. exists u, host. auto 10. }
  destruct (parse_ip host) as [ip|] eqn:Ep.
  - destruct (is_blocked_ip ip) eqn:Eb; intros [-> ->]; [done|]. split; [done|].
    intros _. exists u, host. split_and!; try done. right. left. by exists ip.
  - intros (x & tr' & -> & [-> ->]). split; [done|]. destruct x as [addrs|e]; [|done].
    destruct (List.find is_blocked_ip addrs) eqn:Ef; [done|]. intros _.
    exists u, host. split_and!; try done. right. right. split; [done|].
    eexists _, addrs. split; [by apply list_elem_of_here|]. by apply find_none_forall.
Qed.

Lemma fetches_app l1 l2 : fetches (l1 ++ l2) = fetches l1 ++ fetches l2.
Proof. apply omap_app. Qed.

(** A guarded request is sent at most once, last, and only if admitted. *)
Definition sends_if_admitted (tr : list call) : Prop :=
  fetches tr = [] \/
  exists pre req r, tr = pre ++ [Call (EFetch req) r] /\ fetches pre = [] /\
                    admitted pre (fetch_url req).

Lemma guarded_spec url tool req (f : result fetch_response string -> result ToolOutput ToolError) tr r :
  fetch_url req = url ->
  steps (guarded allow egress url tool (x ← perform (EFetch req); mret (f x))) tr r ->
  sends_if_admitted tr.
Proof.
  intros <- (tr1 & tr2 & g & -> & Hg & Hk)%steps_bind.
  apply guard_url_spec in Hg as [Hnone Hok]. unfold sends_if_admitted.
  destruct g as [[]|e]; [|destruct Hk as [-> _]; left; by rewrite app_nil_r].
  destruct Hk as (x & tr' & -> & [-> _]). right. exists tr1, req, x. auto.
Qed.

Lemma derived_sends {A} name (read : json -> option A) run input ctx tr r :
  (forall a ctx tr r, steps (run a ctx) tr r -> sends_if_admitted tr) ->
  steps (tool_run (derive_tool name read run) input ctx) tr r -> sends_if_admitted tr.
Proof.
  intros Hrun. cbn [tool_run derive_tool]. destruct (parse_input _ _ _) as [a|e].
  - intros (tr1 & tr2 & o & -> & Hs & [-> _])%steps_bind. rewrite app_nil_r. by eapply Hrun.
  - intros [-> _]. by left.
Qed.
(** A bracketed host, the form in which the URL library shows an IPv6
    literal, is not recognised as an address: if it may be sent data and is
    not allowlisted, the guard asks the resolver for the bracketed text. *)
Lemma ipv6_literals_are_resolved url tool u s tr r :
  parse_url url = Ok u -> url_scheme u = "https" -> url_host_str u = Some (String "[" s) ->
  egress_permitted egress (String "[" s) = true -> String "[" s ∉ allow ->
  steps (guard_url allow egress url tool) tr r ->
  exists port x, tr = [Call (EResolve (String "[" s) port) x] /\
                 forall e, x = Err e -> r = blocked tool ("dns resolution failed: " +:+ e).
Proof.
  intros Eu Es Eh Ee Ha. unfold guard_url. rewrite Eu, Es, Eh, Ee. cbn [negb orb String.eqb].
  unfold host_allowlisted. rewrite bool_decide_eq_false_2 by done. rewrite parse_ip_bracket.
  intros (x & tr' & -> & [-> ->]). eexists _, x. split; [done|]. by intros e ->.
Qed.
End guard.

(** ** Delegations

    An activation owes the counter a decrement from its first step on until
    it gives it back. *)

Section pool.
Context `{DeriveLib, FloatPrinter}.

(** The states of an activation. *)
Inductive phase := Entering | Refused | Waiting | Leaving | Over.

Definition is_phase (f : phase) (p : activation) : Prop :=
  match f with
  | Entering => exists agent input,
      p = (depth ← perform (EDepth 1);
           if MAX_DELEGATION_DEPTH <=? depth then
             perform (EDepth (-1));; mret (Err (refusal agent))
           else r ← shared_runtime agent input; perform (EDepth (-1));; mret (sub_result agent r))
  | Refused => exists e, p = (perform (EDepth (-1));; mret (Err e))
  | Waiting => exists agent input,
      p = (r ← shared_runtime agent input; perform (EDepth (-1));; mret (sub_result agent r))
  | Leaving => exists r, p = (perform (EDepth (-1));; mret r)
  | Over => exists r, p = mret r
  end.

Definition owes (f : phase) : nat := match f with Refused | Waiting | Leaving => 1 | _ => 0 end.
(** Let through by the limit. *)
Definition inside (f : phase) : nat := match f with Waiting | Leaving => 1 | _ => 0 end.

Lemma start_phase input :
  exists f, is_phase f (call_agent_run (mkCallAgentTool (Some (Some shared_runtime))) input)
            /\ owes f = 0%nat /\ inside f = 0%nat.
Proof.
  unfold call_agent_run. destruct (parse_input _ _ _) as [args|e].
  - exists Entering. split; [|done]. by eexists _, _.
  - exists Over. split; [|done]. by eexists.
Qed.

Lemma count_phase f p d k c :
  is_phase f p -> depth_request p = Some (d, k) ->
  exists f', is_phase f' (k c) /\ Z.of_nat (owes f') = Z.of_nat (owes f) + d /\
    ((inside f' <= inside f)%nat \/ f = Entering /\ c < MAX_DELEGATION_DEPTH).
Proof.
  destruct f; simpl.
  - intros (agent & input & ->) [= <- <-]. destruct (MAX_DELEGATION_DEPTH <=? c) eqn:E.
    + exists Refused. split; [by eexists|]. simpl. auto with lia.
    + exists Waiting. split; [by eexists _, _|]. apply Z.leb_gt in E. auto with lia.
  - intros (e & ->) [= <- <-]. exists Over. split; [by eexists|]. simpl. auto with lia.
  - by intros (agent & input & ->).
  - intros (r & ->) [= <- <-]. exists Over. split; [by eexists|]. simpl. auto with lia.
  - by intros (r & ->).
Qed.

(** Only a waiting activation is resumed, dropped or running. *)
Lemma waiting_phase f p : is_phase f p -> waiting p = true -> f = Waiting.
Proof. destruct f; [intros (?&?&->)|intros (?&->)|done|intros (?&->)|intros (?&->)]; done. Qed.

Lemma resume_phase f p p' : is_phase f p -> resumes p p' -> f = Waiting /\ is_phase Leaving p'.
Proof.
  intros Hf Hr. assert (f = Waiting) as ->.
  { apply (waiting_phase _ p); [done|]. destruct p; [done|]. by destruct Hr. }
  split; [done|]. destruct Hf as (agent & input & ->), Hr as (_ & x & ->). by eexists.
Qed.

Lemma finished_phase f p : is_phase f p -> finished p = true -> f = Over.
Proof. destruct f; [intros (?&?&->)|intros (?&->)|intros (?&?&->)|intros (?&->)|]; done. Qed.

Definition owed (fs : list phase) : nat := sum_list_with owes fs.
Definition let_in (fs : list phase) : nat := sum_list_with inside fs.

Record pool_inv (s : pool) (fs : list phase) : Prop := {
  inv_phases : Forall2 is_phase fs (live s);
  inv_depth : depth s = wrap32 (Z.of_nat (owed fs + lost s));
  inv_let_in : Z.of_nat (let_in fs + lost s) <= MAX_DELEGATION_DEPTH }.

Lemma inside_owes f : (inside f <= owes f <= 1)%nat.
Proof. destruct f; simpl; lia. Qed.

Lemma let_in_owed fs : (let_in fs <= owed fs <= length fs)%nat.
Proof.
  unfold let_in, owed. induction fs as [|f fs IH]; simpl; [lia|].
  pose proof (inside_owes f). lia.
Qed.

Lemma sums_at fs1 f fs2 :
  owed (fs1 ++ f :: fs2) = (owes f + owed (fs1 ++ fs2))%nat /\
  let_in (fs1 ++ f :: fs2) = (inside f + let_in (fs1 ++ fs2))%nat.
Proof. unfold owed, let_in. rewrite !sum_list_with_app. simpl. lia. Qed.

(** The phase of one activation of the pool. *)
Lemma phases_at s fs l1 p l2 :
  pool_inv s fs -> live s = l1 ++ p :: l2 ->
  exists fs1 f fs2, fs = fs1 ++ f :: fs2 /\ is_phase f p /\
    Forall2 is_phase (fs1 ++ fs2) (l1 ++ l2) /\
    forall f' p', is_phase f' p' -> Forall2 is_phase (fs1 ++ f' :: fs2) (l1 ++ p' :: l2).
Proof.
  intros [Hp _ _] E. rewrite E in Hp.
  apply Forall2_app_inv_r in Hp as (fs1 & fs2' & H1 & H2 & ->).
  apply Forall2_cons_inv_r in H2 as (f & fs2 & Hf & H2 & ->).
  exists fs1, f, fs2. split_and!; auto using Forall2_app.
Qed.

Lemma wrap32_add x d : wrap32 (wrap32 x + d) = wrap32 (x + d).
Proof. unfold wrap32. by rewrite Zplus_mod_idemp_l. Qed.

Lemma pool_inv_step s fs s' :
  Z.of_nat (length (live s)) + MAX_DELEGATION_DEPTH <= U32_MAX ->
  pool_inv s fs -> pool_step s s' -> exists fs', pool_inv s' fs'.
Proof.
  intros Hroom Hinv Hstep. pose proof Hinv as [Hp Hd Hl]. destruct Hstep as
    [s input|s l1 p l2 d k E Hk|s l1 p l2 p' E Hr|s l1 p l2 E Hf|s l1 p l2 E Hw].
  - destruct (start_phase input) as (f & Hf & Ho & Hi).
    exists (fs ++ [f]). pose proof (sums_at fs f []) as [S1 S2]. rewrite app_nil_r in S1, S2.
    split; simpl; [by apply Forall2_app; auto|by rewrite Hd, S1, Ho|lia].
  - destruct (phases_at _ _ _ _ _ Hinv E) as (fs1 & f & fs2 & -> & Hf & _ & Hrep).
    destruct (count_phase _ _ _ _ (depth s) Hf Hk) as (f' & Hf' & Ho & Hi).
    exists (fs1 ++ f' :: fs2). pose proof (sums_at fs1 f fs2) as [S1 S2].
    pose proof (sums_at fs1 f' fs2) as [S1' S2'].
    split; simpl; [by apply Hrep| |].
    { rewrite Hd, wrap32_add. f_equal. lia. }
    destruct Hi as [Hi|[-> Hc]]; [lia|].
    pose proof (let_in_owed (fs1 ++ Entering :: fs2)). apply Forall2_length in Hp.
    rewrite Hd, wrap32_small in Hc by (unfold MAX_DELEGATION_DEPTH in *; ulia).
    pose proof (inside_owes f'). simpl in *. lia.
  - destruct (phases_at _ _ _ _ _ Hinv E) as (fs1 & f & fs2 & -> & Hf & _ & Hrep).
    destruct (resume_phase _ _ _ Hf Hr) as [-> Hf']. exists (fs1 ++ Leaving :: fs2).
    pose proof (sums_at fs1 Waiting fs2) as [S1 S2].
    pose proof (sums_at fs1 Leaving fs2) as [S1' S2']. simpl in *.
    split; simpl; [by apply Hrep|rewrite Hd; f_equal; lia|lia].
  - destruct (phases_at _ _ _ _ _ Hinv E) as (fs1 & f & fs2 & -> & Hf' & Hdel & _).
    rewrite (finished_phase _ _ Hf' Hf) in *. exists (fs1 ++ fs2).
    pose proof (sums_at fs1 Over fs2) as [S1 S2]. simpl in *.
    split; simpl; [done|rewrite Hd; f_equal; lia|lia].
  - destruct (phases_at _ _ _ _ _ Hinv E) as (fs1 & f & fs2 & -> & Hf' & Hdel & _).
    rewrite (waiting_phase _ _ Hf' Hw) in *. exists (fs1 ++ fs2).
    pose proof (sums_at fs1 Waiting fs2) as [S1 S2]. simpl in *.
    split; simpl; [done|rewrite Hd; f_equal; lia|lia].
Qed.

(** The steps of a process that never has more than [n] activations. *)
Definition bounded_step (n : nat) (s s' : pool) : Prop :=
  pool_step s s' /\ (length (live s') <= n)%nat.

Definition bounded_reach (n : nat) : pool -> pool -> Prop := rtc (bounded_step n).

Lemma pool_inv_reach n s fs s' :
  Z.of_nat n + MAX_DELEGATION_DEPTH <= U32_MAX -> (length (live s) <= n)%nat ->
  pool_inv s fs -> bounded_reach n s s' -> exists fs', pool_inv s' fs'.
Proof.
  intros Hn Hlen Hinv Hr. revert fs Hlen Hinv.
  induction Hr as [s|s s1 s2 [Hs Hl] _ IH]; intros fs Hlen Hinv; [by exists fs|].
  destruct (pool_inv_step s fs s1) as [fs1 H1]; [lia|done|done|]. by apply (IH fs1).
Qed.

Lemma pool0_inv : pool_inv pool0 [].
Proof. by split. Qed.

Lemma running_let_in s fs : pool_inv s fs -> (running s <= let_in fs)%nat.
Proof.
  intros [Hp _ _]. unfold running, let_in. induction Hp as [|f p fs l Hf _ IH]; simpl; [lia|].
  destruct (waiting p) eqn:E; simpl; [|lia]. rewrite (waiting_phase _ _ Hf E). simpl. lia.
Qed.

Lemma lost_mono n s s' : bounded_reach n s s' -> (lost s <= lost s')%nat.
Proof.
  induction 1 as [|s s1 s2 [Hs _] _ IH]; [done|]. etrans; [|exact IH].
  destruct Hs; simpl; lia.
Qed.

Lemma bounded_live n s s' :
  bounded_reach n s s' -> (length (live s) <= n)%nat -> (length (live s') <= n)%nat.
Proof. induction 1 as [|s s1 s2 [_ Hs] _ IH]; auto. Qed.

Lemma delegations_inv n s :
  Z.of_nat n + MAX_DELEGATION_DEPTH <= U32_MAX -> bounded_reach n pool0 s ->
  exists fs, pool_inv s fs.
Proof. intros Hn. apply (pool_inv_reach n pool0 []); [done|simpl; lia|apply pool0_inv]. Qed.

(** A call let through and dropped while it waits. *)
Definition sample_args : json := json_object [("agent", JString "a"); ("input", JString "i")].

Lemma drop_one k :
  (k < 4)%nat ->
  bounded_reach 1 (mkPool (Z.of_nat k) [] k) (mkPool (Z.of_nat (S k)) [] (S k)).
Proof.
  intros Hk.
  set (p0 := call_agent_run (mkCallAgentTool (Some (Some shared_runtime))) sample_args).
  destruct (depth_request p0) as [[d c]|] eqn:Ed; [|done].
  assert (d = 1 /\ waiting (c (Z.of_nat k)) = true) as [-> Hw].
  { injection Ed as <- <-. split; [done|].
    destruct k as [|[|[|[|k]]]]; [reflexivity..|lia]. }
  eapply rtc_l; [split; [apply (Start (mkPool (Z.of_nat k) [] k) sample_args)|simpl; lia]|].
  eapply rtc_l; [split; [eapply (Count _ [] p0 []); [reflexivity|exact Ed]|simpl; lia]|].
  eapply rtc_l; [split; [eapply (Drop _ [] _ []); [reflexivity|exact Hw]|simpl; lia]|].
  simpl. rewrite wrap32_small by ulia. replace (Z.of_nat k + 1) with (Z.of_nat (S k)) by lia.
  apply rtc_refl.
Qed.

Lemma drops_reach k : (k <= 4)%nat -> bounded_reach 1 pool0 (mkPool (Z.of_nat k) [] k).
Proof.
  induction k as [|k IH]; intros Hk; [apply rtc_refl|].
  etrans; [apply IH; lia|]. apply drop_one. lia.
Qed.
End pool.
