(* ===== verification/Fs.v ===== *)
(** * Files, directories and symbolic links

    The part of [std::fs] and [std::path] the file tools call, over an
    explicit file system: a map from the canonical path of an object, the
    names from the root down, to the object.  Permissions, quotas and
    concurrent changes are left out.  [max_links] is the number of symbolic
    links the kernel follows before it gives up. *)

From stdpp Require Import sorting.
From S2P Require Import Prelude.
From S2P Require Import RustStr.
From S2P Require Import StrSlice.
From S2P Require Import Net.

Inductive node :=
| Dir
| File (content : string)
| Symlink (target : string).

Abbreviation path := (list string).
Abbreviation file_system := (gmap path node).

Inductive io_error :=
| NotFound | NotADirectory | IsADirectory | AlreadyExists | TooManyLinks | InvalidData | InvalidName.

(** The wording of an error, and the size a directory or link reports. *)
Class FsLib := {
  io_text : io_error -> string;
  dir_size : path -> Z;
  max_links : nat }.

(** ** Paths

    A path in text is the list of what its slashes separate. *)

Definition segments (s : string) : path := split_on "/" s.
Definition is_cur_dir (c : string) : bool := is_empty c || String.eqb c ".".
Definition is_parent_dir (c : string) : bool := String.eqb c "..".

(** [Path::components]: empty and single-dot segments do not count. *)
Definition components (p : path) : path := List.filter (fun c => negb (is_cur_dir c)) p.

Fixpoint path_starts_with (root p : path) : bool :=
  match root, p with
  | [], _ => true
  | a :: root', b :: p' => String.eqb a b && path_starts_with root' p'
  | _ :: _, [] => false
  end.

Definition parent (p : path) : path := removelast p.

(** ** Resolution *)

(** Where a path leads: to an object, with the links still allowed; to a
    name that is free in a directory; or nowhere. *)
Inductive place :=
| Found (p : path) (links : nat)
| Missing (p : path)
| Fails (e : io_error).

Section fs.
Context `{FsLib}.

Definition nul : string := utf8 [0].
Definition valid_name (c : string) : bool := negb (contains c nul).

(** From the directory [cur] along the segments [rest]; the last segment is
    followed when it is a link, unless [follow] is off. *)
Fixpoint walk (s : file_system) (follow : bool) (links : nat) : path -> path -> place :=
  fix go (cur rest : path) {struct rest} : place :=
    match rest with
    | [] => Found cur links
    | c :: rest' =>
        if is_cur_dir c then go cur rest'
        else if is_parent_dir c then go (parent cur) rest'
        else
          match s !! (cur ++ [c]) with
          | None => match rest' with [] => Missing (cur ++ [c]) | _ => Fails NotFound end
          | Some Dir => go (cur ++ [c]) rest'
          | Some (File _) =>
              match rest' with [] => Found (cur ++ [c]) links | _ => Fails NotADirectory end
          | Some (Symlink t) =>
              if negb follow && bool_decide (rest' = []) then Found (cur ++ [c]) links
              else
                match links with
                | O => Fails TooManyLinks
                | S links' =>
                    walk s follow links' (if starts_with t "/" then [] else cur)
                      (segments t ++ rest')
                end
          end
    end.

Definition resolve_path (s : file_system) (p : path) : place := walk s true max_links [] p.

(** The object at a canonical path; the root is always a directory. *)
Definition node_at (s : file_system) (p : path) : option node :=
  match p with [] => Some Dir | _ => s !! p end.

(** [Path::exists], [is_file], [is_dir], [metadata] *)
Definition metadata (s : file_system) (p : path) : option (path * node) :=
  match resolve_path s p with
  | Found q _ => (fun n => (q, n)) <$> node_at s q
  | _ => None
  end.
Definition exists_path (s : file_system) (p : path) : bool := bool_decide (is_Some (metadata s p)).
Definition is_file (s : file_system) (p : path) : bool :=
  match metadata s p with Some (_, File _) => true | _ => false end.
Definition is_dir (s : file_system) (p : path) : bool :=
  match metadata s p with Some (_, Dir) => true | _ => false end.

(** [fs::canonicalize] *)
Definition canonicalize (s : file_system) (p : path) : result path io_error :=
  match resolve_path s p with
  | Found q _ => Ok q
  | Missing _ => Err NotFound
  | Fails e => Err e
  end.

(** Well-formed UTF-8. *)
Definition cont (a : ascii) : bool := is_continuation a.
Fixpoint utf8_ok (s : string) : bool :=
  match s with
  | EmptyString => true
  | String a s1 =>
      let x := byte_of a in
      if x <? 128 then utf8_ok s1
      else
        match s1 with
        | EmptyString => false
        | String b s2 =>
            if in_range 194 223 x then cont b && utf8_ok s2
            else
              match s2 with
              | EmptyString => false
              | String c s3 =>
                  if in_range 224 239 x then
                    in_range (if x =? 224 then 160 else 128) (if x =? 237 then 159 else 191)
                      (byte_of b) && cont c && utf8_ok s3
                  else
                    match s3 with
                    | EmptyString => false
                    | String d s4 =>
                        in_range 240 244 x
                          && in_range (if x =? 240 then 144 else 128)
                               (if x =? 244 then 143 else 191) (byte_of b)
                          && cont c && cont d && utf8_ok s4
                    end
              end
        end
  end.

(** [fs::read_to_string] *)
Definition read_to_string (s : file_system) (p : path) : result string io_error :=
  match metadata s p with
  | Some (_, File content) => if utf8_ok content then Ok content else Err InvalidData
  | Some (_, Dir) => Err IsADirectory
  | _ => Err NotFound
  end.

(** [fs::write]: replaces a file, or creates it where a name is free. *)
Definition write (s : file_system) (p : path) (content : string)
  : result unit io_error * file_system :=
  match resolve_path s p with
  | Found q _ =>
      match node_at s q with
      | Some (File _) => (Ok tt, <[q := File content]> s)
      | _ => (Err IsADirectory, s)
      end
  | Missing q =>
      if valid_name (List.last q "") then (Ok tt, <[q := File content]> s) else (Err InvalidName, s)
  | Fails e => (Err e, s)
  end.

(** [mkdir], which does not follow a link at its end. *)
Definition mkdir (s : file_system) (p : path) : result unit io_error * file_system :=
  match walk s false max_links [] p with
  | Found _ _ => (Err AlreadyExists, s)
  | Missing q =>
      if valid_name (List.last q "") then (Ok tt, <[q := Dir]> s) else (Err InvalidName, s)
  | Fails e => (Err e, s)
  end.

(** [fs::create_dir_all] on the path of the first [n] components of [p]. *)
Definition made (s : file_system) (p : path) (r : result unit io_error * file_system)
  : result unit io_error * file_system :=
  match r with
  | (Err e, s') => if is_dir s' p then (Ok tt, s') else (Err e, s')
  | ok => ok
  end.

Fixpoint create_dirs (p : path) (n : nat) (s : file_system)
  : result unit io_error * file_system :=
  let here := take n p in
  match mkdir s here with
  | (Err NotFound, _) =>
      match n with
      | O => (Err NotFound, s)
      | S n' =>
          match create_dirs p n' s with
          | (Ok tt, s') => made s' here (mkdir s' here)
          | err => err
          end
      end
  | r => made s here r
  end.

Definition create_dir_all (s : file_system) (p : path) : result unit io_error * file_system :=
  create_dirs p (length p) s.

(** [fs::read_dir]: the names in a directory, sorted as the callers sort them. *)
Definition name_le (a b : string) : Prop := String.leb a b = true.
#[export] Instance name_le_dec : RelDecision name_le.
Proof. intros a b. unfold name_le. solve_decision. Defined.
Definition child_of (q k : path) : option string :=
  if bool_decide (parent k = q) then
    c ← last k; if is_cur_dir c || is_parent_dir c then None else Some c
  else None.
Definition children (s : file_system) (q : path) : list string :=
  merge_sort name_le (omap (fun kv => child_of q kv.1) (map_to_list s)).
Definition read_dir (s : file_system) (p : path) : option (path * list string) :=
  match metadata s p with Some (q, Dir) => Some (q, children s q) | _ => None end.

(** [DirEntry::metadata] does not follow links. *)
Definition entry_is_dir (s : file_system) (q : path) : bool :=
  match s !! q with Some Dir => true | _ => false end.
Definition entry_size (s : file_system) (q : path) : Z :=
  match s !! q with Some (File content) => str_len content | _ => dir_size q end.
End fs.
