(* ===== verification/Embeddings.v ===== *)
(** * Local embeddings ([plugins/pg-synapse-embeddings-ort/src])

    The provider that tokenises a batch of texts, runs it through a model and
    pools the hidden states ([provider.rs]), its factory and plugin
    ([factory.rs]), and the files fetched for it ([download.rs]), with the
    download of the llama.cpp provider ([provider-llama-cpp/src/download.rs]).

    An index out of range panics ([or_panic]).  Numbers of the hidden states
    are binary32, added and divided in the order of the loops.  The lock on the
    session orders the batches and is left out. *)

From S2P Require Import Prelude.
From S2P Require Import RustStr.
From S2P Require Import F64.
From S2P Require Import Json.
From S2P Require Import Errors.
From S2P Require Import Types.
From S2P Require Import Net.
From S2P Require Import Effects.
From S2P Require Import Traits.
From S2P Require Import Registry.
From S2P Require Import Builder.
From S2P Require Import StrSlice.
From S2P Require Import Wire.
From S2P Require Import Fs.
#[local] Open Scope synapse_scope.

(** ** Binary32 *)

Abbreviation f32 := spec_float.

Module F32.
Definition prec : Z := 24.
Definition emax : Z := 128.
Definition add : f32 -> f32 -> f32 := SFadd prec emax.
Definition mul : f32 -> f32 -> f32 := SFmul prec emax.
Definition div : f32 -> f32 -> f32 := SFdiv prec emax.
Definition sqrt : f32 -> f32 := SFsqrt prec emax.
Definition zero : f32 := S754_zero false.
Definition one : f32 := binary_normalize prec emax 1 0 false.
Definition gtb (a b : f32) : bool := SFltb b a.

(** [f32::max]: the other operand when one is NaN. *)
Definition max (a b : f32) : f32 :=
  match a, b with
  | S754_nan, _ => b
  | _, S754_nan => a
  | _, _ => if SFltb a b then b else a
  end.

(** [1e-12]: the number of 24 bits nearest to it. *)
Definition tiny : f32 := S754_finite false 9223372 (-63).

Example tiny_is_nearest : 2 * Z.abs (9223372 * 10 ^ 12 - 2 ^ 63) <= 10 ^ 12.
Proof. vm_compute. congruence. Qed.
End F32.

(** ** Arrays *)

(** [Array2], row by row. *)
Record Array2 := mkArray2 { a2_rows : nat; a2_cols : nat; a2_data : list Z }.

(** An array of any rank, the last index moving fastest. *)
Record ArrayD := mkArrayD { ad_shape : list nat; ad_data : list f32 }.

Definition index2 (a : Array2) (i j : nat) : option Z :=
  if ((i <? a2_rows a) && (j <? a2_cols a))%nat then a2_data a !! (i * a2_cols a + j)%nat
  else None.

Definition index3 (a : ArrayD) (i j k : nat) : option f32 :=
  match ad_shape a with
  | [n0; n1; n2] =>
      if ((i <? n0) && (j <? n1) && (k <? n2))%nat
      then ad_data a !! ((i * n1 + j) * n2 + k)%nat
      else None
  | _ => None
  end.

(** What the tokeniser makes of a text. *)
Record Encoding := mkEncoding {
  get_ids : list Z;
  get_attention_mask : list Z;
  get_type_ids : list Z }.
Definition enc_len (e : Encoding) : nat := length (get_ids e).

(** The tokeniser and the inference engine.  [try_extract] is the view of an
    output as an array of [f32]; [usize_list] prints a shape. *)
Class OrtLib := {
  Tokenizer : Type;
  SessionBuilder : Type;
  Session : Type;
  OrtValue : Type;
  session_builder : result SessionBuilder string;
  with_optimization_level3 : SessionBuilder -> result SessionBuilder string;
  with_intra_threads : Z -> SessionBuilder -> result SessionBuilder string;
  commit_from_file : string -> SessionBuilder -> result Session string;
  session_inputs : Session -> list string;
  session_run : Session -> list (string * Array2) -> result (list OrtValue) string;
  tensor_error : Array2 -> option string;
  try_extract : OrtValue -> result ArrayD string;
  tokenizer_from_file : string -> result Tokenizer string;
  encode_batch : Tokenizer -> list string -> result (list Encoding) string;
  shape_error : string;
  debug_shape : list nat -> string }.

(** ** The provider ([provider.rs]) *)

Definition DEFAULT_MAX_SEQ_LEN : Z := 512.

Module Ort.
Section ort.
Context `{OrtLib}.

Record OrtEmbeddingProvider := mkOrtEmbeddingProvider {
  ort_session : Session;
  ort_tokenizer : Tokenizer;
  ort_model_name : string;
  ort_dimension : Z;
  ort_max_seq_len : Z;
  has_token_type_ids : bool }.

Definition provider_error {A} (what : string) (r : result A string) : result A EmbeddingError :=
  map_err (fun e => EmbeddingError_Provider (what +:+ ": " +:+ e)) r.

Definition new (model_path tokenizer_path model_name : string) (dimension max_seq_len : Z)
    (intra_threads : option Z) : result OrtEmbeddingProvider EmbeddingError :=
  b <-? provider_error "ort session builder" session_builder ;;
  b <-? provider_error "ort optimization level" (with_optimization_level3 b) ;;
  b <-? match intra_threads with
        | Some n => provider_error "ort intra_threads" (with_intra_threads n b)
        | None => Ok b
        end ;;
  session <-? provider_error ("ort load " +:+ model_path) (commit_from_file model_path b) ;;
  tokenizer <-? provider_error "tokenizer load" (tokenizer_from_file tokenizer_path) ;;
  Ok (mkOrtEmbeddingProvider session tokenizer model_name dimension (Z.max max_seq_len 1)
        (existsb (String.eqb "token_type_ids") (session_inputs session))).

(** *** The batch *)

(** [a[k] = v] *)
Definition set_at (a : list Z) (k : nat) (v : Z) : outcome (list Z) :=
  or_panic (if (k <? length a)%nat then Some (<[k:=v]> a) else None).

Record batch := mkBatch { bt_ids : list Z; bt_mask : list Z; bt_types : list Z }.

Definition zeros (n : nat) : list Z := replicate n 0.
Definition empty_batch (n : nat) : batch := mkBatch (zeros n) (zeros n) (zeros n).

(** The body of the inner loop: position [j] of an encoding whose row starts at
    [row]. *)
Definition put (e : Encoding) (row j : nat) (b : batch) : outcome batch :=
  i ← or_panic (get_ids e !! j);
  ids ← set_at (bt_ids b) (row + j) i;
  m ← or_panic (get_attention_mask e !! j);
  mask ← set_at (bt_mask b) (row + j) m;
  t ← or_panic (get_type_ids e !! j);
  types ← set_at (bt_types b) (row + j) t;
  Done (mkBatch ids mask types).

Fixpoint fill_row (e : Encoding) (row : nat) (js : list nat) (b : batch) : outcome batch :=
  match js with
  | [] => Done b
  | j :: js' => b' ← put e row j b; fill_row e row js' b'
  end.

Fixpoint fill (max_len i : nat) (es : list Encoding) (b : batch) : outcome batch :=
  match es with
  | [] => Done b
  | e :: es' =>
      b' ← fill_row e (i * max_len) (seq 0 (Nat.min (enc_len e) max_len)) b;
      fill max_len (S i) es' b'
  end.

(** [encodings.iter().map(len).max().unwrap_or(1)] *)
Definition raw_max (es : list Encoding) : nat :=
  match map enc_len es with [] => 1%nat | n :: ns => foldr Nat.max n ns end.

Definition batch_len (es : list Encoding) (max_seq_len : Z) : nat :=
  Nat.max 1 (Nat.min (raw_max es) (Z.to_nat max_seq_len)).

Definition from_shape_vec (what : string) (rows cols : nat) (data : list Z)
  : result Array2 EmbeddingError :=
  if (length data =? rows * cols)%nat then Ok (mkArray2 rows cols data)
  else Err (EmbeddingError_Provider (what +:+ " shape: " +:+ shape_error)).

(** [Tensor::from_array] *)
Definition tensor (what : string) (a : Array2) : result Array2 EmbeddingError :=
  match tensor_error a with
  | None => Ok a
  | Some e => Err (EmbeddingError_Provider (what +:+ " tensor: " +:+ e))
  end.

Definition run_session (p : OrtEmbeddingProvider) (ids mask types : Array2)
  : result (list OrtValue) EmbeddingError :=
  inputs <-? (if has_token_type_ids p
              then types <-? tensor "types" types ;;
                   Ok [("input_ids", ids); ("attention_mask", mask); ("token_type_ids", types)]
              else Ok [("input_ids", ids); ("attention_mask", mask)]) ;;
  provider_error "ort run" (session_run (ort_session p) inputs).

(** *** Pooling *)

(** [sum[h] += arr3[[b, s, h]]] for the slots from [h]. *)
Fixpoint add_state (arr : ArrayD) (b s h : nat) (sum : list f32) : outcome (list f32) :=
  match sum with
  | [] => Done []
  | slot :: rest =>
      x ← or_panic (index3 arr b s h);
      rest' ← add_state arr b s (S h) rest;
      Done (F32.add slot x :: rest')
  end.

Fixpoint pool_row (arr : ArrayD) (mask : Array2) (b : nat) (steps : list nat)
    (sum : list f32) (count : f32) : outcome (list f32 * f32) :=
  match steps with
  | [] => Done (sum, count)
  | s :: steps' =>
      m ← or_panic (index2 mask b s);
      if m =? 1 then
        sum' ← add_state arr b s 0 sum;
        pool_row arr mask b steps' sum' (F32.add count F32.one)
      else pool_row arr mask b steps' sum count
  end.

Definition mean (sum : list f32) (count : f32) : list f32 :=
  if F32.gtb count F32.zero then map (fun v => F32.div v count) sum else sum.

Definition norm (v : list f32) : f32 :=
  F32.max (F32.sqrt (fold_left F32.add (map (fun x => F32.mul x x) v) F32.zero)) F32.tiny.

Definition normalized (v : list f32) : list f32 := map (fun x => F32.div x (norm v)) v.

Definition pool_one (arr : ArrayD) (mask : Array2) (max_len hidden b : nat)
  : outcome EmbeddingVector :=
  '(sum, count) ← pool_row arr mask b (seq 0 max_len) (replicate hidden F32.zero) F32.zero;
  Done (normalized (mean sum count)).

Fixpoint pool (arr : ArrayD) (mask : Array2) (max_len hidden : nat) (bs : list nat)
  : outcome (list EmbeddingVector) :=
  match bs with
  | [] => Done []
  | b :: bs' =>
      v ← pool_one arr mask max_len hidden b;
      vs ← pool arr mask max_len hidden bs';
      Done (v :: vs)
  end.

(** [?] among steps that may panic. *)
Definition try_ {A B E} (r : result A E) (k : A -> outcome (result B E)) : outcome (result B E) :=
  match r with Ok a => k a | Err e => Done (Err e) end.

(** The first output, [last_hidden_state], pooled. *)
Definition read_output (p : OrtEmbeddingProvider) (mask : Array2) (batch max_len : nat)
    (outputs : list OrtValue) : outcome (result (list EmbeddingVector) EmbeddingError) :=
  first ← or_panic (head outputs);
  try_ (provider_error "extract output" (try_extract first)) (fun view =>
    match ad_shape view with
    | [_; _; hidden] =>
        if Z.of_nat hidden =? ort_dimension p then
          vs ← pool view mask max_len hidden (seq 0 batch);
          Done (Ok vs)
        else Done (Err (EmbeddingError_DimensionMismatch (ort_dimension p) (Z.of_nat hidden)))
    | shape =>
        Done (Err (EmbeddingError_Provider ("unexpected output rank: " +:+ debug_shape shape)))
    end).

Definition embed (p : OrtEmbeddingProvider) (texts : list string)
  : outcome (result (list EmbeddingVector) EmbeddingError) :=
  match texts with
  | [] => Done (Ok [])
  | _ =>
      try_ (provider_error "tokenize" (encode_batch (ort_tokenizer p) texts)) (fun es =>
        let max_len := batch_len es (ort_max_seq_len p) in
        let batch := length es in
        b ← fill max_len 0 es (empty_batch (batch * max_len));
        try_ (from_shape_vec "ids" batch max_len (bt_ids b)) (fun ids =>
        try_ (from_shape_vec "mask" batch max_len (bt_mask b)) (fun mask =>
        try_ (from_shape_vec "types" batch max_len (bt_types b)) (fun types =>
        try_ (tensor "ids" ids) (fun ids =>
        try_ (tensor "mask" mask) (fun mask_tensor =>
        try_ (run_session p ids mask_tensor types) (fun outputs =>
        read_output p mask batch max_len outputs)))))))
  end.

Definition ort_provider (p : OrtEmbeddingProvider) : EmbeddingProvider :=
  {| embed_texts := fun texts =>
       match embed p texts with
       | Done r => mret r
       | _ => raise "index out of bounds"
       end;
     embed_dimension := ort_dimension p;
     embed_model_name := ort_model_name p |}.

(** ** The factory ([factory.rs]) *)

Definition missing {A} (key : string) : result A ProviderError :=
  Err (ProviderError_InvalidProfile "ort" ("missing params." +:+ key)).

Definition build (profile : EmbeddingProfileRow) : result OrtEmbeddingProvider ProviderError :=
  let param key := json_get key (emb_params profile) in
  match param "model_path" ≫= as_str with
  | None => missing "model_path"
  | Some model_path =>
      match param "tokenizer_path" ≫= as_str with
      | None => missing "tokenizer_path"
      | Some tokenizer_path =>
          let max_seq_len := default DEFAULT_MAX_SEQ_LEN (param "max_seq_len" ≫= as_u64) in
          let intra_threads := param "intra_threads" ≫= as_u64 in
          map_err (fun e => ProviderError_InvalidProfile "ort" (EmbeddingError_to_string e))
            (new model_path tokenizer_path (emb_model profile) (emb_dimension profile)
               max_seq_len intra_threads)
      end
  end.

Definition OrtEmbeddingFactory : EmbeddingProviderFactory :=
  {| emb_provider_name := "ort";
     emb_build := fun profile =>
       p <-? build profile ;; Ok (ort_provider p) |}.

Definition OrtEmbeddingPlugin : Plugin :=
  mkPlugin "pg-synapse-embeddings-ort" CARGO_PKG_VERSION
    (with_embedding_factory OrtEmbeddingFactory).
End ort.
End Ort.
Import Ort.

(** ** Files fetched from the model hub ([download.rs] of both crates) *)

Module Download.
(** A path as the list of what its slashes separate ([Fs]).  [PathBuf::join]
    drops the left side before an absolute path. *)
Definition path_join (a : path) (b : string) : path :=
  if starts_with b "/" then segments b
  else (match last a with Some EmptyString => removelast a | _ => a end) ++ segments b.
Definition display (p : path) : string := join "/" p.

(** [Path::parent] and [Path::with_extension], by components. *)
Definition trailing_cut (p : path) : path := rev (drop_while is_cur_dir (rev p)).
Definition path_parent (p : path) : path := removelast (trailing_cut p).

Definition file_stem (c : string) : string :=
  let before := join "." (removelast (split_on "." c)) in
  if is_empty before then c else before.
Definition with_extension (p : path) (ext : string) : path :=
  match last (trailing_cut p) with
  | Some c => if is_parent_dir c then p else path_parent p ++ [file_stem c +:+ "." +:+ ext]
  | None => p
  end.

(** The disk: a failed write may leave part of the file.  The wording of the
    HTTP library's errors is a parameter too. *)
Class DiskLib := {
  disk : Type;
  disk_exists : path -> disk -> bool;
  disk_create_dir_all : path -> disk -> result unit string * disk;
  disk_create : path -> disk -> result unit string * disk;
  disk_write_all : path -> string -> disk -> result unit string * disk;
  disk_write : path -> string -> disk -> result unit string * disk;
  disk_rename : path -> path -> disk -> result unit string * disk;
  dirs_cache_dir : option string;
  status_error : Z -> string -> string;
  client_error : option string }.

Section download.
Context `{DiskLib, WireLib}.

Record DownloadConfig := mkDownloadConfig {
  dl_repo : string; dl_revision : string; dl_tokenizer : string; dl_model : string }.

Definition bge_small_en_v15 : DownloadConfig :=
  mkDownloadConfig "BAAI/bge-small-en-v1.5" "main" "tokenizer.json" "onnx/model.onnx".
Definition bge_base_en_v15 : DownloadConfig :=
  mkDownloadConfig "BAAI/bge-base-en-v1.5" "main" "tokenizer.json" "onnx/model.onnx".

Definition cache_root : path :=
  path_join (path_join (segments (default "/tmp" dirs_cache_dir)) "pg-synapse") "models".

Definition get_request (url : string) : fetch_request := mkFetchRequest "GET" url [] None.

(** [error_for_status]: client and server errors, not redirects. *)
Definition is_status_error (status : Z) : bool := (400 <=? status) && (status <=? 599).

(** [File::create] and [write_all] *)
Definition save (dest : path) (bytes : string) (d : disk)
  : result unit EmbeddingError * disk :=
  match disk_create dest d with
  | (Err e, d) => (Err (EmbeddingError_Provider ("create " +:+ display dest +:+ ": " +:+ e)), d)
  | (Ok _, d) =>
      match disk_write_all dest bytes d with
      | (Err e, d) => (Err (EmbeddingError_Provider ("write " +:+ display dest +:+ ": " +:+ e)), d)
      | (Ok _, d) => (Ok tt, d)
      end
  end.

Definition download_file (url : string) (dest : path) (d : disk)
  : prog (result unit EmbeddingError * disk) :=
  r ← perform (EFetch (get_request url));
  mret (match r with
        | Err e => (Err (EmbeddingError_Network e), d)
        | Ok resp =>
            if is_status_error (fetch_status resp) then
              (Err (EmbeddingError_Network
                      ("HTTP " +:+ url +:+ ": " +:+ status_error (fetch_status resp) url)), d)
            else
              match fetch_text resp with
              | Err e => (Err (EmbeddingError_Network e), d)
              | Ok bytes => save dest bytes d
              end
        end).

Definition fetch_missing (url : string) (dest : path) (d : disk)
  : prog (result unit EmbeddingError * disk) :=
  if disk_exists dest d then mret (Ok tt, d) else download_file url dest d.

Definition model_dest (cfg : DownloadConfig) : path :=
  path_join (path_join cache_root (dl_repo cfg)) "model.onnx".
Definition tokenizer_dest (cfg : DownloadConfig) : path :=
  path_join (path_join cache_root (dl_repo cfg)) "tokenizer.json".
Definition file_url (cfg : DownloadConfig) (file : string) : string :=
  "https://huggingface.co/" +:+ dl_repo cfg +:+ "/resolve/" +:+ dl_revision cfg +:+ "/" +:+ file.

Definition ensure_files (cfg : DownloadConfig) (d : disk)
  : prog (result (path * path) EmbeddingError * disk) :=
  match disk_create_dir_all (path_join cache_root (dl_repo cfg)) d with
  | (Err e, d) => mret (Err (EmbeddingError_Provider ("create cache dir: " +:+ e)), d)
  | (Ok _, d) =>
      '(r, d) ← fetch_missing (file_url cfg (dl_model cfg)) (model_dest cfg) d;
      match r with
      | Err e => mret (Err e, d)
      | Ok _ =>
          '(r, d) ← fetch_missing (file_url cfg (dl_tokenizer cfg)) (tokenizer_dest cfg) d;
          mret (match r with Err e => (Err e, d) | Ok _ => (Ok (model_dest cfg, tokenizer_dest cfg), d) end)
      end
  end.

(** The download of the llama.cpp provider: a temporary file, renamed. *)
Definition gguf_url (repo file revision : string) : string :=
  "https://huggingface.co/" +:+ repo +:+ "/resolve/" +:+ revision +:+ "/" +:+ file.

Definition gguf_dest (cache : string) (repo file : string) : path :=
  path_join (path_join (path_join (path_join (segments cache) "pg-synapse") "models") repo) file.

Definition store_gguf (dest : path) (bytes : string) (d : disk) : result path string * disk :=
  let tmp := with_extension dest "gguf.tmp" in
  match disk_write tmp bytes d with
  | (Err e, d) => (Err e, d)
  | (Ok _, d) =>
      match disk_rename tmp dest d with
      | (Err e, d) => (Err e, d)
      | (Ok _, d) => (Ok dest, d)
      end
  end.

Definition fetch_gguf (url : string) (dest : path) (d : disk) : prog (result path string * disk) :=
  match client_error with
  | Some e => mret (Err e, d)
  | None =>
      r ← perform (EFetch (get_request url));
      mret (match r with
            | Err e => (Err e, d)
            | Ok resp =>
                if is_success (fetch_status resp) then
                  match fetch_text resp with
                  | Err e => (Err e, d)
                  | Ok bytes => store_gguf dest bytes d
                  end
                else (Err ("Hugging Face returned HTTP " +:+ fmt_status (fetch_status resp)
                             +:+ " for " +:+ url), d)
            end)
  end.

Definition download_gguf (repo file revision : string) (d : disk)
  : prog (result path string * disk) :=
  match dirs_cache_dir with
  | None =>
      mret (Err "could not determine cache directory (dirs::cache_dir returned None)", d)
  | Some cache =>
      let dest := gguf_dest cache repo file in
      if disk_exists dest d then mret (Ok dest, d)
      else
        match disk_create_dir_all (path_parent dest) d with
        | (Err e, d) => mret (Err e, d)
        | (Ok _, d) => fetch_gguf (gguf_url repo file revision) dest d
        end
  end.
End download.
End Download.

(** ** The batch, row by row *)

Section batch.
Context `{OrtLib}.

(** What the tokeniser documents: three lists of one length. *)
Definition aligned (e : Encoding) : Prop :=
  length (get_attention_mask e) = enc_len e /\ length (get_type_ids e) = enc_len e.

(** A row: the first [n] entries, then zeros. *)
Definition padded (n : nat) (l : list Z) : list Z := take n l ++ zeros (n - length l).
Definition rows (n : nat) (field : Encoding -> list Z) (es : list Encoding) : list Z :=
  concat (map (fun e => padded n (field e)) es).

Lemma padded_length n l : length (padded n l) = n.
Proof. unfold padded, zeros. rewrite length_app, length_take, length_replicate. lia. Qed.

Lemma rows_length n field es : length (rows n field es) = (length es * n)%nat.
Proof.
  unfold rows. induction es as [|e es IH]; [done|]. simpl. rewrite length_app, padded_length. lia.
Qed.

(** Between two writes a list is a filled prefix before zeros. *)
Definition filled (pre : list Z) (k j : nat) (l : list Z) : list Z :=
  pre ++ take j l ++ zeros (k - j).

Lemma filled_start pre k l : filled pre k 0 l = pre ++ zeros k.
Proof. unfold filled. by rewrite Nat.sub_0_r. Qed.

Lemma set_at_filled pre k j l x :
  l !! j = Some x -> (j < k)%nat -> set_at (filled pre k j l) (length pre + j) x
                                  = Done (filled pre k (S j) l).
Proof.
  intros Hx Hj. pose proof (lookup_lt_Some _ _ _ Hx) as Hlen. unfold set_at, filled.
  rewrite !length_app, length_take. unfold zeros at 1. rewrite length_replicate.
  rewrite (proj2 (Nat.ltb_lt _ _)) by lia. simpl. f_equal.
  rewrite insert_app_r. f_equal.
  rewrite (take_S_r _ _ _ Hx), <- (app_assoc (take j l)).
  replace j with (length (take j l) + 0)%nat at 1 by (rewrite length_take; lia).
  rewrite insert_app_r. f_equal.
  replace (k - j)%nat with (S (k - S j)) by lia. done.
Qed.

Definition batch_state (pre : batch) (k j : nat) (e : Encoding) : batch :=
  mkBatch (filled (bt_ids pre) k j (get_ids e))
          (filled (bt_mask pre) k j (get_attention_mask e))
          (filled (bt_types pre) k j (get_type_ids e)).

(** The three lists have the same length, that of the rows before. *)
Definition batch_at (row : nat) (b : batch) : Prop :=
  length (bt_ids b) = row /\ length (bt_mask b) = row /\ length (bt_types b) = row.

Lemma put_state e pre row k j :
  aligned e -> batch_at row pre -> (j < enc_len e)%nat -> (j < k)%nat ->
  put e row j (batch_state pre k j e) = Done (batch_state pre k (S j) e).
Proof.
  intros [Hm Ht] (Li & Lm & Lt) Hj Hk. unfold enc_len in *.
  destruct (lookup_lt_is_Some_2 (get_ids e) j) as [x Hx]; [lia|].
  destruct (lookup_lt_is_Some_2 (get_attention_mask e) j) as [y Hy]; [lia|].
  destruct (lookup_lt_is_Some_2 (get_type_ids e) j) as [z Hz]; [lia|].
  unfold put, batch_state. simpl. rewrite Hx. simpl.
  rewrite <- Li at 1. rewrite (set_at_filled _ _ _ _ _ Hx Hk). simpl.
  rewrite Hy. simpl. rewrite <- Lm at 1. rewrite (set_at_filled _ _ _ _ _ Hy Hk). simpl.
  rewrite Hz. simpl. rewrite <- Lt at 1. by rewrite (set_at_filled _ _ _ _ _ Hz Hk).
Qed.

Lemma fill_row_state e pre row k n j :
  aligned e -> batch_at row pre -> (j + n <= enc_len e)%nat -> (j + n <= k)%nat ->
  fill_row e row (seq j n) (batch_state pre k j e) = Done (batch_state pre k (j + n) e).
Proof.
  intros Ha Hp. revert j. induction n as [|n IH]; intros j Hl Hk; simpl.
  - by rewrite Nat.add_0_r.
  - rewrite put_state by (auto; lia). simpl. rewrite IH by lia. do 2 f_equal. lia.
Qed.

Lemma filled_row pre n m l :
  filled pre (n + m) (Nat.min (length l) n) l = pre ++ padded n l ++ zeros m.
Proof.
  unfold filled, padded, zeros. f_equal. rewrite <- app_assoc, <- replicate_add.
  f_equal; [|f_equal; lia].
  destruct (Nat.le_ge_cases (length l) n).
  - rewrite Nat.min_l by done. by rewrite !take_ge by lia.
  - by rewrite Nat.min_r by done.
Qed.

Lemma fill_rows n es i pre :
  Forall aligned es -> batch_at (i * n) pre ->
  let m := (length es * n)%nat in
  fill n i es (mkBatch (bt_ids pre ++ zeros m) (bt_mask pre ++ zeros m) (bt_types pre ++ zeros m))
  = Done (mkBatch (bt_ids pre ++ rows n get_ids es) (bt_mask pre ++ rows n get_attention_mask es)
            (bt_types pre ++ rows n get_type_ids es)).
Proof.
  intros Hes. revert i pre. induction Hes as [|e es Ha Hes IH]; intros i pre Hp; [done|].
  cbn [fill length Nat.mul]. rewrite <- (filled_start (bt_ids pre) _ (get_ids e)),
    <- (filled_start (bt_mask pre) _ (get_attention_mask e)),
    <- (filled_start (bt_types pre) _ (get_type_ids e)).
  change (mkBatch (filled _ _ _ _) _ _) with (batch_state pre (n + length es * n) 0 e).
  rewrite fill_row_state by (auto; lia). cbn [mbind outcome_mbind Nat.add].
  unfold batch_state. destruct Ha as [Hm Ht].
  unfold enc_len in *. rewrite filled_row.
  rewrite <- Hm at 1. rewrite filled_row. rewrite <- Ht at 1. rewrite filled_row.
  rewrite !(app_assoc _ (padded _ _)).
  specialize (IH (S i) (mkBatch (bt_ids pre ++ padded n (get_ids e))
             (bt_mask pre ++ padded n (get_attention_mask e))
             (bt_types pre ++ padded n (get_type_ids e)))).
  simpl in IH. rewrite IH.
  - simpl. by rewrite <- !(app_assoc _ (padded _ _)).
  - destruct Hp as (? & ? & ?). unfold batch_at. simpl. rewrite !length_app, !padded_length. lia.
Qed.

Lemma fill_batch n es :
  Forall aligned es ->
  fill n 0 es (empty_batch (length es * n))
  = Done (mkBatch (rows n get_ids es) (rows n get_attention_mask es) (rows n get_type_ids es)).
Proof. intros Hes. by apply (fill_rows n es 0 (mkBatch [] [] [])). Qed.

(** An entry of a row. *)
Lemma rows_lookup n field es b e s :
  es !! b = Some e -> (s < n)%nat ->
  rows n field es !! (b * n + s)%nat = padded n (field e) !! s.
Proof.
  intros He Hs. unfold rows. revert b He. induction es as [|e' es IH]; intros b He; [done|].
  destruct b as [|b]; simpl in *.
  - injection He as ->. rewrite lookup_app_l; [done|]. rewrite padded_length. lia.
  - rewrite lookup_app_r by (rewrite padded_length; lia). rewrite padded_length.
    rewrite <- (IH b He). f_equal. lia.
Qed.

Lemma padded_lookup n l s :
  (s < n)%nat -> padded n l !! s = Some (default 0 (l !! s)).
Proof.
  intros Hs. unfold padded, zeros. destruct (Nat.lt_ge_cases s (length l)) as [Hl|Hl].
  - rewrite lookup_app_l by (rewrite length_take; lia). rewrite lookup_take_lt by done.
    by destruct (lookup_lt_is_Some_2 l s Hl) as [x ->].
  - rewrite lookup_app_r by (rewrite length_take; lia). rewrite length_take.
    rewrite lookup_replicate_2 by lia. by rewrite lookup_ge_None_2 by lia.
Qed.
End batch.

(** ** Pooling against its definition *)

Section pooling.
Context `{OrtLib}.

(** The array of hidden states of a batch of [B] rows of [L] positions. *)
Definition shaped (view : ArrayD) (B L D : nat) : Prop :=
  ad_shape view = [B; L; D] /\ length (ad_data view) = (B * L * D)%nat.

(** The hidden state of position [s] of row [b], and the positions that count. *)
Definition state_at (view : ArrayD) (L D b s : nat) : list f32 :=
  take D (drop ((b * L + s) * D) (ad_data view)).
Definition counts (e : Encoding) (s : nat) : bool :=
  bool_decide (get_attention_mask e !! s = Some 1).
Definition used (e : Encoding) (L : nat) : list nat := List.filter (counts e) (seq 0 L).

(** The reference: the mean over the counting positions, scaled to length 1. *)
Definition vector_sum (D : nat) (vs : list (list f32)) : list f32 :=
  fold_left (zip_with F32.add) vs (replicate D F32.zero).
Definition count_of (vs : list (list f32)) : f32 :=
  fold_left (fun c _ => F32.add c F32.one) vs F32.zero.
Definition mean_pooled (D : nat) (vs : list (list f32)) : EmbeddingVector :=
  normalized (mean (vector_sum D vs) (count_of vs)).

Definition embedding_of (view : ArrayD) (L D b : nat) (e : Encoding) : EmbeddingVector :=
  mean_pooled D (map (state_at view L D b) (used e L)).

Lemma state_at_length view B L D b s :
  shaped view B L D -> (b < B)%nat -> (s < L)%nat -> length (state_at view L D b s) = D.
Proof.
  intros [_ Hd] Hb Hs. unfold state_at. rewrite length_take, length_drop, Hd.
  assert ((b * L + s + 1) * D <= B * L * D)%nat; [|lia].
  apply Nat.mul_le_mono_r. nia.
Qed.

Lemma index3_state view B L D b s h :
  shaped view B L D -> (b < B)%nat -> (s < L)%nat -> (h < D)%nat ->
  index3 view b s h = state_at view L D b s !! h.
Proof.
  intros [Hsh Hd] Hb Hs Hh. unfold index3, state_at. rewrite Hsh.
  rewrite !(proj2 (Nat.ltb_lt _ _)) by done. simpl.
  by rewrite lookup_take_lt, lookup_drop by done.
Qed.

Lemma add_state_row view B L D b s h sum :
  shaped view B L D -> (b < B)%nat -> (s < L)%nat -> (h + length sum = D)%nat ->
  add_state view b s h sum = Done (zip_with F32.add sum (drop h (state_at view L D b s))).
Proof.
  intros Hv Hb Hs. revert h. induction sum as [|slot rest IH]; intros h Hl; [done|]. simpl in *.
  destruct (lookup_lt_is_Some_2 (state_at view L D b s) h) as [x Hx].
  { rewrite (state_at_length _ _ _ _ _ _ Hv) by done. lia. }
  rewrite (index3_state _ _ _ _ _ _ _ Hv) by (done || lia). rewrite Hx. simpl.
  rewrite IH by lia. simpl. by rewrite (drop_S _ _ _ Hx).
Qed.

Lemma zip_with_add_length D sum v :
  length sum = D -> length v = D -> length (zip_with F32.add sum v) = D.
Proof. intros. rewrite length_zip_with. lia. Qed.

Lemma vector_sum_length D vs acc :
  length acc = D -> Forall (fun v => length v = D) vs ->
  length (fold_left (zip_with F32.add) vs acc) = D.
Proof.
  intros Ha Hvs. revert acc Ha. induction Hvs; simpl; intros acc Ha; [done|].
  by apply IHHvs, zip_with_add_length.
Qed.

Lemma pool_row_used view B L D mask b e steps sum count :
  shaped view B L D -> (b < B)%nat -> Forall (fun s => s < L)%nat steps ->
  (forall s, (s < L)%nat -> exists m, index2 mask b s = Some m /\ (m =? 1) = counts e s) ->
  length sum = D ->
  let vs := map (state_at view L D b) (List.filter (counts e) steps) in
  pool_row view mask b steps sum count
  = Done (fold_left (zip_with F32.add) vs sum, fold_left (fun c _ => F32.add c F32.one) vs count).
Proof.
  intros Hv Hb Hsteps Hmask. revert sum count.
  induction Hsteps as [|s steps Hs Hsteps IH]; intros sum count Hl; [done|]. simpl.
  destruct (Hmask s Hs) as (m & -> & Hm). simpl. rewrite Hm. destruct (counts e s); [|by apply IH].
  rewrite (add_state_row _ _ _ _ _ _ _ _ Hv) by done. simpl. rewrite drop_0. apply IH.
  apply zip_with_add_length; [done|]. by eapply state_at_length.
Qed.

(** The mask of the batch at a position is that of the text. *)
Lemma mask_counts es n b e s :
  es !! b = Some e -> (s < n)%nat ->
  exists m, index2 (mkArray2 (length es) n (rows n get_attention_mask es)) b s = Some m
            /\ (m =? 1) = counts e s.
Proof.
  intros He Hs. exists (default 0 (get_attention_mask e !! s)). split.
  - unfold index2. simpl. pose proof (lookup_lt_Some _ _ _ He).
    rewrite !(proj2 (Nat.ltb_lt _ _)) by done. simpl.
    rewrite (rows_lookup _ _ _ _ _ _ He Hs). by apply padded_lookup.
  - unfold counts. destruct (get_attention_mask e !! s) as [m|]; simpl.
    + destruct (Z.eqb_spec m 1); symmetry; [apply bool_decide_eq_true|apply bool_decide_eq_false];
        congruence.
    + done.
Qed.

Lemma pool_batch view es L D b rest :
  shaped view (length es) L D -> drop b es = rest ->
  pool view (mkArray2 (length es) L (rows L get_attention_mask es)) L D (seq b (length rest))
  = Done (imap (fun i e => embedding_of view L D (b + i) e) rest).
Proof.
  intros Hv. revert b. induction rest as [|e rest IH]; intros b Hr; [done|].
  assert (es !! b = Some e) as He.
  { rewrite <- (Nat.add_0_r b), <- lookup_drop, Hr. done. }
  pose proof (lookup_lt_Some _ _ _ He) as Hb. cbn [seq length pool].
  unfold pool_one. rewrite (pool_row_used view _ _ _ _ _ e _ _ _ Hv Hb).
  - simpl. rewrite (IH (S b)).
    + simpl. rewrite Nat.add_0_r. do 2 f_equal. apply imap_ext. intros i x _. simpl. f_equal. lia.
    + replace (S b) with (b + 1)%nat by lia. by rewrite <- drop_drop, Hr.
  - apply Forall_forall. intros s Hs. apply elem_of_seq in Hs. lia.
  - intros s Hs. by apply mask_counts.
  - apply length_replicate.
Qed.

(** A text no position of which counts has the zero vector. *)
Lemma zero_norm D : norm (replicate D F32.zero) = F32.tiny.
Proof.
  unfold norm.
  assert (forall D, fold_left F32.add (map (fun x => F32.mul x x) (replicate D F32.zero)) F32.zero
          = F32.zero) as ->; [|done].
  induction D0; [done|]. simpl. by rewrite IHD0.
Qed.

Lemma unmasked_is_zero D : mean_pooled D [] = replicate D F32.zero.
Proof.
  unfold mean_pooled, mean, vector_sum, count_of. simpl. unfold normalized. rewrite zero_norm.
  induction D; simpl; [done|]. by f_equal.
Qed.

Lemma mean_pooled_length D vs :
  Forall (fun v => length v = D) vs -> length (mean_pooled D vs) = D.
Proof.
  intros Hvs. unfold mean_pooled, normalized, mean. rewrite length_map.
  case_match; [rewrite length_map|]; apply vector_sum_length; auto using length_replicate.
Qed.
End pooling.

(** ** The embedding of a batch *)

Section embedding.
Context `{OrtLib}.

(** The inputs of the session: one row per text, cut or padded with zeros to
    the length of the batch. *)
Definition inputs_of (p : OrtEmbeddingProvider) (es : list Encoding) : list (string * Array2) :=
  let n := batch_len es (ort_max_seq_len p) in
  let field f := mkArray2 (length es) n (rows n f es) in
  [("input_ids", field get_ids); ("attention_mask", field get_attention_mask)]
    ++ (if has_token_type_ids p then [("token_type_ids", field get_type_ids)] else []).

Lemma batch_len_bounds es max : 1 <= max -> 1 <= Z.of_nat (batch_len es max) <= max.
Proof. unfold batch_len. lia. Qed.

Lemma from_shape_rows what n field es :
  from_shape_vec what (length es) n (rows n field es)
  = Ok (mkArray2 (length es) n (rows n field es)).
Proof. unfold from_shape_vec. by rewrite rows_length, Nat.eqb_refl. Qed.

Lemma embedding_length view B L D b e :
  shaped view B L D -> (b < B)%nat -> length (embedding_of view L D b e) = D.
Proof.
  intros Hv Hb. apply mean_pooled_length, Forall_forall. intros v Hin.
  apply list_elem_of_fmap in Hin as (s & -> & Hs). apply list_elem_of_In, filter_In in Hs as [Hs _].
  apply list_elem_of_In, elem_of_seq in Hs. eapply state_at_length; [done..|lia].
Qed.

Context (tensors_accepted : forall a, tensor_error a = None).

Lemma run_session_inputs p es :
  let n := batch_len es (ort_max_seq_len p) in
  let field f := mkArray2 (length es) n (rows n f es) in
  run_session p (field get_ids) (field get_attention_mask) (field get_type_ids)
  = provider_error "ort run" (session_run (ort_session p) (inputs_of p es)).
Proof.
  intros n field. unfold run_session, tensor, inputs_of. rewrite tensors_accepted.
  by destruct (has_token_type_ids p).
Qed.

(** What becomes of an answer of the model. *)
Lemma embed_reads p texts es outputs :
  texts <> [] -> encode_batch (ort_tokenizer p) texts = Ok es -> Forall aligned es ->
  session_run (ort_session p) (inputs_of p es) = Ok outputs ->
  let L := batch_len es (ort_max_seq_len p) in
  embed p texts
  = read_output p (mkArray2 (length es) L (rows L get_attention_mask es)) (length es) L outputs.
Proof.
  intros Hne Henc Hes Hrun L. destruct texts as [|t ts]; [done|]. cbn [embed]. rewrite Henc.
  cbn [provider_error map_err try_].
  rewrite fill_batch by done. cbn [mbind outcome_mbind bt_ids bt_mask bt_types].
  rewrite !from_shape_rows. cbn [try_]. unfold tensor. rewrite !tensors_accepted. cbn [try_].
  by rewrite run_session_inputs, Hrun.
Qed.

(** Pooling panics or ends, and it ends only if every state it reads is
    there. *)
Lemma add_state_cases arr b s h sum :
  match add_state arr b s h sum with
  | Done sum' => length sum' = length sum /\ (sum <> [] -> is_Some (index3 arr b s h))
  | Panics => True
  | OutOfFuel => False
  end.
Proof.
  revert h. induction sum as [|x sum IH]; intros h; [done|]. simpl.
  destruct (index3 arr b s h) as [v|]; [|done]. simpl. specialize (IH (S h)).
  destruct (add_state arr b s (S h) sum); [|done..]. simpl. destruct IH as [-> _]. eauto.
Qed.

Lemma pool_row_cases arr mask b steps sum count :
  match pool_row arr mask b steps sum count with
  | Done _ => sum <> [] -> forall s, s ∈ steps -> index2 mask b s = Some 1 ->
      is_Some (index3 arr b s 0)
  | Panics => True
  | OutOfFuel => False
  end.
Proof.
  revert sum count. induction steps as [|s steps IH]; intros sum count; simpl.
  { by intros _ s ?%elem_of_nil. }
  destruct (index2 mask b s) as [m|] eqn:Em; [|done]. simpl. destruct (Z.eqb_spec m 1) as [->|Hm].
  - pose proof (add_state_cases arr b s 0 sum) as Ha.
    destruct (add_state arr b s 0 sum) as [sum'| |]; [|done..]. simpl. destruct Ha as [Hl Ha].
    specialize (IH sum' (F32.add count F32.one)).
    destruct (pool_row arr mask b steps sum' (F32.add count F32.one)); [|done..].
    intros Hne s' [->|Hs']%elem_of_cons Hi; [by apply Ha|]. apply IH; [|done..].
    by destruct sum', sum.
  - specialize (IH sum count). destruct (pool_row arr mask b steps sum count); [|done..].
    intros Hne s' [->|Hs']%elem_of_cons Hi; [congruence|by apply IH].
Qed.

Lemma pool_cases arr mask max_len hidden bs :
  match pool arr mask max_len (S hidden) bs with
  | Done _ => forall b s, b ∈ bs -> (s < max_len)%nat -> index2 mask b s = Some 1 ->
      is_Some (index3 arr b s 0)
  | Panics => True
  | OutOfFuel => False
  end.
Proof.
  induction bs as [|b bs IH]; cbn [pool]; [by intros b s ?%elem_of_nil|].
  pose proof (pool_row_cases arr mask b (seq 0 max_len) (replicate (S hidden) F32.zero) F32.zero) as Hr.
  unfold pool_one. destruct (pool_row arr mask b _ _ _) as [[sum count]| |]; [|done..].
  cbn [mbind outcome_mbind]. destruct (pool arr mask max_len (S hidden) bs); [|done..].
  intros b' s [->|Hb]%elem_of_cons Hs Hi; [|by apply IH]. apply Hr; [done| |done].
  apply elem_of_seq. lia.
Qed.

(** C28: For every batch of texts, tokeniser and model: the model is given one
    row per text, cut or padded with zeros to the longest text within the
    configured limit.  When it answers hidden states of that shape, [embed]
    returns for each text, in order, the mean of the hidden states at the
    positions its mask marks, divided by its length (at least [1e-12]), a
    vector of the declared dimension; the arithmetic is that of binary32.  An
    answer of another rank or width is an error, which names it; one of the
    right width that lacks a row or a position the mask marks makes [embed]
    panic. *)
Theorem embed_is_mean_pooling p texts es out outs view :
  texts <> [] -> 1 <= ort_max_seq_len p ->
  encode_batch (ort_tokenizer p) texts = Ok es -> Forall aligned es ->
  session_run (ort_session p) (inputs_of p es) = Ok (out :: outs) ->
  try_extract out = Ok view ->
  let L := batch_len es (ort_max_seq_len p) in
  (1 <= Z.of_nat L <= ort_max_seq_len p /\ forall f, length (rows L f es) = (length es * L)%nat) /\
  (forall D, shaped view (length es) L D -> Z.of_nat D = ort_dimension p ->
     embed p texts = Done (Ok (imap (fun i e => embedding_of view L D i e) es)) /\
     Forall (fun v => length v = D) (imap (fun i e => embedding_of view L D i e) es)) /\
  (length (ad_shape view) <> 3%nat ->
     embed p texts = Done (Err (EmbeddingError_Provider
                       ("unexpected output rank: " +:+ debug_shape (ad_shape view))))) /\
  (forall B S D, ad_shape view = [B; S; D] -> Z.of_nat D <> ort_dimension p ->
     embed p texts = Done (Err (EmbeddingError_DimensionMismatch (ort_dimension p) (Z.of_nat D)))) /\
  (forall B S D, ad_shape view = [B; S; D] -> Z.of_nat D = ort_dimension p -> (0 < D)%nat ->
     (exists b e s, es !! b = Some e /\ (s < L)%nat /\ counts e s = true /\ ~ (b < B /\ s < S)%nat) ->
     embed p texts = Panics).
Proof.
  intros Hne Hmax Henc Hes Hrun Hext L.
  split; [split; [by apply batch_len_bounds|intros; apply rows_length]|].
  rewrite (embed_reads p texts es (out :: outs)) by done. fold L.
  unfold read_output. cbn [head or_panic mbind outcome_mbind]. rewrite Hext.
  cbn [provider_error map_err try_]. split_and!.
  - intros D Hv HD. split.
    + destruct Hv as [Hsh Hd]. rewrite Hsh, (proj2 (Z.eqb_eq _ _) HD).
      by rewrite (pool_batch view es _ D 0 es (conj Hsh Hd) eq_refl).
    + apply Forall_forall. intros v Hin. apply list_elem_of_lookup in Hin as [i Hi].
      rewrite list_lookup_imap in Hi. apply fmap_Some in Hi as (e & He & ->).
      eapply embedding_length; [done|]. by eapply lookup_lt_Some.
  - intros Hr. by destruct (ad_shape view) as [|? [|? [|? [|? ?]]]].
  - intros B S D Hsh HD. by rewrite Hsh, (proj2 (Z.eqb_neq _ _) HD).
  - intros B S D Hsh HD Hpos (b & e & s & He & Hs & Hc & Hout).
    rewrite Hsh, (proj2 (Z.eqb_eq _ _) HD). destruct D as [|D]; [lia|].
    pose proof (pool_cases view (mkArray2 (length es) L (rows L get_attention_mask es)) L D
                  (seq 0 (length es))) as Hp.
    destruct (pool view _ L _ _) as [vs| |]; [|done..]. exfalso.
    destruct (mask_counts es L b e s He Hs) as (m & Hm & Hmc). rewrite Hc in Hmc.
    apply Z.eqb_eq in Hmc as ->.
    destruct (Hp b s) as [x Hx]; [|done|done|].
    { apply elem_of_seq. apply lookup_lt_Some in He. lia. }
    unfold index3 in Hx. rewrite Hsh in Hx. destruct (_ && _)%nat eqn:E in Hx; [|done].
    rewrite !andb_true_iff, !Nat.ltb_lt in E. tauto.
Qed.

(** Two answers that agree at the counting positions give the same vector. *)
Lemma padding_is_ignored view view' L D b e :
  (forall s, (s < L)%nat -> counts e s = true -> state_at view L D b s = state_at view' L D b s) ->
  embedding_of view L D b e = embedding_of view' L D b e.
Proof.
  intros Hs. unfold embedding_of. f_equal. apply list_fmap_ext. intros i s Hi.
  apply list_elem_of_lookup_2, list_elem_of_In, filter_In in Hi as [Hin Hc].
  apply list_elem_of_In, elem_of_seq in Hin. apply Hs; [lia|done].
Qed.

End embedding.

(** ** Downloads *)

Section downloads.
Import Download.
Context `{DiskLib, WireLib}.

(** What the disk documents: only a creation or a rename makes a path exist
    for the files at hand, and a failed write does not remove the file. *)
Class DiskLaws := {
  mkdirs_keeps : forall p q d, ~ q `prefix_of` p ->
    disk_exists q (disk_create_dir_all p d).2 = disk_exists q d;
  created : forall p d d', disk_create p d = (Ok tt, d') -> disk_exists p d' = true;
  written_keeps : forall p s q d, disk_exists q (disk_write_all p s d).2 = disk_exists q d;
  write_keeps : forall p s q d, q <> p -> disk_exists q (disk_write p s d).2 = disk_exists q d;
  rename_failed_keeps : forall a b q d e d',
    disk_rename a b d = (Err e, d') -> disk_exists q d' = disk_exists q d }.

Lemma existing_files_are_not_fetched cfg d d' :
  disk_create_dir_all (path_join cache_root (dl_repo cfg)) d = (Ok tt, d') ->
  disk_exists (model_dest cfg) d' = true -> disk_exists (tokenizer_dest cfg) d' = true ->
  ensure_files cfg d = mret (Ok (model_dest cfg, tokenizer_dest cfg), d').
Proof.
  intros Hd Hm Ht. unfold ensure_files, fetch_missing. rewrite Hd, Hm. simpl. by rewrite Ht.
Qed.

(** A failed write leaves a file that the next call takes for the whole one. *)
Lemma failed_write_leaves_the_file `{DiskLaws} dest bytes d d1 e d2 :
  disk_create dest d = (Ok tt, d1) -> disk_write_all dest bytes d1 = (Err e, d2) ->
  save dest bytes d = (Err (EmbeddingError_Provider ("write " +:+ display dest +:+ ": " +:+ e)), d2)
  /\ disk_exists dest d2 = true
  /\ forall url, fetch_missing url dest d2 = mret (Ok tt, d2).
Proof.
  intros Hc Hw. unfold save, fetch_missing. rewrite Hc, Hw.
  assert (disk_exists dest d2 = true) as He.
  { pose proof (written_keeps dest bytes dest d1) as Hk. rewrite Hw in Hk. simpl in Hk.
    rewrite Hk. by eapply created. }
  split; [done|]. split; [done|]. intros url. by rewrite He.
Qed.

Lemma store_gguf_whole `{DiskLaws} dest bytes d :
  with_extension dest "gguf.tmp" <> dest ->
  match store_gguf dest bytes d with
  | (Ok p, _) => p = dest
  | (Err _, d') => disk_exists dest d' = disk_exists dest d
  end.
Proof.
  intros Hne. unfold store_gguf.
  pose proof (write_keeps (with_extension dest "gguf.tmp") bytes dest d (not_eq_sym Hne)) as Hw.
  destruct (disk_write _ _ d) as [[[]|e] d1]; simpl in Hw; [|done].
  destruct (disk_rename _ _ d1) as [[[]|e] d2] eqn:Er; [done|].
  by rewrite (rename_failed_keeps _ _ _ _ _ _ Er).
Qed.

(** Whatever the server answers, a failed download of the llama.cpp provider
    leaves no file under the final name. *)
Lemma gguf_appears_whole `{DiskLaws} cache repo file revision d s :
  dirs_cache_dir = Some cache ->
  let dest := gguf_dest cache repo file in
  disk_exists dest d = false ->
  ~ dest `prefix_of` path_parent dest -> with_extension dest "gguf.tmp" <> dest ->
  wp any_env any_call (download_gguf repo file revision d) s (fun _ r =>
    match r with (Ok p, _) => p = dest | (Err _, d') => disk_exists dest d' = false end).
Proof.
  intros Hc dest He Hp Hne. unfold download_gguf. rewrite Hc. fold dest. rewrite He.
  pose proof (mkdirs_keeps (path_parent dest) dest d Hp) as Hk.
  destruct (disk_create_dir_all _ d) as [[[]|e] d1]; simpl in Hk; [|by simpl; rewrite Hk].
  unfold fetch_gguf. destruct client_error as [e|]; [by simpl; rewrite Hk|].
  split; [done|]. intros [resp|e] _; simpl; [|by rewrite Hk].
  destruct (is_success _); [|by rewrite Hk]. destruct (fetch_text resp) as [bytes|e]; [|by rewrite Hk].
  pose proof (store_gguf_whole dest bytes d1 Hne) as Hs.
  destruct (store_gguf dest bytes d1) as [[p|e] d2]; [done|]. by rewrite Hs, Hk.
Qed.
End downloads.

(** ** Instances *)

Module ToyOrt.
Definition f (n : Z) : f32 := binary_normalize F32.prec F32.emax n 0 false.

Definition short : Encoding := mkEncoding [101; 102] [1; 1] [0; 0].
Definition shorter : Encoding := mkEncoding [7] [1] [0].

(** Hidden states of two positions for two texts; the second text has one, and
    what stands at its padding is noise. *)
Definition states : ArrayD := mkArrayD [2; 2; 2]%nat [f 3; f 4; f 1; f 0; f 0; f 2; f 9; f 9].

#[local] Instance toy_ort : OrtLib :=
  {| Tokenizer := unit; SessionBuilder := unit; Session := unit; OrtValue := ArrayD;
     session_builder := Ok tt; with_optimization_level3 := fun _ => Ok tt;
     with_intra_threads := fun _ _ => Ok tt; commit_from_file := fun _ _ => Ok tt;
     session_inputs := fun _ => ["input_ids"; "attention_mask"];
     session_run := fun _ _ => Ok [states]; tensor_error := fun _ => None; try_extract := Ok;
     tokenizer_from_file := fun _ => Ok tt;
     encode_batch := fun _ texts => Ok (take (length texts) [short; shorter]);
     shape_error := "shape"; debug_shape := fun _ => "shape" |}.

Definition toy : OrtEmbeddingProvider := mkOrtEmbeddingProvider tt tt "toy" 2 512 false.

Example second_text_ignores_padding :
  embedding_of states 2 2 1 shorter = [F32.zero; F32.one].
Proof. vm_compute. reflexivity. Qed.

Example limit_is_at_least_one :
  new "m" "t" "toy" 2 0 None = Ok (mkOrtEmbeddingProvider tt tt "toy" 2 1 false).
Proof. reflexivity. Qed.

Lemma embed_is_mean_pooling_witness :
  embed toy ["a long text"; "text"]
  = Done (Ok (imap (fun i e => embedding_of states 2 2 i e) [short; shorter])).
Proof.
  refine (proj1 (proj1 (proj2 (embed_is_mean_pooling _ toy ["a long text"; "text"] [short; shorter]
            states [] states _ _ _ _ _ _)) 2%nat _ _)); try reflexivity; try done.
  repeat constructor.
Defined.

Example gguf_name :
  Download.with_extension ["m"; "granite-3.0-2b-instruct-Q4_K_M.gguf"] "gguf.tmp"
  = ["m"; "granite-3.0-2b-instruct-Q4_K_M.gguf.tmp"].
Proof. reflexivity. Qed.
End ToyOrt.
