(* ===== verification/Services.v ===== *)
(** * Executors as services ([executor/service.rs]) and layers over them
    ([examples/layer_recipes.rs])

    [ExecutorService] makes an executor a [tower::Service]; the example stacks
    a cost cap, a retry and a cache on it.  What a layer keeps behind an [Arc]
    is a state that its calls thread.  [call] reads the state when it is called
    and gives a future, which runs on the state it finds when it is awaited. *)

From S2P Require Import Prelude.
From S2P Require Import RustStr.
From S2P Require Import F64.
From S2P Require Import Json.
From S2P Require Import Errors.
From S2P Require Import Types.
From S2P Require Import Effects.
From S2P Require Import Traits.
From S2P Require Import StrSlice.
#[local] Open Scope synapse_scope.

Abbreviation run_result := (result ExecutorOutcome ExecutorError).

(** [tower::Service<ExecutionContext>] over a shared state; every service here
    is always ready. *)
Record Service (S : Type) := mkService {
  poll_ready : S -> bool;
  call : ExecutionContext -> S -> (S -> prog (run_result * S)) }.
Arguments mkService {S}.
Arguments poll_ready {S}.
Arguments call {S}.

(** [svc.call(ctx).await], and [oneshot], which waits for the service first. *)
Definition called {S} (svc : Service S) (ctx : ExecutionContext) (s : S)
  : prog (run_result * S) := call svc ctx s s.
Definition oneshot {S} (svc : Service S) (ctx : ExecutionContext) (s : S)
  : prog (run_result * S) :=
  if poll_ready svc s then called svc ctx s else raise "not ready".

Definition shallow_clone (ctx : ExecutionContext) : ExecutionContext :=
  mkExecutionContext (ctx_execution_id ctx) (ctx_agent_name ctx) (ctx_system_prompt ctx)
    (ctx_soul ctx) (ctx_input ctx) (ctx_executor_name ctx) (ctx_tools ctx) (ctx_llm ctx)
    (ctx_judge_llm ctx) (ctx_small_llm ctx) (ctx_embeddings ctx) (ctx_memory ctx)
    (ctx_compressor ctx) (ctx_max_iterations ctx) (ctx_timeout ctx) (ctx_cost_cap_usd ctx)
    (ctx_caller_role ctx) (ctx_trace_level ctx) (ctx_interrupt_check ctx) (ctx_harness ctx)
    (ctx_progress ctx).

(** ** [ExecutorService] *)

Definition ExecutorService (executor : Executor) : Service unit :=
  mkService (fun _ => true)
    (fun ctx _ => fun s => r ← executor ctx; mret (r, s)).

(** [service_from_dyn] shares the executor it is given. *)
Definition service_from_dyn (executor : Executor) : Service unit := ExecutorService executor.

(** ** Recipe 1: [CostCapLayer] *)

Module CostCap.
Section layer.
Context {S : Type} (cap_usd : f64) (inner : Service S).

Definition million : f64 := f64_of_Z 1000000.

(** [spent_micros as f64 / 1_000_000.0] *)
Definition spent_usd (spent_micros : Z) : f64 := f64_div (f64_of_Z spent_micros) million.

Definition charge (spent_micros : Z) (outcome : ExecutorOutcome) : Z :=
  match out_cost_usd outcome with
  | Some c => wrap64 (spent_micros + f64_to_u64 (f64_mul c million))
  | None => spent_micros
  end.

Definition service : Service (Z * S) :=
  mkService (fun s => poll_ready inner s.2)
    (fun ctx s =>
       let already := spent_usd s.1 in
       fun s =>
         if f64_geb already cap_usd then
           mret (Err (ExecutorError_CostCapExceeded cap_usd already), s)
         else
           '(r, t) ← called inner ctx s.2;
           mret (r, (match r with Ok outcome => charge s.1 outcome | Err _ => s.1 end, t))).
End layer.
End CostCap.

(** ** Recipe 2: [RetryLayer] *)

Module Retry.
Definition is_transient (err : ExecutorError) : bool :=
  match err with
  | ExecutorError_Llm (LlmError_Network _) | ExecutorError_Llm (LlmError_RateLimited _ _) => true
  | _ => false
  end.

(** The longest [Duration], in whole milliseconds: doubling past it panics. *)
Definition DURATION_MAX_MS : Z := U64_MAX * 1000 + 999.
Definition doubled (delay : Z) : prog Z :=
  if delay * 2 <=? DURATION_MAX_MS then mret (delay * 2)
  else raise "overflow when multiplying duration by scalar".

Section layer.
Context {S : Type} (max_attempts base : Z) (inner : Service S).

(** The loop, with [more] attempts after this one: [attempt < max] while there
    are any. *)
Fixpoint attempts (ctx : ExecutionContext) (more : nat) (delay : Z) (s : S)
  : prog (run_result * S) :=
  '(r, s) ← called inner (shallow_clone ctx) s;
  match r, more with
  | Err e, Datatypes.S more =>
      if is_transient e then
        perform (ESleep delay);;
        delay ← doubled delay;
        attempts ctx more delay s
      else mret (Err e, s)
  | _, _ => mret (r, s)
  end.

Definition service : Service S :=
  mkService (poll_ready inner)
    (fun ctx _ => fun s => attempts ctx (Z.to_nat (max_attempts - 1)) base s).
End layer.
End Retry.

(** ** Recipe 3: [DedupLayer] *)

Module Dedup.
Abbreviation cache := (gmap string (Z * ExecutorOutcome)).

Definition unit_separator : string := utf8 [31].
Definition key_of (agent_name input : string) : string :=
  agent_name +:+ unit_separator +:+ input.
Definition key (ctx : ExecutionContext) : string := key_of (ctx_agent_name ctx) (ctx_input ctx).

Section layer.
Context {S : Type} (ttl : Z) (inner : Service S).

(** The entry under the key, if it is still fresh; the clock is read only when
    there is one. *)
Definition fresh (c : cache) (k : string) : prog (option ExecutorOutcome) :=
  match c !! k with
  | Some (at_, hit) =>
      now ← perform EInstant;
      mret (if saturating_sub now at_ <? ttl then Some hit else None)
  | None => mret None
  end.

Definition service : Service (cache * S) :=
  mkService (fun s => poll_ready inner s.2)
    (fun ctx _ => fun s =>
       hit ← fresh s.1 (key ctx);
       match hit with
       | Some outcome => mret (Ok outcome, s)
       | None =>
           '(r, t) ← called inner ctx s.2;
           match r with
           | Ok outcome =>
               now ← perform EInstant;
               mret (Ok outcome, (<[key ctx := (now, outcome)]> s.1, t))
           | Err e => mret (Err e, (s.1, t))
           end
       end).
End layer.
End Dedup.

(** ** The stack of the example *)

Definition stack (executor : Executor) : Service (Z * (Dedup.cache * unit)) :=
  CostCap.service (f64_of_Z 1)
    (Retry.service 3 10
       (Dedup.service (from_millis 30000) (ExecutorService executor))).

Definition stack_state : Z * (Dedup.cache * unit) := (0, (∅, tt)).

(** ** What the layers promise *)

Lemma shallow_clone_same ctx : shallow_clone ctx = ctx.
Proof. by destruct ctx. Qed.

(** The service answers what the executor answers. *)
Lemma executor_service_runs executor ctx :
  oneshot (ExecutorService executor) ctx tt = (r ← executor ctx; mret (r, tt)).
Proof. done. Qed.

Lemma cost_cap_refuses {S} cap (inner : Service S) ctx s s' :
  f64_geb (CostCap.spent_usd s.1) cap = true ->
  call (CostCap.service cap inner) ctx s s'
  = mret (Err (ExecutorError_CostCapExceeded cap (CostCap.spent_usd s.1)), s').
Proof. intros Hc. simpl. by rewrite Hc. Qed.

(** The total is read when [call] is called, not when its future is awaited:
    two futures made before either runs are both admitted, whatever the first
    spends. *)
Lemma cap_is_read_at_the_call {S} cap (inner : Service S) ctx s s' :
  f64_geb (CostCap.spent_usd s.1) cap = false ->
  call (CostCap.service cap inner) ctx s s'
  = ('(r, t) ← called inner ctx s'.2;
     mret (r, (match r with Ok outcome => CostCap.charge s'.1 outcome | Err _ => s'.1 end, t))).
Proof. intros Hc. simpl. by rewrite Hc. Qed.

Lemma transient_spec e :
  Retry.is_transient e = true <->
  (exists m, e = ExecutorError_Llm (LlmError_Network m))
  \/ (exists p h, e = ExecutorError_Llm (LlmError_RateLimited p h)).
Proof.
  destruct e; simpl; try (split; [done|naive_solver]). case_match; naive_solver.
Qed.

(** A fresh entry is the answer and nothing is asked but the time. *)
Lemma dedup_hit {S} ttl (inner : Service S) ctx (c : Dedup.cache) t at_ hit tr r :
  c !! Dedup.key ctx = Some (at_, hit) ->
  steps (called (Dedup.service ttl inner) ctx (c, t)) tr r ->
  (exists now, saturating_sub now at_ < ttl /\ tr = [Call EInstant now] /\ r = (Ok hit, (c, t)))
  \/ (exists now tr', ttl <= saturating_sub now at_ /\ tr = Call EInstant now :: tr'
      /\ exists tr1 o, steps (called inner ctx t) tr1 o /\ exists tr2, tr' = tr1 ++ tr2).
Proof.
  intros Hc. unfold called. simpl. unfold Dedup.fresh. rewrite Hc. simpl.
  intros (now & tr' & -> & Hs). destruct (Z.ltb_spec (saturating_sub now at_) ttl).
  - left. exists now. destruct Hs as [-> ->]. done.
  - right. exists now, tr'. split; [done|]. split; [done|].
    simpl in Hs. apply steps_bind in Hs as (tr1 & tr2 & o & -> & Ho & _). eauto.
Qed.

(** The key is not one of the pair: an agent's cached outcome answers another
    agent whose name and input join to the same text. *)
Lemma dedup_keys_collide a i :
  Dedup.key_of (a +:+ Dedup.unit_separator +:+ i) ""
  = Dedup.key_of a (i +:+ Dedup.unit_separator).
Proof. unfold Dedup.key_of. by rewrite str_app_nil, !str_app_assoc. Qed.

(** A result is stored under its key only, and errors are not stored. *)
Lemma dedup_stores {S} ttl (inner : Service S) ctx (c : Dedup.cache) t tr r c' t' :
  c !! Dedup.key ctx = None ->
  steps (called (Dedup.service ttl inner) ctx (c, t)) tr (r, (c', t')) ->
  match r with
  | Ok o => exists now, c' = <[Dedup.key ctx := (now, o)]> c
  | Err _ => c' = c
  end.
Proof.
  intros Hc. unfold called. simpl. unfold Dedup.fresh. rewrite Hc. simpl.
  intros (tr1 & tr2 & [[o|e] u] & -> & _ & Hs)%steps_bind.
  - destruct Hs as (now & tr3 & -> & -> & [= -> -> ->]). by exists now.
  - destruct Hs as [-> [= -> -> ->]]. done.
Qed.

(** A retry makes at most [max_attempts] attempts, at least one, all but the
    last of which failed transiently; the pauses double from [base]. *)
Definition attempt_of (c : Effects.call) : option run_result :=
  match c with
  | Call e x =>
      match e in eff X return X -> option run_result with
      | EExecute _ _ => fun r => Some r
      | _ => fun _ => None
      end x
  end.
Definition external_executor (id : string) : Executor :=
  fun ctx => perform (EExecute id (ctx_input ctx)).

Fixpoint doubling (base : Z) (n : nat) : list Z :=
  match n with O => [] | Datatypes.S n => base :: doubling (base * 2) n end.

Lemma retry_attempts id ctx more delay tr r u :
  steps (Retry.attempts (ExecutorService (external_executor id)) ctx more delay tt) tr (r, u) ->
  exists failed : list ExecutorError,
    omap attempt_of tr = map Err failed ++ [r]
    /\ pauses tr = doubling delay (length failed)
    /\ Forall (fun e => Retry.is_transient e = true) failed
    /\ (length failed <= more)%nat
    /\ (length failed = more \/ forall e, r = Err e -> Retry.is_transient e = false).
Proof.
  revert delay tr. induction more as [|more IH]; intros delay tr (x & tr1 & -> & Hs); simpl in Hs.
  - assert (tr1 = [] /\ (r, u) = (x, tt)) as [-> [= -> ->]] by (destruct x; exact Hs).
    exists []. split_and!; auto.
  - destruct x as [o|e].
    { destruct Hs as [-> [= -> ->]]. exists []. split_and!; [done..|simpl; lia|by right]. }
    destruct (Retry.is_transient e) eqn:Et; simpl in Hs.
    2: { destruct Hs as [-> [= -> ->]]. exists [].
         split_and!; [done..|simpl; lia|right; naive_solver]. }
    destruct Hs as ([] & tr2 & -> & Hs). unfold Retry.doubled in Hs.
    destruct (_ <=? _); [|by destruct Hs as [[] _]].
    apply IH in Hs as (failed & Ha & Hp & Hall & Hl & Hend). exists (e :: failed). split_and!.
    + cbn. f_equal. exact Ha.
    + change (pauses (Call (EExecute id (ctx_input (shallow_clone ctx))) (Err e)
                        :: Call (ESleep delay) tt :: tr2)) with (delay :: pauses tr2).
      by rewrite Hp.
    + by constructor.
    + simpl. lia.
    + simpl. destruct Hend; [left; lia|by right].
Qed.

(** ** The example: two runs with the same input *)

(** The total counts a cached answer again: the cache is below the cap. *)
Lemma cached_answers_are_charged executor ctx spent c at_ hit tr r :
  f64_geb (CostCap.spent_usd spent) (f64_of_Z 1) = false ->
  c !! Dedup.key ctx = Some (at_, hit) ->
  steps (oneshot (stack executor) ctx (spent, (c, tt))) tr r ->
  exists now tr', tr = Call EInstant now :: tr'
    /\ (saturating_sub now at_ < from_millis 30000 ->
        tr' = [] /\ r = (Ok hit, (CostCap.charge spent hit, (c, tt)))).
Proof.
  unfold stack. generalize (f64_of_Z 1) as cap. generalize (from_millis 30000) as ttl.
  intros ttl cap Hcap Hc Hs. unfold oneshot, called in Hs. simpl in Hs.
  rewrite Hcap in Hs. unfold called in Hs. simpl in Hs. rewrite shallow_clone_same in Hs.
  unfold Dedup.fresh in Hs. rewrite Hc in Hs. simpl in Hs.
  destruct Hs as (now & tr' & -> & Hs). exists now, tr'. split; [done|]. intros Hnow.
  rewrite (proj2 (Z.ltb_lt _ _) Hnow) in Hs. exact Hs.
Qed.
