(* ===== verification/ToolsFs.v ===== *)
(** * The file tools ([plugins/pg-synapse-tools-fs/src/lib.rs])

    [read_file], [write_file], [edit_file], [list_files] and [grep] over a
    sandbox, and the plugin that registers them.  A tool is a function of the
    file system, which it returns. *)

From S2P Require Import Prelude.
From S2P Require Import RustStr.
From S2P Require Import F64.
From S2P Require Import Json.
From S2P Require Import Errors.
From S2P Require Import Types.
From S2P Require Import StrSlice.
From S2P Require Import ToolInput.
From S2P Require Import Fs.

(** ** The sandbox *)

Section sandbox.
Context `{DeriveLib, FsLib}.

(** The root is canonicalised when the sandbox is made. *)
Record FsSandbox := mkFsSandbox { root : path }.

Definition FsSandbox_new (s : file_system) (p : path) : result FsSandbox io_error :=
  match canonicalize s p with Ok q => Ok (mkFsSandbox q) | Err e => Err e end.

(** [canonicalize_existing_prefix]: [n] components are left, the others are
    the suffix.  The root of the file system is a component of its own, the
    only one left when [n] is zero. *)
Fixpoint existing_prefix (s : file_system) (comps : path) (n : nat) : result path io_error :=
  if exists_path s (take n comps) then
    match canonicalize s (take n comps) with
    | Ok q => Ok (q ++ drop n comps)
    | Err e => Err e
    end
  else match n with O => Err NotFound | S n => existing_prefix s comps n end.

Definition canonicalize_existing_prefix (s : file_system) (p : path) : result path io_error :=
  existing_prefix s (components p) (length (components p)).

Definition resolve (sb : FsSandbox) (s : file_system) (rel tool : string)
  : result path ToolError :=
  let rel := trim rel in
  if starts_with rel "/" || starts_with rel "\" then
    Err (ToolError_InvalidInput tool
           "absolute paths are not allowed; provide a path relative to the sandbox root")
  else if existsb is_parent_dir (components (segments rel)) then
    Err (ToolError_InvalidInput tool "path escapes sandbox root (.. component detected)")
  else
    let joined := root sb ++ segments rel in
    match canonicalize_existing_prefix s joined with
    | Err e => Err (ToolError_InvalidInput tool ("path resolution failed: " +:+ io_text e))
    | Ok canon =>
        if negb (path_starts_with (root sb) canon)
        then Err (ToolError_InvalidInput tool "path escapes sandbox root")
        else Ok joined
    end.

(** ** Arguments *)

Definition PATH_NAMES : list string :=
  ["path"; "file"; "filename"; "filepath"; "file_path"; "filePath"].
Definition CONTENT_NAMES : list string :=
  ["content"; "text"; "data"; "body"; "file_content"; "contents"].
Definition OLD_NAMES : list string := ["old"; "old_string"; "old_str"; "search"; "find"; "from"].
Definition NEW_NAMES : list string :=
  ["new"; "new_string"; "new_str"; "replace"; "replacement"; "to"].
Definition DIR_NAMES : list string :=
  ["dir"; "directory"; "folder"; "dir_path"; "dirpath"; "path"].
Definition PATTERN_NAMES : list string := ["pattern"; "query"; "search"; "regex"; "q"; "text"].

Definition read_file_input (v : json) : option string :=
  fs ← aliased_fields [PATH_NAMES] v;
  match fs with [p] => string_field p | _ => None end.

Definition write_file_input (v : json) : option (string * string) :=
  fs ← aliased_fields [PATH_NAMES; CONTENT_NAMES] v;
  match fs with
  | [p; c] => p ← string_field p; c ← string_field c; Some (p, c)
  | _ => None
  end.

Definition edit_file_input (v : json) : option (string * string * string) :=
  fs ← aliased_fields [PATH_NAMES; OLD_NAMES; NEW_NAMES] v;
  match fs with
  | [p; o; n] => p ← string_field p; o ← string_field o; n ← string_field n; Some (p, o, n)
  | _ => None
  end.

Definition list_files_input (v : json) : option string :=
  fs ← aliased_fields [DIR_NAMES] v;
  match fs with [d] => string_or "." d | _ => None end.

Definition grep_input (v : json) : option (string * string) :=
  fs ← aliased_fields [PATTERN_NAMES; PATH_NAMES] v;
  match fs with
  | [q; p] => q ← string_field q; p ← string_or "." p; Some (q, p)
  | _ => None
  end.

Definition coerce_string_to_field (input : json) (field : string) : json :=
  match input with JString s => json_object [(field, JString s)] | other => other end.

(** ** The tools *)

Definition MAX_FILE_BYTES : Z := 1024 * 1024.
Definition GREP_MAX_MATCHES : nat := 200.

Definition failed {A} (tool reason : string) : result A ToolError :=
  Err (ToolError_Execution tool reason).

Definition read_file_at (s : file_system) (arg : string) (p : path) : result ToolOutput ToolError :=
  if negb (exists_path s p) then failed "read_file" ("file not found: " +:+ trim arg)
  else if negb (is_file s p) then failed "read_file" ("not a file: " +:+ trim arg)
  else
    match metadata s p with
    | Some (_, File content) =>
        if MAX_FILE_BYTES <? str_len content then
          failed "read_file" ("file is " +:+ show (str_len content)
                                +:+ " bytes, over the 1 MiB limit")
        else
          match read_to_string s p with
          | Ok text => Ok (OutText text)
          | Err e => failed "read_file" ("read failed: " +:+ io_text e)
          end
    | _ => failed "read_file" ("stat failed: " +:+ io_text NotFound)
    end.

Definition read_file (sb : FsSandbox) (s : file_system) (input : json)
  : result ToolOutput ToolError * file_system :=
  ((arg <-? parse_input "read_file" read_file_input input;;
    p <-? resolve sb s (trim arg) "read_file";;
    read_file_at s arg p)%syn, s).

Definition write_file_at (s : file_system) (content : string) (p : path)
  : result ToolOutput ToolError * file_system :=
  match create_dir_all s (parent (components p)) with
  | (Err e, s') => (failed "write_file" ("create_dir_all failed: " +:+ io_text e), s')
  | (Ok tt, s') =>
      match write s' p content with
      | (Err e, s'') => (failed "write_file" ("write failed: " +:+ io_text e), s'')
      | (Ok tt, s'') =>
          (Ok (OutJson (json_object [("bytes_written", JNumber (PosInt (str_len content)))])), s'')
      end
  end.

Definition write_file (sb : FsSandbox) (s : file_system) (input : json)
  : result ToolOutput ToolError * file_system :=
  match (a <-? parse_input "write_file" write_file_input input;;
         p <-? resolve sb s (trim a.1) "write_file";;
         Ok (p, a.2))%syn with
  | Err e => (Err e, s)
  | Ok (p, content) => write_file_at s content p
  end.

(** [contents.matches(old).count()]: occurrences that do not overlap; [skip]
    bytes belong to the last one.  An empty pattern matches at every
    character boundary. *)
Fixpoint count_from (pat : string) (skip : nat) (s : string) : nat :=
  match s with
  | EmptyString => O
  | String _ s' =>
      match skip with
      | S skip => count_from pat skip s'
      | O =>
          if String.prefix pat s then S (count_from pat (String.length pat - 1) s')
          else count_from pat O s'
      end
  end.

Definition count_matches (pat s : string) : nat :=
  if is_empty pat then S (length (chars s)) else count_from pat O s.

(** [contents.replacen(old, new, 1)] *)
Fixpoint replace_first (old new s : string) : string :=
  if String.prefix old s then new +:+ str_drop (String.length old) s
  else match s with
       | EmptyString => EmptyString
       | String a s' => String a (replace_first old new s')
       end.

Definition edit_file_at (s : file_system) (arg old new : string) (p : path)
  : result ToolOutput ToolError * file_system :=
  if negb (exists_path s p) || negb (is_file s p) then
    (failed "edit_file" ("file not found: " +:+ trim arg), s)
  else
    match read_to_string s p with
    | Err e => (failed "edit_file" ("read failed: " +:+ io_text e), s)
    | Ok contents =>
        let count := count_matches old contents in
        if Nat.eqb count 0 then
          (failed "edit_file"
             "old text not found in file (0 matches); check the exact text to replace", s)
        else if Nat.ltb 1 count then
          (failed "edit_file" ("old text matches " +:+ show (Z.of_nat count)
             +:+ " times; must match exactly once to avoid ambiguous edits"), s)
        else
          match write s p (replace_first old new contents) with
          | (Err e, s') => (failed "edit_file" ("write failed: " +:+ io_text e), s')
          | (Ok tt, s') => (Ok (OutJson (json_object [("replaced", JBool true)])), s')
          end
    end.

Definition edit_file (sb : FsSandbox) (s : file_system) (input : json)
  : result ToolOutput ToolError * file_system :=
  match (a <-? parse_input "edit_file" edit_file_input input;;
         p <-? resolve sb s (trim a.1.1) "edit_file";;
         Ok (a, p))%syn with
  | Err e => (Err e, s)
  | Ok ((arg, old, new), p) => edit_file_at s arg old new p
  end.

Definition list_entry (s : file_system) (q : path) (name : string) : json :=
  json_object [("name", JString name);
               ("is_dir", JBool (entry_is_dir s (q ++ [name])));
               ("size", JNumber (PosInt (entry_size s (q ++ [name]))))].

Definition list_files_at (s : file_system) (arg : string) (p : path) : result ToolOutput ToolError :=
  match read_dir s p with
  | None => failed "list_files" ("not a directory: " +:+ arg)
  | Some (q, names) =>
      Ok (OutJson (json_object [("entries", JArray (map (list_entry s q) names))]))
  end.

Definition list_files (sb : FsSandbox) (s : file_system) (input : json)
  : result ToolOutput ToolError * file_system :=
  let input := coerce_string_to_field input "dir" in
  let input := match input with JNull => json_object [("dir", JString ".")] | i => i end in
  ((dir <-? parse_input "list_files" list_files_input input;;
    p <-? resolve sb s (trim dir) "list_files";;
    list_files_at s (trim dir) p)%syn, s).

(** ** [grep] *)

(** [path.strip_prefix(base)], or the path when it is not below. *)
Definition display_path (base p : path) : string :=
  let b := components base in
  let c := components p in
  let rel := if path_starts_with b c then join "/" (drop (length b) c)
             else "/" +:+ join "/" c in
  if is_empty rel then List.last c "" else rel.

Fixpoint grep_lines (display pattern : string) (i : Z) (lines : list string) (out : list json)
  : list json :=
  match lines with
  | [] => out
  | line :: rest =>
      if Nat.leb GREP_MAX_MATCHES (length out) then out
      else
        grep_lines display pattern (i + 1) rest
          (if contains line pattern then
             out ++ [json_object [("file", JString display);
                                  ("line_no", JNumber (PosInt (i + 1)));
                                  ("line", JString line)]]
           else out)
  end.

Definition grep_file (s : file_system) (base p : path) (pattern : string) (out : list json)
  : list json :=
  match read_to_string s p with
  | Err _ => out
  | Ok contents => grep_lines (display_path base p) pattern 0 (lines contents) out
  end.

(** The recursion into directories, links to directories included. *)
Fixpoint grep_path (s : file_system) (base : path) (pattern : string) (fuel : nat)
    (p : path) (out : list json) : option (list json) :=
  match fuel with
  | O => None
  | S fuel =>
      if Nat.leb GREP_MAX_MATCHES (length out) then Some out
      else if is_file s p then Some (grep_file s base p pattern out)
      else
        match read_dir s p with
        | None => Some out
        | Some (_, names) =>
            (fix go (names : list string) (out : list json) : option (list json) :=
               match names with
               | [] => Some out
               | c :: rest =>
                   if Nat.leb GREP_MAX_MATCHES (length out) then Some out
                   else out' ← grep_path s base pattern fuel (p ++ [c]) out; go rest out'
               end) names out
        end
  end.

(** Links allowed times the longest path, and once more. *)
Definition max_depth (s : file_system) : nat :=
  foldr Nat.max O (map (fun kv => length kv.1) (map_to_list s)).
Definition grep_fuel (s : file_system) : nat := S (S max_links * S (S (max_depth s))).

Definition grep (sb : FsSandbox) (s : file_system) (input : json)
  : option (result ToolOutput ToolError * file_system) :=
  match (a <-? parse_input "grep" grep_input input;;
         p <-? resolve sb s (trim a.2) "grep";;
         Ok (p, trim a.1))%syn with
  | Err e => Some (Err e, s)
  | Ok (p, pattern) =>
      out ← grep_path s p pattern (grep_fuel s) p [];
      Some (Ok (OutJson (json_object [("matches", JArray (take GREP_MAX_MATCHES out))])), s)
  end.

(** ** The tools of the plugin

    A tool over the shared sandbox: its run reads and changes the file system.
    [None] is a search that does not end. *)
Record FsTool := mkFsTool {
  ft_name : string;
  ft_schema : ToolSchema;
  ft_run : FsSandbox -> file_system -> json -> option (result ToolOutput ToolError * file_system) }.

Definition ReadFileTool : FsTool :=
  mkFsTool "read_file" (schema_for "read_file") (fun sb s v => Some (read_file sb s v)).
Definition WriteFileTool : FsTool :=
  mkFsTool "write_file" (schema_for "write_file") (fun sb s v => Some (write_file sb s v)).
Definition EditFileTool : FsTool :=
  mkFsTool "edit_file" (schema_for "edit_file") (fun sb s v => Some (edit_file sb s v)).
Definition ListFilesTool : FsTool :=
  mkFsTool "list_files" (schema_for "list_files") (fun sb s v => Some (list_files sb s v)).
Definition GrepTool : FsTool := mkFsTool "grep" (schema_for "grep") grep.

Record FsToolsPlugin := mkFsToolsPlugin { fp_sandbox : FsSandbox }.

Definition FsToolsPlugin_new (s : file_system) (p : path) : result FsToolsPlugin io_error :=
  (sb <-? FsSandbox_new s p;; Ok (mkFsToolsPlugin sb))%syn.

(** [register]: every tool with the one sandbox, which no other plugin's tools
    share. *)
Definition FsToolsPlugin_register (p : FsToolsPlugin)
    (r : gmap string (FsSandbox * FsTool)) : gmap string (FsSandbox * FsTool) :=
  <["grep" := (fp_sandbox p, GrepTool)]>
    (<["list_files" := (fp_sandbox p, ListFilesTool)]>
      (<["edit_file" := (fp_sandbox p, EditFileTool)]>
        (<["write_file" := (fp_sandbox p, WriteFileTool)]>
          (<["read_file" := (fp_sandbox p, ReadFileTool)]> r)))).

(** A call of a registered file tool. *)
Definition fs_tool_call (r : gmap string (FsSandbox * FsTool)) (s : file_system) (name : string)
    (input : json) : option (result ToolOutput ToolError * file_system) :=
  t ← r !! name; ft_run t.2 t.1 s input.
End sandbox.
