(* ===== verification/ToolsFsSpec.v ===== *)
(** * What the file tools guarantee: lemmas

    How a path resolves, with what the sandbox check implies, and the end of
    the recursion of [grep]. *)

From S2P Require Import Prelude.
From S2P Require Import RustStr.
From S2P Require Import Json.
From S2P Require Import Errors.
From S2P Require Import Types.
From S2P Require Import ToolInput.
From S2P Require Import Fs.
From S2P Require Import ToolsFs.

Section walk.
Context `{FsLib}.
Context (s : file_system).

(** [dots p q]: [p] is [q] without some of its empty and single-dot
    segments. *)
Inductive dots : path -> path -> Prop :=
| dots_nil : dots [] []
| dots_keep c p q : dots p q -> dots (c :: p) (c :: q)
| dots_drop c p q : is_cur_dir c = true -> dots p q -> dots p (c :: q).

Lemma dots_refl p : dots p p.
Proof. induction p; by constructor. Qed.

Lemma dots_app r p q : dots p q -> dots (r ++ p) (r ++ q).
Proof. intros Hd. induction r; simpl; [done|by constructor]. Qed.

Lemma dots_components p : dots (components p) p.
Proof.
  induction p as [|c p IH]; simpl; [by constructor|].
  destruct (is_cur_dir c) eqn:E; simpl; by constructor.
Qed.

Lemma dots_of_nil p : dots p [] -> p = [].
Proof. by inversion 1. Qed.

Lemma walk_dots l cur p q r l' :
  dots p q -> walk s true l cur q = Found r l' -> walk s true l cur p = Found r l'.
Proof.
  revert cur p q r l'. induction l as [|l IHl]; intros cur p q r l' Hd; revert cur;
    induction Hd as [|c p q Hd IH|c p q Ec Hd IH]; intros cur; simpl; auto.
  - destruct (is_cur_dir c); [apply IH|]. destruct (is_parent_dir c); [apply IH|].
    destruct (s !! (cur ++ [c])) as [[|t|t]|]; [apply IH| |done|by destruct q].
    destruct q; [|done]. by apply dots_of_nil in Hd as ->.
  - rewrite Ec. apply IH.
  - destruct (is_cur_dir c); [apply IH|]. destruct (is_parent_dir c); [apply IH|].
    destruct (s !! (cur ++ [c])) as [[|t|t]|]; [apply IH| | |by destruct q].
    + destruct q; [|done]. by apply dots_of_nil in Hd as ->.
    + apply IHl. by apply dots_app.
  - rewrite Ec. apply IH.
Qed.

Lemma walk_links f l cur p q l' : walk s f l cur p = Found q l' -> (l' <= l)%nat.
Proof.
  revert cur p. induction l as [|l IHl]; intros cur p; revert cur;
    (induction p as [|c p IH]; intros cur; simpl; [intros [= -> ->]; lia|]);
    (destruct (is_cur_dir c); [apply IH|]); (destruct (is_parent_dir c); [apply IH|]);
    (destruct (s !! (cur ++ [c])) as [[|t|t]|];
      [apply IH|destruct p; [intros [= _ ->]; lia|done]| |by destruct p]).
  - destruct (negb f && _); [intros [= _ ->]; lia|done].
  - destruct (negb f && _); [intros [= _ ->]; lia|]. intros Hw%IHl. lia.
Qed.

(** Going on from a directory that was reached. *)
Lemma walk_app l cur p p' q l' :
  walk s true l cur p = Found q l' -> node_at s q = Some Dir ->
  walk s true l cur (p ++ p') = walk s true l' q p'.
Proof.
  intros Hw Hq. revert cur p Hw. induction l as [|l IHl]; intros cur p; revert cur;
    (induction p as [|c p IH]; intros cur; simpl; [by intros [= <- <-]|]);
    (destruct (is_cur_dir c); [apply IH|]); (destruct (is_parent_dir c); [apply IH|]);
    (destruct (s !! (cur ++ [c])) as [[|t|t]|] eqn:E;
      [apply IH|destruct p; [|done]; intros [= <- <-]; destruct cur; simpl in *; congruence
      | |by destruct p]).
  - done.
  - intros Hw. rewrite app_assoc. by apply IHl.
Qed.
End walk.

Section sandbox.
Context `{DeriveLib, FsLib}.

(** What the sandbox accepts lies below the root, if it exists. *)
Lemma resolve_inside sb s rel tool p q n :
  resolve sb s rel tool = Ok p -> metadata s p = Some (q, n) ->
  path_starts_with (root sb) q = true.
Proof.
  unfold resolve, metadata. intros Hr Hm.
  destruct (_ || _); [done|]. destruct (existsb _ _); [done|].
  destruct (canonicalize_existing_prefix s _) as [canon|] eqn:Ec; [|done].
  destruct (path_starts_with (root sb) canon) eqn:Ep; [|done]. injection Hr as <-.
  destruct (resolve_path s _) as [q' l| |] eqn:Ew; [|done..].
  destruct (node_at s q') as [n'|] eqn:En; [|done]. injection Hm as -> ->.
  apply (walk_dots s _ _ _ _ _ _ (dots_components _)) in Ew.
  set (comps := components _) in *. change (resolve_path s comps = Found q l) in Ew.
  unfold canonicalize_existing_prefix in Ec. fold comps in Ec.
  assert (He : exists_path s comps = true).
  { unfold exists_path, metadata. rewrite Ew, En. by apply bool_decide_eq_true. }
  destruct (length comps) as [|k] eqn:El; cbn [existing_prefix] in Ec;
    rewrite take_ge, drop_ge in Ec by lia; rewrite He in Ec; unfold canonicalize in Ec;
    rewrite Ew, app_nil_r in Ec; by injection Ec as <-.
Qed.

Lemma metadata_file s p q c : metadata s p = Some (q, File c) -> s !! q = Some (File c).
Proof.
  unfold metadata. destruct (resolve_path s p) as [q' l| |]; [|done..].
  destruct (node_at s q') eqn:E; [|done]. intros [= -> ->]. by destruct q.
Qed.

Lemma read_to_string_spec s p c :
  read_to_string s p = Ok c -> exists q, metadata s p = Some (q, File c).
Proof.
  unfold read_to_string. destruct (metadata s p) as [[q [|c'|]]|]; try done.
  destruct (utf8_ok c'); [|done]. intros [= ->]. by exists q.
Qed.

Lemma write_existing s p q c c' :
  metadata s p = Some (q, File c) -> write s p c' = (Ok tt, <[q := File c']> s).
Proof.
  unfold metadata, write. destruct (resolve_path s p) as [q' l| |]; [|done..].
  destruct (node_at s q') eqn:E; [|done]. by intros [= -> ->].
Qed.

Lemma read_file_at_spec s arg p text :
  read_file_at s arg p = Ok (OutText text) -> exists q, metadata s p = Some (q, File text).
Proof.
  unfold read_file_at. destruct (exists_path s p); [|done]. destruct (is_file s p); [|done].
  simpl. destruct (metadata s p) as [[q [|c|]]|] eqn:E; try done.
  destruct (_ <? _); [done|]. destruct (read_to_string s p) as [c'|] eqn:Er; [|done].
  intros [= ->]. apply read_to_string_spec in Er as [q' Hq']. rewrite E in Hq'.
  injection Hq' as -> ->. by exists q'.
Qed.

(** An edit replaces the first occurrence, and only when it is the only one. *)
Lemma edit_file_at_spec s arg old new p r s' :
  edit_file_at s arg old new p = (r, s') ->
  s' = s \/
  exists q c, metadata s p = Some (q, File c) /\ count_matches old c = 1%nat /\
              s' = <[q := File (replace_first old new c)]> s.
Proof.
  unfold edit_file_at. destruct (_ || _); [by intros [= _ ->]; left|].
  destruct (read_to_string s p) as [c|] eqn:Er; [|by intros [= _ ->]; left].
  destruct (Nat.eqb_spec (count_matches old c) 0); [by intros [= _ ->]; left|].
  destruct (Nat.ltb_spec 1 (count_matches old c)); [by intros [= _ ->]; left|].
  apply read_to_string_spec in Er as [q Hq]. rewrite (write_existing _ _ _ _ _ Hq).
  intros [= _ <-]. right. exists q, c. split_and!; [done|lia|done].
Qed.

Lemma read_file_inside sb s input text :
  (read_file sb s input).1 = Ok (OutText text) ->
  exists q, path_starts_with (root sb) q = true /\ s !! q = Some (File text).
Proof.
  unfold read_file. intros (arg & _ & (p & Hp & Hr)%result_bind_ok)%result_bind_ok.
  apply read_file_at_spec in Hr as [q Hq]. exists q.
  split; [by eapply resolve_inside|by eapply metadata_file].
Qed.

Lemma edit_file_inside sb s input :
  (edit_file sb s input).2 = s \/
  exists q c old new, path_starts_with (root sb) q = true /\ s !! q = Some (File c) /\
    count_matches old c = 1%nat /\
    (edit_file sb s input).2 = <[q := File (replace_first old new c)]> s.
Proof.
  unfold edit_file. destruct (result_bind _ _) as [[[[arg old] new] p]|e] eqn:E; [|by left].
  apply result_bind_ok in E as (a & _ & (p' & Hp & [= -> ->])%result_bind_ok).
  destruct (edit_file_at s arg old new p) as [r s'] eqn:Ee.
  apply edit_file_at_spec in Ee as [->|(q & c & Hq & Hc & ->)]; [by left|]. right.
  exists q, c, old, new.
  split_and!; [by eapply resolve_inside|by eapply metadata_file|done|done].
Qed.

Lemma list_files_inside sb s input out :
  (list_files sb s input).1 = Ok out ->
  exists q, path_starts_with (root sb) q = true /\ node_at s q = Some Dir /\
    out = OutJson (json_object [("entries", JArray (map (list_entry s q) (children s q)))]).
Proof.
  unfold list_files. intros (d & _ & (p & Hp & Hr)%result_bind_ok)%result_bind_ok.
  unfold list_files_at, read_dir in Hr.
  destruct (metadata s p) as [[q [| |]]|] eqn:E; try done. injection Hr as <-. exists q.
  split_and!; [by eapply resolve_inside| |done].
  unfold metadata in E. destruct (resolve_path s p) as [q' l| |]; [|done..].
  destruct (node_at s q') eqn:En; [|done]. by injection E as -> ->.
Qed.

(** ** The end of [grep] *)

Lemma child_exists s q c :
  c ∈ children s q -> is_Some (s !! (q ++ [c])) /\ is_cur_dir c = false /\ is_parent_dir c = false.
Proof.
  unfold children. intros Hc.
  rewrite (sorting.merge_sort_Permutation name_le) in Hc.
  apply list_elem_of_omap in Hc as ([k n] & Hk%elem_of_map_to_list & Hc).
  unfold child_of in Hc. case_bool_decide as Ep; [|done]. simpl in *.
  destruct (last k) as [d|] eqn:El; [|done]. simpl in Hc.
  destruct (is_cur_dir d) eqn:E1; [done|]. destruct (is_parent_dir d) eqn:E2; [done|].
  injection Hc as ->. apply last_Some in El as [k' ->].
  unfold parent in Ep. rewrite removelast_last in Ep. subst. split; [|done]. by exists n.
Qed.

Lemma max_depth_spec s q : is_Some (s !! q) -> (length q <= max_depth s)%nat.
Proof.
  intros [n Hn]. unfold max_depth. apply elem_of_map_to_list in Hn.
  induction (map_to_list s) as [|kv l IH]; [by inversion Hn|]. simpl.
  apply elem_of_cons in Hn as [<-|Hn]; simpl; [lia|]. specialize (IH Hn). lia.
Qed.

Lemma read_dir_spec s p q names :
  read_dir s p = Some (q, names) ->
  names = children s q /\ node_at s q = Some Dir /\ exists l, resolve_path s p = Found q l.
Proof.
  unfold read_dir, metadata. destruct (resolve_path s p) as [q' l| |]; [|done..].
  destruct (node_at s q') as [[| |]|] eqn:E; try done. intros [= -> <-]. eauto.
Qed.

(** What is left before the kernel gives up: links, and levels below. *)
Definition grep_measure (s : file_system) (q : path) (l : nat) : nat :=
  (l * S (S (max_depth s)) + (S (max_depth s) - length q))%nat.

Lemma grep_measure_child s p q l c q' l' :
  resolve_path s p = Found q l -> node_at s q = Some Dir -> c ∈ children s q ->
  resolve_path s (p ++ [c]) = Found q' l' -> node_at s q' = Some Dir ->
  (grep_measure s q' l' < grep_measure s q l)%nat.
Proof.
  intros Hp Hq Hc Hp' Hq'. apply child_exists in Hc as ([n Hn] & E1 & E2).
  unfold resolve_path in *. rewrite (walk_app s _ _ _ _ _ _ Hp Hq) in Hp'.
  pose proof (max_depth_spec s (q ++ [c]) ltac:(by exists n)) as Hlen.
  rewrite length_app in Hlen. simpl in Hlen. unfold grep_measure.
  destruct l as [|l]; simpl in Hp'; rewrite E1, E2, Hn in Hp'; destruct n; simpl in Hp';
    try done; try (injection Hp' as <- <-; rewrite length_app; simpl; lia).
  apply walk_links in Hp'. nia.
Qed.

Lemma grep_path_some s base pattern fuel p out :
  (forall q l, resolve_path s p = Found q l -> node_at s q = Some Dir ->
               (grep_measure s q l < fuel)%nat) ->
  (0 < fuel)%nat ->
  is_Some (grep_path s base pattern fuel p out).
Proof.
  revert p out. induction fuel as [|fuel IH]; intros p out Hm Hf; [lia|]. cbn [grep_path].
  destruct (Nat.leb _ _); [done|]. destruct (is_file s p); [done|].
  destruct (read_dir s p) as [[q names]|] eqn:Er; [|done].
  apply read_dir_spec in Er as (-> & Hd & l & Hp). specialize (Hm _ _ Hp Hd).
  assert (Hsub : forall c, c ∈ children s q ->
            forall out, is_Some (grep_path s base pattern fuel (p ++ [c]) out)).
  { intros c Hc out'. apply IH.
    - intros q' l' Hp' Hd'. pose proof (grep_measure_child _ _ _ _ _ _ _ Hp Hd Hc Hp' Hd'). lia.
    - apply child_exists in Hc as [Hc _]. apply max_depth_spec in Hc.
      rewrite length_app in Hc. simpl in Hc. unfold grep_measure in Hm. lia. }
  clear Hm Hf IH. revert out Hsub. induction (children s q) as [|c names IHn]; intros out Hsub;
    [done|]. destruct (Nat.leb _ _); [done|].
  destruct (Hsub c ltac:(set_solver) out) as [out' ->]. cbn [mbind option_bind]. apply IHn. set_solver.
Qed.

Lemma grep_returns sb s input : is_Some (grep sb s input).
Proof.
  unfold grep. destruct (result_bind _ _) as [[p pattern]|e]; [|done].
  destruct (grep_path_some s p pattern (grep_fuel s) p []) as [out ->]; [| |done].
  - intros q l Hw _. apply walk_links in Hw. unfold grep_measure, grep_fuel. nia.
  - unfold grep_fuel. lia.
Qed.
End sandbox.
