(* ===== verification/Compaction.v ===== *)
(** * The default compactor ([plugins/pg-synapse-compaction/src/lib.rs])

    [DefaultCompressor] keeps the system prompt and the newest messages that
    fit the token target, and renders the others into a digest. *)

From stdpp Require Import sorting.
From S2P Require Import Prelude.
From S2P Require Import RustStr.
From S2P Require Import F64.
From S2P Require Import Json.
From S2P Require Import Errors.
From S2P Require Import Types.
From S2P Require Import Effects.
From S2P Require Import HarnessText.
From S2P Require Import Traits.
From S2P Require Import LoopHarness.
From S2P Require Import Layers.

Definition DIGEST_SNIPPET_CHARS : nat := 200.

(** [n.div_ceil(4)] *)
Definition div_ceil (n d : Z) : Z := (n + (d - 1)) / d.

Definition estimate_tokens (s : string) : Z := wrap32 (Z.max (div_ceil (chars_count s) 4) 1).

Section compaction.
Context `{Printers}.

Definition message_text (m : Message) : string :=
  let content := match msg_content m with
                 | Some c => if is_empty c then [] else [c] | None => [] end in
  let name := option_list ((fun n => "tool=" +:+ n) <$> msg_tool_name m) in
  let input := option_list ((fun v => "input=" +:+ json_to_string v) <$> msg_tool_input m) in
  let output := option_list ((fun v => "output=" +:+ json_to_string v) <$> msg_tool_output m) in
  join " " (content ++ name ++ input ++ output).

Definition role_str (r : Role) : string :=
  match r with
  | System => "system" | User => "user" | Assistant => "assistant" | Tool => "tool"
  end.

Definition truncate_chars (s : string) (max : nat) : string :=
  if chars_count s <=? Z.of_nat max then s else take_chars max s +:+ "...".

Definition message_cost (m : Message) : Z := estimate_tokens (message_text m).

(** [per_msg[i]]; every index used is in range. *)
Definition cost_at (per_msg : list Z) (i : nat) : Z := default 0 (per_msg !! i).

(** The walk over [(0..i).rev()] with the running total and [kept_recent]. *)
Fixpoint keep_recent (per_msg : list Z) (system_idx : option nat) (target : Z)
    (i : nat) (running : Z) (kept : list nat) : list nat :=
  match i with
  | O => kept
  | S i =>
      if bool_decide (Some i = system_idx) then
        keep_recent per_msg system_idx target i running kept
      else
        let cost := cost_at per_msg i in
        if (target <? saturating_add32 running cost) && negb (bool_decide (kept = [])) then kept
        else
          let running := saturating_add32 running cost in
          let kept := kept ++ [i] in
          if target <=? running then kept
          else keep_recent per_msg system_idx target i running kept
  end.

Definition system_index (messages : list Message) : option nat :=
  match messages with
  | m :: _ => if bool_decide (msg_role m = System) then Some O else None
  | [] => None
  end.

(** [iter().sum::<u32>()] *)
Definition sum_u32 (l : list Z) : Z := fold_left (fun a x => wrap32 (a + x)) l 0.

Definition digest_line (messages : list Message) (i : Z) : string :=
  match messages !! Z.to_nat i with
  | Some m => "- " +:+ role_str (msg_role m) +:+ ": "
                +:+ truncate_chars (message_text m) DIGEST_SNIPPET_CHARS
  | None => ""
  end.

Definition digest (messages : list Message) (collapsed : list Z) : string :=
  join newline
    (("[compacted " +:+ show (Z.of_nat (length collapsed)) +:+ " earlier message(s)]")
     :: map (digest_line messages) collapsed).

Definition kept_indices (messages : list Message) (target : Z) : list nat :=
  let per_msg := map message_cost messages in
  let system_idx := system_index messages in
  let system_cost := match system_idx with Some i => cost_at per_msg i | None => 0 end in
  merge_sort Nat.le (keep_recent per_msg system_idx target (length messages) system_cost []).

Definition collapsed_of (messages : list Message) (kept_recent : list nat) : list Z :=
  let kept := kept_recent ++ option_list (system_index messages) in
  map (fun i => wrap32 (Z.of_nat i))
    (List.filter (fun i => negb (bool_decide (i ∈ kept))) (seq 0 (length messages))).

Definition default_compress (messages : list Message) (budget : CompressionBudget)
  : result Compressed CompressionError :=
  match messages with
  | [] => Ok Compressed_default
  | _ =>
      let per_msg := map message_cost messages in
      let system_cost :=
        match system_index messages with Some i => cost_at per_msg i | None => 0 end in
      let kept_recent := kept_indices messages (target_tokens budget) in
      let collapsed := collapsed_of messages kept_recent in
      match collapsed with
      | [] => Ok Compressed_default
      | _ =>
          let text := digest messages collapsed in
          let retained_tokens :=
            saturating_add32
              (saturating_add32 system_cost (sum_u32 (map (cost_at per_msg) kept_recent)))
              (estimate_tokens text) in
          if hard_limit_tokens budget <? retained_tokens then
            Err (CompressionError_BudgetTooSmall retained_tokens (hard_limit_tokens budget))
          else Ok (mkCompressed text collapsed)
      end
  end.

Definition DefaultCompressor : Compressor :=
  {| compress := fun messages budget => mret (default_compress messages budget) |}.
End compaction.

(** ** Lemmas *)

(** The kept indices are the last ones, newest first: [n-1, n-2, ..., hi]. *)
Definition newest (n hi : nat) : list nat := reverse (seq hi (n - hi)).

Lemma newest_snoc n i : (i < n)%nat -> newest n (S i) ++ [i] = newest n i.
Proof.
  intros Hi. unfold newest. replace (n - i)%nat with (S (n - S i)) by lia. simpl.
  by rewrite reverse_cons.
Qed.

Lemma newest_nil n : newest n n = [].
Proof. unfold newest. by rewrite Nat.sub_diag. Qed.

Definition first_index (system_idx : option nat) : nat :=
  match system_idx with Some _ => 1%nat | None => O end.

Lemma keep_recent_newest per_msg system_idx target n i running :
  (system_idx = None \/ system_idx = Some O) -> (i <= n)%nat ->
  (first_index system_idx <= i)%nat ->
  exists hi, (first_index system_idx <= hi <= i)%nat /\
    keep_recent per_msg system_idx target i running (newest n i) = newest n hi /\
    (i = n -> (first_index system_idx < n)%nat -> (hi < n)%nat).
Proof.
  intros Hsys. revert running. induction i as [|i IH]; intros running Hi Hf; simpl.
  - exists O. split_and!; auto with lia.
  - destruct (decide (Some i = system_idx)) as [E|E].
    + rewrite bool_decide_eq_true_2 by done. assert (i = O) as -> by (destruct Hsys; congruence).
      simpl. exists 1%nat. subst. simpl. split_and!; auto with lia.
    + rewrite bool_decide_eq_false_2 by done.
      assert (Hf' : (first_index system_idx <= i)%nat).
      { destruct Hsys as [-> | ->]; simpl; [lia|]. destruct i; [done|lia]. }
      destruct (_ && _) eqn:Eb.
      { exists (S i). split; [lia|]. split; [done|]. intros Hin _. exfalso.
        apply andb_true_iff in Eb as [_ Eb]. by rewrite <- Hin, newest_nil in Eb. }
      rewrite newest_snoc by lia. destruct (target <=? _).
      { exists i. split_and!; auto with lia. }
      destruct (IH (saturating_add32 running (cost_at per_msg i))) as (hi & ? & -> & _); [lia..|].
      exists hi. split; [lia|]. split; [done|]. lia.
Qed.

Lemma merge_sort_newest n hi : merge_sort Nat.le (newest n hi) = seq hi (n - hi).
Proof.
  apply (StronglySorted_unique Nat.le).
  - apply StronglySorted_merge_sort; apply _.
  - generalize (n - hi)%nat. intros k. revert hi. induction k as [|k IH]; intros hi; simpl;
      constructor; [apply IH|]. apply Forall_forall. intros x Hx.
    apply elem_of_seq in Hx. lia.
  - unfold newest. by rewrite merge_sort_Permutation, reverse_Permutation.
Qed.

Section spec.
Context `{Printers}.

Lemma system_index_cases messages :
  system_index messages = None \/ system_index messages = Some O.
Proof. destruct messages as [|m ms]; simpl; [auto|]. destruct (bool_decide _); auto. Qed.

(** The first collapsible index: after the leading system message. *)
Definition digest_start (messages : list Message) : nat := first_index (system_index messages).

Lemma digest_start_le messages : messages <> [] -> (digest_start messages <= length messages)%nat.
Proof.
  unfold digest_start. destruct (system_index_cases messages) as [-> | ->]; simpl; [lia|].
  destruct messages; simpl; [done|lia].
Qed.

Lemma kept_indices_suffix messages target :
  messages <> [] ->
  exists hi, (digest_start messages <= hi <= length messages)%nat /\
    kept_indices messages target = seq hi (length messages - hi) /\
    ((digest_start messages < length messages)%nat -> (hi < length messages)%nat).
Proof.
  intros Hne. unfold kept_indices.
  pose proof (keep_recent_newest (map message_cost messages) (system_index messages) target
    (length messages) (length messages)
    (match system_index messages with
     | Some i => cost_at (map message_cost messages) i | None => 0 end)
    (system_index_cases messages)) as Hk.
  destruct Hk as (hi & Hr & Hk & Hlt); [done|by apply digest_start_le|].
  rewrite newest_nil in Hk. exists hi. rewrite Hk, merge_sort_newest.
  split; [exact Hr|]. split; [done|]. intros ?. by apply Hlt.
Qed.

Lemma filter_seq_none (f : nat -> bool) lo n :
  (forall i, (lo <= i < lo + n)%nat -> f i = false) -> List.filter f (seq lo n) = [].
Proof.
  revert lo. induction n as [|n IH]; intros lo Hf; simpl; [done|].
  rewrite (Hf lo) by lia. apply IH. intros i ?. apply Hf. lia.
Qed.

Lemma filter_seq_all (f : nat -> bool) lo n :
  (forall i, (lo <= i < lo + n)%nat -> f i = true) -> List.filter f (seq lo n) = seq lo n.
Proof.
  revert lo. induction n as [|n IH]; intros lo Hf; simpl; [done|].
  rewrite (Hf lo) by lia. f_equal. apply IH. intros i ?. apply Hf. lia.
Qed.

(** What is collapsed is one block, right after the system message. *)
Lemma collapsed_block messages hi :
  Z.of_nat (length messages) <= U32_MAX + 1 ->
  (digest_start messages <= hi <= length messages)%nat ->
  collapsed_of messages (seq hi (length messages - hi)) =
  seqZ (Z.of_nat (digest_start messages)) (Z.of_nat hi - Z.of_nat (digest_start messages)).
Proof.
  intros Hlen Hhi. unfold collapsed_of, digest_start in *.
  set (lo := first_index (system_index messages)) in *.
  assert (Hs : seq 0 (length messages) =
    seq 0 lo ++ seq lo (hi - lo) ++ seq hi (length messages - hi)).
  { pose proof (seq_app lo (length messages - lo) 0) as H1.
    pose proof (seq_app (hi - lo) (length messages - hi) lo) as H2.
    replace (lo + (length messages - lo))%nat with (length messages) in H1 by lia.
    replace (hi - lo + (length messages - hi))%nat with (length messages - lo)%nat in H2 by lia.
    replace (lo + (hi - lo))%nat with hi in H2 by lia. rewrite H1. simpl. by rewrite H2. }
  rewrite Hs, !List.filter_app.
  rewrite (filter_seq_none _ 0 lo), (filter_seq_all _ lo), (filter_seq_none _ hi); simpl.
  - rewrite app_nil_r. apply list_eq. intros i.
    rewrite list_lookup_fmap. destruct (decide (i < hi - lo)%nat).
    + rewrite (lookup_seq_lt lo) by lia. rewrite lookup_seqZ_lt by lia. simpl. f_equal.
      rewrite wrap32_small; [lia|ulia].
    + rewrite (lookup_seq_ge lo) by lia. by rewrite lookup_seqZ_ge by lia.
  - intros i Hi. rewrite bool_decide_eq_true_2; [done|]. apply elem_of_app. left.
    apply elem_of_seq. lia.
  - intros i Hi. rewrite bool_decide_eq_false_2; [done|]. rewrite elem_of_app, elem_of_seq.
    intros [?|Hsys]; [lia|]. unfold lo in Hi.
    destruct (system_index_cases messages) as [E|E]; rewrite E in *; simpl in *; set_solver by lia.
  - intros i Hi. rewrite bool_decide_eq_true_2; [done|]. apply elem_of_app. right.
    unfold lo in Hi. destruct (system_index_cases messages) as [E|E]; rewrite E in *; simpl in *;
      [lia|]. assert (i = O) as -> by lia. set_solver.
Qed.
End spec.

(** ** The history after a compaction *)

Section after.
Context `{Printers}.

(** A block of collapsed indices removes a block of messages. *)
Lemma kept_from_block lo n ms :
  kept_from (seqZ lo (Z.of_nat n)) lo ms = drop n ms.
Proof.
  assert (Hgen : forall k i ms, lo <= i -> i + Z.of_nat k = lo + Z.of_nat n ->
    kept_from (seqZ lo (Z.of_nat n)) i ms = drop k ms).
  { induction k as [|k IH]; intros i l Hi Hk.
    - rewrite kept_from_all; [done|]. intros j Hj. rewrite elem_of_seqZ. lia.
    - destruct l as [|m l]; simpl; [done|].
      rewrite bool_decide_eq_true_2 by (apply elem_of_seqZ; lia). apply IH; lia. }
  by apply Hgen.
Qed.

Lemma list_min_seqZ lo n : 0 < n -> list_min (seqZ lo n) = Some lo.
Proof.
  intros Hn. destruct (list_min (seqZ lo n)) as [m|] eqn:E.
  - pose proof (list_min_in _ _ E) as Hin. apply elem_of_seqZ in Hin.
    pose proof (list_min_le _ _ lo E ltac:(apply elem_of_seqZ; lia)). f_equal. lia.
  - apply list_min_none in E. pose proof (length_seqZ lo n) as Hl. rewrite E in Hl. simpl in Hl. lia.
Qed.

Lemma rebuilt_block messages text lo hi t :
  (lo < hi)%nat -> messages !! lo = Some t ->
  rebuilt messages text (seqZ (Z.of_nat lo) (Z.of_nat hi - Z.of_nat lo)) =
  take lo messages ++ digest_of t text :: drop hi messages.
Proof.
  intros Hlt Ht. unfold rebuilt. rewrite list_min_seqZ by lia. rewrite Nat2Z.id, Ht.
  replace (Z.of_nat hi - Z.of_nat lo) with (Z.of_nat (hi - lo)) by lia.
  rewrite kept_from_block, drop_drop. do 3 f_equal. lia.
Qed.

(** What a successful compaction that collapses something has computed. *)
Lemma default_compress_ok messages budget c :
  Z.of_nat (length messages) <= U32_MAX + 1 ->
  default_compress messages budget = Ok c -> collapsed_indices c <> [] ->
  exists hi t, let lo := digest_start messages in
    (lo < hi < length messages)%nat /\ messages !! lo = Some t /\
    collapsed_indices c = seqZ (Z.of_nat lo) (Z.of_nat hi - Z.of_nat lo) /\
    summary c = digest messages (collapsed_indices c) /\
    saturating_add32
      (saturating_add32
         (match system_index messages with
          | Some i => cost_at (map message_cost messages) i | None => 0 end)
         (sum_u32 (map (cost_at (map message_cost messages)) (seq hi (length messages - hi)))))
      (estimate_tokens (summary c)) <= hard_limit_tokens budget.
Proof.
  intros Hlen Hc Hne. unfold default_compress in Hc.
  assert (Hms : messages <> []) by (intros ->; by injection Hc as <-).
  destruct (kept_indices_suffix messages (target_tokens budget) Hms) as (hi & Hhi & Hk & Hlt).
  destruct messages as [|m ms] eqn:Em; [done|]. rewrite <- Em in *. rewrite Hk in Hc.
  rewrite (collapsed_block messages hi) in Hc by (try done; lia).
  destruct (seqZ _ _) as [|x l] eqn:Es.
  { injection Hc as <-. done. }
  rewrite <- Es in *. clear x l Es.
  match type of Hc with (if ?b then _ else _) = _ => destruct b eqn:Eb; [done|] end.
  injection Hc as <-. simpl in *. apply Z.ltb_ge in Eb.
  assert (Hlo : (digest_start messages < hi)%nat).
  { destruct (decide (digest_start messages < hi)%nat); [done|].
    exfalso. apply Hne. apply seqZ_nil. lia. }
  destruct (lookup_lt_is_Some_2 messages (digest_start messages)) as [t Ht]; [lia|].
  exists hi, t. specialize (Hlt ltac:(lia)). split_and!; try done; lia.
Qed.

Definition total_cost (ms : list Message) : Z := foldr Z.add 0 (map message_cost ms).

Lemma estimate_tokens_range s : in_u32 (estimate_tokens s).
Proof. apply wrap32_range. Qed.

Lemma message_cost_nonneg m : 0 <= message_cost m.
Proof. apply estimate_tokens_range. Qed.

Lemma total_cost_nonneg ms : 0 <= total_cost ms.
Proof.
  unfold total_cost. induction ms as [|m ms IH]; simpl; [done|].
  pose proof (message_cost_nonneg m). lia.
Qed.

Lemma total_cost_app l1 l2 : total_cost (l1 ++ l2) = total_cost l1 + total_cost l2.
Proof. unfold total_cost. induction l1 as [|m l IH]; simpl; [done|]. lia. Qed.

Lemma total_cost_cons m l : total_cost (m :: l) = message_cost m + total_cost l.
Proof. done. Qed.

Lemma sum_u32_exact l a :
  0 <= a -> Forall (fun x => 0 <= x) l -> a + foldr Z.add 0 l <= U32_MAX ->
  fold_left (fun a x => wrap32 (a + x)) l a = a + foldr Z.add 0 l.
Proof.
  intros Ha Hl. revert a Ha. induction Hl as [|x l Hx Hl IH]; intros a Ha Hle; simpl in *; [lia|].
  assert (0 <= foldr Z.add 0 l) by (clear -Hl; induction Hl; simpl; lia).
  rewrite wrap32_small by ulia. rewrite IH; lia.
Qed.

Lemma costs_of_suffix messages hi :
  map (cost_at (map message_cost messages)) (seq hi (length messages - hi)) =
  map message_cost (drop hi messages).
Proof.
  apply list_eq. intros i. rewrite !list_lookup_fmap, lookup_drop.
  destruct (decide (i < length messages - hi)%nat).
  - rewrite lookup_seq_lt by lia. simpl. unfold cost_at. rewrite list_lookup_fmap.
    destruct (lookup_lt_is_Some_2 messages (hi + i)) as [m Hm]; [lia|]. by rewrite Hm.
  - rewrite lookup_seq_ge by lia. by rewrite lookup_ge_None_2 by lia.
Qed.

Lemma sum_costs_of_suffix messages hi :
  total_cost messages <= U32_MAX ->
  sum_u32 (map (cost_at (map message_cost messages)) (seq hi (length messages - hi))) =
  total_cost (drop hi messages).
Proof.
  intros Hcost. pose proof (total_cost_app (take hi messages) (drop hi messages)) as Happ.
  rewrite take_drop in Happ. pose proof (total_cost_nonneg (take hi messages)).
  rewrite costs_of_suffix. unfold sum_u32. rewrite sum_u32_exact; fold (total_cost (drop hi messages)).
  - lia.
  - lia.
  - apply Forall_fmap, Forall_forall. intros m _. apply message_cost_nonneg.
  - lia.
Qed.

(** A saturated sum below the top of the range is the sum. *)
Lemma saturating_sum_fits a b e limit :
  in_u32 e -> limit < U32_MAX ->
  saturating_add32 (saturating_add32 a b) e <= limit -> a + (e + b) <= limit.
Proof. ulia. Qed.

Lemma take_digest_start messages :
  total_cost (take (digest_start messages) messages) =
  match system_index messages with
  | Some i => cost_at (map message_cost messages) i | None => 0 end.
Proof.
  unfold digest_start. destruct messages as [|m ms]; [done|]. simpl.
  destruct (bool_decide (msg_role m = System)); simpl; [|done].
  unfold total_cost, cost_at. simpl. lia.
Qed.

(** A digest message costs what its text costs. *)
Lemma message_cost_digest t messages collapsed :
  message_cost (digest_of t (digest messages collapsed)) =
  estimate_tokens (digest messages collapsed).
Proof. unfold message_cost, message_text. simpl. unfold digest. by destruct collapsed. Qed.
End after.
