(* ===== verification/Sample.v ===== *)
(** * Sample data

    Concrete instances of the interfaces, an agent context and scripted
    environments, on which the theorems are instantiated and the definitions
    run. *)

From S2P Require Import Prelude.
From S2P Require Import RustStr.
From S2P Require Import F64.
From S2P Require Import Json.
From S2P Require Import Errors.
From S2P Require Import Types.
From S2P Require Import Effects.
From S2P Require Import HarnessText.
From S2P Require Import Traits.
From S2P Require Import LoopHarness.

#[export] Instance sample_unicode : UnicodeTables := {| unicode_lowercase := fun s => s |}.

#[export] Instance sample_printers : Printers :=
  {| fmt_uuid := fun _ => "uuid"; fmt_timestamp := fun _ => "now";
     json_to_string := fun _ => "json" |}.

#[export] Instance sample_hash_order : HashOrder := canonical_hash_order.

Definition sample_caps : ProviderCapabilities :=
  mkProviderCapabilities true false false false None None.

Definition sample_llm : LlmProvider := external_llm "llm" "m" sample_caps.

Definition echo_tool : ToolObj := external_tool "echo" (json_object [("type", JString "object")]).

Definition sample_tools : ToolRegistry := {["echo" := echo_tool]}.

Definition sample_ctx (max_iterations : Z) (progress : option ProgressSink) : ExecutionContext :=
  {| ctx_execution_id := 7; ctx_agent_name := "agent"; ctx_system_prompt := "be helpful";
     ctx_soul := None; ctx_input := "hello"; ctx_executor_name := "conversation";
     ctx_tools := sample_tools; ctx_llm := sample_llm; ctx_judge_llm := None;
     ctx_small_llm := None; ctx_embeddings := None; ctx_memory := None; ctx_compressor := None;
     ctx_max_iterations := max_iterations; ctx_timeout := from_millis 1000;
     ctx_cost_cap_usd := Some (f64_of_Z 10); ctx_caller_role := None; ctx_trace_level := Info;
     ctx_interrupt_check := None; ctx_harness := Harness_default; ctx_progress := progress |}.

Definition usage (tin tout : Z) : Usage := mkUsage tin tout None.

Definition text_reply (t : string) : result CompletionResponse LlmError :=
  Ok (mkCompletionResponse (Some t) [] "stop" (usage 10 3)).

Definition sample_call (id name : string) : ToolCall := mkToolCall id name (json_object []).

Definition call_reply (tcs : list ToolCall) : result CompletionResponse LlmError :=
  Ok (mkCompletionResponse None tcs "tool_calls" (usage 10 3)).

Definition sample_script (llm : list (result CompletionResponse LlmError))
    (tools : list tool_answer) : script :=
  mkScript 0 1000 llm tools [] [] [].

(** The answer of a program run in a scripted environment. *)
Definition answer {A} (p : prog A) (w : script) : option A :=
  (fun r => r.1.1) <$> run script_handler p w ExecutorOutcome_default.
