(* ===== verification/ExecutorProps.v ===== *)
(** * Properties of the executors

    The theorems about [ConversationExecutor], [ReActExecutor] and
    [ReflectionExecutor], each with an instance on a sample agent. *)

From S2P Require Import Prelude.
From S2P Require Import RustStr.
From S2P Require Import F64.
From S2P Require Import Json.
From S2P Require Import Errors.
From S2P Require Import Types.
From S2P Require Import Effects.
From S2P Require Import HarnessText.
From S2P Require Import Traits.
From S2P Require Import LoopHarness.
From S2P Require Import HarnessSpec.
From S2P Require Import Executors.
From S2P Require Import ExecutorSpec.
From S2P Require Import Sample.
#[local] Open Scope synapse_scope.

Definition well_behaved_reflection (ctx : ExecutionContext) : Prop :=
  Surroundings any_env (asks any_state (numbered_request ctx) no_tool) ctx (numbered_request ctx) no_tool.

Section properties.
Context `{UnicodeTables, Printers, HashOrder}.

(** C1: Whenever the conversation or ReAct executor asks the model, the
    transcript it sends is well formed: every tool call the model made is
    answered, call by call and in order, before the next request, and
    message [i] carries sequence number [i] and the id of the run. *)
Theorem requests_well_paired react fuel ctx :
  well_behaved ctx -> u32_cap ctx -> ctx_max_iterations ctx < Z.of_nat fuel ->
  wp any_env
    (asks any_state (fun _ req => well_paired (req_messages req) /\ numbered_log ctx (req_messages req))
          any_tool)
    (loop_executor react fuel ctx) ExecutorOutcome_default (fun _ _ => True).
Proof.
  intros HS Hmax Hfuel. eapply wp_mono; [by apply wp_loop_executor| |done].
  apply asks_mono; [done| |done]. by intros s req (_ & ? & ? & _).
Qed.

(** C2: The loop always returns: with one unit of fuel more than the
    iteration cap it never runs out, whatever the model, the tools and the
    clock do, and the model is asked at most [max_iterations] times. *)
Theorem loop_terminates react fuel ctx :
  well_behaved ctx -> u32_cap ctx -> ctx_max_iterations ctx < Z.of_nat fuel ->
  wp any_env any_call (loop_executor react fuel ctx) ExecutorOutcome_default
    (fun _ r => exists res, r = Some res /\
       forall o, res = Ok o -> llm_requests (out_events o) <= ctx_max_iterations ctx).
Proof.
  intros HS Hmax Hfuel. eapply wp_mono; [by apply wp_loop_executor|done|].
  intros s r (res & -> & Hr). exists res. split; [done|]. by intros o ->; apply Hr.
Qed.

(** C3: A run is reported as completed only with an answer: the output is
    not blank and is the text of the last message, which is the model's.
    A run that hit its iteration cap or its deadline returns no text and
    says so; no other status is ever returned. *)
Theorem completed_means_answered react fuel ctx :
  well_behaved ctx -> u32_cap ctx -> ctx_max_iterations ctx < Z.of_nat fuel ->
  wp any_env any_call (loop_executor react fuel ctx) ExecutorOutcome_default
    (fun _ r => forall o, r = Some (Ok o) -> honest_status o).
Proof.
  intros HS Hmax Hfuel. eapply wp_mono; [by apply wp_loop_executor|done|].
  intros s r (res & -> & Hr) o [= ->]. apply Hr.
Qed.

(** C4: The progress sink mirrors the run: at every model request it holds
    exactly the transcript being sent, and when the run returns an outcome
    it agrees with it on messages, tool calls, events, tokens and cost. *)
Theorem progress_mirrors_run react fuel ctx :
  well_behaved ctx -> u32_cap ctx -> ctx_max_iterations ctx < Z.of_nat fuel ->
  is_Some (ctx_progress ctx) ->
  wp any_env (asks any_state (fun s req => out_messages s = req_messages req) any_tool)
    (loop_executor react fuel ctx) ExecutorOutcome_default
    (fun s r => forall o, r = Some (Ok o) -> sink_matches s o).
Proof.
  intros HS Hmax Hfuel Hprog. eapply wp_mono; [by apply wp_loop_executor| |].
  - apply asks_mono; [done| |done]. intros s req (_ & _ & _ & Hs). by apply Hs.
  - intros s r (res & -> & Hr) o [= ->]. by apply Hr.
Qed.

(** C5: No model request is made once the cost recorded in the progress
    sink has reached the cost cap. *)
Theorem no_request_over_cost_cap react fuel ctx :
  well_behaved ctx -> u32_cap ctx -> ctx_max_iterations ctx < Z.of_nat fuel ->
  is_Some (ctx_progress ctx) ->
  wp any_env (asks any_state (fun s _ => within_cost_cap ctx s) any_tool)
    (loop_executor react fuel ctx) ExecutorOutcome_default (fun _ _ => True).
Proof.
  intros HS Hmax Hfuel Hprog. eapply wp_mono; [by apply wp_loop_executor| |done].
  apply asks_mono; [done| |done]. intros s req (_ & _ & _ & Hs). by apply Hs.
Qed.

(** C6: A tool never ends a run: whatever a tool answers, including an
    error, a panic or an unknown name, the only errors a run can return
    are a host cancellation, the cost cap and a model failure. *)
Theorem tool_failures_are_contained react fuel ctx :
  well_behaved ctx -> u32_cap ctx -> ctx_max_iterations ctx < Z.of_nat fuel ->
  wp any_env any_call (loop_executor react fuel ctx) ExecutorOutcome_default
    (fun _ r => forall e, r = Some (Err e) -> run_error e).
Proof.
  intros HS Hmax Hfuel. eapply wp_mono; [by apply wp_loop_executor|done|].
  by intros s r (res & -> & Hr) e [= ->].
Qed.

(** C7: A call that the model has issued more than twice with the same
    name and arguments is not executed: no tool is asked, and the refusal
    text is appended as the answer to the call. *)
Theorem repeated_call_not_executed ctx tc h s :
  mirrored ctx s h -> 2 < seen_calls (lh_issued_tool_calls h) tc ->
  hwp any_env (asks any_state any_request no_tool) (dispatch_tool_call ctx tc) h s
    (fun h' _ r => is_ok r = true /\ exists why,
       repeated_call_refusal (lh_issued_tool_calls h) tc = Some why /\
       appends ctx (fun m => answers tc m /\ msg_content m = Some why) h h').
Proof.
  intros Hm Hseen. destruct (refusal_some (lh_issued_tool_calls h) tc Hseen) as [why E].
  hlast hwp_dispatch_refused. intros h' s' r (_ & _ & ? & ?). eauto.
Qed.

(** The refusal does not tell calls of this turn from earlier ones: a
    turn that contains three identical calls has none of them executed, not
    even the first, although no result of such a call was ever produced. *)
Lemma identical_batch_never_runs ctx tc h s :
  mirrored ctx s h -> json_wf (tc_args tc) ->
  (exists earlier, lh_issued_tool_calls h = earlier ++ [tc; tc; tc]) ->
  hwp any_env (asks any_state any_request no_tool) (dispatch_all ctx [tc; tc; tc]) h s
    (fun h' _ r => r = Ok tt /\ exists m1 m2 m3,
       lh_messages h' = lh_messages h ++ [m1; m2; m3] /\
       Forall (fun m => answers tc m /\ exists why,
                 msg_content m = Some ("Refused: you have already called `" +:+ why))
         [m1; m2; m3]).
Proof.
  intros Hm Hwf (earlier & Hi).
  assert (Hseen : 2 < seen_calls (lh_issued_tool_calls h) tc).
  { rewrite Hi. by apply seen_calls_batch. }
  eapply hwp_mono; [apply (hwp_dispatch_all_refused ctx any_state any_request no_tool [tc; tc; tc])|].
  - done.
  - by repeat constructor.
  - intros h' s' r (-> & ms & Hms & Hall). split; [done|].
    inversion Hall as [|? m1 ? ? H1' Hall1]; subst.
    inversion Hall1 as [|? m2 ? ? H2' Hall2]; subst.
    inversion Hall2 as [|? m3 ? ? H3' Hall3]; subst. inversion Hall3; subst.
    exists m1, m2, m3. split; [done|]. exact (Forall_cons_2 _ _ _ H1' (Forall_cons_2 _ _ _ H2' (Forall_cons_2 _ _ _ H3' (Forall_nil_2 _)))).
Qed.

(** Reflection makes at most [1 + 2 * max_revisions] model calls, never
    runs a tool, and always ends with one of the three statuses it
    documents, its log numbered and its sink in agreement. *)
Lemma reflection_bounded rounds ctx :
  well_behaved_reflection ctx ->
  wp any_env (asks any_state (numbered_request ctx) no_tool) (reflection_execute rounds ctx)
    ExecutorOutcome_default (fun s r => reflection_post ctx (1 + 2 * Z.of_nat rounds) s r).
Proof.
  intros HS. unfold reflection_execute, harness_new.
  apply wp_bind, wp_bind, wp_perform; [by apply passive_call|]. intros t _. apply wp_ret.
  eapply wp_seq; [by apply (hwp_reflection_body ctx HS rounds); eexists _, _|].
  intros s [h r] Hr. exact Hr.
Qed.
End properties.

(** ** Instances *)

Lemma sample_surroundings n progress (I : _ -> Prop) (P : _ -> _ -> Prop)
    (T : _ -> _ -> _ -> Prop) :
  (forall s r, P s r -> I s) -> (forall s name a, T s name a -> I s) ->
  Surroundings any_env (asks I P T) (sample_ctx n progress) P T.
Proof.
  intros HP HT. split; simpl; try done.
  - by apply external_llm_ok.
  - intros name t. unfold sample_tools. rewrite lookup_singleton_Some.
    intros [<- <-]. by apply external_tool_ok.
Qed.

Lemma sample_well_behaved n progress : well_behaved (sample_ctx n progress).
Proof. by apply sample_surroundings; [intros s r []|]. Qed.

Lemma requests_well_paired_witness :
  wp any_env
    (asks any_state (fun _ req => well_paired (req_messages req) /\
             numbered_log (sample_ctx 3 (Some TheSink)) (req_messages req)) any_tool)
    (loop_executor false 4 (sample_ctx 3 (Some TheSink))) ExecutorOutcome_default
    (fun _ _ => True).
Proof.
  apply (requests_well_paired false 4 (sample_ctx 3 (Some TheSink))).
  - apply sample_well_behaved.
  - unfold u32_cap, U32_MAX; simpl; lia.
  - simpl; lia.
Defined.

Lemma loop_terminates_witness :
  wp any_env any_call (loop_executor true 4 (sample_ctx 3 (Some TheSink)))
    ExecutorOutcome_default
    (fun _ r => exists res, r = Some res /\
       forall o, res = Ok o -> llm_requests (out_events o) <= 3).
Proof.
  apply (loop_terminates true 4 (sample_ctx 3 (Some TheSink))).
  - apply sample_well_behaved.
  - unfold u32_cap, U32_MAX; simpl; lia.
  - simpl; lia.
Defined.

Lemma completed_means_answered_witness :
  wp any_env any_call (loop_executor false 4 (sample_ctx 3 None)) ExecutorOutcome_default
    (fun _ r => forall o, r = Some (Ok o) -> honest_status o).
Proof.
  apply (completed_means_answered false 4 (sample_ctx 3 None)).
  - apply sample_well_behaved.
  - unfold u32_cap, U32_MAX; simpl; lia.
  - simpl; lia.
Defined.

Lemma progress_mirrors_run_witness :
  wp any_env (asks any_state (fun s req => out_messages s = req_messages req) any_tool)
    (loop_executor false 4 (sample_ctx 3 (Some TheSink))) ExecutorOutcome_default
    (fun s r => forall o, r = Some (Ok o) -> sink_matches s o).
Proof.
  apply (progress_mirrors_run false 4 (sample_ctx 3 (Some TheSink))).
  - apply sample_well_behaved.
  - unfold u32_cap, U32_MAX; simpl; lia.
  - simpl; lia.
  - by eexists.
Defined.

Lemma no_request_over_cost_cap_witness :
  wp any_env (asks any_state (fun s _ => within_cost_cap (sample_ctx 3 (Some TheSink)) s) any_tool)
    (loop_executor true 4 (sample_ctx 3 (Some TheSink))) ExecutorOutcome_default
    (fun _ _ => True).
Proof.
  apply (no_request_over_cost_cap true 4 (sample_ctx 3 (Some TheSink))).
  - apply sample_well_behaved.
  - unfold u32_cap, U32_MAX; simpl; lia.
  - simpl; lia.
  - by eexists.
Defined.

Lemma tool_failures_are_contained_witness :
  wp any_env any_call (loop_executor false 4 (sample_ctx 3 None)) ExecutorOutcome_default
    (fun _ r => forall e, r = Some (Err e) -> run_error e).
Proof.
  apply (tool_failures_are_contained false 4 (sample_ctx 3 None)).
  - apply sample_well_behaved.
  - unfold u32_cap, U32_MAX; simpl; lia.
  - simpl; lia.
Defined.

(** A harness whose model has just issued the same call three times. *)
Definition batch_harness : LoopHarness :=
  mkLoopHarness 1 f64_zero 0 0 [] [sample_call "a" "echo"; sample_call "a" "echo"; sample_call "a" "echo"] [] 0 0 None.

Lemma repeated_call_not_executed_witness :
  2 < seen_calls (lh_issued_tool_calls batch_harness) (sample_call "a" "echo") /\
  hwp any_env (asks any_state any_request no_tool)
    (dispatch_tool_call (sample_ctx 3 None) (sample_call "a" "echo")) batch_harness
    ExecutorOutcome_default
    (fun h' _ r => is_ok r = true /\ exists why,
       repeated_call_refusal (lh_issued_tool_calls batch_harness) (sample_call "a" "echo") = Some why /\
       appends (sample_ctx 3 None)
         (fun m => answers (sample_call "a" "echo") m /\ msg_content m = Some why) batch_harness h').
Proof.
  split; [vm_compute; reflexivity|].
  apply (repeated_call_not_executed (sample_ctx 3 None)).
  - by intros [? ?].
  - vm_compute; reflexivity.
Defined.

Lemma identical_batch_never_runs_witness :
  hwp any_env (asks any_state any_request no_tool)
    (dispatch_all (sample_ctx 3 None) [sample_call "a" "echo"; sample_call "a" "echo"; sample_call "a" "echo"])
    batch_harness ExecutorOutcome_default
    (fun h' _ r => r = Ok tt /\ exists m1 m2 m3,
       lh_messages h' = lh_messages batch_harness ++ [m1; m2; m3] /\
       Forall (fun m => answers (sample_call "a" "echo") m /\ exists why,
                 msg_content m = Some ("Refused: you have already called `" +:+ why))
         [m1; m2; m3]).
Proof.
  apply (identical_batch_never_runs (sample_ctx 3 None)).
  - by intros [? ?].
  - exact I.
  - by exists [].
Defined.

Lemma reflection_bounded_witness :
  wp any_env (asks any_state (numbered_request (sample_ctx 5 (Some TheSink))) no_tool)
    (reflection_execute 3 (sample_ctx 5 (Some TheSink))) ExecutorOutcome_default
    (fun s r => reflection_post (sample_ctx 5 (Some TheSink)) (1 + 2 * 3) s r).
Proof.
  by apply (reflection_bounded 3 (sample_ctx 5 (Some TheSink))), sample_surroundings.
Defined.

(** ** Runs of the definitions *)

(** Tool, then text: two turns, completed, the tool's answer fed back. *)
Example conversation_tool_then_text :
  match answer (conversation_execute 4 (sample_ctx 3 (Some TheSink)))
          (sample_script [call_reply [sample_call "c1" "echo"]; text_reply "done!"]
             [ToolReturned (Ok (OutText "echo-ok"))]) with
  | Some (Some (Ok o)) =>
      out_status o = Completed /\ out_output o = "done!" /\
      map msg_role (out_messages o) = [System; User; Assistant; Tool; Assistant] /\
      map msg_content (out_messages o) !! 3%nat = Some (Some "echo-ok") /\
      (out_tokens_in o, out_tokens_out o) = (20, 6)
  | _ => False
  end.
Proof. vm_compute. by repeat split. Qed.

(** A model that only calls tools ends at the iteration cap. *)
Example conversation_hits_cap :
  match answer (conversation_execute 4 (sample_ctx 3 (Some TheSink)))
          (sample_script (replicate 5 (call_reply [sample_call "c" "echo"])) []) with
  | Some (Some (Ok o)) => out_status o = MaxIterations /\ llm_requests (out_events o) = 3
  | _ => False
  end.
Proof. vm_compute. by repeat split. Qed.

(** A panicking tool is contained. *)
Example conversation_contains_panic :
  match answer (conversation_execute 4 (sample_ctx 3 (Some TheSink)))
          (sample_script [call_reply [sample_call "c1" "echo"]; text_reply "recovered"]
             [ToolPanicked (PanicStr "boom")]) with
  | Some (Some (Ok o)) =>
      out_output o = "recovered" /\
      map msg_content (out_messages o) !! 3%nat =
        Some (Some "ERROR: tool 'echo' execution failed: tool panicked: boom")
  | _ => False
  end.
Proof. vm_compute. by repeat split. Qed.
