(* ===== verification/ProviderProps.v ===== *)
(** * Properties of the provider wrappers and of the compactor

    What [RetryProvider], [RecoveryProvider] and [DefaultCompressor] do to
    the requests of a run, for every sequence of answers. *)

From S2P Require Import Prelude.
From S2P Require Import RustStr.
From S2P Require Import F64.
From S2P Require Import Json.
From S2P Require Import Errors.
From S2P Require Import Types.
From S2P Require Import Effects.
From S2P Require Import HarnessText.
From S2P Require Import Traits.
From S2P Require Import LoopHarness.
From S2P Require Import HarnessSpec.
From S2P Require Import ExecutorSpec.
From S2P Require Import Layers.
From S2P Require Import Compaction.
From S2P Require Import Sample.

(** C10: A retried completion sends the same request each time, pauses once
    after each transient failure for the time the server asked for or at
    most [max_delay_ms], stops at the first success or permanent error, and
    otherwise returns the last of [max_retries + 1] errors. *)
Theorem retry_exchanges id model caps config req tr r :
  config_wf config ->
  steps (llm_complete (RetryProvider (external_llm id model caps) config) req) tr r ->
  exists failed : list (LlmError * Z),
    llm_exchanges tr = map (fun x => (req, Err x.1)) failed ++ [(req, r)] /\
    pauses tr = failed.*2 /\
    Forall (failed_attempt config) failed /\
    Z.of_nat (length failed) <= max_retries config /\
    (Z.of_nat (length failed) = max_retries config \/
     forall e, r = Err e -> is_transient e = false).
Proof.
  intros Hwf Hs. pose proof Hwf as (Hm & _). unfold RetryProvider, retry_complete in Hs.
  simpl llm_complete in Hs.
  replace (max_retries config + 1) with (Z.of_nat (S (Z.to_nat (max_retries config)))) in Hs
    by ulia.
  apply steps_retry_loop in Hs as (failed & ? & ? & ? & ? & Hend); [|done|ulia].
  exists failed. split_and!; try done; [ulia|]. destruct Hend; [left; ulia|by right].
Qed.

(** The backoff before jitter doubles with each attempt until it
    saturates, and whatever the jitter the delay is at most [max_delay_ms],
    and at least one millisecond unless the maximum is zero. *)
Lemma backoff_bounds config attempt seed :
  config_wf config -> 0 <= attempt ->
  in_u64 (exp_delay config attempt) /\
  (attempt < 63 -> exp_delay config (attempt + 1) = saturating_mul64 (exp_delay config attempt) 2) /\
  0 <= compute_delay config attempt seed <= max_delay_ms config /\
  (1 <= max_delay_ms config -> 1 <= compute_delay config attempt seed).
Proof.
  intros Hwf Ha. split; [by apply exp_delay_range|]. split; [|by apply compute_delay_range].
  intros ?. by apply exp_delay_succ.
Qed.

(** ** Recovery *)

Definition is_overflow (e : LlmError) : bool :=
  match e with LlmError_ContextLengthExceeded _ _ _ => true | _ => false end.

(** [req'] is [req] with its history compacted. *)
Definition compacted (req req' : CompletionRequest) : Prop :=
  exists text collapsed, collapsed <> [] /\
    req' = set_req_messages (rebuilt (req_messages req) text collapsed) req.

(** The exchanges of a recovered completion with [n] compactions to go. *)
Inductive recovery (r : result CompletionResponse LlmError)
  : nat -> CompletionRequest -> list (CompletionRequest * result CompletionResponse LlmError)
    -> Prop :=
| recovery_last n req : recovery r n req [(req, r)]
| recovery_again n req req' e l :
    is_overflow e = true -> compacted req req' -> recovery r n req' l ->
    recovery r (S n) req ((req, Err e) :: l).

Lemma recovery_length r n req l : recovery r n req l -> (length l <= S n)%nat.
Proof. induction 1; simpl; lia. Qed.

(** The indices a compressor answers with are [u32]s. *)
Definition compression_of (c : call) : option (result Compressed CompressionError) :=
  match c with
  | Call e x =>
      match e in eff X return X -> option _ with
      | ECompress _ _ _ => fun r => Some r
      | _ => fun _ => None
      end x
  end.

Definition typed_compressions (tr : list call) : Prop :=
  Forall (fun c => forall r, compression_of c = Some (Ok r) -> Forall in_u32 (collapsed_indices r))
    tr.

Lemma recover_loop_recovery id model caps cid config fuel req attempts tr r :
  in_u32 (max_attempts config) -> 0 <= attempts ->
  (Z.to_nat (max_attempts config - attempts) < fuel)%nat ->
  Z.of_nat (length (req_messages req)) <= U32_MAX + 1 -> typed_compressions tr ->
  steps (recover_loop (external_llm id model caps) (external_compressor cid) config fuel req
           attempts) tr r ->
  exists res, r = Some res /\
    recovery res (Z.to_nat (max_attempts config - attempts)) req (llm_exchanges tr).
Proof.
  intros Hmax. revert req attempts tr. induction fuel as [|fuel IH];
    intros req attempts tr Ha Hfuel Hlen Hty; [lia|]. simpl.
  assert (Hlast : forall x tr', llm_exchanges tr' = [] ->
    exists res, Some x = Some res /\
      recovery res (Z.to_nat (max_attempts config - attempts)) req
        (llm_exchanges (Call (ELlm id req) x :: tr'))).
  { intros x tr' E. exists x. split; [done|]. cbn.
    change (omap llm_exchange tr') with (llm_exchanges tr'). rewrite E. constructor. }
  intros (x & tr' & -> & Hs).
  destruct x as [resp|e].
  { destruct Hs as [-> ->]. by apply Hlast. }
  destruct e as [ | | |om ot ol| | ]; try (destruct Hs as [-> ->]; by apply Hlast).
  destruct (_ <=? _) eqn:E.
  { destruct Hs as [-> ->]; by apply Hlast. }
  apply Z.leb_gt in E. destruct Hs as (c & tr2 & -> & Hs).
  destruct c as [c|ce]; [|destruct Hs as [-> ->]; by apply Hlast].
  destruct (collapsed_indices c) as [|i l] eqn:Ec;
    [destruct Hs as [-> ->]; by apply Hlast|].
  inversion Hty as [|? ? _ Hty1]; subst. inversion Hty1 as [|? ? Hc Hty2]; subst.
  specialize (Hc c eq_refl). rewrite Ec in Hc. rewrite rebuild_messages_rebuilt in Hs by done.
  simpl in Hs. pose proof (length_rebuilt (req_messages req) (summary c) (i :: l) Hc).
  apply IH in Hs as (res & -> & Hr); [|lia..|simpl; lia|done].
  exists res. split; [done|]. cbn. change (omap llm_exchange tr2) with (llm_exchanges tr2).
  replace (Z.to_nat (max_attempts config - attempts)) with
    (S (Z.to_nat (max_attempts config - (attempts + 1)))) by lia.
  econstructor; [done| |exact Hr]. by exists (summary c), (i :: l).
Qed.

(** C11: A recovered completion never panics: it asks the model again only
    after a context overflow and with the same request compacted, at most
    [max_attempts] more times, and returns what the model answered last; a
    compaction that fails or collapses nothing surfaces that overflow. *)
Theorem recovery_exchanges id model caps cid config req tr r :
  in_u32 (max_attempts config) -> Z.of_nat (length (req_messages req)) <= U32_MAX + 1 ->
  typed_compressions tr ->
  steps (llm_complete (RecoveryProvider (external_llm id model caps) (external_compressor cid)
           config) req) tr r ->
  recovery r (Z.to_nat (max_attempts config)) req (llm_exchanges tr) /\
  Z.of_nat (length (llm_exchanges tr)) <= max_attempts config + 1.
Proof.
  intros Hmax Hlen Hty Hs. apply steps_bind in Hs as (tr1 & tr2 & a & -> & Hs & -> & ->).
  rewrite app_nil_r in *. apply recover_loop_recovery in Hs as (res & -> & Hr); try done.
  2: { unfold recovery_fuel. lia. }
  rewrite Z.sub_0_r in Hr. split; [done|]. apply recovery_length in Hr. ulia.
Qed.

(** ** Compaction *)

Section compaction.
Context `{Printers}.

(** A compaction replaces one block of messages, right after the system
    prompt, by the digest: the system prompt and a non-empty suffix of the
    history survive unchanged and in order. *)
Lemma compaction_shape messages budget c :
  Z.of_nat (length messages) <= U32_MAX + 1 ->
  default_compress messages budget = Ok c -> collapsed_indices c <> [] ->
  exists hi t, (digest_start messages < hi < length messages)%nat /\
    messages !! digest_start messages = Some t /\
    rebuild_messages messages (summary c) (collapsed_indices c) =
    mret (Some (take (digest_start messages) messages ++
                digest_of t (summary c) :: drop hi messages)).
Proof.
  intros Hlen Hc Hne.
  destruct (default_compress_ok messages budget c Hlen Hc Hne) as (hi & t & Hhi & Ht & Hcol & _).
  exists hi, t. split; [done|]. split; [done|].
  rewrite rebuild_messages_rebuilt; [|rewrite Hcol|done].
  - by rewrite Hcol, (rebuilt_block _ _ _ _ t) by (done || lia).
  - apply Forall_forall. intros x Hx. apply elem_of_seqZ in Hx. ulia.
Qed.

(** A history rebuilt after a compaction costs, by the compactor's own
    estimate and the digest included, at most the hard limit of the budget. *)
Lemma compaction_fits messages budget c :
  Z.of_nat (length messages) <= U32_MAX + 1 -> total_cost messages <= U32_MAX ->
  hard_limit_tokens budget < U32_MAX ->
  default_compress messages budget = Ok c -> collapsed_indices c <> [] ->
  total_cost (rebuilt messages (summary c) (collapsed_indices c)) <= hard_limit_tokens budget.
Proof.
  intros Hlen Hcost Hhard Hc Hne.
  destruct (default_compress_ok messages budget c Hlen Hc Hne) as
    (hi & t & Hhi & Ht & Hcol & Hsum & Hfit).
  rewrite Hcol at 1. rewrite (rebuilt_block _ _ _ _ t) by (done || lia).
  rewrite total_cost_app, take_digest_start, total_cost_cons.
  rewrite Hsum, message_cost_digest, <- Hsum.
  rewrite sum_costs_of_suffix in Hfit by done.
  exact (saturating_sum_fits _ _ _ _ (estimate_tokens_range (summary c)) Hhard Hfit).
Qed.
End compaction.

(** A history of one question, one call and its answer. *)
Definition long_message (role : Role) (content : string) : Message :=
  mkMessage 7 0 role (Some content) None None None None 0.
Definition call_message : Message :=
  set_msg_call (sample_call "c1" "echo") (mkMessage 7 1 Assistant None None None None None 0).
Definition answer_message : Message :=
  set_msg_call (sample_call "c1" "echo")
    (mkMessage 7 2 Tool (Some "a rather long answer of the tool") None None None None 0).
Definition call_history : list Message :=
  [long_message User "what does the tool say?"; call_message; answer_message].

(** The compactor may collapse a tool call of the model and keep its
    answer: from a well-formed history it can build one in which a tool
    answer has no call before it. *)
Lemma compaction_orphans_tool_result :
  exists budget c ms,
    well_paired call_history /\ default_compress call_history budget = Ok c /\
    rebuild_messages call_history (summary c) (collapsed_indices c) = mret (Some ms) /\
    ~ well_paired ms.
Proof.
  exists (mkCompressionBudget 4 1000). eexists _, _. split_and!; [|done..|].
  - apply (wp_block [_] [sample_call "c1" "echo"] [_] [_]); [|by repeat constructor..].
    by apply (wp_plain []); [constructor|].
  - intros Hw. apply well_paired_balanced in Hw. by vm_compute in Hw.
Qed.

(** ** Instances *)

Definition sample_retry : RetryConfig := mkRetryConfig 2 100 1000 (f64_ratio 1 4).

Lemma sample_retry_wf : config_wf sample_retry.
Proof. unfold config_wf, in_u32, in_u64, U32_MAX, U64_MAX. simpl. lia. Qed.

Definition sample_request : CompletionRequest := mkCompletionRequest call_history [] None None None JNull.

(** One rate limit with a hint, then an answer. *)
Definition retry_trace : list call :=
  [Call (ELlm "llm" sample_request) (Err (LlmError_RateLimited "p" (Some 5)));
   Call (ESleep 5) tt; Call (ELlm "llm" sample_request) (text_reply "ok")].

Lemma retry_exchanges_witness :
  exists failed : list (LlmError * Z),
    llm_exchanges retry_trace =
      map (fun x => (sample_request, Err x.1)) failed ++ [(sample_request, text_reply "ok")] /\
    pauses retry_trace = failed.*2 /\
    Forall (failed_attempt sample_retry) failed /\
    Z.of_nat (length failed) <= max_retries sample_retry /\
    (Z.of_nat (length failed) = max_retries sample_retry \/
     forall e, text_reply "ok" = Err e -> is_transient e = false).
Proof.
  apply (retry_exchanges "llm" "m" sample_caps sample_retry sample_request retry_trace).
  - exact sample_retry_wf.
  - simpl. repeat (eexists _, _; split; [reflexivity|]; simpl). by split.
Defined.

Lemma backoff_bounds_witness :
  in_u64 (exp_delay sample_retry 1) /\
  (1 < 63 -> exp_delay sample_retry (1 + 1) = saturating_mul64 (exp_delay sample_retry 1) 2) /\
  0 <= compute_delay sample_retry 1 (f64_ratio 1 2) <= 1000 /\
  (1 <= 1000 -> 1 <= compute_delay sample_retry 1 (f64_ratio 1 2)).
Proof.
  apply (backoff_bounds sample_retry 1 (f64_ratio 1 2)).
  - exact sample_retry_wf.
  - lia.
Defined.

Definition sample_overflow : LlmError := LlmError_ContextLengthExceeded "m" 20 10.
Definition sample_recovery : RecoveryConfig := RecoveryConfig_default.

(** An overflow, a compaction of the first two messages, an answer. *)
Definition recovery_trace : list call :=
  [Call (ELlm "llm" sample_request) (Err sample_overflow);
   Call (ECompress "c" call_history (recovery_budget sample_recovery 10))
     (Ok (mkCompressed "digest" [0; 1]));
   Call (ELlm "llm" (set_req_messages (rebuilt call_history "digest" [0; 1]) sample_request))
     (text_reply "ok")].

Lemma recovery_exchanges_witness :
  recovery (text_reply "ok") 1 sample_request (llm_exchanges recovery_trace) /\
  Z.of_nat (length (llm_exchanges recovery_trace)) <= 1 + 1.
Proof.
  apply (recovery_exchanges "llm" "m" sample_caps "c" sample_recovery sample_request
           recovery_trace (text_reply "ok")).
  - unfold in_u32, U32_MAX. simpl. lia.
  - simpl. unfold U32_MAX. lia.
  - repeat constructor; intros r; try done. intros [= <-]. repeat constructor; done.
  - simpl. repeat (eexists _, _; split; [reflexivity|]; simpl). by split.
Defined.

Definition sample_compressed : Compressed :=
  match default_compress call_history (mkCompressionBudget 4 1000) with
  | Ok c => c | Err _ => Compressed_default end.

Lemma compaction_shape_witness :
  exists hi t, (digest_start call_history < hi < length call_history)%nat /\
    call_history !! digest_start call_history = Some t /\
    rebuild_messages call_history (summary sample_compressed)
      (collapsed_indices sample_compressed) =
    mret (Some (take (digest_start call_history) call_history ++
                digest_of t (summary sample_compressed) :: drop hi call_history)).
Proof.
  apply (compaction_shape call_history (mkCompressionBudget 4 1000) sample_compressed).
  - simpl. unfold U32_MAX. lia.
  - reflexivity.
  - vm_compute. discriminate.
Defined.

Lemma compaction_fits_witness :
  total_cost (rebuilt call_history (summary sample_compressed)
    (collapsed_indices sample_compressed)) <= 1000.
Proof.
  apply (compaction_fits call_history (mkCompressionBudget 4 1000) sample_compressed).
  - simpl. unfold U32_MAX. lia.
  - vm_compute. discriminate.
  - reflexivity.
  - reflexivity.
  - vm_compute. discriminate.
Defined.

(** The jitter of a clock that reads zero and a counter at its top is 1. *)
Example cheap_random_reaches_one : random_of 0 U32_MAX = f64_of_Z 1.
Proof. vm_compute. reflexivity. Qed.
