(* ===== verification/RuntimeProps.v ===== *)
(** * Properties of the runtime

    What [Runtime::execute] promises for an agent row, what the builder puts
    in its maps, and what the skill loader serves. *)

From S2P Require Import Prelude.
From S2P Require Import RustStr.
From S2P Require Import F64.
From S2P Require Import Json.
From S2P Require Import Errors.
From S2P Require Import Types.
From S2P Require Import Effects.
From S2P Require Import HarnessText.
From S2P Require Import Traits.
From S2P Require Import LoopHarness.
From S2P Require Import HarnessSpec.
From S2P Require Import Executors.
From S2P Require Import ExecutorSpec.
From S2P Require Import Registry.
From S2P Require Import Layers.
From S2P Require Import Runtime.
From S2P Require Import RuntimeSpec.
From S2P Require Import Sample.

(** ** Running an agent *)

Section runs.
Context `{UnicodeTables, Printers, HashOrder}.

(** C8: A run of a conversation or ReAct agent, whether it returns or is cut
    by the wall-clock backstop, ends in a numbered transcript of the run with
    at most [max_iterations] model requests and a status that is not a lie,
    or in a cancellation, a cost-cap error or a model error. *)
Theorem run_outcome rt react name input role cap agent llm :
  preflight rt name = Ok (agent, llm, chat_executor react) ->
  (forall id, well_behaved (agent_context rt agent llm id input role cap)) ->
  0 <= ar_max_iterations agent < U32_MAX -> 0 <= ar_timeout_ms agent ->
  (forall c, cap = Some c -> 0 <= c) ->
  wp any_env any_call (execute_inner rt name input role cap) ExecutorOutcome_default
    (fun _ r => exists id, run_ok (agent_context rt agent llm id input role cap) r).
Proof.
  intros Hpre HS Hmax Ht Hcap. unfold execute_inner. rewrite Hpre.
  apply wp_bind, wp_perform; [done|]. intros id _. simpl.
  eapply wp_mono; [apply wp_run_bounded; [by apply HS|done|]|done|].
  - simpl. unfold effective_timeout, agent_progress. intros Hne.
    destruct (from_millis (ar_timeout_ms agent) =? 0) eqn:E; [|by eexists].
    apply Z.eqb_eq in E. rewrite E in Hne. destruct cap as [c|]; [|done].
    specialize (Hcap c eq_refl). lia.
  - intros s r Hr. by exists id.
Qed.
End runs.

(** C9: With a wall-clock budget, no await of a run is unbounded: each one
    is raced against a timer later than the budget, by at least 50
    milliseconds and at most five seconds, whatever the executor does. *)
Theorem awaits_are_bounded rt name input role cap agent llm executor s :
  preflight rt name = Ok (agent, llm, executor) -> effective_timeout agent cap <> 0 ->
  let budget := effective_timeout agent cap in
  wp any_env (awaits_raced (fun d => budget + from_millis 50 <= d <= budget + from_millis 5000))
    (execute_inner rt name input role cap) s (fun _ _ => True).
Proof.
  intros Hpre Hb budget. unfold execute_inner. rewrite Hpre.
  apply wp_bind, wp_perform; [done|]. intros id _. unfold run_bounded. simpl ctx_timeout.
  rewrite (proj2 (Z.eqb_neq _ _)) by done.
  eapply wp_seq; [|by intros s' r _]. apply wp_backstop_raced.
  pose proof (budget_grace_bounds budget). unfold budget in *. lia.
Qed.

(** A positive ceiling of the host on an agent with a positive budget
    only lowers it. *)
Lemma host_ceiling_lowers agent cap :
  0 < ar_timeout_ms agent -> 0 < cap ->
  0 < effective_timeout agent (Some cap) /\
  effective_timeout agent (Some cap) <= cap /\
  effective_timeout agent (Some cap) <= effective_timeout agent None.
Proof.
  intros Ha Hc. unfold effective_timeout, from_millis, NANOS_PER_MILLI. lia.
Qed.

(** But a zero on either side removes the limit: an agent without a
    budget escapes the ceiling of the host, and a ceiling of zero frees an
    agent from its own budget; the executor then runs without backstop. *)
Lemma host_ceiling_lost rt executor agent llm id input role cap :
  0 <= ar_timeout_ms agent -> 0 <= cap -> ar_timeout_ms agent = 0 \/ cap = 0 ->
  let ctx := agent_context rt agent llm id input role (Some cap) in
  ctx_timeout ctx = 0 /\
  run_bounded executor ctx = (r ← executor ctx; mret (map_err RuntimeError_Executor r)).
Proof.
  intros Ha Hc Hz ctx. assert (E : ctx_timeout ctx = 0).
  { simpl. unfold effective_timeout, from_millis, NANOS_PER_MILLI. lia. }
  split; [done|]. unfold run_bounded. by rewrite E.
Qed.

(** An execution sees exactly the registered tools its agent allows, and
    the skill loader when, and only when, the agent has skills. *)
Lemma agent_tools_are_allowed rt agent n :
  agent_tools rt agent !! n =
  if bool_decide (n = LOAD_SKILL_TOOL /\ skills (ar_components agent) <> [])
  then Some (LoadSkillTool (skills (ar_components agent)))
  else if bool_decide (n ∈ ar_tools agent) then reg_tools (rt_registry rt) !! n
  else None.
Proof.
  unfold agent_tools. destruct (skills (ar_components agent)) as [|sk l].
  - rewrite bool_decide_eq_false_2 by naive_solver. apply resolve_tools_lookup.
  - unfold ToolReg.add. simpl tool_name. destruct (decide (n = LOAD_SKILL_TOOL)) as [->|Hne].
    + by rewrite bool_decide_eq_true_2, lookup_insert_eq.
    + rewrite bool_decide_eq_false_2, lookup_insert_ne by naive_solver.
      apply resolve_tools_lookup.
Qed.

(** A run starts only if its main provider can call tools or the agent
    has none: the pre-flight rejects every other agent before any request. *)
Lemma preflight_requires_tool_use rt name input role cap agent key llm executor :
  rt_agents rt !! name = Some agent ->
  ar_llm_profile_main agent = Some key -> rt_llm_providers rt !! key = Some llm ->
  reg_executors (rt_registry rt) !! ar_executor_name agent = Some executor ->
  needs_tool_use rt agent = true ->
  if tool_use (llm_capabilities llm)
  then preflight rt name = Ok (agent, llm, executor)
  else exists msg, execute_inner rt name input role cap = mret (Err (RuntimeError_Config msg)).
Proof.
  intros Ha Hk Hl He Hn. unfold execute_inner, preflight, resolve_llm.
  rewrite Ha, Hk, Hl, He, Hn. simpl. destruct (tool_use (llm_capabilities llm)); simpl; [done|].
  by eexists.
Qed.

(** A provider wrapped for overflow recovery hides the capabilities of
    the inner one, so no agent with tools can run on it; one wrapped for
    retries keeps them. *)
Lemma recovery_hides_tool_use rt name input role cap agent key inner compressor config rconfig
    executor :
  rt_agents rt !! name = Some agent -> ar_llm_profile_main agent = Some key ->
  rt_llm_providers rt !! key = Some (RecoveryProvider inner compressor config) ->
  reg_executors (rt_registry rt) !! ar_executor_name agent = Some executor ->
  needs_tool_use rt agent = true -> tool_use (llm_capabilities inner) = true ->
  (exists msg, execute_inner rt name input role cap = mret (Err (RuntimeError_Config msg))) /\
  tool_use (llm_capabilities (RetryProvider inner rconfig)) = true.
Proof.
  intros Ha Hk Hl He Hn Hi. split; [|done]. unfold execute_inner, preflight, resolve_llm.
  rewrite Ha, Hk, Hl, He, Hn. simpl. by eexists.
Qed.

(** ** Building *)

(** The builder indexes the last row of each name: the agent map holds
    it, and each provider map holds what the factory of its provider built
    from it, with the resolved key injected. *)
Lemma build_indexes_last_rows b llms embs agents secrets rt :
  assemble b llms embs agents secrets = Ok rt ->
  (forall n, rt_agents rt !! n = last_named ar_name n agents) /\
  (forall n, match last_named llm_name n llms with
             | Some p => exists v, hydrate_llm b secrets p = Ok v /\
                                   rt_llm_providers rt !! n = Some v
             | None => rt_llm_providers rt !! n = None
             end) /\
  (forall n, match last_named emb_name n embs with
             | Some p => exists v, hydrate_embedding b secrets p = Ok v /\
                                   rt_embedding_providers rt !! n = Some v
             | None => rt_embedding_providers rt !! n = None
             end).
Proof.
  unfold assemble. destruct (hydrate_all (hydrate_llm b secrets) _ _ _) as [lm|] eqn:El; [|done].
  destruct (hydrate_all (hydrate_embedding b secrets) _ _ _) as [em|] eqn:Ee; [|done].
  intros [= <-]. simpl. split; [apply index_agents_last|].
  split; [exact (proj2 (hydrate_all_ok _ _ _ _ _ El))|exact (proj2 (hydrate_all_ok _ _ _ _ _ Ee))].
Qed.

(** The builder fails exactly when some row cannot be hydrated, with the
    error of the first such row, LLM profiles before embedding profiles. *)
Lemma build_fails_on_first_bad_row b llms embs agents secrets e :
  assemble b llms embs agents secrets = Err e <->
  (exists l1 p l2, llms = l1 ++ p :: l2 /\ hydrate_llm b secrets p = Err e /\
     Forall (fun q => is_ok (hydrate_llm b secrets q) = true) l1) \/
  (Forall (fun q => is_ok (hydrate_llm b secrets q) = true) llms /\
   exists l1 p l2, embs = l1 ++ p :: l2 /\ hydrate_embedding b secrets p = Err e /\
     Forall (fun q => is_ok (hydrate_embedding b secrets q) = true) l1).
Proof.
  unfold assemble. destruct (hydrate_all (hydrate_llm b secrets) _ _ _) as [lm|e'] eqn:El.
  - assert (Hall : Forall (fun q => is_ok (hydrate_llm b secrets q) = true) llms).
    { apply Forall_forall. intros q Hq.
      destruct (proj1 (hydrate_all_ok _ _ _ _ _ El) q Hq) as [v Hv]. by rewrite Hv. }
    assert (Hno : forall l1 p l2 x, llms = l1 ++ p :: l2 -> hydrate_llm b secrets p = Err x -> False).
    { intros l1 p l2 x -> Hp. rewrite Forall_app, Forall_cons, Hp in Hall. naive_solver. }
    destruct (hydrate_all (hydrate_embedding b secrets) _ _ _) as [em|e''] eqn:Ee.
    + split; [done|]. intros [(? & ? & ? & ? & ? & _)|(_ & Hex)]; [by exfalso; eapply Hno|].
      eapply hydrate_all_err in Hex. by rewrite Ee in Hex.
    + split.
      * intros [= ->]. right. split; [done|]. by eapply hydrate_all_err.
      * intros [(? & ? & ? & ? & ? & _)|(_ & Hex)]; [by exfalso; eapply Hno|].
        eapply hydrate_all_err in Hex. rewrite Ee in Hex. by injection Hex as ->.
  - split.
    + intros [= ->]. left. by eapply hydrate_all_err.
    + intros [Hex|(Hall & _)].
      * eapply hydrate_all_err in Hex. rewrite El in Hex. by injection Hex as ->.
      * apply hydrate_all_err in El as (l1 & p & l2 & -> & Hp & _).
        rewrite Forall_app, Forall_cons, Hp in Hall. naive_solver.
Qed.

(** The resolved key is stored under its own name in a JSON object and
    every other parameter is kept; without a resolved secret the parameters
    are unchanged. *)
Lemma injected_key_is_found params secret secrets k :
  match secret ≫= fun name => secrets !! name with
  | Some val =>
      json_get k (inject_resolved_key params secret secrets) =
      if String.eqb k RESOLVED_KEY then Some (JString val) else json_get k params
  | None => inject_resolved_key params secret secrets = params
  end.
Proof.
  destruct secret as [name|]; simpl; [|done].
  destruct (secrets !! name) as [val|]; [|done]. simpl.
  destruct (String.eqb_spec k RESOLVED_KEY) as [->|Hne]; [by rewrite obj_get_insert_eq|].
  rewrite obj_get_insert_ne by done. by destruct params.
Qed.

(** The secrets asked of the source are those the profiles name, each
    one once. *)
Lemma secret_names_exact llms embs :
  NoDup (collect_secret_names llms embs) /\
  forall n, n ∈ collect_secret_names llms embs <->
    (exists p, p ∈ llms /\ llm_api_key_secret p = Some n) \/
    (exists p, p ∈ embs /\ emb_api_key_secret p = Some n).
Proof.
  destruct (collect_secret_names_spec llms embs) as [Hnd Hn]. split; [done|].
  intros n. rewrite Hn. rewrite !list_elem_of_fmap. naive_solver.
Qed.

(** ** Skills *)

(** Every skill with a name can be loaded: asked for by its name, with
    any white space around it, the loader answers with its body, trimmed. *)
Lemma load_skill_serves skills s input asked :
  NoDup (map skill_name skills) -> s ∈ skills ->
  json_get "name" input = Some (JString asked) -> trim asked = skill_name s ->
  is_empty (skill_name s) = false ->
  load_skill_run skills input =
  Ok (OutText ("# Skill: " +:+ skill_name s +:+ newline +:+ newline +:+ trim (skill_body s))).
Proof.
  intros Hnd Hin Hin' Ht He. unfold load_skill_run, requested_name.
  rewrite Hin'. simpl. rewrite Ht, He. by rewrite find_named.
Qed.

(** ** Instances *)

Definition sample_agent (timeout_ms : Z) : AgentRow :=
  mkAgentRow "agent" "be helpful" None "conversation" (Some "main") None None None ["echo"]
    3 timeout_ms None None Harness_default.

Definition tool_llm : LlmProvider :=
  external_llm "llm" "m" (mkProviderCapabilities true false false false None None).

Definition sample_registry : Registry :=
  register_builtin_executors (mkRegistry sample_tools ∅ ∅ ∅ None None).

Definition sample_runtime (timeout_ms : Z) (llm : LlmProvider) : Runtime :=
  mkRuntime sample_registry {["main" := llm]} ∅ {["agent" := sample_agent timeout_ms]} None None.

Lemma sample_agent_well_behaved timeout_ms id input role cap :
  well_behaved (agent_context (sample_runtime timeout_ms tool_llm) (sample_agent timeout_ms)
                  tool_llm id input role cap).
Proof.
  set (ctx := agent_context _ _ _ _ _ _ _).
  assert (HP : forall s r, request_ok ctx s r -> cut_ok ctx s) by (by intros s r [? _]).
  split; simpl; try done.
  - by apply external_llm_ok.
  - intros name t Ht.
    pose proof (resolve_tools_lookup (sample_runtime timeout_ms tool_llm) ["echo"] name) as E.
    change (resolve_tools (sample_runtime timeout_ms tool_llm) ["echo"] !! name = Some t) in Ht.
    rewrite E in Ht.
    destruct (bool_decide _); [|done].
    change ((sample_tools : ToolRegistry) !! name = Some t) in Ht. unfold sample_tools in Ht.
    apply lookup_singleton_Some in Ht as [<- <-]. by apply external_tool_ok.
Qed.

Lemma run_outcome_witness :
  wp any_env any_call (execute_inner (sample_runtime 1000 tool_llm) "agent" "hello" None None)
    ExecutorOutcome_default
    (fun _ r => exists id, run_ok (agent_context (sample_runtime 1000 tool_llm)
       (sample_agent 1000) tool_llm id "hello" None None) r).
Proof.
  apply (run_outcome (sample_runtime 1000 tool_llm) false).
  - reflexivity.
  - intros id. apply sample_agent_well_behaved.
  - unfold U32_MAX. simpl. lia.
  - simpl. lia.
  - discriminate.
Defined.

Lemma awaits_are_bounded_witness :
  let budget := effective_timeout (sample_agent 1000) None in
  wp any_env (awaits_raced (fun d => budget + from_millis 50 <= d <= budget + from_millis 5000))
    (execute_inner (sample_runtime 1000 tool_llm) "agent" "hello" None None)
    ExecutorOutcome_default (fun _ _ => True).
Proof.
  eapply (awaits_are_bounded (sample_runtime 1000 tool_llm) "agent" "hello" None None
            (sample_agent 1000)).
  - reflexivity.
  - vm_compute. discriminate.
Defined.

Lemma host_ceiling_lowers_witness :
  0 < effective_timeout (sample_agent 1000) (Some 5) /\
  effective_timeout (sample_agent 1000) (Some 5) <= 5 /\
  effective_timeout (sample_agent 1000) (Some 5) <= effective_timeout (sample_agent 1000) None.
Proof. apply (host_ceiling_lowers (sample_agent 1000) 5); [simpl; lia|lia]. Defined.

Lemma host_ceiling_lost_witness :
  let ctx := agent_context (sample_runtime 0 tool_llm) (sample_agent 0) tool_llm 7 "hello" None
               (Some 5) in
  ctx_timeout ctx = 0 /\
  run_bounded ConversationExecutor ctx =
    (r ← ConversationExecutor ctx; mret (map_err RuntimeError_Executor r)).
Proof.
  apply (host_ceiling_lost (sample_runtime 0 tool_llm) ConversationExecutor (sample_agent 0)).
  - simpl; lia.
  - lia.
  - by left.
Defined.

Lemma preflight_requires_tool_use_witness :
  preflight (sample_runtime 1000 tool_llm) "agent" =
    Ok (sample_agent 1000, tool_llm, ConversationExecutor).
Proof.
  apply (preflight_requires_tool_use (sample_runtime 1000 tool_llm) "agent" "hello" None None
           (sample_agent 1000) "main" tool_llm ConversationExecutor); reflexivity.
Defined.

Definition recovering_llm : LlmProvider :=
  RecoveryProvider tool_llm (external_compressor "c") RecoveryConfig_default.

Lemma recovery_hides_tool_use_witness :
  (exists msg, execute_inner (sample_runtime 1000 recovering_llm) "agent" "hello" None None =
     mret (Err (RuntimeError_Config msg))) /\
  tool_use (llm_capabilities (RetryProvider tool_llm RetryConfig_default)) = true.
Proof.
  apply (recovery_hides_tool_use (sample_runtime 1000 recovering_llm) "agent" "hello" None None
           (sample_agent 1000) "main" tool_llm (external_compressor "c") RecoveryConfig_default
           RetryConfig_default ConversationExecutor); reflexivity.
Defined.

(** Two rows of one name: the second one is used. *)
Definition sample_profile (model : string) : LlmProfileRow :=
  mkLlmProfileRow "main" "ext" model (Some "KEY") None JNull.

Definition model_factory : LlmProviderFactory :=
  mkLlmProviderFactory "ext" (fun p => Ok (external_llm (llm_name p) (llm_model p) sample_caps)).

Definition sample_builder : RuntimeBuilder :=
  mkRuntimeBuilder
    (mkRegistry ∅ ∅ (insert_llm_factory model_factory ∅) ∅ None None)
    None None [] [] [] ∅ None None.

Definition sample_built : Runtime :=
  mkRuntime (rb_registry sample_builder)
    {["main" := external_llm "main" "new" sample_caps]} ∅ {["agent" := sample_agent 5]} None None.

Lemma build_indexes_last_rows_witness :
  rt_agents sample_built !! "agent" = Some (sample_agent 5) /\
  rt_llm_providers sample_built !! "main" = Some (external_llm "main" "new" sample_caps).
Proof.
  destruct (build_indexes_last_rows sample_builder [sample_profile "old"; sample_profile "new"] []
              [sample_agent 1; sample_agent 5] ∅ sample_built) as (Ha & Hl & _); [reflexivity|].
  split.
  - exact (Ha "agent").
  - specialize (Hl "main"). simpl in Hl. destruct Hl as (v & [= <-] & Hv). exact Hv.
Defined.

Definition sample_skills : list Skill :=
  [mkSkill "refunds" "a refund is asked for" "refund body";
   mkSkill "escalation" "a customer is angry" "  step one  "].

Lemma load_skill_serves_witness :
  load_skill_run sample_skills (json_object [("name", JString " escalation ")]) =
  Ok (OutText ("# Skill: " +:+ "escalation" +:+ newline +:+ newline +:+ "step one")).
Proof.
  apply (load_skill_serves sample_skills (mkSkill "escalation" "a customer is angry" "  step one  ")
           _ " escalation ").
  - apply (bool_decide_unpack _). vm_compute. exact I.
  - right. left.
  - reflexivity.
  - vm_compute. reflexivity.
  - reflexivity.
Defined.
