(* ===== verification/WireProps.v ===== *)
(** * Properties of the network providers

    The search for tool calls in text ends, and every call it finds has the
    name of a tool that was sent and an object of arguments; what is sent, and
    how recorded calls read back. *)

From S2P Require Import Prelude.
From S2P Require Import RustStr.
From S2P Require Import F64.
From S2P Require Import Json.
From S2P Require Import Errors.
From S2P Require Import Types.
From S2P Require Import Effects.
From S2P Require Import HarnessText.
From S2P Require Import Traits.
From S2P Require Import LoopHarness.
From S2P Require Import Executors.
From S2P Require Import HarnessSpec.
From S2P Require Import Layers.
From S2P Require Import StrSlice.
From S2P Require Import Wire.
From S2P Require Import Anthropic.
From S2P Require Import OpenAi.
From S2P Require Import OpenAiExtract.
From S2P Require Import Sample.
#[local] Open Scope synapse_scope.

Section spec.
Context `{UnicodeTables, WireLib}.
Context (tool_names : list string).

Definition valid_call (c : RawCall) : Prop :=
  c.1 ∈ tool_names /\ OpenAi.is_object c.2 = true.
Definition valid_calls (l : list RawCall) : Prop := Forall valid_call l.

Lemma sent_tool_in name : sent_tool tool_names name = true -> name ∈ tool_names.
Proof. apply bool_decide_eq_true_1. Qed.

Lemma try_parse_valid raw tc : try_parse tool_names raw = Some tc -> valid_call tc.
Proof.
  unfold try_parse. destruct (json_from_str _) as [v|]; [|done].
  destruct (json_get "name" v ≫= as_str) as [name|]; [|done].
  destruct (sent_tool tool_names name) eqn:E; [|done].
  destruct (OpenAi.is_object _) eqn:Eo; [|done]. intros [= <-].
  split; [by apply sent_tool_in|done].
Qed.

(** Loops that only shorten a string. *)
Lemma string_loop {A R} (step : string * A -> outcome ((string * A) + R)) (I : A -> Prop)
    (Q : R -> Prop) s a :
  (forall st, I st.2 -> runs (fun r => match r with
     | inl st' => I st'.2 /\ (String.length st'.1 < String.length st.1)%nat
     | inr r => Q r end) (step st)) ->
  I a -> runs Q (loop step (fuel_of s) (s, a)).
Proof.
  intros Hstep Ha. apply (loop_runs _ (fun st => String.length st.1) (fun st => I st.2)); [|done|].
  - apply Hstep.
  - unfold fuel_of. simpl. lia.
Qed.

Lemma xml_params_run s m :
  runs (fun _ => True) (loop xml_param_step (fuel_of s) (s, m)).
Proof.
  apply (string_loop _ (fun _ => True)); [|done]. intros [search args] _. unfold xml_param_step.
  repeat (runs_step; try done). slices. simpl in *. split; [done|]. lia.
Qed.

Lemma parse_xml_run inner :
  runs (fun o => forall tc, o = Some tc -> valid_call tc)
    (parse_xml_function_block tool_names inner).
Proof.
  unfold parse_xml_function_block. repeat (runs_step; try done).
  apply runs_bind with (P := fun _ => True).
  { destruct (rfind_str _ _); [apply runs_or_panic_any|done]. }
  intros body _. eapply runs_bind; [apply xml_params_run|]. intros args _ tc.
  destruct args; [|done]. intros [= <-]. split; [by apply sent_tool_in|done].
Qed.

Lemma valid_snoc l o :
  valid_calls l -> (forall tc, o = Some tc -> valid_call tc) ->
  valid_calls (match o with Some tc => l ++ [tc] | None => l end).
Proof. intros Hl Ho. destruct o; [|done]. apply Forall_app. split; [done|]. constructor; auto. Qed.

Lemma tagged_run content : runs valid_calls (tagged_calls tool_names content).
Proof.
  apply (string_loop _ valid_calls); [|constructor]. intros [search results] Hr. simpl in Hr.
  unfold tag_step. repeat (runs_step; try done).
  apply runs_bind with (P := fun o => forall tc, o = Some tc -> valid_call tc).
  { destruct (try_parse tool_names _) eqn:E; [|apply parse_xml_run].
    intros tc [= <-]. by eapply try_parse_valid. }
  intros found Hf. repeat runs_step. slices. simpl in *. split; [by apply valid_snoc|]. lia.
Qed.

Lemma length_qmark : String.length QMARK = 5%nat.
Proof. done. Qed.

Lemma gemma_items_run s l :
  free_of "]"%char s -> runs (fun _ => True) (loop gemma_item_step (fuel_of s) (s, l)).
Proof.
  intros Hs. apply (loop_runs _ (fun st => String.length st.1) (fun st => free_of "]"%char st.1));
    [|done|unfold fuel_of; simpl; lia].
  intros [a items] Hfree. simpl in Hfree. unfold gemma_item_step. pose proof length_qmark.
  pose proof (length_trim_start [","%char; " "%char] a) as Htrim.
  pose proof (trim_head [","%char; " "%char] "]"%char a Hfree) as Hhead.
  assert (Hfree' := free_of_trim "]"%char [","%char; " "%char] a Hfree).
  set (a' := trim_start_matches [","%char; " "%char] a) in *.
  repeat (runs_step; try done); split.
  - eapply free_of_slice_from; [done|]. by eapply free_of_slice_from.
  - slices. simpl in *. lia.
  - by eapply free_of_slice_from.
  - assert (He : (1 <= default (String.length a') (find_any [","%char; "]"%char] a'))%nat).
    { destruct (find_any _ a') as [e|] eqn:Ee; simpl; [|by apply nonempty_length].
      eapply find_any_head; [|done]. destruct a'; set_solver. }
    pose proof (nonempty_length a'). slices. simpl in *. lia.
Qed.

Lemma gemma_pairs_run s m :
  runs (fun _ => True) (loop gemma_pair_step (fuel_of s) (s, m)).
Proof.
  apply (string_loop _ (fun _ => True)); [|done]. intros [rem args] _. unfold gemma_pair_step.
  pose proof length_qmark. pose proof (length_trim_start [","%char; " "%char; LF; ascii_of_nat 9] rem).
  repeat (runs_step; try done).
  - slices. simpl in *. split; [done|]. lia.
  - eapply runs_bind; [by apply gemma_items_run; eapply slice_free|].
    intros its _. repeat runs_step. slices. simpl in *. split; [done|]. lia.
  - slices. simpl in *. split; [done|]. lia.
Qed.

Lemma gemma_args_run s : runs (fun _ => True) (gemma_args s).
Proof.
  unfold gemma_args. destruct (json_from_str _) as [[]|]; try apply gemma_pairs_run. done.
Qed.

Lemma valid_object results name m :
  valid_calls results -> sent_tool tool_names name = true ->
  valid_calls (results ++ [(name, JObject m)]).
Proof.
  intros Hr Hn. apply Forall_app. split; [done|]. constructor; [|done].
  split; [by apply sent_tool_in|done].
Qed.

Lemma gemma_run content : runs valid_calls (parse_gemma_tool_call_openai tool_names content).
Proof.
  apply (string_loop _ valid_calls); [|constructor]. intros [search results] Hr. simpl in Hr.
  assert (Ho : String.length OPEN = 17%nat) by done. unfold gemma_step.
  repeat (runs_step; try done).
  - eapply runs_bind; [apply gemma_args_run|]. intros m _.
    assert (Hv : valid_calls (results ++ [(trim a0, JObject m)])) by (by apply valid_object).
    repeat (runs_step; try done). slices. simpl in *. split; [done|]. lia.
  - slices. simpl in *. split; [done|]. lia.
Qed.

(** *** Python calls *)

Lemma python_value_run s : runs (fun _ => True) (python_value s).
Proof.
  unfold python_value. destruct (json_from_str s); [done|]. destruct (_ || _); [|done].
  by repeat runs_step.
Qed.

Lemma python_args_run tokens args : runs (fun _ => True) (python_args tokens args).
Proof.
  revert args. induction tokens as [|t l IH]; intros args; simpl; [done|].
  repeat (runs_step; try done; try apply IH).
  eapply runs_bind; [apply python_value_run|]. intros v _. apply IH.
Qed.

Lemma python_lines_run candidates : runs valid_calls (python_lines tool_names candidates).
Proof.
  induction candidates as [|line l IH]; simpl; [constructor|].
  repeat (runs_step; try done; try apply IH).
  eapply runs_bind; [apply python_args_run|]. intros args _. destruct args; [apply IH|].
  constructor; [|done]. split; [by apply sent_tool_in|done].
Qed.

Lemma python_run content : runs valid_calls (parse_python_tool_calls tool_names content).
Proof.
  unfold parse_python_tool_calls.
  apply runs_bind with (P := fun _ => True); [|intros fenced _; apply python_lines_run].
  apply (string_loop _ (fun _ => True)); [|done]. intros [s c] _. unfold python_fence_step.
  repeat (runs_step; try done). slices. simpl in *. split; [done|]. lia.
Qed.

(** *** JSON objects *)

Lemma first_parsed_valid candidates : valid_calls (first_parsed tool_names candidates).
Proof.
  induction candidates as [|raw l IH]; simpl; [constructor|].
  destruct (try_parse tool_names raw) eqn:E; [|done].
  constructor; [by eapply try_parse_valid|done].
Qed.

Lemma fenced_json_run content : runs valid_calls (fenced_json_calls tool_names content).
Proof.
  unfold fenced_json_calls. apply runs_bind with (P := fun _ => True).
  - apply (string_loop _ (fun _ => True)); [|done]. intros [s c] _. unfold fence_step.
    repeat (runs_step; try done). slices. simpl in *. split; [done|]. lia.
  - intros c _. apply first_parsed_valid.
Qed.

Lemma or_else_run results next :
  valid_calls results -> runs valid_calls next -> runs valid_calls (or_else results next).
Proof. by destruct results. Qed.

Lemma extract_run content : runs valid_calls (extract_calls tool_names content).
Proof.
  unfold extract_calls. eapply runs_bind; [apply tagged_run|]. intros r1 H1.
  eapply runs_bind.
  { apply or_else_run; [done|]. destruct (contains _ _); [apply gemma_run|constructor]. }
  intros r2 H2. eapply runs_bind; [apply or_else_run; [done|apply python_run]|].
  intros r3 H3. apply or_else_run; [done|apply fenced_json_run].
Qed.
End spec.

(** ** Properties of the network providers

    What the OpenAI and Anthropic clients send and how they read what comes
    back, tool calls hidden in text included. *)

(** ** Lemmas *)

Lemma get_object_cons k k' v kvs :
  json_get k (json_object kvs) = None -> k <> k' ->
  json_get k (json_object (kvs ++ [(k', v)])) = None.
Proof.
  unfold json_object. rewrite fold_left_app. simpl. intros Hg Hne.
  by rewrite obj_get_insert_ne.
Qed.

(** A key that is not among those of an object literal. *)
Lemma get_object_none k kvs :
  Forall (fun kv => kv.1 <> k) kvs -> json_get k (json_object kvs) = None.
Proof.
  induction kvs as [|[k' v] kvs IH] using rev_ind; [done|]. intros Hall.
  apply Forall_app in Hall as [Hall Hk]. inversion Hk; subst. apply get_object_cons; auto.
Qed.

Section wire.
Context `{UnicodeTables, Printers, WireLib}.

Lemma get_set_private k k' v j :
  is_private k = true -> is_private k' = false -> json_get k (json_set k' v j) = json_get k j.
Proof. intros. apply json_get_set_ne. by eapply is_private_not. Qed.

Lemma private_ne k k' : is_private k = true -> is_private k' = false -> k' <> k.
Proof. intros Hp Hq ->. by rewrite Hp in Hq. Qed.

Lemma openai_core_public k p req stream :
  is_private k = true -> json_get k (OpenAi.core_payload p req stream) = None.
Proof.
  intros Hk. unfold OpenAi.core_payload.
  assert (Hbase : json_get k (json_object
    [("model", JString (OpenAi.chosen_model p req));
     ("messages", JArray (map OpenAi.wire_message (req_messages req)))]) = None).
  { apply get_object_none. repeat (constructor; [by apply (private_ne k)|]). constructor. }
  destruct (req_tools req), stream, (OpenAi.is_reasoning_model _), (req_temperature req);
    rewrite ?(get_set_private k) by done; exact Hbase.
Qed.

Lemma anthropic_core_public k p req :
  is_private k = true -> json_get k (Anthropic.core_payload p req) = None.
Proof.
  intros Hk. unfold Anthropic.core_payload.
  assert (Hbase : json_get k (json_object
    [("model", JString (Anthropic.chosen_model p req));
     ("max_tokens", json_u64 (default Anthropic.DEFAULT_MAX_TOKENS (req_max_tokens req)));
     ("messages", JArray (omap Anthropic.wire_message (req_messages req)))]) = None).
  { apply get_object_none. repeat (constructor; [by apply (private_ne k)|]). constructor. }
  destruct (req_tools req), (Anthropic.system_texts _), (req_temperature req);
    rewrite ?(get_set_private k) by done; exact Hbase.
Qed.

(** ** Requests *)

(** C12: No private parameter, such as the resolved API key, ever appears in
    the body of a request to either provider. *)
Theorem payloads_hide_private_keys k op ap req stream :
  is_private k = true ->
  json_get k (OpenAi.build_payload op req stream) = None /\
  json_get k (Anthropic.build_payload ap req) = None.
Proof.
  intros Hk. split; apply merge_extras_skips.
  - done.
  - by apply openai_core_public.
  - unfold Anthropic.skip_extra. by rewrite Hk.
  - by apply anthropic_core_public.
Qed.

(** C13: A tool call of the model that the harness recorded is sent back as
    the call it was: reading the request's entry the way a response is read
    gives the id, the name and the arguments again, for OpenAI provided that
    JSON text parses back to the value it was printed from. *)
Theorem recorded_calls_roundtrip tc m :
  records tc m -> json_from_str (json_to_string (tc_args tc)) = Some (tc_args tc) ->
  (exists entry,
     json_get "tool_calls" (OpenAi.wire_message m) = Some (JArray [entry]) /\
     OpenAi.parse_call entry = tc) /\
  (exists texts block,
     json_get "content" (Anthropic.assistant_message m) = Some (JArray (texts ++ [block])) /\
     Anthropic.block_call block = Some tc).
Proof.
  intros (Hr & Hid & Hname & Hin) Hjson. split.
  - unfold OpenAi.wire_message. rewrite Hr, Hid, Hname, Hin. eexists. split; [reflexivity|].
    unfold OpenAi.parse_call, OpenAi.call_entry, str_field. simpl. rewrite Hjson. by destruct tc.
  - unfold Anthropic.assistant_message. rewrite Hid, Hname, Hin. eexists _, _.
    split; [reflexivity|]. simpl. by destruct tc.
Qed.

(** But OpenAI gets the calls of one turn as separate assistant
    messages, each with a single entry: in a turn with several calls an
    assistant message with a call is followed by another assistant message,
    not by the answer to the call. *)
Lemma openai_splits_parallel_calls tc1 tc2 m1 m2 :
  records tc1 m1 -> records tc2 m2 ->
  exists e1 e2,
    json_get "role" (OpenAi.wire_message m1) = Some (JString "assistant") /\
    json_get "tool_calls" (OpenAi.wire_message m1) = Some (JArray [e1]) /\
    json_get "role" (OpenAi.wire_message m2) = Some (JString "assistant") /\
    json_get "tool_calls" (OpenAi.wire_message m2) = Some (JArray [e2]) /\
    str_field "id" "" e1 = tc_id tc1 /\ str_field "id" "" e2 = tc_id tc2.
Proof.
  intros (Hr1 & Hid1 & Hn1 & _) (Hr2 & Hid2 & Hn2 & _). unfold OpenAi.wire_message.
  rewrite Hr1, Hr2, Hid1, Hid2, Hn1, Hn2. eexists _, _. by repeat split.
Qed.

(** ** Schemas *)

(** Every [items] is an object schema. *)
Fixpoint items_ok (v : json) : Prop :=
  match v with
  | JObject m =>
      (fix go m := match m with
        | [] => True
        | (k, x) :: m' => (k = "items" -> OpenAi.is_object x = true) /\ items_ok x /\ go m'
        end) m
  | JArray l => (fix go l := match l with [] => True | x :: l' => items_ok x /\ go l' end) l
  | _ => True
  end.

Lemma sanitize_is_object v :
  OpenAi.is_object (OpenAi.sanitize_tool_schema v) = OpenAi.is_object v.
Proof. by destruct v. Qed.

Lemma sanitize_id v : items_ok v -> OpenAi.sanitize_tool_schema v = v.
Proof.
  induction v as [| | | |l IH|m IH] using json_ind'; simpl; try done.
  - intros Hok. f_equal. induction IH as [|x l Hx _ IHl]; [done|]. destruct Hok.
    rewrite Hx by done. f_equal. by apply IHl.
  - intros Hok. f_equal. induction IH as [|[k x] m Hx _ IHm]; [done|].
    destruct Hok as (Hk & Hok & Hrest). simpl in Hx. rewrite Hx by done. rewrite IHm by done.
    destruct (String.eqb_spec k "items") as [->|]; [|done]. by rewrite Hk.
Qed.

(** A sanitised tool schema has no [items] that is not an object,
    anywhere, and sanitising again changes nothing. *)
Lemma sanitized_schema_is_clean v :
  items_ok (OpenAi.sanitize_tool_schema v) /\
  OpenAi.sanitize_tool_schema (OpenAi.sanitize_tool_schema v) = OpenAi.sanitize_tool_schema v.
Proof.
  assert (Hok : items_ok (OpenAi.sanitize_tool_schema v)); [|by split; [|apply sanitize_id]].
  induction v as [| | | |l IH|m IH] using json_ind'; simpl; try done.
  - induction IH as [|x l Hx _ IHl]; [done|]. by split.
  - induction IH as [|[k x] m Hx _ IHm]; [done|]. simpl in *.
    destruct (String.eqb_spec k "items") as [->|Hne]; simpl.
    + destruct (OpenAi.is_object x) eqn:E; simpl; [|done].
      rewrite sanitize_is_object. by split_and!.
    + by split_and!.
Qed.

(** ** Errors *)

(** No HTTP status is read as a context overflow, so recovery is never
    triggered by these providers; and every failure but 401 and 403 counts as
    transient, a malformed request (400) too. *)
Lemma http_errors_are_transient status body after :
  (status <> 401 /\ status <> 403 <->
   is_transient (OpenAi.map_http_error status body after) = true) /\
  (status <> 401 /\ status <> 403 <->
   is_transient (Anthropic.map_http_error status body) = true) /\
  (forall model tokens limit,
     OpenAi.map_http_error status body after <> LlmError_ContextLengthExceeded model tokens limit /\
     Anthropic.map_http_error status body <> LlmError_ContextLengthExceeded model tokens limit).
Proof.
  unfold OpenAi.map_http_error, Anthropic.map_http_error.
  destruct (Z.eqb_spec status 401), (Z.eqb_spec status 403), (Z.eqb_spec status 429); simpl;
    split_and!; naive_solver.
Qed.

(** ** Tool calls in text *)

(** C14: The search for tool calls in the text of a response always ends,
    and every call it finds has the name of a tool that was sent and an
    object of arguments. *)
Theorem extracted_calls_are_valid names content :
  extract_calls names content <> OutOfFuel /\
  forall calls, extract_calls names content = Done calls ->
    Forall (fun c => c.1 ∈ names /\ OpenAi.is_object c.2 = true) calls.
Proof.
  pose proof (extract_run names content) as Hr. split.
  - intros E. by rewrite E in Hr.
  - intros calls E. by rewrite E in Hr.
Qed.
End wire.

(** A JSON parser that rejects what the three texts below make it read, none
    of which is JSON. *)
#[export] Instance sample_wire : WireLib :=
  {| json_from_str := fun _ => None; parse_f64 := fun _ => None;
     header_name_ok := fun _ => true; header_value_ok := fun _ => true;
     fmt_status := show |}.

Definition unclosed_parameter : string := "<tool_call><function=f><parameter=x>v</tool_call>".
Definition unclosed_quote : string := "<|tool_call>call:f{x:" +:+ QMARK +:+ "v}<tool_call|>".
Definition lone_quote : string := "f(x=')".

(** The search panics on three malformed texts that a model may write:
    an XML parameter without its closing tag, a Gemma string without its
    closing quote and a Python argument that is a lone quote; with the parts
    closed, it finds the call. *)
Lemma extraction_can_panic :
  extract_calls ["f"] unclosed_parameter = Panics /\
  extract_calls ["f"] unclosed_quote = Panics /\
  extract_calls ["f"] lone_quote = Panics /\
  extract_calls ["f"] "<tool_call><function=f><parameter=x>v</parameter></tool_call>" =
    Done [("f", JObject [("x", JString "v")])] /\
  extract_calls ["f"] ("<|tool_call>call:f{x:" +:+ QMARK +:+ "v" +:+ QMARK +:+ "}<tool_call|>") =
    Done [("f", JObject [("x", JString "v")])] /\
  extract_calls ["f"] "f(x='v')" = Done [("f", JObject [("x", JString "v")])].
Proof. vm_compute. by repeat split. Qed.

(** ** Truncation *)

(** A response of the Messages API that hit its token limit. *)
Definition truncated_body : json :=
  json_object
    [("content", JArray [json_object [("type", JString "text"); ("text", JString "The answer is")]]);
     ("stop_reason", JString "max_tokens");
     ("usage", json_object [("input_tokens", json_u64 10); ("output_tokens", json_u64 4096)])].

(** A truncated Anthropic response is taken for a complete answer: the
    kernel looks for the finish reason [length], and the client passes on
    [max_tokens]. *)
Lemma anthropic_truncation_completes :
  resp_finish_reason (Anthropic.parse_response truncated_body) = "max_tokens" /\
  match answer (conversation_execute 4 (sample_ctx 3 None))
          (sample_script [Ok (Anthropic.parse_response truncated_body)] []) with
  | Some (Some (Ok o)) => out_status o = Completed /\ out_output o = "The answer is"
  | _ => False
  end.
Proof. vm_compute. by repeat split. Qed.

(** ** Instances *)

Definition sample_openai : OpenAi.OpenAiProvider := OpenAi.new "gpt-4o" "http://localhost/v1/".
Definition sample_anthropic : Anthropic.AnthropicProvider := Anthropic.new "claude" "http://localhost".

(** A request whose parameters carry a resolved key. *)
Definition keyed_request : CompletionRequest :=
  mkCompletionRequest [] [] None None None
    (json_object [("_resolved_api_key", JString "secret"); ("top_p", json_u64 1)]).

Lemma payloads_hide_private_keys_witness :
  json_get "_resolved_api_key" (OpenAi.build_payload sample_openai keyed_request false) = None /\
  json_get "_resolved_api_key" (Anthropic.build_payload sample_anthropic keyed_request) = None.
Proof. apply (payloads_hide_private_keys "_resolved_api_key"). reflexivity. Defined.

(** A parser for the one text that [sample_printers] prints. *)
Definition parsing_wire : WireLib :=
  {| json_from_str := fun s => if String.eqb s "json" then Some (JObject []) else None;
     parse_f64 := fun _ => None; header_name_ok := fun _ => true;
     header_value_ok := fun _ => true; fmt_status := show |}.

Definition recorded (tc : ToolCall) : Message :=
  set_msg_call tc (mkMessage 7 1 Assistant None None None None None 0).

Lemma recorded_calls_roundtrip_witness :
  (exists entry,
     json_get "tool_calls" (OpenAi.wire_message (recorded (sample_call "c1" "echo"))) =
       Some (JArray [entry]) /\
     @OpenAi.parse_call parsing_wire entry = sample_call "c1" "echo") /\
  (exists texts block,
     json_get "content" (Anthropic.assistant_message (recorded (sample_call "c1" "echo"))) =
       Some (JArray (texts ++ [block])) /\
     Anthropic.block_call block = Some (sample_call "c1" "echo")).
Proof.
  apply (@recorded_calls_roundtrip sample_printers parsing_wire).
  - by repeat split.
  - reflexivity.
Defined.

Lemma openai_splits_parallel_calls_witness :
  exists e1 e2,
    json_get "role" (OpenAi.wire_message (recorded (sample_call "a" "echo"))) =
      Some (JString "assistant") /\
    json_get "tool_calls" (OpenAi.wire_message (recorded (sample_call "a" "echo"))) =
      Some (JArray [e1]) /\
    json_get "role" (OpenAi.wire_message (recorded (sample_call "b" "echo"))) =
      Some (JString "assistant") /\
    json_get "tool_calls" (OpenAi.wire_message (recorded (sample_call "b" "echo"))) =
      Some (JArray [e2]) /\
    str_field "id" "" e1 = "a" /\ str_field "id" "" e2 = "b".
Proof.
  apply (openai_splits_parallel_calls (sample_call "a" "echo") (sample_call "b" "echo"));
    by repeat split.
Defined.
