(* ===== verification/ToolProps.v ===== *)
(** * Properties of the tools

    What the HTTP guard promises, and what bounds the delegation of work to
    other agents. *)

From S2P Require Import Prelude.
From S2P Require Import RustStr.
From S2P Require Import F64.
From S2P Require Import Json.
From S2P Require Import Errors.
From S2P Require Import Types.
From S2P Require Import Net.
From S2P Require Import Effects.
From S2P Require Import Traits.
From S2P Require Import Wire.
From S2P Require Import ToolInput.
From S2P Require Import ToolsHttp.
From S2P Require Import ToolsDelegate.
From S2P Require Import ToolsSpec.
From S2P Require Import Fs.
From S2P Require Import ToolsFs.
From S2P Require Import ToolsFsSpec.
From S2P Require Import Sample.

#[local] Instance sample_wire_lib : WireLib :=
  {| json_from_str := fun _ => None; parse_f64 := fun _ => None;
     header_name_ok := fun _ => true; header_value_ok := fun _ => true; fmt_status := show |}.

(** Every text is the host of an [http] URL. *)
#[local] Instance sample_net_lib : NetLib :=
  {| parse_url := fun s => Ok (mkUrl "http" (Some s) (Some 80)); fmt_ipv6 := fun _ => "v6" |}.

#[local] Instance sample_derive_lib : DeriveLib :=
  {| serde_error := fun _ _ => "bad input"; schema_for := fun _ => JNull |}.

Section http.
Context `{Printers, WireLib, NetLib, DeriveLib}.

(** C15: whatever the arguments, the resolver and the server answer, an HTTP
    tool asks its client library for at most one exchange, as its last step,
    and only with a URL that has an http or https scheme and a host that may
    be sent data and that is allowlisted, or an address that is not blocked,
    or a name all of whose resolved addresses are not blocked.  Redirects
    that the library follows within the exchange are not seen here. *)
Theorem http_tools_send_only_admitted allow egress t input ctx tr r :
  t ∈ [http_get allow egress; http_post allow egress; http_head allow egress] ->
  steps (tool_run t input ctx) tr r -> sends_if_admitted allow egress tr.
Proof.
  intros Ht. rewrite !elem_of_cons in Ht.
  destruct Ht as [->|[->|[->|Ht]]]; [apply derived_sends..|by inversion Ht];
    intros a c tr' r'; by apply guarded_spec.
Qed.

(** C16: for addresses at their width, the blocked ones are exactly those of
    the private, loopback, link-local, documentation, unspecified and
    broadcast networks of IPv4, of their IPv4-mapped images, and of the
    loopback, unspecified, unique-local and link-local networks of IPv6. *)
Theorem blocked_addresses ip :
  ip_wf ip ->
  is_blocked_ip ip = true <->
  in_nets (match ip with V4 _ _ _ _ => blocked_nets_v4 | _ => blocked_nets_v6 end) (ip_value ip).
Proof. apply is_blocked_ip_nets. Qed.

End http.

Lemma http_tools_send_only_admitted_witness :
  sends_if_admitted ∅ None
    [Call (EResolve "example.com" 80) (Ok [V4 93 184 216 34]);
     Call (EFetch (mkFetchRequest "GET" "example.com" [] None))
          (Ok (mkFetchResponse 200 [] (Ok "hello")))].
Proof.
  eapply (http_tools_send_only_admitted ∅ None (http_get ∅ None)
            (json_object [("url", JString "example.com")]) (mkToolCtx 7 None None)
            _ (ToolReturned (Ok (OutJson (json_object [("status", JNumber (PosInt 200));
                                                       ("body", JString "hello")]))))).
  - apply list_elem_of_here.
  - eexists _, _. split; [reflexivity|]. eexists _, _. split; [reflexivity|]. by vm_compute.
Defined.

Lemma blocked_addresses_witness :
  in_nets blocked_nets_v4 (ip_value (V4 169 254 169 254)).
Proof.
  apply (blocked_addresses (V4 169 254 169 254)); [|reflexivity].
  repeat (constructor; [lia|]). constructor.
Defined.

(** ** Delegations *)

Section delegate.
Context `{DeriveLib, FloatPrinter}.

(** C17: in a process with any interleaving of [call_agent] activations, some
    of them dropped, at most four wait for a sub-run or were dropped while
    they did; the counter never wraps, counts each of those at least once and
    no activation twice, and is back to the number of dropped ones when
    nothing is under way. *)
Theorem delegations_are_bounded n s :
  Z.of_nat n + MAX_DELEGATION_DEPTH <= U32_MAX ->
  bounded_reach n pool0 s ->
  Z.of_nat (running s + lost s) <= MAX_DELEGATION_DEPTH /\
  Z.of_nat (running s + lost s) <= depth s <= Z.of_nat (length (live s) + lost s) /\
  (live s = [] -> depth s = Z.of_nat (lost s)).
Proof.
  intros Hn Hr. destruct (delegations_inv n s Hn Hr) as [fs Hinv].
  pose proof (running_let_in _ _ Hinv). pose proof (let_in_owed fs).
  pose proof (bounded_live _ _ _ Hr ltac:(simpl; lia)).
  destruct Hinv as [Hp Hd Hl]. pose proof (Forall2_length _ _ _ Hp).
  rewrite Hd, wrap32_small by (unfold MAX_DELEGATION_DEPTH in *; ulia).
  split; [lia|]. split; [lia|]. intros E. rewrite E in *. simpl in *. lia.
Qed.

(** when a deadline fires while [call_agent] waits for its sub-run, as
    the wall-clock backstop of the calling agent may, the call ends without
    giving its count back: four such drops leave a process with no delegation under way and
    the counter at the limit, and from then on no delegation is ever let
    through. *)
Lemma dropped_delegations_block :
  (forall d o, steps (with_backstop d o
                        (call_agent_run (mkCallAgentTool (Some (Some shared_runtime))) sample_args))
                 [Call (EDepth 1) 0; Call (ERace d (ERuntime "a" "i")) None] (inr o)) /\
  (exists s, bounded_reach 1 pool0 s /\ live s = [] /\ depth s = MAX_DELEGATION_DEPTH /\
             lost s = 4%nat) /\
  forall n s s', Z.of_nat n + MAX_DELEGATION_DEPTH <= U32_MAX ->
    bounded_reach n pool0 s -> lost s = 4%nat -> bounded_reach n s s' -> running s' = 0%nat.
Proof.
  split; [|split].
  - intros d o. eexists _, _. split; [reflexivity|]. by eexists _, _.
  - exists (mkPool 4 [] 4). split; [|done]. by apply (drops_reach 4).
  - intros n s s' Hn Hr Hs Hr'. pose proof (lost_mono _ _ _ Hr').
    destruct (delegations_inv n s' Hn) as [fs Hinv]; [by etrans|].
    pose proof (running_let_in _ _ Hinv). destruct Hinv as [_ _ Hl].
    unfold MAX_DELEGATION_DEPTH in *. lia.
Qed.
End delegate.

#[local] Instance sample_float_printer : FloatPrinter := {| fmt_f64 := fun _ => "1.5" |}.

Lemma delegations_are_bounded_witness : depth (mkPool 2 [] 2) = 2.
Proof.
  refine (proj2 (proj2 (delegations_are_bounded 1 (mkPool 2 [] 2) _ _)) eq_refl).
  - unfold MAX_DELEGATION_DEPTH, U32_MAX. lia.
  - apply (drops_reach 2). lia.
Defined.

Lemma dropped_delegations_block_witness : running (mkPool 4 [] 4) = 0%nat.
Proof.
  apply (proj2 (proj2 dropped_delegations_block) 1%nat (mkPool 4 [] 4));
    [unfold MAX_DELEGATION_DEPTH, U32_MAX; lia|apply (drops_reach 4); lia|reflexivity|apply rtc_refl].
Defined.

(** ** Files *)

Section files.
Context `{DeriveLib, FsLib}.

(** C18: whatever the links in the file system, the text [read_file] returns
    is that of a file below the sandbox root, [edit_file] changes nothing or
    one existing file below the root, replacing in it the only occurrence of
    the text to replace, and [list_files] lists a directory below the root;
    and [grep] ends, although it follows links in a loop. *)
Theorem file_tools_stay_inside sb s input :
  (forall text, (read_file sb s input).1 = Ok (OutText text) ->
     exists q, path_starts_with (root sb) q = true /\ s !! q = Some (File text)) /\
  ((edit_file sb s input).2 = s \/
   exists q c old new, path_starts_with (root sb) q = true /\ s !! q = Some (File c) /\
     count_matches old c = 1%nat /\
     (edit_file sb s input).2 = <[q := File (replace_first old new c)]> s) /\
  (forall out, (list_files sb s input).1 = Ok out ->
     exists q, path_starts_with (root sb) q = true /\ node_at s q = Some Dir /\
       out = OutJson (json_object [("entries", JArray (map (list_entry s q) (children s q)))])) /\
  is_Some (grep sb s input).
Proof.
  split_and!.
  - intros text. apply read_file_inside.
  - apply edit_file_inside.
  - intros out. apply list_files_inside.
  - apply grep_returns.
Qed.
End files.

(** The limit of Linux. *)
#[local] Instance linux_fs : FsLib :=
  {| io_text := fun _ => "io error"; dir_size := fun _ => 4096; max_links := 40 |}.

(** A sandbox at [/srv] with a link to the directory [/etc] and one to a file
    of it that does not exist. *)
Definition linked_fs : file_system :=
  {[ ["srv"] := Dir; ["srv"; "d"] := Symlink "/etc"; ["srv"; "new"] := Symlink "/etc/x";
     ["etc"] := Dir; ["etc"; "pw"] := File "secret" ]}.
Definition srv : FsSandbox := mkFsSandbox ["srv"].

(** the sandbox refuses to read a file through a link that leaves it,
    but [grep] follows the link and returns the line, and [write_file]
    creates the target of a link whose target does not exist, outside. *)
Lemma links_escape_sandbox :
  (read_file srv linked_fs (json_object [("path", JString "d/pw")])).1 =
    Err (ToolError_InvalidInput "read_file" "path escapes sandbox root") /\
  grep srv linked_fs (json_object [("pattern", JString "s"); ("path", JString ".")]) =
    Some (Ok (OutJson (json_object [("matches", JArray
            [json_object [("file", JString "d/pw"); ("line_no", JNumber (PosInt 1));
                          ("line", JString "secret")]])])), linked_fs) /\
  (write_file srv linked_fs (json_object [("path", JString "new"); ("content", JString "evil")])).2 =
    <[["etc"; "x"] := File "evil"]> linked_fs.
Proof. split_and!; vm_compute; reflexivity. Qed.
