(* ===== verification/LlamaCpp.v ===== *)
(** * The llama.cpp provider ([plugins/pg-synapse-provider-llama-cpp])

    [client.rs], [factory.rs] and the coordinates of [download.rs]: chat
    completions and embeddings of a llama-server.  The client's search for
    tool calls in text is line for line the one of the OpenAI client, and is
    translated by the same definitions. *)

From S2P Require Import Prelude.
From S2P Require Import RustStr.
From S2P Require Import F64.
From S2P Require Import Json.
From S2P Require Import Errors.
From S2P Require Import Types.
From S2P Require Import Effects.
From S2P Require Import Traits.
From S2P Require Import LoopHarness.
From S2P Require Import Registry.
From S2P Require Import Runtime.
From S2P Require Import Builder.
From S2P Require Import StrSlice.
From S2P Require Import Wire.
From S2P Require Import OpenAi.
From S2P Require Import OpenAiExtract.
#[local] Open Scope synapse_scope.

(** ** A panic of a provider unwinds its caller *)

Definition unwinding {A} (p : prog (outcome A)) : prog A :=
  o ← p;
  match o with
  | Done a => mret a
  | Panics => raise "byte index out of range"
  | OutOfFuel => raise "out of fuel"
  end.

(** [f as f32] *)
Definition f32_of_f64 (f : f64) : spec_float :=
  match f with
  | S754_finite s m e => binary_normalize 24 128 (cond_Zopp s (Zpos m)) e s
  | _ => f
  end.

Module Llama.

Definition DEFAULT_BASE_URL : string := "http://127.0.0.1:8080/v1".

Section extract.
Context `{UnicodeTables, WireLib}.
Context (tool_names : list string).

Definition parse_llama_xml_function_block (inner : string) : outcome (option RawCall) :=
  OpenAiExtract.parse_xml_function_block tool_names inner.
Definition parse_python_tool_calls (content : string) : outcome (list RawCall) :=
  OpenAiExtract.parse_python_tool_calls tool_names content.
Definition parse_gemma_tool_call (content : string) : outcome (list RawCall) :=
  OpenAiExtract.parse_gemma_tool_call_openai tool_names content.
Definition extract_tool_calls_from_content (content : string) : outcome (list RawCall) :=
  OpenAiExtract.extract_calls tool_names content.
End extract.

(** A counter of its own, read in the same way. *)
Definition llama_uuid_hex : prog string := OpenAiExtract.uuid_v4_hex.

(** ** The chat provider *)

Record LlamaCppProvider := mkLlamaCppProvider {
  lp_base_url : string;
  lp_api_key : option string;
  lp_model : string }.

Definition new (model base_url : string) : LlamaCppProvider :=
  mkLlamaCppProvider (strip_trailing_slash base_url) None model.
Definition with_api_key (key : string) (p : LlamaCppProvider) : LlamaCppProvider :=
  mkLlamaCppProvider (lp_base_url p) (Some key) (lp_model p).

Section client.
Context `{UnicodeTables, Printers, WireLib}.

Definition build_headers (p : LlamaCppProvider) : result (gmap string string) LlmError :=
  let h : gmap string string := {["content-type" := "application/json"]} in
  match lp_api_key p with
  | Some k =>
      if header_value_ok ("Bearer " +:+ k)
      then Ok (<["authorization" := "Bearer " +:+ k]> h) else Err (LlmError_Auth "llama-cpp")
  | None => Ok h
  end.

(** As the OpenAI client writes a message, but for the content of a recorded
    call, which is never null. *)
Definition wire_message (m : Message) : json :=
  match msg_role m, msg_tool_call_id m, msg_tool_name m with
  | Tool, _, _ => OpenAi.tool_message m
  | Assistant, Some id, Some name =>
      json_object
        [("role", JString "assistant"); ("content", JString (default "" (msg_content m)));
         ("tool_calls", JArray [OpenAi.call_entry id name (msg_tool_input m)])]
  | r, _, _ =>
      json_object
        [("role", JString (OpenAi.role_name r)); ("content", json_option JString (msg_content m))]
  end.

Definition chosen_model (p : LlamaCppProvider) (req : CompletionRequest) : string :=
  match req_model req with
  | Some m => if is_empty m then lp_model p else m
  | None => lp_model p
  end.

Definition wire_tool (td : ToolDefinition) : json :=
  json_object [("type", JString "function"); ("function", to_openai_function td)].

Definition core_payload (p : LlamaCppProvider) (req : CompletionRequest) (stream : bool) : json :=
  let payload := json_object
    [("model", JString (chosen_model p req));
     ("messages", JArray (map wire_message (req_messages req)))] in
  let payload := match req_temperature req with
                 | Some t => json_set "temperature" (json_f64 t) payload
                 | None => payload
                 end in
  let payload := match req_max_tokens req with
                 | Some n => json_set "max_tokens" (json_u64 n) payload
                 | None => payload
                 end in
  let payload := if stream then json_set "stream" (JBool true) payload else payload in
  match req_tools req with
  | [] => payload
  | tools => json_set "tools" (JArray (map wire_tool tools)) payload
  end.

Definition build_payload (p : LlamaCppProvider) (req : CompletionRequest) (stream : bool) : json :=
  merge_extras is_private (req_params req) (core_payload p req stream).

Definition map_http_error (status : Z) (body : string) : LlmError :=
  if (status =? 401) || (status =? 403) then LlmError_Auth "llama-cpp"
  else if status =? 429 then LlmError_RateLimited "llama-cpp" None
  else LlmError_Provider "llama-cpp" ("HTTP " +:+ fmt_status status +:+ ": " +:+ body).

(** The part of [complete] that reads the body, up to the fallback on text. *)
Definition parse_body (body : json) : result CompletionResponse LlmError :=
  first <-? ok_or (json_get "choices" body ≫= json_first)
              (LlmError_Provider "llama-cpp" "no choices in response") ;;
  message <-? ok_or (json_get "message" first)
                (LlmError_Provider "llama-cpp" "no message in choice[0]") ;;
  let usage := default JNull (json_get "usage" body) in
  Ok (mkCompletionResponse (json_get "content" message ≫= as_str)
        (map OpenAi.parse_call (default [] (json_get "tool_calls" message ≫= as_array)))
        (str_field "finish_reason" "stop" first)
        (mkUsage (u32_field "prompt_tokens" usage) (u32_field "completion_tokens" usage) None)).

Definition complete (p : LlamaCppProvider) (req : CompletionRequest)
  : prog (outcome (result CompletionResponse LlmError)) :=
  match build_headers p with
  | Err e => mret (Done (Err e))
  | Ok headers =>
      r ← perform (EHttp (mkHttpRequest "POST" (lp_base_url p +:+ "/chat/completions") headers
                            (Some (build_payload p req false))));
      match r with
      | Err e => mret (Done (Err (LlmError_Network e)))
      | Ok resp =>
          if is_success (http_status resp) then
            match http_json resp with
            | Err e => mret (Done (Err (LlmError_Provider "llama-cpp" ("invalid JSON: " +:+ e))))
            | Ok body =>
                match parse_body body with
                | Err e => mret (Done (Err e))
                | Ok parsed =>
                    match fallback_calls req parsed with
                    | Done [] => mret (Done (Ok parsed))
                    | Done calls =>
                        tcs ← with_ids calls; mret (Done (Ok (set_resp_calls tcs parsed)))
                    | Panics => mret Panics
                    | OutOfFuel => mret OutOfFuel
                    end
                end
            end
          else mret (Done (Err (map_http_error (http_status resp) (http_text resp))))
      end
  end.

(** [LlmProvider] with the trait's default capabilities: the type does not
    override them. *)
Definition provider (p : LlamaCppProvider) : LlmProvider :=
  {| llm_complete := fun req => unwinding (complete p req);
     llm_model_name := lp_model p;
     llm_capabilities := ProviderCapabilities_default |}.

(** Streaming is refused. *)
Definition stream (req : CompletionRequest) : result json LlmError :=
  Err (LlmError_Provider "llama-cpp" "streaming not implemented in v0.1; use complete()").

(** ** The embedding provider *)

Record LlamaCppEmbeddingProvider := mkLlamaCppEmbeddingProvider {
  le_base_url : string;
  le_model : string;
  le_dimension : Z;
  le_api_key : option string }.

Definition new_embedding (model base_url : string) (dimension : Z) : LlamaCppEmbeddingProvider :=
  mkLlamaCppEmbeddingProvider (strip_trailing_slash base_url) model dimension None.
Definition embedding_with_api_key (key : string) (p : LlamaCppEmbeddingProvider)
  : LlamaCppEmbeddingProvider :=
  mkLlamaCppEmbeddingProvider (le_base_url p) (le_model p) (le_dimension p) (Some key).

Definition embedding_headers (p : LlamaCppEmbeddingProvider)
  : result (gmap string string) EmbeddingError :=
  let h : gmap string string := {["content-type" := "application/json"]} in
  match le_api_key p with
  | Some k =>
      if header_value_ok ("Bearer " +:+ k)
      then Ok (<["authorization" := "Bearer " +:+ k]> h)
      else Err (EmbeddingError_Provider "invalid api key")
  | None => Ok h
  end.

(** [v.as_f64().unwrap_or(0.0) as f32] *)
Definition json_f32 (v : json) : spec_float := f32_of_f64 (default f64_zero (as_f64 v)).

(** The loop over the vectors of a response, from index [i]. *)
Fixpoint read_vectors (dimension : Z) (i : Z) (data : list json)
  : result (list EmbeddingVector) EmbeddingError :=
  match data with
  | [] => Ok []
  | item :: rest =>
      arr <-? ok_or (json_get "embedding" item ≫= as_array)
                (EmbeddingError_Provider ("no embedding array at data[" +:+ show i +:+ "]")) ;;
      let floats := map json_f32 arr in
      let n := Z.of_nat (length floats) in
      if n =? dimension
      then vs <-? read_vectors dimension (i + 1) rest ;; Ok (floats :: vs)
      else Err (EmbeddingError_DimensionMismatch dimension n)
  end.

Definition embed (p : LlamaCppEmbeddingProvider) (texts : list string)
  : prog (result (list EmbeddingVector) EmbeddingError) :=
  match embedding_headers p with
  | Err e => mret (Err e)
  | Ok headers =>
      r ← perform (EHttp (mkHttpRequest "POST" (le_base_url p +:+ "/embeddings") headers
             (Some (json_object [("input", JArray (map JString texts));
                                 ("model", JString (le_model p))]))));
      mret (match r with
            | Err e => Err (EmbeddingError_Network e)
            | Ok resp =>
                if is_success (http_status resp) then
                  match http_json resp with
                  | Err e => Err (EmbeddingError_Provider ("invalid JSON: " +:+ e))
                  | Ok parsed =>
                      data <-? ok_or (json_get "data" parsed ≫= as_array)
                                 (EmbeddingError_Provider "no data array in response") ;;
                      read_vectors (le_dimension p) 0 data
                  end
                else
                  Err (EmbeddingError_Provider
                         ("HTTP " +:+ fmt_status (http_status resp) +:+ ": " +:+ http_text resp))
            end)
  end.

Definition embedding_provider (p : LlamaCppEmbeddingProvider) : EmbeddingProvider :=
  {| embed_texts := embed p; embed_dimension := le_dimension p; embed_model_name := le_model p |}.

(** ** Factories ([factory.rs]) *)

Definition column_or_params (base_url : option string) (params : json) : string :=
  match base_url with
  | Some u => u
  | None => default DEFAULT_BASE_URL (json_get "base_url" params ≫= as_str)
  end.

Definition resolved_or_raw_key (params : json) : option string :=
  match json_get "_resolved_api_key" params ≫= as_str with
  | Some k => Some k
  | None => json_get "api_key" params ≫= as_str
  end.

Definition factory_build (profile : LlmProfileRow) : LlamaCppProvider :=
  let p := new (llm_model profile) (column_or_params (llm_base_url profile) (llm_params profile)) in
  match resolved_or_raw_key (llm_params profile) with Some k => with_api_key k p | None => p end.

Definition embedding_factory_build (profile : EmbeddingProfileRow) : LlamaCppEmbeddingProvider :=
  let p := new_embedding (emb_model profile)
             (column_or_params (emb_base_url profile) (emb_params profile))
             (emb_dimension profile) in
  match resolved_or_raw_key (emb_params profile) with
  | Some k => embedding_with_api_key k p
  | None => p
  end.

Definition factory : LlmProviderFactory :=
  {| llm_provider_name := "llama-cpp";
     llm_build := fun profile => Ok (provider (factory_build profile)) |}.
Definition embedding_factory : EmbeddingProviderFactory :=
  {| emb_provider_name := "llama-cpp";
     emb_build := fun profile => Ok (embedding_provider (embedding_factory_build profile)) |}.
End client.

(** ** Models to download ([download.rs]) *)

Definition granite_micro : string * string * string :=
  ("lmstudio-community/granite-3.0-2b-instruct-GGUF", "granite-3.0-2b-instruct-Q4_K_M.gguf", "main").
Definition granite_micro_fallback : string * string * string :=
  ("bartowski/granite-3.1-2b-instruct-GGUF", "granite-3.1-2b-instruct-Q4_K_M.gguf", "main").
End Llama.
