(* ===== verification/ToolsSql.v ===== *)
(** * The SQL tools ([plugins/pg-synapse-tools-sql/src/lib.rs])

    [sql_query], [sql_exec] and [describe_schema] over an executor that the
    host supplies, the record [SqlExecutor], and the two executors the crate
    ships for tests. *)

From S2P Require Import Prelude.
From S2P Require Import RustStr.
From S2P Require Import F64.
From S2P Require Import Json.
From S2P Require Import Errors.
From S2P Require Import Types.
From S2P Require Import Effects.
From S2P Require Import Traits.
From S2P Require Import LoopHarness.
From S2P Require Import Registry.
From S2P Require Import StrSlice.
From S2P Require Import Wire.
From S2P Require Import ToolInput.

(** The trait [SqlExecutor]: statement, parameters, role and execution id. *)
Record SqlExecutor := mkSqlExecutor {
  sx_query : string -> list json -> option string -> option string
    -> prog (result (list json) ToolError);
  sx_execute : string -> list json -> option string -> option string
    -> prog (result Z ToolError) }.

Definition SQL_QUERY : string := "sql_query".
Definition SQL_EXEC : string := "sql_exec".
Definition DESCRIBE_SCHEMA : string := "describe_schema".

Definition QUERY_KEYS : list string :=
  ["query"; "sql"; "q"; "statement"; "stmt"; "command"; "sql_query"; "sql_statement";
   "querystring"; "select"].
Definition EXEC_KEYS : list string :=
  ["query"; "statement"; "sql"; "q"; "stmt"; "command"; "sql_exec"; "sql_statement";
   "sql_query"; "querystring"].

(** Both argument structs. *)
Record SqlArgs := mkSqlArgs { sa_query : string; sa_params : list json }.

Section sql_tools.
Context `{Printers, WireLib, DeriveLib}.

Definition deserialize_lenient_params (v : json) : list json :=
  match v with
  | JNull => []
  | JArray arr => arr
  | JString s =>
      match json_from_str s with
      | Some (JArray arr) => arr
      | Some scalar => [scalar]
      | None => [JString s]
      end
  | other => [other]
  end.

Definition read_sql_args (keys : list string) (v : json) : option SqlArgs :=
  fs ← aliased_fields [keys; ["params"]] v;
  match fs with
  | [q; p] =>
      query ← string_field q;
      Some (mkSqlArgs query (from_option deserialize_lenient_params [] p))
  | _ => None
  end.

(** [serde_json::from_value::<Args>(input).map_err(InvalidInput)?] and the run. *)
Definition sql_tool {A} (name : string) (read : json -> option A)
    (body : A -> ToolCtx -> prog (result ToolOutput ToolError)) : ToolObj :=
  derive_tool name read body.

Section with_executor.
Context (executor : SqlExecutor).

Definition sql_query_run (args : SqlArgs) (ctx : ToolCtx) : prog (result ToolOutput ToolError) :=
  r ← sx_query executor (sa_query args) (sa_params args) (tctx_caller_role ctx)
        (Some (fmt_uuid (tctx_execution_id ctx)));
  mret (match r with Ok rows => Ok (OutJson (JArray rows)) | Err e => Err e end).

Definition sql_exec_run (args : SqlArgs) (ctx : ToolCtx) : prog (result ToolOutput ToolError) :=
  r ← sx_execute executor (sa_query args) (sa_params args) (tctx_caller_role ctx)
        (Some (fmt_uuid (tctx_execution_id ctx)));
  mret (match r with
        | Ok n => Ok (OutJson (json_object [("rows_affected", json_u64 n)]))
        | Err e => Err e
        end).

(** [DescribeSchemaArgs]: an optional string under three names. *)
Definition read_describe (v : json) : option (option string) :=
  fs ← aliased_fields [["schema"; "name"; "schema_name"]] v;
  match fs with
  | [None] | [Some JNull] => Some None
  | [Some (JString s)] => Some (Some s)
  | _ => None
  end.

Definition DESCRIBE_SQL : string :=
  "SELECT jsonb_build_object( "
     +:+ "'tables', COALESCE((SELECT jsonb_agg(s.t) FROM ( "
     +:+ "SELECT jsonb_build_object( "
     +:+ "'schema', c.table_schema, 'table', c.table_name, "
     +:+ "'columns', jsonb_agg(jsonb_build_object( "
     +:+ "'name', c.column_name, 'type', c.data_type, "
     +:+ "'nullable', c.is_nullable = 'YES') ORDER BY c.ordinal_position)) AS t "
     +:+ "FROM information_schema.columns c "
     +:+ "WHERE c.table_schema NOT IN ('pg_catalog','information_schema') "
     +:+ "AND ($1::text IS NULL OR c.table_schema = $1::text) "
     +:+ "GROUP BY c.table_schema, c.table_name) s), '[]'::jsonb), "
     +:+ "'primary_keys', COALESCE((SELECT jsonb_agg(jsonb_build_object( "
     +:+ "'schema', tc.table_schema, 'table', tc.table_name, 'column', kcu.column_name)) "
     +:+ "FROM information_schema.table_constraints tc "
     +:+ "JOIN information_schema.key_column_usage kcu "
     +:+ "ON tc.constraint_name = kcu.constraint_name AND tc.table_schema = kcu.table_schema "
     +:+ "WHERE tc.constraint_type = 'PRIMARY KEY' "
     +:+ "AND tc.table_schema NOT IN ('pg_catalog','information_schema') "
     +:+ "AND ($1::text IS NULL OR tc.table_schema = $1::text)), '[]'::jsonb), "
     +:+ "'foreign_keys', COALESCE((SELECT jsonb_agg(jsonb_build_object( "
     +:+ "'schema', tc.table_schema, 'from_table', tc.table_name, "
     +:+ "'from_column', kcu.column_name, 'to_table', ccu.table_name, "
     +:+ "'to_column', ccu.column_name)) "
     +:+ "FROM information_schema.table_constraints tc "
     +:+ "JOIN information_schema.key_column_usage kcu "
     +:+ "ON tc.constraint_name = kcu.constraint_name AND tc.table_schema = kcu.table_schema "
     +:+ "JOIN information_schema.constraint_column_usage ccu "
     +:+ "ON tc.constraint_name = ccu.constraint_name "
     +:+ "WHERE tc.constraint_type = 'FOREIGN KEY' "
     +:+ "AND tc.table_schema NOT IN ('pg_catalog','information_schema') "
     +:+ "AND ($1::text IS NULL OR tc.table_schema = $1::text)), '[]'::jsonb) "
     +:+ ") AS shape".

Definition schema_param (schema : option string) : json :=
  match schema with
  | Some s => let t := trim s in if is_empty t then JNull else JString t
  | None => JNull
  end.

Definition describe_schema_run (schema : option string) (ctx : ToolCtx)
  : prog (result ToolOutput ToolError) :=
  r ← sx_query executor DESCRIBE_SQL [schema_param schema] (tctx_caller_role ctx)
        (Some (fmt_uuid (tctx_execution_id ctx)));
  mret (match r with
        | Ok rows => Ok (OutJson (default JNull (head rows ≫= json_get "shape")))
        | Err e => Err e
        end).

Definition SqlQueryTool : ToolObj := sql_tool SQL_QUERY (read_sql_args QUERY_KEYS) sql_query_run.
Definition SqlExecTool : ToolObj := sql_tool SQL_EXEC (read_sql_args EXEC_KEYS) sql_exec_run.
Definition DescribeSchemaTool : ToolObj :=
  sql_tool DESCRIBE_SCHEMA read_describe describe_schema_run.

Definition SqlToolsPlugin_register (r : Registry) : Registry :=
  mkRegistry
    (ToolReg.add_arc DESCRIBE_SCHEMA DescribeSchemaTool
      (ToolReg.add_arc SQL_EXEC SqlExecTool
        (ToolReg.add_arc SQL_QUERY SqlQueryTool (reg_tools r))))
    (reg_executors r) (reg_llm_factories r) (reg_embedding_factories r) (reg_memory r)
    (reg_compressor r).
End with_executor.
End sql_tools.

(** ** The executors of the module [testing] *)

(** [MemorySqlExecutor]: rows by table, in order of insertion. *)
Abbreviation tables := (gmap string (list json)).

Definition mem_rows (t : tables) (table : string) : list json := default [] (t !! table).
Definition mem_insert_row (table : string) (row : json) (t : tables) : tables :=
  <[table := mem_rows t table ++ [row]]> t.

(** [rest.split_whitespace().next().unwrap_or("")] *)
Fixpoint take_while {A} (p : A -> bool) (l : list A) : list A :=
  match l with [] => [] | x :: l' => if p x then x :: take_while p l' else [] end.
Definition first_word (s : string) : string :=
  of_chars (take_while (fun c => negb (is_whitespace c)) (drop_while is_whitespace (chars s))).

Section memory_executor.
Context `{UnicodeTables}.

Definition mem_query (sql : string) (t : tables) : result (list json) ToolError :=
  match strip_prefix "select * from " (to_lowercase (trim sql)) with
  | Some rest => Ok (mem_rows t (first_word rest))
  | None =>
      Err (ToolError_Execution SQL_QUERY
             "MemorySqlExecutor only supports `SELECT * FROM <table>` in tests")
  end.

Definition mem_execute (sql : string) (params : list json) (t : tables)
  : result Z ToolError * tables :=
  let refused :=
    Err (ToolError_Execution SQL_EXEC
           "MemorySqlExecutor only supports `INSERT INTO <table> VALUES ($1)` in tests") in
  match strip_prefix "insert into " (to_lowercase (trim sql)) with
  | Some rest =>
      match params with
      | row :: _ => (Ok 1, mem_insert_row (first_word rest) row t)
      | [] => (refused, t)
      end
  | None => (refused, t)
  end.
End memory_executor.

(** [RecordingSqlExecutor]: every call, in order. *)
Record RecordedCall := mkRecordedCall {
  rc_sql : string; rc_params : list json; rc_caller_role : option string }.
Record RecordingSqlExecutor := mkRecording {
  query_calls : list RecordedCall; execute_calls : list RecordedCall }.

Definition recording_query (sql : string) (params : list json) (role : option string)
    (r : RecordingSqlExecutor) : result (list json) ToolError * RecordingSqlExecutor :=
  (Ok [], mkRecording (query_calls r ++ [mkRecordedCall sql params role]) (execute_calls r)).
Definition recording_execute (sql : string) (params : list json) (role : option string)
    (r : RecordingSqlExecutor) : result Z ToolError * RecordingSqlExecutor :=
  (Ok 0, mkRecording (query_calls r) (execute_calls r ++ [mkRecordedCall sql params role])).
