(* ===== verification/ToolsLoad.v ===== *)
(** * The file loaders ([plugins/pg-synapse-tools-loadfile/src/lib.rs])

    [load_csv], [load_json] and [load_url] put records into a table of text
    columns through a [SqlExecutor]; [export_csv] writes the rows of a query
    to a file of the sandbox; the plugin registers the four. *)

From S2P Require Import Prelude.
From S2P Require Import RustStr.
From S2P Require Import F64.
From S2P Require Import Json.
From S2P Require Import Errors.
From S2P Require Import Types.
From S2P Require Import Net.
From S2P Require Import Effects.
From S2P Require Import Traits.
From S2P Require Import LoopHarness.
From S2P Require Import StrSlice.
From S2P Require Import Wire.
From S2P Require Import ToolInput.
From S2P Require Import ToolsHttp.
From S2P Require Import Fs.
From S2P Require Import ToolsFs.
From S2P Require Import ToolsSql.

(** The CSV library: the header row and the other records of a text, a writer
    that rows are added to and what it holds at the end.  And the wording of
    a JSON syntax error. *)
Class LoadLib := {
  csv_headers : string -> result (list string) string;
  csv_records : string -> list (result (list string) string);
  csv_writer : Type;
  csv_new : csv_writer;
  csv_write_record : csv_writer -> list string -> result csv_writer string;
  csv_into_inner : csv_writer -> result string string;
  json_error : string -> string }.

(** ** Names and batches *)

Definition BATCH_ROWS : Z := 500.

Definition rows_per_batch (columns : Z) : Z :=
  if columns =? 0 then BATCH_ROWS
  else Z.max (Z.min BATCH_ROWS (60000 / Z.max columns 1)) 1.

Definition is_ascii_alphabetic (c : string) : bool :=
  match c with
  | String a "" => in_range 65 90 (byte_of a) || in_range 97 122 (byte_of a)
  | _ => false
  end.
Definition is_ascii_alphanumeric (c : string) : bool :=
  is_ascii_alphabetic c || match c with String a "" => in_range 48 57 (byte_of a) | _ => false end.

(** The loop over the characters of a header. *)
Fixpoint clean_name (cs : list string) (cleaned : string) : string :=
  match cs with
  | [] => cleaned
  | c :: cs' =>
      clean_name cs'
        (if is_ascii_alphanumeric c then cleaned +:+ c
         else if negb (ends_with cleaned "_") then cleaned +:+ "_"
         else cleaned)
  end.

(** [s.trim_matches(c)] *)
Definition trim_matches (c s : string) : string :=
  of_chars (reverse (drop_while (String.eqb c) (reverse (drop_while (String.eqb c) (chars s))))).

Definition quote_ident (name : string) : string :=
  String dquote (double dquote name) +:+ String dquote "".

Definition quote_table (raw tool : string) : result string ToolError :=
  let parts := split_on "." raw in
  if Nat.ltb 2 (length parts) || existsb (fun p => is_empty (trim p)) parts then
    Err (ToolError_InvalidInput tool
           ("table must be " +:+ quote_ident "name" +:+ " or " +:+ quote_ident "schema.name"
              +:+ ", got " +:+ String dquote raw +:+ String dquote ""))
  else Ok (join "." (map (fun p => quote_ident (trim p)) parts)).

Abbreviation row := (list (option string)).
Abbreviation record := (list (string * json)).

Section load.
Context `{UnicodeTables}.

Definition to_column_name (raw : string) (index : nat) : string :=
  let cleaned := clean_name (chars (to_lowercase (trim raw))) "" in
  let trimmed := trim_matches "_" cleaned in
  if is_empty trimmed
     || negb (match chars trimmed with c :: _ => is_ascii_alphabetic c | [] => false end)
  then "col_" +:+ show (Z.of_nat index + 1)
  else take_chars 63 trimmed.

Context `{Printers, WireLib, DeriveLib, NetLib, FsLib, LoadLib}.

(** ** Arguments *)

Record LoadArgs := mkLoadArgs { la_path : string; la_table : string; la_replace : bool }.

Definition LOAD_PATH : list string := ["path"; "file"; "filename"].
Definition LOAD_TABLE : list string := ["table"; "target"; "into"].

Definition read_load (v : json) : option LoadArgs :=
  fs ← aliased_fields [LOAD_PATH; LOAD_TABLE; ["replace"]] v;
  match fs with
  | [p; t; r] =>
      path ← string_field p; table ← string_field t; replace ← bool_or false r;
      Some (mkLoadArgs path table replace)
  | _ => None
  end.

Record ExportArgs := mkExportArgs { ea_query : string; ea_path : string }.

Definition read_export (v : json) : option ExportArgs :=
  fs ← aliased_fields [["query"; "sql"; "statement"]; LOAD_PATH] v;
  match fs with
  | [q; p] => query ← string_field q; path ← string_field p; Some (mkExportArgs query path)
  | _ => None
  end.

Record LoadUrlArgs := mkLoadUrlArgs {
  lu_url : string; lu_table : string; lu_path : option string; lu_replace : bool }.

Definition read_load_url (v : json) : option LoadUrlArgs :=
  fs ← aliased_fields [["url"]; LOAD_TABLE; ["path"]; ["replace"]] v;
  match fs with
  | [u; t; p; r] =>
      url ← string_field u; table ← string_field t; path ← opt_string_field p;
      replace ← bool_or false r; Some (mkLoadUrlArgs url table path replace)
  | _ => None
  end.

(** ** Staging *)

(** [rows.chunks(n)]; [fuel] is the number of rows. *)
Fixpoint chunks (fuel n : nat) (rows : list row) : list (list row) :=
  match fuel, rows with
  | S fuel, _ :: _ => take n rows :: chunks fuel n (drop n rows)
  | _, _ => []
  end.

Definition create_sql (qualified : string) (columns : list string) : string :=
  "CREATE TABLE IF NOT EXISTS " +:+ qualified +:+ " ("
    +:+ join ", " (map (fun c => quote_ident c +:+ " text") columns) +:+ ")".
Definition delete_sql (qualified : string) : string := "DELETE FROM " +:+ qualified.

(** The placeholders of one row from [n] on, those of a batch, the values
    bound. *)
Definition row_slots (columns : nat) (n : Z) : string :=
  "(" +:+ join ", " (map (fun i => "$" +:+ show (n + Z.of_nat i)) (seq 0 columns)) +:+ ")".
Fixpoint placeholders (columns : nat) (n : Z) (chunk : list row) : list string :=
  match chunk with
  | [] => []
  | _ :: rest => row_slots columns n :: placeholders columns (n + Z.of_nat columns) rest
  end.
Definition cell_param (c : option string) : json :=
  match c with Some v => JString v | None => JNull end.
Definition row_params (columns : nat) (r : row) : list json :=
  map (fun i => cell_param (mjoin (r !! i))) (seq 0 columns).

Definition insert_sql (qualified : string) (columns : list string) (chunk : list row) : string :=
  "INSERT INTO " +:+ qualified +:+ " (" +:+ join ", " (map quote_ident columns) +:+ ") VALUES "
    +:+ join ", " (placeholders (length columns) 1 chunk).

Section with_executor.
Context (sql : SqlExecutor) (ctx : ToolCtx).

Definition execute_in (stmt : string) (params : list json) : prog (result Z ToolError) :=
  sx_execute sql stmt params (tctx_caller_role ctx) (Some (fmt_uuid (tctx_execution_id ctx))).

Fixpoint insert_chunks (qualified : string) (columns : list string) (cs : list (list row))
    (total : Z) : prog (result Z ToolError) :=
  match cs with
  | [] => mret (Ok total)
  | chunk :: rest =>
      prog_try (execute_in (insert_sql qualified columns chunk)
                  (flat_map (row_params (length columns)) chunk))
        (fun n => insert_chunks qualified columns rest (wrap64 (total + n)))
  end.

Definition stage_rows (tool table : string) (columns : list string) (rows : list row)
    (replace : bool) : prog (result Z ToolError) :=
  match quote_table table tool with
  | Err e => mret (Err e)
  | Ok qualified =>
      prog_try (execute_in (create_sql qualified columns) [])
        (fun _ =>
           prog_try (if replace then execute_in (delete_sql qualified) [] else mret (Ok 0))
             (fun _ =>
                insert_chunks qualified columns
                  (chunks (length rows)
                     (Z.to_nat (rows_per_batch (Z.of_nat (length columns)))) rows) 0))
  end.
End with_executor.

Definition describe (table : string) (columns : list string) (rows : Z) : ToolOutput :=
  OutJson (json_object
    [("table", JString table);
     ("columns", JArray (map JString columns));
     ("rows_loaded", json_u64 rows);
     ("next", JString ("Every column is text. Transform with a single INSERT ... SELECT ... FROM "
                         +:+ table +:+ ", casting as needed. Do not re-read the file."))]).

Definition column_names (headers : list string) : list string :=
  imap (fun i h => to_column_name h i) headers.

(** ** Records *)

(** The union of the keys, in the order in which they are first seen. *)
Definition add_key (keys : list string) (k : string) : list string :=
  if existsb (String.eqb k) keys then keys else keys ++ [k].
Definition union_keys (records : list record) : list string :=
  fold_left (fun keys rec => fold_left add_key (map fst rec) keys) records [].

Definition record_cell (rec : record) (k : string) : option string :=
  match obj_get k rec with
  | None | Some JNull => None
  | Some (JString s) => Some s
  | Some other => Some (json_to_string other)
  end.

Definition shape_records (records : list record) : list string * list row :=
  let keys := union_keys records in
  (column_names keys, map (fun rec => map (record_cell rec) keys) records).

Definition as_object (v : json) : option record :=
  match v with JObject m => Some m | _ => None end.

Definition load_error {A} (tool reason : string) : result A ToolError :=
  Err (ToolError_Execution tool reason).

Definition parse_json (prefix s : string) : result json ToolError :=
  match json_from_str s with
  | Some v => Ok v
  | None => load_error "load_json" (prefix +:+ json_error s)
  end.

Fixpoint objects (vs : list json) : result (list record) ToolError :=
  match vs with
  | [] => Ok []
  | v :: vs' =>
      match as_object v with
      | None => load_error "load_json" "every array element must be an object"
      | Some m => (ms <-? objects vs';; Ok (m :: ms))%syn
      end
  end.

Fixpoint parse_lines (i : Z) (ls : list string) : result (list record) ToolError :=
  match ls with
  | [] => Ok []
  | l :: ls' =>
      let line := trim l in
      if is_empty line then parse_lines (i + 1) ls'
      else
        (v <-? parse_json ("invalid JSON on line " +:+ show (i + 1) +:+ ": ") line;;
         match as_object v with
         | None => load_error "load_json" ("line " +:+ show (i + 1) +:+ " is not an object")
         | Some m => ms <-? parse_lines (i + 1) ls';; Ok (m :: ms)
         end)%syn
  end.

(** [str::trim_start] *)
Definition trim_start (s : string) : string := of_chars (drop_while is_whitespace (chars s)).

Definition parse_records (text : string) : result (list record) ToolError :=
  let trimmed := trim_start text in
  if starts_with trimmed "[" then
    (parsed <-? parse_json "invalid JSON: " trimmed;;
     match as_array parsed with
     | Some arr => objects arr
     | None => load_error "load_json" "expected an array of objects"
     end)%syn
  else parse_lines 0 (lines text).

(** [body.get(key)]: a key of an object. *)
Definition extract_array (body : json) (path : option string) : result (list json) ToolError :=
  (target <-? (match path with
               | Some key =>
                   match json_get key body with
                   | Some v => Ok v
                   | None =>
                       load_error "load_url"
                         ("the response has no key " +:+ String dquote key +:+ String dquote "")
                   end
               | None => Ok body
               end);;
   match as_array target with
   | Some l => Ok l
   | None =>
       load_error "load_url"
         (match path with
          | Some k => String dquote k +:+ String dquote " is not an array"
          | None =>
              "the response is not an array; pass `path` naming the key that holds it"
          end)
   end)%syn.

(** ** The tools *)

(** [std::fs::read] *)
Definition read_bytes (s : file_system) (p : path) : result string io_error :=
  match metadata s p with
  | Some (_, File content) => Ok content
  | Some (_, Dir) => Err IsADirectory
  | _ => Err NotFound
  end.

Definition read_or_fail {A} (tool arg : string) (r : result A io_error) : result A ToolError :=
  match r with
  | Ok a => Ok a
  | Err e => load_error tool ("could not read " +:+ arg +:+ ": " +:+ io_text e)
  end.

Definition csv_failed {A} (tool prefix : string) (r : result A string) : result A ToolError :=
  match r with Ok a => Ok a | Err e => load_error tool (prefix +:+ e) end.

(** A cell of a CSV record, and the record at the width of the header. *)
Definition csv_cell (v : string) : option string :=
  let v := trim v in if is_empty v then None else Some v.
Definition csv_row (columns : nat) (rec : list string) : row :=
  take columns (map csv_cell rec ++ replicate (columns - length rec) None).

Fixpoint csv_rows (columns : nat) (recs : list (result (list string) string))
  : result (list row) ToolError :=
  match recs with
  | [] => Ok []
  | rec :: recs' =>
      (r <-? csv_failed "load_csv" "malformed row: " rec;;
       rs <-? csv_rows columns recs';;
       Ok (csv_row columns r :: rs))%syn
  end.

(** The columns and rows of a CSV text. *)
Definition csv_table (bytes : string) : result (list string * list row) ToolError :=
  (headers <-? csv_failed "load_csv" "could not read the header row: " (csv_headers bytes);;
   let columns := column_names headers in
   if Nat.eqb (length columns) 0 then load_error "load_csv" "the file has no header row"
   else rows <-? csv_rows (length columns) (csv_records bytes);; Ok (columns, rows))%syn.

(** Stage what was read and describe it. *)
Definition stage_and_describe (sql : SqlExecutor) (ctx : ToolCtx) (tool table : string)
    (replace : bool) (t : list string * list row) : prog (result ToolOutput ToolError) :=
  prog_try (stage_rows sql ctx tool table t.1 t.2 replace)
    (fun n => mret (Ok (describe table t.1 n))).

Definition load_csv (sb : FsSandbox) (s : file_system) (sql : SqlExecutor) (input : json)
    (ctx : ToolCtx) : prog (result ToolOutput ToolError) :=
  match (args <-? parse_input "load_csv" read_load input;;
         p <-? resolve sb s (la_path args) "load_csv";;
         bytes <-? read_or_fail "load_csv" (la_path args) (read_bytes s p);;
         t <-? csv_table bytes;;
         Ok (args, t))%syn with
  | Err e => mret (Err e)
  | Ok (args, t) => stage_and_describe sql ctx "load_csv" (la_table args) (la_replace args) t
  end.

Definition load_json (sb : FsSandbox) (s : file_system) (sql : SqlExecutor) (input : json)
    (ctx : ToolCtx) : prog (result ToolOutput ToolError) :=
  match (args <-? parse_input "load_json" read_load input;;
         p <-? resolve sb s (la_path args) "load_json";;
         text <-? read_or_fail "load_json" (la_path args) (read_to_string s p);;
         records <-? parse_records text;;
         if Nat.eqb (length records) 0
         then load_error "load_json" "no JSON objects found in the file"
         else Ok (args, shape_records records))%syn with
  | Err e => mret (Err e)
  | Ok (args, t) => stage_and_describe sql ctx "load_json" (la_table args) (la_replace args) t
  end.

(** The file system may change while the query runs: [s] is what the path is
    resolved in, [s'] what is written to. *)
Definition export_cell (row : json) (c : string) : string :=
  match json_get c row with
  | None | Some JNull => ""
  | Some (JString s) => s
  | Some other => json_to_string other
  end.

Definition export_columns (rows : list json) : list string :=
  match rows with JObject o :: _ => map fst o | _ => [] end.

Fixpoint write_records (w : csv_writer) (recs : list (list string)) : result csv_writer ToolError :=
  match recs with
  | [] => Ok w
  | rec :: recs' =>
      (w' <-? csv_failed "export_csv" "could not write a row: " (csv_write_record w rec);;
       write_records w' recs')%syn
  end.

Definition export_text (rows : list json) : result string ToolError :=
  let columns := export_columns rows in
  (w <-? csv_failed "export_csv" "could not write the header: " (csv_write_record csv_new columns);;
   w' <-? write_records w (map (fun r => map (export_cell r) columns) rows);;
   csv_failed "export_csv" "could not finish the file: " (csv_into_inner w'))%syn.

Definition export_rows (s' : file_system) (path : string) (p : Fs.path) (rows : list json)
  : result ToolOutput ToolError * file_system :=
  if Nat.eqb (length rows) 0
  then (load_error "export_csv" "the query returned no rows, so there is nothing to export", s')
  else
    match export_text rows with
    | Err e => (Err e, s')
    | Ok bytes =>
        match write s' p bytes with
        | (Err e, s'') =>
            (load_error "export_csv" ("could not save " +:+ path +:+ ": " +:+ io_text e), s'')
        | (Ok tt, s'') =>
            (Ok (OutJson (json_object
               [("path", JString path);
                ("rows_exported", json_u64 (Z.of_nat (length rows)));
                ("columns", JArray (map JString (export_columns rows)));
                ("bytes", json_u64 (str_len bytes))])), s'')
        end
    end.

Definition export_csv (sb : FsSandbox) (s s' : file_system) (sql : SqlExecutor) (input : json)
    (ctx : ToolCtx) : prog (result ToolOutput ToolError * file_system) :=
  match (args <-? parse_input "export_csv" read_export input;;
         p <-? resolve sb s (ea_path args) "export_csv";;
         Ok (args, p))%syn with
  | Err e => mret (Err e, s')
  | Ok (args, p) =>
      r ← sx_query sql (ea_query args) [] (tctx_caller_role ctx)
            (Some (fmt_uuid (tctx_execution_id ctx)));
      mret (match r with
            | Err e => (Err e, s')
            | Ok rows => export_rows s' (ea_path args) p rows
            end)
  end.

(** The client the plugin builds has a timeout of 30 seconds. *)
Definition load_url_request (url : string) : http_request :=
  mkHttpRequest "GET" url {["user-agent" := "pg_synapse/0.1 (+https://github.com/yonk-labs/pg-synapse)"]} None.

Definition url_records (resp : http_response) (path : option string)
  : result (list string * list row) ToolError :=
  if negb (in_range 200 299 (http_status resp)) then
    load_error "load_url" ("the endpoint returned HTTP " +:+ show (http_status resp))
  else
    (body <-? csv_failed "load_url" "the response was not JSON: " (http_json resp);;
     array <-? extract_array body path;;
     let records := omap as_object array in
     if Nat.eqb (length records) 0
     then load_error "load_url" "found no JSON objects to load"
     else Ok (shape_records records))%syn.

Definition load_url_checked (input : json) : result (LoadUrlArgs * Url) ToolError :=
  (args <-? parse_input "load_url" read_load_url input;;
   match parse_url (trim (lu_url args)) with
   | Err e => Err (ToolError_InvalidInput "load_url" ("not a URL: " +:+ e))
   | Ok url =>
       if negb (String.eqb (url_scheme url) "http" || String.eqb (url_scheme url) "https")
       then Err (ToolError_InvalidInput "load_url"
                   ("scheme '" +:+ url_scheme url +:+ "' is not allowed"))
       else Ok (args, url)
   end)%syn.

Definition load_url (sql : SqlExecutor) (input : json) (ctx : ToolCtx)
  : prog (result ToolOutput ToolError) :=
  match load_url_checked input with
  | Err e => mret (Err e)
  | Ok (args, _) =>
      r ← perform (EHttp (load_url_request (trim (lu_url args))));
      match (resp <-? csv_failed "load_url" "request failed: " r;;
             url_records resp (lu_path args))%syn with
      | Err e => mret (Err e)
      | Ok t => stage_and_describe sql ctx "load_url" (lu_table args) (lu_replace args) t
      end
  end.

(** ** The tools of the plugin

    Each reads the file system as it is when its call starts; [export_csv]
    writes to the one it finds after its query. *)
Record LoadFilePlugin := mkLoadFilePlugin { lp_sandbox : FsSandbox; lp_sql : SqlExecutor }.

Record LoadTool := mkLoadTool {
  lt_name : string;
  lt_schema : ToolSchema;
  lt_run : LoadFilePlugin -> file_system -> file_system -> json -> ToolCtx ->
           prog (result ToolOutput ToolError * file_system) }.

(** A tool that leaves the files alone. *)
Definition reading (p : prog (result ToolOutput ToolError)) (s : file_system)
  : prog (result ToolOutput ToolError * file_system) := r ← p; mret (r, s).

Definition LoadCsvTool : LoadTool :=
  mkLoadTool "load_csv" (schema_for "load_csv")
    (fun p s s' v ctx => reading (load_csv (lp_sandbox p) s (lp_sql p) v ctx) s').
Definition LoadJsonTool : LoadTool :=
  mkLoadTool "load_json" (schema_for "load_json")
    (fun p s s' v ctx => reading (load_json (lp_sandbox p) s (lp_sql p) v ctx) s').
Definition ExportCsvTool : LoadTool :=
  mkLoadTool "export_csv" (schema_for "export_csv")
    (fun p s s' v ctx => export_csv (lp_sandbox p) s s' (lp_sql p) v ctx).
Definition LoadUrlTool : LoadTool :=
  mkLoadTool "load_url" (schema_for "load_url")
    (fun p s s' v ctx => reading (load_url (lp_sql p) v ctx) s').

Definition LoadFileToolsPlugin_register (p : LoadFilePlugin)
    (r : gmap string (LoadFilePlugin * LoadTool)) : gmap string (LoadFilePlugin * LoadTool) :=
  <["load_url" := (p, LoadUrlTool)]>
    (<["export_csv" := (p, ExportCsvTool)]>
      (<["load_json" := (p, LoadJsonTool)]>
        (<["load_csv" := (p, LoadCsvTool)]> r))).
End load.
