(* ===== verification/ToolsLoadSpec.v ===== *)
(** * What the file loaders do: plans, readers and lemmas

    The statements a load makes as a list ([load_plan]) and how far a run of
    it goes ([executes]); a reader of the statements as Postgres splits them;
    what is read back from a file that was written. *)

From S2P Require Import Prelude.
From S2P Require Import RustStr.
From S2P Require Import Json.
From S2P Require Import Errors.
From S2P Require Import Types.
From S2P Require Import Net.
From S2P Require Import Effects.
From S2P Require Import LoopHarness.
From S2P Require Import StrSlice.
From S2P Require Import ToolInput.
From S2P Require Import Fs.
From S2P Require Import ToolsFs.
From S2P Require Import ToolsSql.
From S2P Require Import ToolsLoad.

(** ** Plans *)

Abbreviation statement := (string * list json)%type.

Definition insert_plan (q : string) (columns : list string) (cs : list (list row)) : list statement :=
  map (fun chunk => (insert_sql q columns chunk, flat_map (row_params (length columns)) chunk)) cs.

Definition batches (columns : list string) (rows : list row) : list (list row) :=
  chunks (length rows) (Z.to_nat (rows_per_batch (Z.of_nat (length columns)))) rows.

Definition head_plan (q : string) (columns : list string) (replace : bool) : list statement :=
  (create_sql q columns, []) :: (if replace then [(delete_sql q, [])] else []).

Definition load_plan (q : string) (columns : list string) (rows : list row) (replace : bool)
  : list statement :=
  head_plan q columns replace ++ insert_plan q columns (batches columns rows).

Definition sum64 (total : Z) (ns : list Z) : Z := fold_left (fun t n => wrap64 (t + n)) ns total.

Section plan.
Context `{Printers}.
Context (sql : SqlExecutor) (ctx : ToolCtx).

Definition prepend (n : Z) (r : result (list Z) ToolError) : result (list Z) ToolError :=
  match r with Ok ns => Ok (n :: ns) | Err e => Err e end.

(** Each statement in turn, up to the first that fails. *)
Inductive executes : list statement -> list call -> result (list Z) ToolError -> Prop :=
| executes_done : executes [] [] (Ok [])
| executes_ok st rest n tr1 tr2 r :
    steps (execute_in sql ctx st.1 st.2) tr1 (Ok n) -> executes rest tr2 r ->
    executes (st :: rest) (tr1 ++ tr2) (prepend n r)
| executes_err st rest e tr :
    steps (execute_in sql ctx st.1 st.2) tr (Err e) -> executes (st :: rest) tr (Err e).

Definition total_of (total : Z) (n : nat) (outs : result (list Z) ToolError) : result Z ToolError :=
  match outs with Ok ns => Ok (sum64 total (drop n ns)) | Err e => Err e end.

Lemma insert_chunks_executes q columns cs total tr r :
  steps (insert_chunks sql ctx q columns cs total) tr r ->
  exists outs, executes (insert_plan q columns cs) tr outs /\ r = total_of total 0 outs.
Proof.
  revert total tr r. induction cs as [|c cs IH]; intros total tr r; simpl.
  { intros [-> ->]. exists (Ok []). by split; [constructor|]. }
  rewrite steps_prog_try. intros [(n & tr1 & tr2 & -> & Hp & Hk)|(e & Hp & ->)].
  - apply IH in Hk as (outs & Ho & ->). exists (prepend n outs).
    split; [by constructor|]. by destruct outs.
  - exists (Err e). by split; [constructor|].
Qed.

Lemma stage_rows_executes tool table columns rows replace q tr r :
  quote_table table tool = Ok q ->
  steps (stage_rows sql ctx tool table columns rows replace) tr r ->
  exists outs, executes (load_plan q columns rows replace) tr outs /\
    r = total_of 0 (length (head_plan q columns replace)) outs.
Proof.
  unfold stage_rows. intros ->. rewrite steps_prog_try.
  intros [(n & tr1 & tr2 & -> & Hc & Hk)|(e & Hc & ->)]; [|exists (Err e); by split; [constructor|]].
  unfold load_plan, head_plan. destruct replace; simpl.
  - apply steps_prog_try in Hk as [(m & tr3 & tr4 & -> & Hd & Hk)|(e & Hd & ->)].
    + apply insert_chunks_executes in Hk as (outs & Ho & ->).
      exists (prepend n (prepend m outs)).
      split; [by repeat (constructor; [done|])|by destruct outs].
    + exists (prepend n (Err e)). split; [|done]. constructor; [done|by constructor].
  - apply steps_prog_try in Hk as [(m & tr3 & tr4 & -> & [-> [= ->]] & Hk)|(e & [-> ?] & ->)];
      [|done].
    apply insert_chunks_executes in Hk as (outs & Ho & ->). exists (prepend n outs).
    split; [by constructor|by destruct outs].
Qed.
End plan.

(** ** Batches *)

Lemma chunks_concat fuel n rows :
  (0 < n)%nat -> (length rows <= fuel)%nat -> concat (chunks fuel n rows) = rows.
Proof.
  intros Hn. revert rows. induction fuel as [|fuel IH]; intros [|r rows] Hl;
    simpl in Hl; [done|lia|done|].
  cbn [chunks concat]. rewrite IH; [apply take_drop|]. rewrite length_drop. simpl. lia.
Qed.

Lemma chunks_sizes fuel n rows :
  (0 < n)%nat -> Forall (fun c => 1 <= length c <= n)%nat (chunks fuel n rows).
Proof.
  intros Hn. revert rows. induction fuel as [|fuel IH]; intros [|r rows]; [constructor..|].
  cbn [chunks]. constructor; [|apply IH]. rewrite length_take. simpl. lia.
Qed.

(** The cut of the rows depends on their number only. *)
Lemma chunks_lengths fuel n rows rows' :
  length rows = length rows' ->
  map length (chunks fuel n rows) = map length (chunks fuel n rows').
Proof.
  revert rows rows'. induction fuel as [|fuel IH]; intros [|r rows] [|r' rows'] Hl; try done.
  cbn [chunks map]. f_equal; [by rewrite !length_take, Hl|].
  apply IH. rewrite !length_drop. by rewrite Hl.
Qed.

Lemma rows_per_batch_bounds columns :
  0 <= columns ->
  1 <= rows_per_batch columns <= BATCH_ROWS /\
  (columns <= 60000 -> columns * rows_per_batch columns <= 60000).
Proof.
  intros Hc. unfold rows_per_batch, BATCH_ROWS. destruct (Z.eqb_spec columns 0) as [->|Hnz]; [lia|].
  rewrite (Z.max_l columns 1) by lia. split; [lia|]. intros Hm.
  assert (1 <= 60000 / columns) by (apply Z.div_le_lower_bound; lia).
  pose proof (Z.mul_div_le 60000 columns). nia.
Qed.

Lemma length_row_params k r : length (row_params k r) = k.
Proof. unfold row_params. by rewrite length_map, length_seq. Qed.

Lemma length_chunk_params k (c : list row) : length (flat_map (row_params k) c) = (length c * k)%nat.
Proof.
  induction c as [|r c IH]; [done|]. simpl. by rewrite length_app, length_row_params, IH.
Qed.

(** A row as wide as the table binds its cells, one each. *)
Lemma row_params_cells k (r : row) : length r = k -> row_params k r = map cell_param r.
Proof.
  intros <-. unfold row_params. apply list_eq. intros i. rewrite !list_lookup_fmap.
  destruct (decide (i < length r)%nat) as [Hi|Hi].
  - rewrite lookup_seq_lt by done. simpl. destruct (lookup_lt_is_Some_2 r i Hi) as [c Hc].
    by rewrite Hc.
  - rewrite lookup_seq_ge by lia. by rewrite lookup_ge_None_2 by lia.
Qed.

Lemma chunk_params_cells k (c : list row) :
  Forall (fun r => length r = k) c -> flat_map (row_params k) c = map cell_param (concat c).
Proof.
  induction 1 as [|r c Hr _ IH]; [done|]. simpl. by rewrite IH, row_params_cells, map_app.
Qed.

Lemma insert_plan_params q columns (cs : list (list row)) :
  Forall (fun r => length r = length columns) (concat cs) ->
  concat (map snd (insert_plan q columns cs)) = map cell_param (concat (concat cs)).
Proof.
  induction cs as [|c cs IH]; [done|]. simpl. rewrite Forall_app. intros [Hc Hcs].
  by rewrite IH, chunk_params_cells, concat_app, map_app.
Qed.

Lemma placeholders_text k n (c c' : list row) :
  length c = length c' -> placeholders k n c = placeholders k n c'.
Proof.
  revert n c'. induction c as [|r c IH]; intros n [|r' c'] Hl; try done.
  simpl. f_equal. apply IH. by injection Hl.
Qed.

Lemma insert_sql_text q columns (c c' : list row) :
  length c = length c' -> insert_sql q columns c = insert_sql q columns c'.
Proof. intros Hl. unfold insert_sql. by rewrite (placeholders_text _ _ c c'). Qed.

Lemma insert_plan_texts q columns (cs cs' : list (list row)) :
  map length cs = map length cs' ->
  map fst (insert_plan q columns cs) = map fst (insert_plan q columns cs').
Proof.
  revert cs'. induction cs as [|c cs IH]; intros [|c' cs'] Hl; try done. simpl in *.
  injection Hl as Hc Hl. f_equal; [by apply insert_sql_text|by apply IH].
Qed.

(** The placeholders of a batch count its values from one on. *)
Definition slots_text (g : list Z) : string :=
  "(" +:+ join ", " (map (fun i => "$" +:+ show i) g) +:+ ")".

Fixpoint slot_numbers (k : nat) (n : Z) (rows : nat) : list (list Z) :=
  match rows with
  | O => []
  | S rows => seqZ n (Z.of_nat k) :: slot_numbers k (n + Z.of_nat k) rows
  end.

Lemma placeholders_slots k n (c : list row) :
  placeholders k n c = map slots_text (slot_numbers k n (length c)).
Proof.
  revert n. induction c as [|r c IH]; intros n; [done|]. simpl. f_equal; [|apply IH].
  unfold row_slots, slots_text. do 3 f_equal. unfold seqZ. rewrite Nat2Z.id.
  change (@fmap list list_fmap) with map. rewrite map_map. apply map_ext. intros i.
  do 2 f_equal. lia.
Qed.

Lemma slot_numbers_concat k n rows :
  concat (slot_numbers k n rows) = seqZ n (Z.of_nat (rows * k)).
Proof.
  revert n. induction rows as [|rows IH]; intros n; [done|]. simpl. rewrite IH, Nat2Z.inj_add.
  rewrite <- seqZ_app by lia. done.
Qed.

(** ** Reading the statements

    As Postgres splits them: quoted identifiers, separators and the rest. *)

Definition read_ident (s : string) : option (string * string) :=
  match s with
  | String a r => if Ascii.eqb a dquote then read_quoted dquote r else None
  | "" => None
  end.

Definition read_name (s : string) : option (list string * string) :=
  '(a, r) ← read_ident s;
  match strip_prefix "." r with
  | Some r' => '(b, t) ← read_ident r'; Some ([a; b], t)
  | None => Some ([a], r)
  end.

(** A list of identifiers, each with [suffix], at most [fuel] of them. *)
Fixpoint read_list (suffix : string) (fuel : nat) (s : string) : option (list string * string) :=
  match fuel with
  | O => None
  | S fuel =>
      '(c, r) ← read_ident s;
      r ← strip_prefix suffix r;
      match strip_prefix ", " r with
      | Some r' => '(cs, t) ← read_list suffix fuel r'; Some (c :: cs, t)
      | None => Some ([c], r)
      end
  end.

Definition read_create (s : string) : option (list string * list string) :=
  r ← strip_prefix "CREATE TABLE IF NOT EXISTS " s;
  '(name, r) ← read_name r;
  r ← strip_prefix " (" r;
  '(cols, r) ← read_list " text" (String.length r) r;
  if String.eqb r ")" then Some (name, cols) else None.

Definition read_delete (s : string) : option (list string) :=
  r ← strip_prefix "DELETE FROM " s;
  '(name, r) ← read_name r;
  if is_empty r then Some name else None.

(** The table, the columns and the text of the values. *)
Definition read_insert (s : string) : option (list string * list string * string) :=
  r ← strip_prefix "INSERT INTO " s;
  '(name, r) ← read_name r;
  r ← strip_prefix " (" r;
  '(cols, r) ← read_list "" (String.length r) r;
  r ← strip_prefix ") VALUES " r;
  Some (name, cols, r).

Lemma read_quote_ident c rest :
  head_is dquote rest = false -> read_ident (quote_ident c +:+ rest) = Some (c, rest).
Proof.
  intros Hr. unfold quote_ident. rewrite <- str_app_assoc. simpl.
  by apply read_double.
Qed.

(** The table of a load: its one or two parts. *)
Definition table_parts (raw : string) : list string := map trim (split_on "." raw).

Lemma split_on_ne c s : split_on c s <> [].
Proof.
  induction s as [|a s IH]; simpl; [done|]. destruct (Ascii.eqb a c); [done|].
  by destruct (split_on c s).
Qed.

Lemma read_quote_table raw tool q rest :
  quote_table raw tool = Ok q -> head_is dquote rest = false -> strip_prefix "." rest = None ->
  read_name (q +:+ rest) = Some (table_parts raw, rest).
Proof.
  unfold quote_table, table_parts. intros Hq Hr Hd.
  pose proof (split_on_ne "." raw).
  destruct (split_on "." raw) as [|a [|b [|c l]]] eqn:E; simpl in Hq; [done| | |done].
  - destruct (_ || _); [done|]. injection Hq as <-. unfold read_name.
    rewrite read_quote_ident by done. simpl. by rewrite Hd.
  - destruct (_ || _); [done|]. injection Hq as <-. unfold read_name.
    change (join "." [quote_ident (trim a); quote_ident (trim b)])
      with (quote_ident (trim a) +:+ "." +:+ quote_ident (trim b)).
    rewrite <- !str_app_assoc, read_quote_ident by done. simpl mbind.
    change (read_quoted dquote _) with (read_ident (quote_ident (trim b) +:+ rest)).
    by rewrite read_quote_ident.
Qed.

Lemma read_idents suffix cols rest fuel :
  cols <> [] -> (length cols <= fuel)%nat ->
  head_is dquote (suffix +:+ rest) = false -> head_is dquote (suffix +:+ ", ") = false ->
  strip_prefix ", " rest = None ->
  read_list suffix fuel (join ", " (map (fun c => quote_ident c +:+ suffix) cols) +:+ rest)
  = Some (cols, rest).
Proof.
  intros Hne Hf Hr Hs Hc. revert fuel Hf.
  induction cols as [|c [|c' cols] IH]; intros [|fuel] Hf; simpl in Hf; [done..|lia| |lia|].
  - change (join ", " (map (fun c => quote_ident c +:+ suffix) [c])) with (quote_ident c +:+ suffix).
    cbn [read_list]. rewrite <- str_app_assoc, read_quote_ident by done. simpl mbind.
    rewrite strip_prefix_app. simpl mbind. by rewrite Hc.
  - set (l := c' :: cols) in *.
    change (join ", " (map (fun c => quote_ident c +:+ suffix) (c :: l)))
      with ((quote_ident c +:+ suffix) +:+ ", " +:+
            join ", " (map (fun c => quote_ident c +:+ suffix) l)).
    rewrite <- !str_app_assoc. cbn [read_list]. rewrite read_quote_ident.
    + simpl mbind. rewrite strip_prefix_app. simpl mbind.
      rewrite strip_prefix_app, IH; [done|done|simpl; lia].
    + destruct suffix; [done|exact Hs].
Qed.

Lemma join_idents_length suffix cols rest :
  (length cols <= String.length
     (join ", " (map (fun c => quote_ident c +:+ suffix) cols) +:+ rest))%nat.
Proof.
  rewrite length_str_app. induction cols as [|c [|c' cols] IH]; [simpl; lia..|].
  set (l := c' :: cols) in *.
  change (join ", " (map (fun c => quote_ident c +:+ suffix) (c :: l)))
    with ((quote_ident c +:+ suffix) +:+ ", " +:+
          join ", " (map (fun c => quote_ident c +:+ suffix) l)).
  rewrite !length_str_app. simpl length in *. simpl (String.length ", "). lia.
Qed.

Section read_statements.
Context (raw tool q : string) (Hq : quote_table raw tool = Ok q).
Context (columns : list string) (Hc : columns <> []).

Lemma read_create_sql : read_create (create_sql q columns) = Some (table_parts raw, columns).
Proof using Hq Hc.
  unfold read_create, create_sql. rewrite strip_prefix_app. simpl mbind.
  rewrite (read_quote_table _ _ _ _ Hq) by done. simpl mbind.
  rewrite strip_prefix_app. simpl mbind.
  rewrite read_idents; [done|done|apply join_idents_length|done..].
Qed.

Lemma read_delete_sql : read_delete (delete_sql q) = Some (table_parts raw).
Proof using Hq.
  unfold read_delete, delete_sql. rewrite strip_prefix_app. simpl mbind.
  rewrite <- (str_app_nil q). by rewrite (read_quote_table _ _ _ _ Hq).
Qed.

Lemma map_quote_ident : map quote_ident columns = map (fun c => quote_ident c +:+ "") columns.
Proof. apply map_ext. intros c. by rewrite str_app_nil. Qed.

Lemma read_insert_sql chunk :
  read_insert (insert_sql q columns chunk)
  = Some (table_parts raw, columns, join ", " (placeholders (length columns) 1 chunk)).
Proof using Hq Hc.
  unfold read_insert, insert_sql. rewrite strip_prefix_app. simpl mbind.
  rewrite (read_quote_table _ _ _ _ Hq) by done. simpl mbind.
  rewrite strip_prefix_app. simpl mbind. rewrite map_quote_ident.
  rewrite read_idents; [|done|apply join_idents_length|done..]. simpl mbind.
  by rewrite strip_prefix_app.
Qed.
End read_statements.

(** ** A file that was written *)

Section written.
Context `{FsLib}.

(** Where nothing but the contents of files differs, paths lead to the same
    places. *)
Definition same_shape (a b : option node) : Prop :=
  match a, b with
  | Some (File _), Some (File _) => True
  | _, _ => a = b
  end.

Lemma walk_same s s' f l cur p :
  (forall k, same_shape (s !! k) (s' !! k)) -> walk s' f l cur p = walk s f l cur p.
Proof.
  intros Hs. revert cur p. induction l as [|l IHl]; intros cur p; revert cur;
    (induction p as [|c p IH]; intros cur; simpl; [done|]);
    (destruct (is_cur_dir c); [apply IH|]); (destruct (is_parent_dir c); [apply IH|]);
    specialize (Hs (cur ++ [c])); unfold same_shape in Hs;
    destruct (s !! (cur ++ [c])) as [[|t|t]|]; try (rewrite <- Hs);
    try (apply IH || done);
    try (destruct (s' !! (cur ++ [c])) as [[|t'|t']|]; done).
  destruct (negb f && _); [done|]. apply IHl.
Qed.

Lemma walk_missing s l cur p q : walk s true l cur p = Missing q -> q <> [] /\ s !! q = None.
Proof.
  revert cur p. induction l as [|l IHl]; intros cur p; revert cur;
    (induction p as [|d p IH]; intros cur; simpl; [done|]);
    (destruct (is_cur_dir d); [apply IH|]); (destruct (is_parent_dir d); [apply IH|]);
    (destruct (s !! (cur ++ [d])) as [[|t|t]|] eqn:E;
      [apply IH|by destruct p|try done|by destruct p; [intros [= <-]; split; [destruct cur|]|]]).
  apply IHl.
Qed.

(** A name that was free leads to the file put there. *)
Lemma walk_created s c l cur p q :
  walk s true l cur p = Missing q -> exists l', walk (<[q := File c]> s) true l cur p = Found q l'.
Proof.
  intros Hw. destruct (walk_missing _ _ _ _ _ Hw) as [_ Hq]. revert cur p Hw.
  induction l as [|l IHl]; intros cur p; revert cur;
    (induction p as [|d p IH]; intros cur; simpl; [done|]);
    (destruct (is_cur_dir d); [apply IH|]); (destruct (is_parent_dir d); [apply IH|]);
    (destruct (s !! (cur ++ [d])) as [n|] eqn:E;
      [rewrite lookup_insert_ne, E by congruence; destruct n; [apply IH|by destruct p|try done]
      |destruct p; [intros [= <-]; rewrite lookup_insert_eq; by eexists|done]]).
  apply IHl.
Qed.

Lemma write_read s p c s' : write s p c = (Ok tt, s') -> read_bytes s' p = Ok c.
Proof.
  unfold write, read_bytes, metadata, resolve_path.
  destruct (walk s true max_links [] p) as [q l|q|] eqn:Ew; [| |done].
  - destruct (node_at s q) as [[|old|]|] eqn:En; [done| |done..]. intros [= <-].
    assert (Hq : q <> [] /\ s !! q = Some (File old)) by (by destruct q).
    destruct Hq as [Hne Hq]. rewrite (walk_same s), Ew.
    + unfold node_at. destruct q; [done|]. by rewrite lookup_insert_eq.
    + intros k. destruct (decide (q = k)) as [<-|]; [by rewrite lookup_insert_eq, Hq|].
      rewrite lookup_insert_ne by done. by destruct (s !! k) as [[]|].
  - destruct (valid_name _); [|done]. intros [= <-].
    destruct (walk_created s c _ _ _ _ Ew) as [l' ->].
    destruct (walk_missing _ _ _ _ _ Ew) as [Hq _].
    unfold node_at. destruct q as [|x q]; [done|]. by rewrite lookup_insert_eq.
Qed.
End written.

(** A name resolves to one path. *)
Lemma resolve_path_of `{DeriveLib, FsLib} sb s rel tool p :
  resolve sb s rel tool = Ok p -> p = root sb ++ segments (trim rel).
Proof.
  unfold resolve. destruct (_ || _); [done|]. destruct (existsb _ _); [done|].
  destruct (canonicalize_existing_prefix _ _); [|done].
  destruct (negb _); [done|]. by intros [= <-].
Qed.

(** ** CSV *)

Section csv.
Context `{LoadLib}.

Fixpoint written (w : csv_writer) (recs : list (list string)) : result csv_writer string :=
  match recs with
  | [] => Ok w
  | rec :: recs' => (w' <-? csv_write_record w rec;; written w' recs')%syn
  end.

Definition byte_order_mark : string := utf8 [239; 187; 191].

(** The library reads what it wrote: a header with a field, which does not
    start with a byte order mark, and records of its width. *)
Class CsvLaws : Prop :=
  csv_reads_back header recs w bytes :
    header <> [] -> starts_with (hd "" header) byte_order_mark = false ->
    Forall (fun r => length r = length header) recs ->
    written csv_new (header :: recs) = Ok w -> csv_into_inner w = Ok bytes ->
    csv_headers bytes = Ok header /\ csv_records bytes = map Ok recs.

Lemma write_records_written w recs w' :
  write_records w recs = Ok w' -> written w recs = Ok w'.
Proof.
  revert w. induction recs as [|r recs IH]; intros w; simpl; [by intros [= ->]|].
  destruct (csv_write_record w r) as [w1|]; simpl; [apply IH|discriminate].
Qed.

Lemma csv_rows_ok k recs :
  Forall (fun r => length r = k) recs ->
  csv_rows k (map Ok recs) = Ok (map (map csv_cell) recs).
Proof.
  induction 1 as [|r recs Hr _ IH]; [done|]. simpl. rewrite IH. simpl. do 2 f_equal.
  unfold csv_row. rewrite Hr, Nat.sub_diag, app_nil_r, take_ge; [done|].
  by rewrite length_map, Hr.
Qed.

Context `{UnicodeTables, Printers}.

Definition exported_table (rows : list json) : list string * list row :=
  let keys := export_columns rows in
  (column_names keys, map (fun r => map (fun k => csv_cell (export_cell r k)) keys) rows).

Lemma export_text_table rows bytes :
  CsvLaws -> export_columns rows <> [] ->
  starts_with (hd "" (export_columns rows)) byte_order_mark = false ->
  export_text rows = Ok bytes -> csv_table bytes = Ok (exported_table rows).
Proof.
  intros Hlaw Hne Hbom. unfold export_text.
  destruct (csv_write_record csv_new (export_columns rows)) as [w|] eqn:Ew; [|done]. simpl.
  set (recs := map _ rows). destruct (write_records w recs) as [w'|] eqn:Er; [|done]. simpl.
  destruct (csv_into_inner w') as [b|] eqn:Ei; [|done]. intros [= ->].
  assert (Hlen : Forall (fun r => length r = length (export_columns rows)) recs).
  { apply Forall_map, Forall_true. intros r. apply length_map. }
  destruct (Hlaw (export_columns rows) recs w' bytes) as [Hh Hr]; [done..| |done|].
  { simpl. rewrite Ew. simpl. by apply write_records_written. }
  unfold csv_table, exported_table. rewrite Hh, Hr. simpl. unfold column_names.
  rewrite length_imap. destruct (Nat.eqb_spec (length (export_columns rows)) 0) as [E|E].
  { by apply nil_length_inv in E. }
  rewrite csv_rows_ok by done. simpl. unfold recs. rewrite map_map. do 2 f_equal.
  apply map_ext. intros r. by rewrite map_map.
Qed.
End csv.
