(* ===== verification/ToolsBasic.v ===== *)
(** * The calculator and the clock
    ([plugins/pg-synapse-tools-calc/src/lib.rs],
    [plugins/pg-synapse-tools-clock/src/lib.rs]) *)

From S2P Require Import Prelude.
From S2P Require Import RustStr.
From S2P Require Import F64.
From S2P Require Import Json.
From S2P Require Import NumText.
From S2P Require Import Errors.
From S2P Require Import Types.
From S2P Require Import Effects.
From S2P Require Import Traits.
From S2P Require Import Registry.
From S2P Require Import Builder.
From S2P Require Import StrSlice.
From S2P Require Import ToolInput.

(** ** The calculator *)

Definition CALCULATOR : string := "calculator".

Record CalcInput := mkCalcInput {
  calc_op : string; calc_a : f64; calc_b : f64; calc_expression : option string }.

Definition read_calc (v : json) : option CalcInput :=
  fs ← aliased_fields [["op"; "operation"]; ["a"; "x"]; ["b"; "y"]; ["expression"]] v;
  match fs with
  | [op; a; b; e] =>
      op ← string_field op; a ← a ≫= as_f64; b ← b ≫= as_f64; e ← opt_string_field e;
      Some (mkCalcInput op a b e)
  | _ => None
  end.

Section tools.
Context `{UnicodeTables, DeriveLib}.

Definition calculate (args : CalcInput) : result f64 ToolError :=
  let other := to_lowercase (calc_op args) in
  if String.eqb other "add" then Ok (f64_add (calc_a args) (calc_b args))
  else if String.eqb other "sub" then Ok (f64_sub (calc_a args) (calc_b args))
  else if String.eqb other "mul" then Ok (f64_mul (calc_a args) (calc_b args))
  else if String.eqb other "div" then
    if f64_eqb (calc_b args) f64_zero
    then Err (ToolError_Execution CALCULATOR "division by zero")
    else Ok (f64_div (calc_a args) (calc_b args))
  else
    Err (ToolError_InvalidInput CALCULATOR
           ("unknown op '" +:+ other +:+ "': must be one of add, sub, mul, div")).

Definition calculator_run (args : CalcInput) (_ : ToolCtx) : prog (result ToolOutput ToolError) :=
  mret (match calculate args with
        | Ok r => Ok (OutJson (json_object [("result", json_f64 r)]))
        | Err e => Err e
        end).

Definition CalculatorTool : ToolObj := derive_tool CALCULATOR read_calc calculator_run.

Definition CalcToolsPlugin : Plugin :=
  mkPlugin "pg-synapse-tools-calc" CARGO_PKG_VERSION
    (fun r => mkRegistry (ToolReg.add_arc CALCULATOR CalculatorTool (reg_tools r))
                (reg_executors r) (reg_llm_factories r) (reg_embedding_factories r)
                (reg_memory r) (reg_compressor r)).
End tools.

(** ** The clock *)

Definition GET_CURRENT_TIME : string := "get_current_time".

(** [DateTime::to_rfc3339] at an offset east of UTC in seconds. *)
Class ClockLib := { to_rfc3339 : Z -> Timestamp -> string }.

Definition default_tz : string := "UTC".

Definition read_clock (v : json) : option string :=
  fs ← aliased_fields [["timezone"; "tz"]] v;
  match fs with [f] => string_or default_tz f | _ => None end.

(** [FixedOffset::east_opt] *)
Definition east_opt (secs : Z) : option Z :=
  if (-86400 <? secs) && (secs <? 86400) then Some secs else None.

(** [rest.splitn(2, ':')]: the text before the first colon, and after it. *)
Definition split_colon (s : string) : string * option string :=
  match find_str ":" s with
  | Some i => (str_take i s, Some (str_drop (S i) s))
  | None => (s, None)
  end.

(** [split_at(1)] panics inside a character; the arithmetic is that of [i32]. *)
Definition parse_fixed_offset (s : string) : outcome (option Z) :=
  let s := trim s in
  if Nat.ltb (String.length s) 6 then Done None
  else
    if negb (is_char_boundary s 1) then Panics
    else
      let sign_char := str_take 1 s in
      let rest := str_drop 1 s in
      let offset sign :=
        match split_colon rest with
        | (h, Some m) =>
            match parse_i32 h, parse_i32 m with
            | Some hours, Some minutes =>
                let secs := wrap_i32 (wrap_i32 (hours * 3600) + wrap_i32 (minutes * 60)) in
                east_opt (wrap_i32 (sign * secs))
            | _, _ => None
            end
        | (_, None) => None
        end in
      Done (if String.eqb sign_char "+" then offset 1
            else if String.eqb sign_char "-" then offset (-1) else None).

Section clock.
Context `{UnicodeTables, DeriveLib, ClockLib}.

(** [eq_ignore_ascii_case] *)
Definition eq_ignore_ascii_case (a b : string) : bool :=
  String.eqb (to_ascii_lowercase a) (to_ascii_lowercase b).

Definition clock_answer (iso8601 tz : string) : ToolOutput :=
  OutJson (json_object [("iso8601", JString iso8601); ("timezone", JString tz)]).

Definition clock_output (timezone : string) (now : Timestamp) : outcome ToolOutput :=
  let tz_label := trim timezone in
  if eq_ignore_ascii_case tz_label "utc" then Done (clock_answer (to_rfc3339 0 now) "UTC")
  else
    o ← parse_fixed_offset tz_label;
    Done (match o with
          | Some offset => clock_answer (to_rfc3339 offset now) tz_label
          | None => clock_answer (to_rfc3339 0 now) "UTC"
          end).

(** The clock may be pinned, for tests. *)
Record ClockTool := mkClockTool { now_override : option Timestamp }.
Definition ClockTool_new : ClockTool := mkClockTool None.

Definition now (t : ClockTool) : prog Timestamp :=
  match now_override t with Some dt => mret dt | None => perform EUtcNow end.

Definition clock_run (t : ClockTool) (input : json) : prog tool_answer :=
  match parse_input GET_CURRENT_TIME read_clock input with
  | Err e => mret (ToolReturned (Err e))
  | Ok timezone =>
      dt ← now t;
      mret (match clock_output timezone dt with
            | Done out => ToolReturned (Ok out)
            | _ => ToolPanicked (PanicStr "byte index 1 is not a char boundary")
            end)
  end.

Definition ClockTool_obj (t : ClockTool) : ToolObj :=
  {| tool_name := GET_CURRENT_TIME;
     tool_schema := schema_for GET_CURRENT_TIME;
     tool_run := fun input _ => clock_run t input |}.

Definition ClockToolsPlugin : Plugin :=
  mkPlugin "pg-synapse-tools-clock" CARGO_PKG_VERSION
    (fun r => mkRegistry (ToolReg.add_arc GET_CURRENT_TIME (ClockTool_obj ClockTool_new) (reg_tools r))
                (reg_executors r) (reg_llm_factories r) (reg_embedding_factories r)
                (reg_memory r) (reg_compressor r)).
End clock.

(** ** Examples *)

Example offset_india : parse_fixed_offset "+05:30" = Done (Some 19800).
Proof. reflexivity. Qed.

(** A sign after the sign is read as part of the number. *)
Example offset_double_sign : parse_fixed_offset "+-5:30" = Done (Some (-16200)).
Proof. reflexivity. Qed.

(** The product of the hours wraps around. *)
Example offset_wraps : parse_fixed_offset "+1193047:00" = Done (Some 1904).
Proof. reflexivity. Qed.

(** "Ürümqi": the first character takes two bytes. *)
Example offset_panics : parse_fixed_offset (utf8 [195; 156] +:+ "r" +:+ utf8 [195; 188] +:+ "mqi") = Panics.
Proof. reflexivity. Qed.

(** A product beyond the range of [f64] is infinite, and JSON has no infinity. *)
Example calc_overflows `{UnicodeTables} :
  calculate (mkCalcInput "mul" (f64_of_Z (10 ^ 200)) (f64_of_Z (10 ^ 200)) None) = Ok (S754_infinity false)
  /\ json_f64 (S754_infinity false) = JNull.
Proof. split; reflexivity. Qed.
