(* ===== verification/ToolsWeb.v ===== *)
(** * News, articles and schema context
    ([plugins/pg-synapse-tools-newssearch], [-readarticle], [-lexicon])

    [search_news], [fetch_feed], [read_article] and [get_schema_context]: one
    request each, and what is kept of the answer.  The readers of feeds and
    articles are libraries. *)

From S2P Require Import Prelude.
From S2P Require Import RustStr.
From S2P Require Import Json.
From S2P Require Import Errors.
From S2P Require Import Types.
From S2P Require Import Net.
From S2P Require Import Effects.
From S2P Require Import Traits.
From S2P Require Import LoopHarness.
From S2P Require Import Registry.
From S2P Require Import Builder.
From S2P Require Import Wire.
From S2P Require Import ToolInput.
From S2P Require Import ToolsHttp.
From S2P Require Import ToolsBasic.
From S2P Require Import ToolsLoad.
#[local] Open Scope synapse_scope.

(** ** Feeds as the libraries show them *)

Record RssItem := mkRssItem {
  rss_title : option string;
  rss_link : option string;
  rss_source : option (option string * string);
  rss_pub_date : option string }.

Record AtomLink := mkAtomLink { link_rel : string; link_href : string }.

(** A date is an offset east of UTC in seconds and an instant. *)
Record AtomEntry := mkAtomEntry {
  atom_title : string;
  atom_links : list AtomLink;
  atom_published : option (Z * Timestamp);
  atom_updated : Z * Timestamp }.

Record AtomFeed := mkAtomFeed { feed_title : string; feed_entries : list AtomEntry }.

(** [query_pairs_mut] on a URL; the readers of RSS and Atom; the title and
    text that [readability] extracts from a page. *)
Class FeedLib := {
  append_pairs : string -> list (string * string) -> string;
  read_rss : string -> result (list RssItem) string;
  read_atom : string -> result AtomFeed string;
  extract_product : string -> string -> result (string * string) string }.

Definition fail {A} (tool reason : string) : result A ToolError :=
  Err (ToolError_Execution tool reason).

(** [.get(url).send().await] *)
Definition fetch_get (url : string) : fetch_request := mkFetchRequest "GET" url [] None.

Definition register_tools (tools : list ToolObj) (r : Registry) : Registry :=
  mkRegistry (fold_left (fun reg t => ToolReg.add_arc (tool_name t) t reg) tools (reg_tools r))
    (reg_executors r) (reg_llm_factories r) (reg_embedding_factories r) (reg_memory r)
    (reg_compressor r).

Section web.
Context `{Printers, WireLib, NetLib, DeriveLib, LoadLib, ClockLib, FeedLib}.

(** The body of a response, once it has arrived. *)
Definition body_of (tool : string) (resp : fetch_response) : result string ToolError :=
  map_err (fun e => ToolError_Execution tool ("could not read response: " +:+ e)) (fetch_text resp).

(** ** [search_news] *)

Definition SEARCH_NEWS : string := "search_news".
Definition FETCH_FEED : string := "fetch_feed".
Definition NEWS_URL : string := "https://news.google.com/rss/search".
Definition default_limit : Z := 10.

Record SearchNewsArgs := mkSearchNewsArgs { news_query : string; news_limit : Z }.

Definition read_search_news (v : json) : option SearchNewsArgs :=
  fs ← aliased_fields [["query"; "q"; "keyword"; "topic"; "search"]; ["limit"]] v;
  match fs with
  | [q; l] =>
      query ← string_field q; limit ← uint_or U32_MAX default_limit l;
      Some (mkSearchNewsArgs query limit)
  | _ => None
  end.

Definition rss_source_name (s : option string * string) : string := default s.2 s.1.

Definition rss_row (item : RssItem) : json :=
  json_object
    [("title", json_option JString (rss_title item));
     ("url", json_option JString (rss_link item));
     ("source", json_option JString (rss_source_name <$> rss_source item));
     ("published_at", json_option JString (rss_pub_date item))].

Definition parse_feed (body : string) (limit : nat) : result (list json) ToolError :=
  match read_rss body with
  | Err e => fail SEARCH_NEWS ("could not parse the feed: " +:+ e)
  | Ok items => Ok (map rss_row (take limit items))
  end.

Definition news_pairs (query : string) : list (string * string) :=
  [("q", query); ("hl", "en-US"); ("gl", "US"); ("ceid", "US:en")].

Definition search_news_run (args : SearchNewsArgs) (_ : ToolCtx)
  : prog (result ToolOutput ToolError) :=
  let limit := Z.to_nat (clamp 1 50 (news_limit args)) in
  match parse_url NEWS_URL with
  | Err e => mret (fail SEARCH_NEWS e)
  | Ok _ =>
      r ← perform (EFetch (fetch_get (append_pairs NEWS_URL (news_pairs (news_query args)))));
      mret (resp <-? map_err (fun e => ToolError_Execution SEARCH_NEWS ("request failed: " +:+ e)) r ;;
            body <-? body_of SEARCH_NEWS resp ;;
            rows <-? parse_feed body limit ;;
            Ok (OutJson (JArray rows)))
  end.

Definition SearchNewsTool : ToolObj := derive_tool SEARCH_NEWS read_search_news search_news_run.

(** ** [fetch_feed] *)

Record FetchFeedArgs := mkFetchFeedArgs { feed_url : string; feed_limit : Z }.

Definition read_fetch_feed (v : json) : option FetchFeedArgs :=
  fs ← aliased_fields [["url"; "feed"; "feed_url"]; ["limit"]] v;
  match fs with
  | [u; l] =>
      url ← string_field u; limit ← uint_or U32_MAX default_limit l; Some (mkFetchFeedArgs url limit)
  | _ => None
  end.

(** The alternate link, or else the first. *)
Definition entry_url (links : list AtomLink) : string :=
  match List.find (fun l => String.eqb (link_rel l) "alternate") links with
  | Some l => link_href l
  | None => default "" (link_href <$> head links)
  end.

Definition atom_row (title : string) (e : AtomEntry) : json :=
  let date := default (atom_updated e) (atom_published e) in
  json_object
    [("title", JString (atom_title e)); ("url", JString (entry_url (atom_links e)));
     ("source", JString title); ("published_at", JString (to_rfc3339 date.1 date.2))].

Definition parse_atom (body : string) (limit : nat) : result (list json) ToolError :=
  match read_atom body with
  | Err e => fail FETCH_FEED ("not a readable RSS or Atom feed: " +:+ e)
  | Ok feed => Ok (map (atom_row (feed_title feed)) (take limit (feed_entries feed)))
  end.

(** RSS first, then Atom. *)
Definition feed_items (body : string) (limit : nat) : result (list json) ToolError :=
  match parse_feed body limit with Ok items => Ok items | Err _ => parse_atom body limit end.

Definition fetch_feed_answer (limit : nat) (r : result fetch_response string)
  : result ToolOutput ToolError :=
  resp <-? map_err (fun e => ToolError_Execution FETCH_FEED ("request failed: " +:+ e)) r ;;
  if negb (is_success (fetch_status resp)) then
    fail FETCH_FEED ("feed returned HTTP " +:+ show (fetch_status resp))
  else
    body <-? body_of FETCH_FEED resp ;;
    items <-? feed_items body limit ;;
    Ok (OutJson (JArray items)).

Definition fetch_feed_run (args : FetchFeedArgs) (_ : ToolCtx)
  : prog (result ToolOutput ToolError) :=
  let limit := Z.to_nat (clamp 1 100 (feed_limit args)) in
  match parse_url (trim (feed_url args)) with
  | Err e => mret (Err (ToolError_InvalidInput FETCH_FEED ("not a URL: " +:+ e)))
  | Ok url =>
      if negb (String.eqb (url_scheme url) "http" || String.eqb (url_scheme url) "https") then
        mret (Err (ToolError_InvalidInput FETCH_FEED
                     ("scheme '" +:+ url_scheme url +:+ "' is not allowed")))
      else
        r ← perform (EFetch (fetch_get (trim (feed_url args))));
        mret (fetch_feed_answer limit r)
  end.

Definition FetchFeedTool : ToolObj := derive_tool FETCH_FEED read_fetch_feed fetch_feed_run.

Definition NewsSearchToolsPlugin : Plugin :=
  mkPlugin "pg-synapse-tools-newssearch" CARGO_PKG_VERSION
    (register_tools [SearchNewsTool; FetchFeedTool]).

(** ** [read_article] *)

Definition READ_ARTICLE : string := "read_article".
Definition default_max_chars : Z := 20000.

Record ReadArticleArgs := mkReadArticleArgs { article_url : string; article_max_chars : Z }.

Definition read_read_article (v : json) : option ReadArticleArgs :=
  fs ← aliased_fields [["url"; "link"]; ["max_chars"]] v;
  match fs with
  | [u; m] =>
      url ← string_field u; max_chars ← uint_or U64_MAX default_max_chars m;
      Some (mkReadArticleArgs url max_chars)
  | _ => None
  end.

Definition extract_article (body url : string) (max_chars : Z) : result json ToolError :=
  match extract_product body url with
  | Err e => fail READ_ARTICLE ("could not extract article content: " +:+ e)
  | Ok (title, product_text) =>
      let text := trim product_text in
      Ok (json_object
            [("title", JString title);
             ("text", JString (take_chars (Z.to_nat max_chars) text));
             ("truncated", JBool (max_chars <? chars_count text))])
  end.

Definition NEWS_GOOGLE_REFUSED : string :=
  "news.google.com links (e.g. from search_news) redirect to the article via JavaScript, which this tool cannot execute; use the article's own publisher URL instead, not the news.google.com one".

Definition USER_AGENT : string :=
  "Mozilla/5.0 (X11; Linux x86_64) AppleWebKit/537.36 (KHTML, like Gecko) Chrome/124.0.0.0 Safari/537.36".

Definition article_request (url : string) : fetch_request :=
  mkFetchRequest "GET" url [("user-agent", USER_AGENT)] None.

Definition read_article_answer (url : string) (max_chars : Z) (r : result fetch_response string)
  : result ToolOutput ToolError :=
  resp <-? map_err (fun e => ToolError_Execution READ_ARTICLE ("request failed: " +:+ e)) r ;;
  if negb (is_success (fetch_status resp)) then
    fail READ_ARTICLE ("server returned " +:+ fmt_status (fetch_status resp))
  else
    body <-? body_of READ_ARTICLE resp ;;
    result <-? extract_article body url max_chars ;;
    Ok (OutJson result).

Definition read_article_run (args : ReadArticleArgs) (_ : ToolCtx)
  : prog (result ToolOutput ToolError) :=
  let max_chars := clamp 500 100000 (article_max_chars args) in
  match parse_url (article_url args) with
  | Err e => mret (Err (ToolError_InvalidInput READ_ARTICLE ("not a valid URL: " +:+ e)))
  | Ok url =>
      if bool_decide (url_host_str url = Some "news.google.com") then
        mret (Err (ToolError_InvalidInput READ_ARTICLE NEWS_GOOGLE_REFUSED))
      else
        r ← perform (EFetch (article_request (article_url args)));
        mret (read_article_answer (article_url args) max_chars r)
  end.

Definition ReadArticleTool : ToolObj := derive_tool READ_ARTICLE read_read_article read_article_run.

Definition ReadArticleToolsPlugin : Plugin :=
  mkPlugin "pg-synapse-tools-readarticle" CARGO_PKG_VERSION (register_tools [ReadArticleTool]).

(** ** [get_schema_context] *)

Definition GET_SCHEMA_CONTEXT : string := "get_schema_context".
Definition default_connection : string := "target_ecommerce".
Definition default_schema : string := "ecommerce".
Definition default_budget : Z := 4000.

Record GetSchemaContextArgs := mkGetSchemaContextArgs {
  sc_question : string; sc_connection : string; sc_schema : string; sc_budget : Z }.

Definition read_schema_context (v : json) : option GetSchemaContextArgs :=
  fs ← struct_fields ["question"; "connection"; "schema"; "budget"] v;
  match fs with
  | [q; c; s; b] =>
      question ← string_field q; connection ← string_or default_connection c;
      schema ← string_or default_schema s; budget ← uint_or U32_MAX default_budget b;
      Some (mkGetSchemaContextArgs question connection schema budget)
  | _ => None
  end.

Definition context_request (base_url : string) (token : option string) (args : GetSchemaContextArgs)
  : fetch_request :=
  mkFetchRequest "POST" (strip_trailing_slash base_url +:+ "/v1/context-packages")
    (match token with Some t => [("Authorization", "Bearer " +:+ t)] | None => [] end)
    (Some (json_object
       [("connection", JString (sc_connection args)); ("schema", JString (sc_schema args));
        ("question", JString (sc_question args)); ("budget", json_u64 (sc_budget args))])).

Definition context_answer (r : result fetch_response string) : result ToolOutput ToolError :=
  resp <-? map_err (ToolError_Execution GET_SCHEMA_CONTEXT) r ;;
  text <-? map_err (ToolError_Execution GET_SCHEMA_CONTEXT) (fetch_text resp) ;;
  if negb (is_success (fetch_status resp)) then
    fail GET_SCHEMA_CONTEXT
      ("pg-lexicon returned HTTP " +:+ show (fetch_status resp) +:+ ": " +:+ text)
  else
    match json_from_str text with
    | Some v => Ok (OutJson v)
    | None =>
        fail GET_SCHEMA_CONTEXT ("invalid JSON from pg-lexicon: " +:+ json_error text +:+ ": " +:+ text)
    end.

Definition GetSchemaContextTool (base_url : string) (token : option string) : ToolObj :=
  derive_tool GET_SCHEMA_CONTEXT read_schema_context (fun args _ =>
    r ← perform (EFetch (context_request base_url token args));
    mret (context_answer r)).

Definition LexiconToolsPlugin (base_url : string) (token : option string) : Plugin :=
  mkPlugin "pg-synapse-tools-lexicon" CARGO_PKG_VERSION
    (register_tools [GetSchemaContextTool base_url token]).
End web.
