(* ===== verification/ToolsLede.v ===== *)
(** * Extractive compression ([plugins/pg-synapse-tools-lede/src/lib.rs])

    [lede_compress]: the sentences of a text that hold most of its repeated
    words, within a budget of tokens; or the answer of the [lede] command
    where the environment asks for it. *)

From S2P Require Import Prelude.
From stdpp Require Import sorting.
From S2P Require Import RustStr.
From S2P Require Import F64.
From S2P Require Import Json.
From S2P Require Import Errors.
From S2P Require Import Types.
From S2P Require Import Effects.
From S2P Require Import Traits.
From S2P Require Import Registry.
From S2P Require Import Builder.
From S2P Require Import ToolInput.
From S2P Require Import ToolsLoad.

#[local] Open Scope Z_scope.

(** [char::is_alphanumeric] outside ASCII. *)
Class AlphaTable := { unicode_alphanumeric : string -> bool }.

(** The words of [cs], of which [cur] has been read. *)
Definition flush (cur : list string) : list string :=
  match cur with [] => [] | _ => [of_chars cur] end.
Fixpoint words_from (cur cs : list string) : list string :=
  match cs with
  | [] => flush cur
  | c :: cs => if is_whitespace c then flush cur ++ words_from [] cs else words_from (cur ++ [c]) cs
  end.

(** [str::split_whitespace] *)
Definition split_whitespace (s : string) : list string := words_from [] (chars s).

Definition LEDE_COMPRESS : string := "lede_compress".
Definition default_max_tokens : Z := 200.

Record LedeCompressInput := mkLedeCompressInput { lede_text : string; lede_max_tokens : Z }.

Definition read_lede (v : json) : option LedeCompressInput :=
  fs ← aliased_fields [["text"; "content"; "input"]; ["max_tokens"; "budget"; "limit"; "max"]] v;
  match fs with
  | [t; m] =>
      text ← string_field t; max_tokens ← uint_or U32_MAX default_max_tokens m;
      Some (mkLedeCompressInput text max_tokens)
  | _ => None
  end.

(** ** Sentences *)

Definition is_terminal (c : string) : bool :=
  String.eqb c "." || String.eqb c "!" || String.eqb c "?".

Definition push_trimmed (cur : list string) : list string :=
  let trimmed := trim (of_chars cur) in if is_empty trimmed then [] else [trimmed].

Fixpoint sentences_from (cur cs : list string) : list string :=
  match cs with
  | [] => push_trimmed cur
  | ch :: cs =>
      if is_terminal ch then push_trimmed (cur ++ [ch]) ++ sentences_from [] cs
      else sentences_from (cur ++ [ch]) cs
  end.

Definition split_sentences (text : string) : list string := sentences_from [] (chars text).

Section score.
Context `{UnicodeTables, AlphaTable}.

(** ** Scores *)

Definition is_alphanumeric (c : string) : bool :=
  if is_ascii c then is_ascii_alphanumeric c else unicode_alphanumeric c.

Definition tokenize (text : string) : list string :=
  List.filter (fun w => negb (is_empty w))
    (map (fun w => to_lowercase (of_chars (List.filter is_alphanumeric (chars w))))
       (split_whitespace text)).

Definition word_freq (words : list string) : gmap string Z :=
  fold_left (fun freq w => <[w := default 0 (freq !! w) + 1]> freq) words ∅.

Definition is_keyword (freq : gmap string Z) (w : string) : bool :=
  (4 <? str_len w) && (1 <? default 0 (freq !! w)).

Definition score_sentence (sentence : string) (freq : gmap string Z) : f64 :=
  match tokenize sentence with
  | [] => f64_zero
  | words =>
      f64_div (f64_of_Z (Z.of_nat (length (List.filter (is_keyword freq) words))))
        (f64_of_Z (Z.of_nat (length words)))
  end.

Definition estimate_tokens (text : string) : f64 :=
  f64_mul (f64_of_Z (Z.of_nat (length (split_whitespace text)))) (f64_ratio 13 10).

(** The order of the candidates: higher scores first, then by position. *)
Definition before (a b : nat * f64) : Prop :=
  f64_ltb b.2 a.2 = true \/ (f64_ltb a.2 b.2 = false /\ (a.1 <= b.1)%nat).

#[export] Instance before_dec : RelDecision before.
Proof. intros a b. unfold before. apply _. Defined.

Definition ranked (sentences : list string) (freq : gmap string Z) : list (nat * f64) :=
  merge_sort before (imap (fun i s => (i, score_sentence s freq)) sentences).

(** ** Selection

    [chosen] is what has been taken, [total] its tokens. *)
Fixpoint select (tokens : nat -> f64) (budget : f64) (chosen : list nat) (total : f64)
    (scored : list nat) : list nat :=
  match scored with
  | [] => chosen
  | i :: rest =>
      if f64_gtb (f64_add total (tokens i)) budget && negb (Nat.eqb (length chosen) 0) then chosen
      else select tokens budget (chosen ++ [i]) (f64_add total (tokens i)) rest
  end.

Definition sentence_tokens (sentences : list string) (i : nat) : f64 :=
  estimate_tokens (default "" (sentences !! i)).

Definition at_least_one (chosen : list nat) : list nat :=
  match chosen with [] => [O] | _ => chosen end.

Definition extractive_compress (text : string) (max_tokens : Z) : string :=
  let trimmed := trim text in
  if is_empty trimmed then ""
  else
    let sentences := split_sentences trimmed in
    if Nat.leb (length sentences) 1 || f64_geb (f64_of_Z max_tokens) (estimate_tokens trimmed)
    then trimmed
    else
      let freq := word_freq (tokenize trimmed) in
      let scored := map fst (ranked sentences freq) in
      let selected := select (sentence_tokens sentences) (f64_of_Z max_tokens) [] f64_zero scored in
      join " " (omap (fun i => sentences !! i) (at_least_one (merge_sort Nat.le selected))).
End score.

(** ** The tool *)

Section tool.
Context `{UnicodeTables, AlphaTable, DeriveLib}.

(** The value of [PG_SYNAPSE_LEDE_CLI]. *)
Context (lede_cli : option string).

Definition cli_asked : bool :=
  bool_decide (lede_cli = Some "1") || bool_decide (lede_cli = Some "true").

Definition exited_well (r : process_answer) : bool :=
  match r with Exited success _ _ => success | _ => false end.

Definition use_cli : prog bool :=
  if cli_asked then r ← perform (EProcess ["which"; "lede"] ""); mret (exited_well r)
  else mret false.

Definition brief_json (source text brief : string) : ToolOutput :=
  OutJson (json_object
    [("brief", JString brief); ("source", JString source);
     ("input_chars", json_u64 (str_len text)); ("brief_chars", json_u64 (str_len brief))]).

Definition lede_error (reason : string) : result ToolOutput ToolError :=
  Err (ToolError_Execution LEDE_COMPRESS reason).

Definition cli_answer (text : string) (r : process_answer) : result ToolOutput ToolError :=
  match r with
  | SpawnFailed e => lede_error ("failed to spawn lede: " +:+ e)
  | WriteFailed e => lede_error ("failed to write to lede stdin: " +:+ e)
  | WaitFailed e => lede_error ("lede process error: " +:+ e)
  | Exited false _ stderr => lede_error ("lede exited non-zero: " +:+ stderr)
  | Exited true stdout _ => Ok (brief_json "lede-cli" text (trim stdout))
  end.

Definition lede_argv (max_tokens : Z) : list string :=
  ["lede"; "--max-chars"; show (Z.min (max_tokens * 4) U32_MAX)].

Definition lede_compress_run (args : LedeCompressInput) (_ : ToolCtx)
  : prog (result ToolOutput ToolError) :=
  let text := trim (lede_text args) in
  cli ← use_cli;
  if (cli : bool) then
    r ← perform (EProcess (lede_argv (lede_max_tokens args)) text);
    mret (cli_answer text r)
  else
    mret (Ok (brief_json "extractive-shim" text
                (extractive_compress text (lede_max_tokens args)))).

Definition LedeCompressTool : ToolObj := derive_tool LEDE_COMPRESS read_lede lede_compress_run.

Definition LedeToolsPlugin : Plugin :=
  mkPlugin "pg-synapse-tools-lede" CARGO_PKG_VERSION
    (fun r => mkRegistry (ToolReg.add_arc LEDE_COMPRESS LedeCompressTool (reg_tools r))
                (reg_executors r) (reg_llm_factories r) (reg_embedding_factories r)
                (reg_memory r) (reg_compressor r)).
End tool.
