(* ===== verification/Sqlx.v ===== *)
(** * Postgres through the asynchronous client
    ([crates/pg-synapse-sidecar/src/db.rs])

    The executor of SQL tools and the source of configuration rows that do
    not live inside Postgres. *)

From S2P Require Import Prelude.
From S2P Require Import RustStr.
From S2P Require Import F64.
From S2P Require Import Json.
From S2P Require Import NumText.
From S2P Require Import Errors.
From S2P Require Import Types.
From S2P Require Import HarnessText.
From S2P Require Import Effects.
From S2P Require Import Traits.
From S2P Require Import LoopHarness.
From S2P Require Import Runtime.
From S2P Require Import Wire.
From S2P Require Import ToolsSql.
From S2P Require Import ToolsBasic.

(** The wording of a decoding error. *)
Class SqlxLib := { try_get_error : string -> option pg_value -> string }.

Definition PgRow : Type := list (string * pg_value).

(** ** Columns as Rust values *)

Definition v_json (v : pg_value) : option json := match v with VJson j => Some j | _ => None end.
Definition v_bool (v : pg_value) : option bool := match v with VBool b => Some b | _ => None end.
Definition v_i64 (v : pg_value) : option Z := match v with VInt8 n => Some n | _ => None end.
Definition v_i32 (v : pg_value) : option Z := match v with VInt4 n => Some n | _ => None end.
Definition v_f64 (v : pg_value) : option f64 := match v with VFloat8 f => Some f | _ => None end.
Definition v_numeric (v : pg_value) : option string :=
  match v with VNumeric s => Some s | _ => None end.
Definition v_uuid (v : pg_value) : option Uuid := match v with VUuid u => Some u | _ => None end.
Definition v_timestamptz (v : pg_value) : option Timestamp :=
  match v with VTimestamptz t => Some t | _ => None end.
Definition v_text (v : pg_value) : option string := match v with VText s => Some s | _ => None end.
Definition v_text_array (v : pg_value) : option (list string) :=
  match v with VTextArray l => Some l | _ => None end.

(** The first column of a name. *)
Fixpoint column_named (name : string) (row : PgRow) : option pg_value :=
  match row with
  | [] => None
  | (n, v) :: row' => if String.eqb n name then Some v else column_named name row'
  end.

Section sqlx.
Context `{SqlxLib}.

(** [row.try_get::<T, _>(name)], and the same for [Option<T>]. *)
Definition try_get {A} (dec : pg_value -> option A) (name : string) (row : PgRow) : result A string :=
  match column_named name row ≫= dec with
  | Some a => Ok a
  | None => Err (try_get_error name (column_named name row))
  end.

Definition try_get_opt {A} (dec : pg_value -> option A) (name : string) (row : PgRow)
  : result (option A) string :=
  match column_named name row with
  | Some VNull => Ok None
  | _ => (a <-? try_get dec name row;; Ok (Some a))%syn
  end.

Context `{Printers, WireLib, ClockLib}.

(** ** The executor *)

Inductive Bound :=
| BNull
| BBool (b : bool)
| BInt (i : Z)
| BFloat (f : f64)
| BText (s : string).

Definition classify_param (v : json) : Bound :=
  match v with
  | JNull => BNull
  | JBool b => BBool b
  | JNumber _ =>
      match as_i64 v with
      | Some i => BInt i
      | None => BFloat (default f64_zero (as_f64 v))
      end
  | JString s =>
      match parse_i64 s with
      | Some i => BInt i
      | None =>
          match parse_f64 s with
          | Some f => if f64_is_finite f then BFloat f else BText s
          | None => BText s
          end
      end
  | JObject _ | JArray _ => BText (json_to_string v)
  end.

Definition bind_json (v : json) : datum :=
  match classify_param v with
  | BNull => DNull TText
  | BBool b => DBool b
  | BInt i => DInt8 i
  | BFloat f => DFloat8 f
  | BText s => DText s
  end.

(** The types tried in order. *)
Definition try_decode_column (row : PgRow) (name : string) : json :=
  default JNull
    (v ← column_named name row;
     head (omap id
       [v_json v; JBool <$> v_bool v; json_i64 <$> v_i64 v; json_i64 <$> v_i32 v;
        json_f64 <$> v_f64 v; (fun s => default (JString s) (json_from_str s)) <$> v_numeric v;
        (fun u => JString (fmt_uuid u)) <$> v_uuid v;
        (fun d => JString (to_rfc3339 0 d)) <$> v_timestamptz v; JString <$> v_text v])).

Definition row_to_json (row : PgRow) : json :=
  JObject (fold_left (fun obj col => obj_insert col.1 (try_decode_column row col.1) obj) row []).
Definition rows_to_json (rows : list PgRow) : list json := map row_to_json rows.

Section on.
Context (db : option PgConnectOptions).

Definition sqlx_query (sql : string) (params : list json) (_ _ : option string)
  : prog (result (list json) ToolError) :=
  r ← perform (ESqlx db sql (map bind_json params));
  mret (match r with
        | Ok (_, rows) => Ok (rows_to_json rows)
        | Err e => Err (ToolError_Execution SQL_QUERY e)
        end).

Definition sqlx_execute (sql : string) (params : list json) (_ _ : option string)
  : prog (result Z ToolError) :=
  r ← perform (ESqlx db sql (map bind_json params));
  mret (match r with
        | Ok (n, _) => Ok n
        | Err e => Err (ToolError_Execution SQL_EXEC e)
        end).

Definition SqlxSqlExecutor : SqlExecutor :=
  {| sx_query := sqlx_query; sx_execute := sqlx_execute |}.

(** ** The source of configuration rows *)

Definition db_err {A} (r : result A string) : result A RuntimeError :=
  map_err (fun e => RuntimeError_Config ("db row decode: " +:+ e)) r.

Definition ok_some {A} (r : result (option A) string) : option A :=
  match r with Ok (Some a) => Some a | _ => None end.

(** [sqlx::query(sql).fetch_all(pool)], with the label of its failure. *)
Definition fetch_all (label sql : string) (args : list datum)
  : prog (result (list PgRow) RuntimeError) :=
  r ← perform (ESqlx db sql args);
  mret (match r with
        | Ok (_, rows) => Ok rows
        | Err e => Err (RuntimeError_Config (label +:+ " query: " +:+ e))
        end).

(** [rows.iter().map(f).collect()] *)
Fixpoint collect {A} (f : PgRow -> result A RuntimeError) (rows : list PgRow)
  : result (list A) RuntimeError :=
  match rows with
  | [] => Ok []
  | r :: rows' => (a <-? f r;; l <-? collect f rows';; Ok (a :: l))%syn
  end.

Definition text_of (name : string) (r : PgRow) : result string RuntimeError :=
  db_err (try_get v_text name r).
Definition opt_text_of (name : string) (r : PgRow) : result (option string) RuntimeError :=
  db_err (try_get_opt v_text name r).

Definition params_of (r : PgRow) : json :=
  match try_get v_json "params" r with Ok j => j | Err _ => JObject [] end.

Definition llm_row (r : PgRow) : result LlmProfileRow RuntimeError :=
  (name <-? text_of "name" r;;
   provider <-? text_of "provider" r;;
   model <-? text_of "model" r;;
   api_key_secret <-? opt_text_of "api_key_secret" r;;
   base_url <-? opt_text_of "base_url" r;;
   Ok (mkLlmProfileRow name provider model api_key_secret base_url (params_of r)))%syn.

(** [x as u32] of an [i32], [x as u64] of an [i64] *)
Definition embedding_row (r : PgRow) : result EmbeddingProfileRow RuntimeError :=
  (dim <-? db_err (try_get v_i32 "dimension" r);;
   name <-? text_of "name" r;;
   provider <-? text_of "provider" r;;
   model <-? text_of "model" r;;
   api_key_secret <-? opt_text_of "api_key_secret" r;;
   base_url <-? opt_text_of "base_url" r;;
   Ok (mkEmbeddingProfileRow name provider model (wrap32 dim) api_key_secret base_url
         (params_of r)))%syn.

Definition agent_row (r : PgRow) : result AgentRow RuntimeError :=
  (tools <-? db_err (try_get v_text_array "tools" r);;
   max_iter <-? db_err (try_get v_i32 "max_iterations" r);;
   timeout <-? db_err (try_get v_i64 "timeout_ms" r);;
   let cost_cap := ok_some (try_get_opt v_text "cost_cap_usd_text" r) ≫= parse_f64 in
   name <-? text_of "name" r;;
   system_prompt <-? text_of "system_prompt" r;;
   soul <-? opt_text_of "soul" r;;
   executor_name <-? text_of "executor_name" r;;
   llm_profile_main <-? opt_text_of "llm_profile_main" r;;
   llm_profile_small <-? opt_text_of "llm_profile_small" r;;
   llm_profile_judge <-? opt_text_of "llm_profile_judge" r;;
   embedding_profile <-? opt_text_of "embedding_profile" r;;
   Ok {| ar_name := name; ar_system_prompt := system_prompt; ar_soul := soul;
         ar_executor_name := executor_name; ar_llm_profile_main := llm_profile_main;
         ar_llm_profile_small := llm_profile_small; ar_llm_profile_judge := llm_profile_judge;
         ar_embedding_profile := embedding_profile; ar_tools := tools;
         ar_max_iterations := wrap32 max_iter; ar_timeout_ms := wrap64 timeout;
         ar_cost_cap_usd := cost_cap; ar_trace_level := None;
         ar_components :=
           mkHarness (ok_some (try_get_opt v_text "guardrails" r))
             (ok_some (try_get_opt v_text "memory" r))
             (ok_some (try_get_opt v_text "critique" r)) [] [] |})%syn.

Definition LLM_PROFILES_SQL : string :=
  "SELECT name, provider, model, api_key_secret, base_url, params FROM synapse.llm_profiles".
Definition EMBEDDING_PROFILES_SQL : string :=
  "SELECT name, provider, model, dimension, api_key_secret, base_url, params FROM synapse.embedding_profiles".

(** The columns of the table that the statement names, those that it casts
    apart. *)
Definition AGENT_COLUMNS : list string :=
  ["name"; "system_prompt"; "soul"; "executor_name"; "llm_profile_main"; "llm_profile_small";
   "llm_profile_judge"; "embedding_profile"; "tools"; "max_iterations"; "timeout_ms"].
Definition COMPONENT_COLUMNS : list string := ["guardrails"; "memory"; "critique"].
Definition AGENTS_SQL : string :=
  "SELECT " +:+ join ", " AGENT_COLUMNS +:+ ", cost_cap_usd::text as cost_cap_usd_text, "
    +:+ join ", " COMPONENT_COLUMNS +:+ " FROM synapse.agents".

Definition SQLX_SECRETS_SQL : string := "SELECT name, value FROM synapse.secrets WHERE name = ANY($1)".

Definition secret_row (r : PgRow) : result (string * string) RuntimeError :=
  (name <-? text_of "name" r;; value <-? text_of "value" r;; Ok (name, value))%syn.

Definition sqlx_secrets (names : list string) : prog (result Secrets RuntimeError) :=
  match names with
  | [] => mret (Ok ∅)
  | _ =>
      prog_try (fetch_all "secrets" SQLX_SECRETS_SQL [DTextArray names]) (fun rows =>
        mret (kvs <-? collect secret_row rows;;
              Ok (fold_left (fun m kv => <[kv.1 := kv.2]> m) kvs ∅))%syn)
  end.

Definition SqlxProfileSource : ProfileSource :=
  {| src_llm_profiles :=
       prog_try (fetch_all "llm_profiles" LLM_PROFILES_SQL []) (fun rows =>
         mret (collect llm_row rows));
     src_embedding_profiles :=
       prog_try (fetch_all "embedding_profiles" EMBEDDING_PROFILES_SQL []) (fun rows =>
         mret (collect embedding_row rows));
     src_agents :=
       prog_try (fetch_all "agents" AGENTS_SQL []) (fun rows => mret (collect agent_row rows));
     src_secrets := sqlx_secrets |}.
End on.

(** Unused by the sources. *)
Definition try_numeric_f64 (row : PgRow) (name : string) : option f64 :=
  match try_get_opt v_f64 name row with
  | Ok v => v
  | Err _ => match try_get_opt v_text name row with Ok (Some s) => parse_f64 s | _ => None end
  end.
End sqlx.
