(* ===== verification/ToolsRemote.v ===== *)
(** * The remote database tools
    ([plugins/pg-synapse-tools-remotedb/src/lib.rs])

    [remote_query] and [remote_exec]: a statement on a database that a row of
    [synapse.connections] names, over a connection opened for the call. *)

From S2P Require Import Prelude.
From S2P Require Import RustStr.
From S2P Require Import Json.
From S2P Require Import NumText.
From S2P Require Import Errors.
From S2P Require Import Types.
From S2P Require Import Effects.
From S2P Require Import Traits.
From S2P Require Import Registry.
From S2P Require Import LoopHarness.
From S2P Require Import StrSlice.
From S2P Require Import Builder.
From S2P Require Import Wire.
From S2P Require Import ToolInput.
From S2P Require Import ToolsSql.
From S2P Require Import ToolsBasic.
From S2P Require Import ToolsLoad.
From S2P Require Import Sqlx.

Module Remote.

Record ConnectionInfo := mkConnectionInfo {
  host : string; port : Z; dbname : string; user : string; password : option string }.

Definition get_str (row : json) (key : string) : option string := json_get key row ≫= as_str.

Definition quoted (s : string) : string := String dquote s +:+ String dquote "".

Definition CONNECTION_SQL : string :=
  "SELECT host, port, dbname, " +:+ quoted "user"
    +:+ ", password_secret FROM synapse.connections WHERE name = $1".
Definition PASSWORD_SQL : string := "SELECT synapse.secret_value($1) AS value".

Definition missing {A} (tool_name name what : string) : result A ToolError :=
  Err (ToolError_Execution tool_name
         ("connection " +:+ quoted name +:+ " is missing a " +:+ what)).

Definition require_str {A} (o : option A) (tool_name name what : string) : result A ToolError :=
  match o with Some a => Ok a | None => missing tool_name name what end.

(** Everything but the password. *)
Definition connection_row (row : json) (name tool_name : string)
  : result (string * Z * string * string) ToolError :=
  (h <-? require_str (get_str row "host") tool_name name "host";;
   d <-? require_str (get_str row "dbname") tool_name name "dbname";;
   u <-? require_str (get_str row "user") tool_name name "user";;
   let p := wrap_i32 (default 5432 (json_get "port" row ≫= as_i64)) in
   Ok (h, p, d, u))%syn.

Definition resolve_connection (local : SqlExecutor) (name tool_name : string)
  : prog (result ConnectionInfo ToolError) :=
  prog_try (sx_query local CONNECTION_SQL [JString name] None None) (fun rows =>
    match rows with
    | [] =>
        mret (Err (ToolError_InvalidInput tool_name
          ("no connection named " +:+ quoted name
             +:+ " (add one from pg-one's Connections page first, or check synapse.connections for the exact name)")))
    | row :: _ =>
        match connection_row row name tool_name with
        | Err e => mret (Err e)
        | Ok (h, p, d, u) =>
            match get_str row "password_secret" with
            | None => mret (Ok (mkConnectionInfo h p d u None))
            | Some secret_name =>
                prog_try (sx_query local PASSWORD_SQL [JString secret_name] None None) (fun srows =>
                  match head srows ≫= (fun r => get_str r "value") with
                  | None =>
                      mret (Err (ToolError_Execution tool_name
                        ("connection " +:+ quoted name +:+ " references secret "
                           +:+ quoted secret_name +:+ ", which does not exist")))
                  | Some pw => mret (Ok (mkConnectionInfo h p d u (Some pw)))
                  end)
            end
        end
    end).

(** [port as u16] *)
Definition connect_options (info : ConnectionInfo) (read_only : bool) : PgConnectOptions :=
  mkPgConnectOptions (host info) (port info mod 65536) (user info) (dbname info) (password info)
    (if read_only then [("default_transaction_read_only", "on")] else []).

Section remote.
Context `{SqlxLib, Printers, WireLib, DeriveLib, ClockLib}.

Definition open_remote (info : ConnectionInfo) (tool_name : string) (read_only : bool)
  : prog (result SqlExecutor ToolError) :=
  let opts := connect_options info read_only in
  r ← perform (EConnect opts);
  mret (match r with
        | Ok tt => Ok (SqlxSqlExecutor (Some opts))
        | Err e =>
            Err (ToolError_Execution tool_name
                   ("could not connect to " +:+ host info +:+ ":" +:+ show (port info) +:+ ": " +:+ e))
        end).

Record RemoteArgs := mkRemoteArgs {
  ra_connection : string; ra_query : string; ra_params : list json }.

Definition read_remote (v : json) : option RemoteArgs :=
  fs ← aliased_fields [["connection"; "connection_name"; "conn"; "database"];
                       ["query"; "sql"; "statement"; "query_text"]; ["params"]] v;
  match fs with
  | [c; q; p] =>
      connection ← string_field c; query ← string_field q;
      params ← match p with None => Some [] | Some v => as_array v end;
      Some (mkRemoteArgs connection query params)
  | _ => None
  end.

Definition REMOTE_QUERY : string := "remote_query".
Definition REMOTE_EXEC : string := "remote_exec".

Section with_local.
Context (local : SqlExecutor).

Definition remote_query_run (args : RemoteArgs) (ctx : ToolCtx)
  : prog (result ToolOutput ToolError) :=
  prog_try (resolve_connection local (ra_connection args) REMOTE_QUERY) (fun info =>
    prog_try (open_remote info REMOTE_QUERY true) (fun remote =>
      prog_try (sx_query remote (ra_query args) (ra_params args) (tctx_caller_role ctx)
                  (Some (fmt_uuid (tctx_execution_id ctx)))) (fun rows =>
        mret (Ok (OutJson (JArray rows)))))).

Definition remote_exec_run (args : RemoteArgs) (ctx : ToolCtx)
  : prog (result ToolOutput ToolError) :=
  prog_try (resolve_connection local (ra_connection args) REMOTE_EXEC) (fun info =>
    prog_try (open_remote info REMOTE_EXEC false) (fun remote =>
      prog_try (sx_execute remote (ra_query args) (ra_params args) (tctx_caller_role ctx)
                  (Some (fmt_uuid (tctx_execution_id ctx)))) (fun n =>
        mret (Ok (OutJson (json_object [("rows_affected", json_u64 n)])))))).

Definition RemoteQueryTool : ToolObj := derive_tool REMOTE_QUERY read_remote remote_query_run.
Definition RemoteExecTool : ToolObj := derive_tool REMOTE_EXEC read_remote remote_exec_run.

Definition register (r : Registry) : Registry :=
  mkRegistry
    (ToolReg.add_arc REMOTE_EXEC RemoteExecTool
      (ToolReg.add_arc REMOTE_QUERY RemoteQueryTool (reg_tools r)))
    (reg_executors r) (reg_llm_factories r) (reg_embedding_factories r) (reg_memory r)
    (reg_compressor r).

Definition RemoteDbToolsPlugin : Plugin :=
  mkPlugin "pg-synapse-tools-remotedb" CARGO_PKG_VERSION register.
End with_local.
End remote.
End Remote.
