(* ===== verification/ToolDataProps.v ===== *)
(** * Properties of the file loaders and of the remote database tools

    What a load asks of the database, how its statements read and what an
    export leaves to be loaded again; what a remote call does with its
    connection and its password. *)

From S2P Require Import Prelude.
From S2P Require Import RustStr.
From S2P Require Import F64.
From S2P Require Import Json.
From S2P Require Import Errors.
From S2P Require Import Types.
From S2P Require Import Net.
From S2P Require Import Effects.
From S2P Require Import LoopHarness.
From S2P Require Import StrSlice.
From S2P Require Import Wire.
From S2P Require Import ToolInput.
From S2P Require Import ToolsHttp.
From S2P Require Import Fs.
From S2P Require Import ToolsFs.
From S2P Require Import Sample.
From S2P Require Import ToolsSql.
From S2P Require Import ToolsLoad.
From S2P Require Import ToolsLoadSpec.
From S2P Require Import ToolsBasic.
From S2P Require Import Sqlx.
From S2P Require Import ToolsRemote.

Section staging.
Context `{Printers}.

(** C30: a load into a table whose name is valid makes the statements of its
    plan in order up to the first that fails, and answers with that failure
    or with the sum of the rows the insertions report.  In the plan, the
    insertions bind every cell of every row once, in order; the texts depend
    on the number of rows and never on a cell; each binds at least one row,
    at most 500 rows and at most 60000 values, which its placeholders count
    from one. *)
Theorem loads_bind_every_cell sql ctx tool table columns rows replace q tr r :
  quote_table table tool = Ok q ->
  columns <> [] -> Z.of_nat (length columns) <= 60000 ->
  Forall (fun cells => length cells = length columns) rows ->
  steps (stage_rows sql ctx tool table columns rows replace) tr r ->
  (exists outs, executes sql ctx (load_plan q columns rows replace) tr outs /\
     r = total_of 0 (length (head_plan q columns replace)) outs) /\
  concat (map snd (load_plan q columns rows replace)) = map cell_param (concat rows) /\
  (forall rows', length rows' = length rows ->
     map fst (load_plan q columns rows' replace) = map fst (load_plan q columns rows replace)) /\
  Forall (fun chunk =>
    (1 <= length chunk)%nat /\ Z.of_nat (length chunk) <= BATCH_ROWS /\
    Z.of_nat (length chunk * length columns) <= 60000 /\
    exists groups, placeholders (length columns) 1 chunk = map slots_text groups /\
      concat groups = seqZ 1 (Z.of_nat (length (flat_map (row_params (length columns)) chunk))))
    (batches columns rows).
Proof.
  intros Hq Hne Hmax Hrows Hs. split; [by eapply stage_rows_executes|].
  destruct (rows_per_batch_bounds (Z.of_nat (length columns))) as [Hb Hm]; [lia|].
  specialize (Hm Hmax).
  assert (Hcat : concat (batches columns rows) = rows) by (apply chunks_concat; lia).
  split_and!.
  - unfold load_plan. rewrite map_app, concat_app, insert_plan_params; rewrite Hcat; [|done].
    by destruct replace.
  - intros rows' Hl. unfold load_plan. rewrite !map_app. f_equal. apply insert_plan_texts.
    unfold batches. rewrite Hl. by apply chunks_lengths.
  - eapply Forall_impl; [apply chunks_sizes; lia|]. intros chunk [H1 H2].
    split_and!; [done|lia|nia|].
    exists (slot_numbers (length columns) 1 (length chunk)).
    by rewrite placeholders_slots, slot_numbers_concat, length_chunk_params.
Qed.
End staging.

(** Whatever the names of the columns and the parts of the table's name
    contain, quotes included, the statements of a load read back, as Postgres
    splits quoted identifiers, to exactly that table and those columns, with
    nothing before or after them but the keywords and the placeholders. *)
Lemma load_statements_read_back raw tool q columns chunk :
  quote_table raw tool = Ok q -> columns <> [] ->
  read_create (create_sql q columns) = Some (table_parts raw, columns) /\
  read_delete (delete_sql q) = Some (table_parts raw) /\
  read_insert (insert_sql q columns chunk)
  = Some (table_parts raw, columns, join ", " (placeholders (length columns) 1 chunk)).
Proof.
  intros Hq Hc.
  split_and!; [by eapply read_create_sql|by eapply read_delete_sql|by eapply read_insert_sql].
Qed.

(** C31: rows that [export_csv] saved and [load_csv] reads under a name that
    still resolves are staged with the keys of the first row as columns, made
    into column names, and with the text of every value trimmed, blank and
    missing ones as NULL; nothing else is lost and no value moves to another
    row or column. *)
Theorem exported_rows_load_again `{UnicodeTables, Printers, WireLib, DeriveLib, FsLib, LoadLib}
    (laws : CsvLaws) sb s s1 s2 sql sql' input input' args args' ctx tr out :
  parse_input "export_csv" read_export input = Ok args ->
  parse_input "load_csv" read_load input' = Ok args' ->
  la_path args' = ea_path args ->
  steps (export_csv sb s s1 sql input ctx) tr (Ok out, s2) ->
  is_ok (resolve sb s2 (ea_path args) "load_csv") = true ->
  exists rows,
    steps (sx_query sql (ea_query args) [] (tctx_caller_role ctx)
             (Some (fmt_uuid (tctx_execution_id ctx)))) tr (Ok rows) /\
    rows <> [] /\
    (export_columns rows <> [] ->
     starts_with (hd "" (export_columns rows)) byte_order_mark = false ->
     load_csv sb s2 sql' input' ctx
     = stage_and_describe sql' ctx "load_csv" (la_table args') (la_replace args')
         (exported_table rows)).
Proof.
  intros Ha Ha' Hpath Hs Hres. unfold export_csv in Hs. rewrite Ha in Hs. simpl in Hs.
  destruct (resolve sb s (ea_path args) "export_csv") as [p|] eqn:Ep; [|by destruct Hs].
  apply steps_bind in Hs as (tr1 & tr2 & r & -> & Hq & [-> Hr]). rewrite app_nil_r.
  destruct r as [rows|]; [|done]. exists rows. split; [done|].
  unfold export_rows in Hr. destruct rows as [|row rows]; [done|]. split; [done|].
  set (all := row :: rows) in *. simpl in Hr. intros Hne Hbom.
  destruct (export_text all) as [bytes|] eqn:Et; [|done].
  destruct (write s1 p bytes) as [[[]|] s''] eqn:Ew; [|done]. injection Hr as _ ->.
  unfold load_csv. rewrite Ha'. simpl. rewrite Hpath.
  destruct (resolve sb s'' (ea_path args) "load_csv") as [p'|] eqn:Ep'; [|done]. simpl.
  apply resolve_path_of in Ep, Ep'. rewrite Ep', <- Ep. rewrite (write_read _ _ _ _ Ew). simpl.
  by rewrite (export_text_table _ _ laws Hne Hbom Et).
Qed.

(** ** Instances

    A CSV format that quotes every field and ends a record with a line feed. *)

Definition sample_record (rec : list string) : string :=
  join ", " (map (fun c => quote_ident c +:+ "") rec) +:+ String LF "".

Fixpoint sample_reader (fuel : nat) (s : string) : list (list string) :=
  match fuel with
  | O => []
  | S fuel =>
      match read_list "" (String.length s) s with
      | Some (rec, String _ rest) => rec :: sample_reader fuel rest
      | _ => []
      end
  end.

#[local] Instance sample_load_lib : LoadLib :=
  {| csv_headers := fun s => match sample_reader (String.length s) s with h :: _ => Ok h | [] => Ok [] end;
     csv_records := fun s => map Ok (tail (sample_reader (String.length s) s));
     csv_writer := string;
     csv_new := "";
     csv_write_record := fun w rec => Ok (w +:+ sample_record rec);
     csv_into_inner := Ok;
     json_error := fun _ => "bad JSON" |}.

Definition sample_text (recs : list (list string)) : string :=
  foldr (fun rec s => sample_record rec +:+ s) "" recs.

Lemma sample_written (w : string) recs :
  @written sample_load_lib w recs = Ok (w +:+ sample_text recs).
Proof.
  revert w. induction recs as [|r recs IH]; intros w; simpl; [by rewrite str_app_nil|].
  by rewrite IH, <- str_app_assoc.
Qed.

Lemma sample_reads recs fuel :
  Forall (fun r => r <> []) recs -> (length recs <= fuel)%nat ->
  sample_reader fuel (sample_text recs) = recs.
Proof.
  intros Hne. revert fuel.
  induction Hne as [|r recs Hr _ IH]; intros [|fuel] Hf; simpl in Hf; [done..|lia|].
  change (sample_text (r :: recs)) with (sample_record r +:+ sample_text recs).
  unfold sample_record. rewrite <- str_app_assoc. cbn [sample_reader].
  rewrite read_idents; [|done|apply join_idents_length|done..].
  simpl. by rewrite IH by lia.
Qed.

Lemma sample_text_length recs :
  (length recs <= String.length (sample_text recs))%nat.
Proof.
  induction recs as [|r recs IH]; [done|]. simpl. unfold sample_record.
  rewrite !length_str_app. simpl (String.length (String LF "")). lia.
Qed.

#[local] Instance sample_csv_laws : CsvLaws.
Proof.
  intros header recs w bytes Hh _ Hl Hw [= <-].
  rewrite sample_written in Hw. injection Hw as <-. simpl String.append.
  assert (Hall : Forall (fun r => r <> []) (header :: recs)).
  { constructor; [done|]. eapply Forall_impl; [exact Hl|]. intros r Hr ->.
    destruct header; [done|by simpl in Hr]. }
  pose proof (sample_reads _ _ Hall (sample_text_length _)) as Hr.
  cbv [csv_headers csv_records sample_load_lib].
  change ("" +:+ sample_record header +:+ sample_text recs) with (sample_text (header :: recs)).
  by rewrite Hr.
Qed.

#[local] Instance load_wire_lib : WireLib :=
  {| json_from_str := fun _ => None; parse_f64 := fun _ => None;
     header_name_ok := fun _ => true; header_value_ok := fun _ => true; fmt_status := show |}.
#[local] Instance load_net_lib : NetLib :=
  {| parse_url := fun s => Ok (mkUrl "http" (Some s) (Some 80)); fmt_ipv6 := fun _ => "v6" |}.
#[local] Instance load_derive_lib : DeriveLib :=
  {| serde_error := fun _ _ => "bad input"; schema_for := fun _ => JNull |}.
#[local] Instance load_fs_lib : FsLib :=
  {| io_text := fun _ => "io error"; dir_size := fun _ => 4096; max_links := 40 |}.

(** A database that answers queries with [rows] and counts what it is sent. *)
Definition counting_sql (rows : list json) : SqlExecutor :=
  mkSqlExecutor (fun _ _ _ _ => mret (Ok rows))
    (fun _ params _ _ => mret (Ok (Z.of_nat (length params)))).

Lemma loads_bind_every_cell_witness :
  concat (map snd (load_plan (quote_ident "t") ["a"; "b"]
                     [[Some "1"; None]; [Some "x'); DROP"; Some "2"]] true))
  = [JString "1"; JNull; JString "x'); DROP"; JString "2"].
Proof.
  refine (proj1 (proj2 (loads_bind_every_cell (counting_sql []) (mkToolCtx 7 None None)
    "load_csv" "t" ["a"; "b"] [[Some "1"; None]; [Some "x'); DROP"; Some "2"]] true
    (quote_ident "t") [] (Ok 4) _ _ _ _ _))).
  - reflexivity.
  - done.
  - simpl. lia.
  - repeat constructor.
  - repeat (eexists _, _). vm_compute. done.
Defined.

Lemma load_statements_read_back_witness :
  read_delete (delete_sql (quote_ident "s" +:+ "." +:+ quote_ident "t"))
  = Some ["s"; "t"].
Proof.
  apply (load_statements_read_back " s. t" "load_csv"
           (quote_ident "s" +:+ "." +:+ quote_ident "t") ["a"] []).
  - reflexivity.
  - done.
Defined.

Definition export_args : json :=
  json_object [("query", JString "SELECT 1"); ("path", JString "out.csv")].
Definition reload_args : json :=
  json_object [("path", JString "out.csv"); ("table", JString "t")].
Definition exported : list json :=
  [json_object [("Id #", JString " 7 "); ("note", JNull)];
   json_object [("Id #", JString "a, b"); ("note", JString "x")]].

Lemma exported_rows_load_again_witness :
  exported_table exported
  = (["id"; "note"], [[Some "7"; None]; [Some "a, b"; Some "x"]]) /\
  exists s2,
    load_csv (mkFsSandbox []) s2 (counting_sql []) reload_args (mkToolCtx 7 None None)
    = stage_and_describe (counting_sql []) (mkToolCtx 7 None None) "load_csv" "t" false
        (exported_table exported).
Proof.
  split; [by vm_compute|].
  destruct (exported_rows_load_again sample_csv_laws (mkFsSandbox []) ∅ ∅
    {[ ["out.csv"] := File (sample_text [["Id #"; "note"]; [" 7 "; ""]; ["a, b"; "x"]]) ]}
    (counting_sql exported) (counting_sql []) export_args reload_args
    (mkExportArgs "SELECT 1" "out.csv") (mkLoadArgs "out.csv" "t" false)
    (mkToolCtx 7 None None) []
    (OutJson (json_object
       [("path", JString "out.csv"); ("rows_exported", json_u64 2);
        ("columns", JArray [JString "Id #"; JString "note"]); ("bytes", json_u64 37)])))
    as (rows & Hq & _ & Hload).
  - reflexivity.
  - reflexivity.
  - reflexivity.
  - vm_compute. done.
  - vm_compute. done.
  - destruct Hq as [_ [= ->]]. eexists. apply Hload; by vm_compute.
Defined.

(** Two headers with one column name, and a record without keys. *)
Example column_names_collide : column_names ["a b"; "a-b"] = ["a_b"; "a_b"].
Proof. by vm_compute. Qed.

Example empty_record_statement :
  shape_records [[]] = ([], [[]]) /\
  map fst (load_plan (quote_ident "t") [] [[]] false)
  = ["CREATE TABLE IF NOT EXISTS " +:+ quote_ident "t" +:+ " ()";
     "INSERT INTO " +:+ quote_ident "t" +:+ " () VALUES ()"].
Proof. by vm_compute. Qed.

(** ** Properties of the remote database tools

    What a call asks of the remote database, and where the password goes. *)

Section remote.
Context `{SqlxLib, Printers, WireLib, DeriveLib, ClockLib}.

(** The answer of the statement as the answer of the tool. *)
Definition query_answer (r : result (Z * list PgRow) string) : result ToolOutput ToolError :=
  match r with
  | Ok (_, rows) => Ok (OutJson (JArray (rows_to_json rows)))
  | Err e => Err (ToolError_Execution SQL_QUERY e)
  end.
Definition exec_answer (r : result (Z * list PgRow) string) : result ToolOutput ToolError :=
  match r with
  | Ok (n, _) => Ok (OutJson (json_object [("rows_affected", json_u64 n)]))
  | Err e => Err (ToolError_Execution SQL_EXEC e)
  end.

(** After the lookups: a refused connection, or one statement on it. *)
Definition session (tool : string) (read_only : bool)
    (answer : result (Z * list PgRow) string -> result ToolOutput ToolError)
    (args : Remote.RemoteArgs) (info : Remote.ConnectionInfo)
    (tr : list call) (r : result ToolOutput ToolError) : Prop :=
  let opts := Remote.connect_options info read_only in
  (exists e, tr = [Call (EConnect opts) (Err e)] /\
     r = Err (ToolError_Execution tool
                ("could not connect to " +:+ Remote.host info +:+ ":"
                   +:+ show (Remote.port info) +:+ ": " +:+ e))) \/
  (exists x, tr = [Call (EConnect opts) (Ok tt);
                   Call (ESqlx (Some opts) (Remote.ra_query args)
                           (map bind_json (Remote.ra_params args))) x] /\
     r = answer x).

Definition resolved (local : SqlExecutor) (tool : string) (args : Remote.RemoteArgs)
    (k : Remote.ConnectionInfo -> list call -> result ToolOutput ToolError -> Prop)
    (tr : list call) (r : result ToolOutput ToolError) : Prop :=
  (exists e, steps (Remote.resolve_connection local (Remote.ra_connection args) tool) tr (Err e) /\
     r = Err e) \/
  (exists info tr1 tr2, tr = tr1 ++ tr2 /\
     steps (Remote.resolve_connection local (Remote.ra_connection args) tool) tr1 (Ok info) /\
     k info tr2 r).

(** Both directions, for a run of the tools. *)
Ltac session_cases :=
  unfold resolved, session; rewrite steps_prog_try; split;
  [intros [(info & tr1 & tr2 & -> & Hr & Hk)|(e & Hr & ->)];
    [right; exists info, tr1, tr2; split; [done|]; split; [done|];
     destruct Hk as ([[]|e] & tr3 & -> & Hk); simpl in Hk;
     [right; destruct Hk as ([[n rows]|e] & tr4 & -> & [-> ->]); by eexists
     |left; destruct Hk as [-> ->]; by exists e]
    |left; by exists e]
  |intros [(e & Hr & ->)|(info & tr1 & tr2 & -> & Hr & [(e & -> & ->)|([[n rows]|e] & -> & ->)])];
    [right; by exists e|left; exists info, tr1; eexists; split; [done|]; split; [done|]..];
    by repeat (eexists _, _; split; [reflexivity|])].

Lemma remote_query_session local args ctx tr r :
  steps (Remote.remote_query_run local args ctx) tr r <->
  resolved local Remote.REMOTE_QUERY args (session Remote.REMOTE_QUERY true query_answer args) tr r.
Proof. unfold Remote.remote_query_run. session_cases. Qed.

Lemma remote_exec_session local args ctx tr r :
  steps (Remote.remote_exec_run local args ctx) tr r <->
  resolved local Remote.REMOTE_EXEC args (session Remote.REMOTE_EXEC false exec_answer args) tr r.
Proof. unfold Remote.remote_exec_run. session_cases. Qed.

(** ** The password *)

(** A local database that answers with [rows], and with [pw] when it is
    asked for a secret. *)
Definition local_db (rows : string -> list json -> result (list json) ToolError) (pw : string)
  : SqlExecutor :=
  {| sx_query := fun sql ps _ _ =>
       mret (if String.eqb sql Remote.PASSWORD_SQL
             then Ok [json_object [("value", JString pw)]] else rows sql ps);
     sx_execute := fun _ _ _ _ => mret (Ok 0) |}.

(** A request with another password in its options, if it had one. *)
Definition change_password (pw : string) (o : PgConnectOptions) : PgConnectOptions :=
  mkPgConnectOptions (pg_host o) (pg_port o) (pg_username o) (pg_database o)
    ((fun _ => pw) <$> pg_password o) (pg_options o).

Definition set_password (pw : string) (c : call) : call :=
  match c with
  | Call e x =>
      match e in eff X return X -> call with
      | EConnect o => fun x => Call (EConnect (change_password pw o)) x
      | ESqlx (Some o) sql args => fun x => Call (ESqlx (Some (change_password pw o)) sql args) x
      | e' => fun x => Call e' x
      end x
  end.

Lemma resolve_local rows name tool :
  (exists e, forall pw, Remote.resolve_connection (local_db rows pw) name tool = Ret (Err e)) \/
  (exists h p d u b, forall pw, Remote.resolve_connection (local_db rows pw) name tool
     = Ret (Ok (Remote.mkConnectionInfo h p d u (if b : bool then Some pw else None)))).
Proof.
  unfold Remote.resolve_connection, local_db, prog_try. simpl.
  destruct (rows Remote.CONNECTION_SQL [JString name]) as [[|row l]|e]; [left; by eexists| |left; by eexists].
  simpl. destruct (Remote.connection_row row name tool) as [[[[h p] d] u]|e]; [|left; by eexists].
  destruct (Remote.get_str row "password_secret"); right; exists h, p, d, u;
    [by exists true|by exists false].
Qed.

Lemma session_sealed tool ro answer args h p d u (b : bool) pw pw' tr r :
  session tool ro answer args (Remote.mkConnectionInfo h p d u (if b then Some pw else None)) tr r ->
  session tool ro answer args (Remote.mkConnectionInfo h p d u (if b then Some pw' else None))
    (map (set_password pw') tr) r.
Proof.
  intros [(e & -> & ->)|(x & -> & ->)]; [left; exists e|right; exists x]; by destruct b.
Qed.

Lemma resolved_sealed rows tool ro answer args pw pw' tr r :
  resolved (local_db rows pw) tool args (session tool ro answer args) tr r ->
  resolved (local_db rows pw') tool args (session tool ro answer args)
    (map (set_password pw') tr) r.
Proof.
  unfold resolved. destruct (resolve_local rows (Remote.ra_connection args) tool)
    as [(e & He)|(h & p & d & u & b & Ho)].
  - rewrite !He. intros [(e' & [-> [= ->]] & ->)|(info & tr1 & tr2 & -> & [_ ?] & _)]; [|done].
    left. by exists e.
  - rewrite !Ho. intros [(e' & [_ ?] & _)|(info & tr1 & tr2 & -> & [-> [= ->]] & Hs)]; [done|].
    right. eexists _, [], _. split; [reflexivity|]. split; [done|]. by eapply session_sealed.
Qed.

(** C32: after its lookups in the local database, a remote call opens one
    connection, with the options of the named row, and makes one statement on
    it, the one it was given; [remote_query] always, and [remote_exec] never,
    asks for a session whose transactions are read-only.  The password goes
    into the options of the connection and nowhere else: with another
    password, and the same answers, the call makes the same requests but for
    the password in those options, and returns the same. *)
Theorem remote_calls_are_sealed local rows pw pw' args ctx tr r :
  (steps (Remote.remote_query_run local args ctx) tr r <->
   resolved local Remote.REMOTE_QUERY args (session Remote.REMOTE_QUERY true query_answer args) tr r) /\
  (steps (Remote.remote_exec_run local args ctx) tr r <->
   resolved local Remote.REMOTE_EXEC args (session Remote.REMOTE_EXEC false exec_answer args) tr r) /\
  (steps (Remote.remote_query_run (local_db rows pw) args ctx) tr r ->
   steps (Remote.remote_query_run (local_db rows pw') args ctx) (map (set_password pw') tr) r) /\
  (steps (Remote.remote_exec_run (local_db rows pw) args ctx) tr r ->
   steps (Remote.remote_exec_run (local_db rows pw') args ctx) (map (set_password pw') tr) r).
Proof.
  split_and!; [apply remote_query_session|apply remote_exec_session|..].
  - rewrite !remote_query_session. apply resolved_sealed.
  - rewrite !remote_exec_session. apply resolved_sealed.
Qed.
End remote.

#[local] Instance remote_sqlx_lib : SqlxLib :=
  {| try_get_error := fun _ _ => "column error" |}.
#[local] Instance remote_clock_lib : ClockLib := {| to_rfc3339 := fun _ _ => "2026-01-01T00:00:00+00:00" |}.
#[local] Instance remote_wire_lib : WireLib :=
  {| json_from_str := fun _ => None; parse_f64 := fun _ => None;
     header_name_ok := fun _ => true; header_value_ok := fun _ => true; fmt_status := show |}.

Definition sales_rows (_ : string) (_ : list json) : result (list json) ToolError :=
  Ok [json_object [("host", JString "h"); ("port", JNumber (PosInt 70000)); ("dbname", JString "d");
                   ("user", JString "u"); ("password_secret", JString "s")]].
Definition sales_options (pw : string) : PgConnectOptions :=
  mkPgConnectOptions "h" 4464 "u" "d" (Some pw) [("default_transaction_read_only", "on")].
Definition sales_trace (pw : string) : list call :=
  [Call (EConnect (sales_options pw)) (Ok tt);
   Call (ESqlx (Some (sales_options pw)) "SELECT 1" []) (Ok (1, [[("n", VInt4 1)]]))].

Lemma remote_calls_are_sealed_witness :
  steps (Remote.remote_query_run (local_db sales_rows "changed")
           (Remote.mkRemoteArgs "sales" "SELECT 1" []) (mkToolCtx 7 None None))
    (sales_trace "changed")
    (Ok (OutJson (JArray [json_object [("n", JNumber (PosInt 1))]]))).
Proof.
  apply (proj1 (proj2 (proj2 (remote_calls_are_sealed (local_db sales_rows "s3cret") sales_rows
    "s3cret" "changed" (Remote.mkRemoteArgs "sales" "SELECT 1" []) (mkToolCtx 7 None None)
    (sales_trace "s3cret") (Ok (OutJson (JArray [json_object [("n", JNumber (PosInt 1))]]))))))).
  repeat (eexists _, _; split; [reflexivity|]). by vm_compute.
Defined.
