(* ===== verification/Providers.v ===== *)
(** * Network providers as plugins

    The [LlmProvider] values of the OpenAI client, with its model listing, the
    refusal to stream of the clients, and the plugins of the provider and tool
    crates. *)

From S2P Require Import Prelude.
From S2P Require Import RustStr.
From S2P Require Import F64.
From S2P Require Import Json.
From S2P Require Import Errors.
From S2P Require Import Types.
From S2P Require Import Effects.
From S2P Require Import Traits.
From S2P Require Import LoopHarness.
From S2P Require Import Registry.
From S2P Require Import Builder.
From S2P Require Import StrSlice.
From S2P Require Import Wire.
From S2P Require Import Anthropic.
From S2P Require Import OpenAi.
From S2P Require Import OpenAiExtract.
From S2P Require Import LlamaCpp.
From S2P Require Import ToolInput.
From S2P Require Import ToolsHttp.
From S2P Require Import ToolsDelegate.
From S2P Require Import ToolsSql.
#[local] Open Scope synapse_scope.

Section providers.
Context `{UnicodeTables, Printers, WireLib}.

(** ** OpenAI *)

Definition openai_capabilities : ProviderCapabilities :=
  mkProviderCapabilities true true true false None None.

Definition openai_provider (p : OpenAi.OpenAiProvider) : LlmProvider :=
  {| llm_complete := fun req => unwinding (openai_complete p req);
     llm_model_name := OpenAi.op_model p;
     llm_capabilities := openai_capabilities |}.

(** Streaming is refused by every client. *)
Definition openai_stream (req : CompletionRequest) : result json LlmError :=
  Err (LlmError_Provider "openai" "streaming not implemented in v0.1; use complete()").
Definition anthropic_stream (req : CompletionRequest) : result json LlmError :=
  Err (LlmError_Provider "anthropic" "streaming not implemented in v0.1; use complete()").

Definition model_ids (body : json) : result (list string) LlmError :=
  arr <-? ok_or (json_get "data" body ≫= as_array)
            (LlmError_Provider "openai" "no data array in /models response") ;;
  Ok (omap (fun v => json_get "id" v ≫= as_str) arr).

Definition list_models (p : OpenAi.OpenAiProvider) : prog (result (list string) LlmError) :=
  match OpenAi.build_headers p with
  | Err e => mret (Err e)
  | Ok headers =>
      r ← perform (EHttp (mkHttpRequest "GET" (OpenAi.op_base_url p +:+ "/models") headers None));
      mret (match r with
            | Err e => Err (LlmError_Network e)
            | Ok resp =>
                if is_success (http_status resp) then
                  match http_json resp with
                  | Err e =>
                      Err (LlmError_Provider "openai" ("invalid JSON from /models: " +:+ e))
                  | Ok body => model_ids body
                  end
                else
                  Err (OpenAi.map_http_error (http_status resp) (http_text resp)
                         (OpenAi.parse_retry_after (http_response_headers resp)))
            end)
  end.

Definition openai_factory : LlmProviderFactory :=
  {| llm_provider_name := "openai";
     llm_build := fun profile => Ok (openai_provider (OpenAi.factory_build profile)) |}.

(** ** The plugins *)

Definition OpenAiProviderFactory : Plugin :=
  mkPlugin "pg-synapse-provider-openai" CARGO_PKG_VERSION (with_llm_factory openai_factory).
Definition AnthropicProviderFactory : Plugin :=
  mkPlugin "pg-synapse-provider-anthropic" CARGO_PKG_VERSION (with_llm_factory Anthropic.factory).
Definition LlamaCppProviderFactory : Plugin :=
  mkPlugin "pg-synapse-provider-llama-cpp" CARGO_PKG_VERSION (with_llm_factory Llama.factory).
Definition LlamaCppEmbeddingFactory : Plugin :=
  mkPlugin "pg-synapse-provider-llama-cpp-embeddings" CARGO_PKG_VERSION
    (with_embedding_factory Llama.embedding_factory).

Section tools.
Context `{DeriveLib}.

Definition SqlToolsPlugin (executor : SqlExecutor) : Plugin :=
  mkPlugin "pg-synapse-tools-sql" CARGO_PKG_VERSION (SqlToolsPlugin_register executor).
Definition HttpToolsPlugin `{NetLib} (allow : gset string) (egress : option (list string))
  : Plugin :=
  mkPlugin "pg-synapse-tools-http" CARGO_PKG_VERSION (HttpToolsPlugin_register allow egress).
Definition DelegateToolsPlugin `{FloatPrinter} (t : CallAgentTool) : Plugin :=
  mkPlugin "pg-synapse-tools-delegate" CARGO_PKG_VERSION (DelegateToolsPlugin_register t).
End tools.
End providers.
