(* ===== verification/Rows.v ===== *)
(** * Rows as JSON

    What [#[derive(Serialize, Deserialize)]] generates for the row types of
    [types/profile.rs] and the components of [types/harness.rs]: the hosts
    read configuration from Postgres in this form. *)

From S2P Require Import Prelude.
From S2P Require Import RustStr.
From S2P Require Import F64.
From S2P Require Import Json.
From S2P Require Import Types.
From S2P Require Import HarnessText.
From S2P Require Import LoopHarness.
From S2P Require Import Runtime.

(** ** Reading *)

(** A struct is read from an object by field name, or from an array by
    position; an array may leave out only trailing fields with a default. *)
Definition row_fields (required : nat) (names : list string) (v : json)
  : option (list (option json)) :=
  match v with
  | JObject m => Some (map (fun k => obj_get k m) names)
  | JArray l =>
      if Nat.leb required (length l) && Nat.leb (length l) (length names)
      then Some (map Some l ++ replicate (length names - length l) None) else None
  | _ => None
  end.

(** Fields of type [String], [Vec<T>] and of an unsigned integer type with
    maximum [max]. *)
Definition read_string (f : option json) : option string := f ≫= as_str.

Definition read_uint (max : Z) (f : option json) : option Z :=
  n ← f ≫= as_u64; if (0 <=? n) && (n <=? max) then Some n else None.

Definition read_vec {A} (read : json -> option A) (f : option json) : option (list A) :=
  l ← f ≫= as_array; mapM read l.

(** A field with a default: its value when absent. *)
Definition read_default {A} (d : A) (read : option json -> option A) (f : option json) : option A :=
  match f with None => Some d | Some _ => read f end.

Definition read_skill (v : json) : option Skill :=
  fs ← row_fields 3 ["name"; "description"; "body"] v;
  match fs with
  | [n; d; b] =>
      name ← read_string n; description ← read_string d; body ← read_string b;
      Some (mkSkill name description body)
  | _ => None
  end.

Definition read_tool_hint (v : json) : option ToolHint :=
  fs ← row_fields 3 ["tool_name"; "error_pattern"; "hint"] v;
  match fs with
  | [t; p; h] =>
      tool_name ← read_opt as_str t; error_pattern ← read_string p; hint ← read_string h;
      Some (mkToolHint tool_name error_pattern hint)
  | _ => None
  end.

(** Every field of [Harness] has a default. *)
Definition read_harness (v : json) : option Harness :=
  fs ← row_fields 0 ["guardrails"; "memory"; "critique"; "skills"; "tool_hints"] v;
  match fs with
  | [g; m; c; s; t] =>
      guardrails ← read_opt as_str g; memory ← read_opt as_str m; critique ← read_opt as_str c;
      skills ← read_default [] (read_vec read_skill) s;
      tool_hints ← read_default [] (read_vec read_tool_hint) t;
      Some (mkHarness guardrails memory critique skills tool_hints)
  | _ => None
  end.

Definition LLM_PROFILE_FIELDS : list string :=
  ["name"; "provider"; "model"; "api_key_secret"; "base_url"; "params"].

Definition read_llm_profile (v : json) : option LlmProfileRow :=
  fs ← row_fields 6 LLM_PROFILE_FIELDS v;
  match fs with
  | [n; p; m; k; b; params] =>
      name ← read_string n; provider ← read_string p; model ← read_string m;
      key ← read_opt as_str k; base_url ← read_opt as_str b; params ← params;
      Some (mkLlmProfileRow name provider model key base_url params)
  | _ => None
  end.

Definition EMBEDDING_PROFILE_FIELDS : list string :=
  ["name"; "provider"; "model"; "dimension"; "api_key_secret"; "base_url"; "params"].

Definition read_embedding_profile (v : json) : option EmbeddingProfileRow :=
  fs ← row_fields 7 EMBEDDING_PROFILE_FIELDS v;
  match fs with
  | [n; p; m; d; k; b; params] =>
      name ← read_string n; provider ← read_string p; model ← read_string m;
      dimension ← read_uint U32_MAX d; key ← read_opt as_str k; base_url ← read_opt as_str b;
      params ← params;
      Some (mkEmbeddingProfileRow name provider model dimension key base_url params)
  | _ => None
  end.

Definition AGENT_FIELDS : list string :=
  ["name"; "system_prompt"; "soul"; "executor_name"; "llm_profile_main"; "llm_profile_small";
   "llm_profile_judge"; "embedding_profile"; "tools"; "max_iterations"; "timeout_ms";
   "cost_cap_usd"; "trace_level"; "components"].

Definition read_agent (v : json) : option AgentRow :=
  fs ← row_fields 13 AGENT_FIELDS v;
  match fs with
  | [n; sp; so; ex; lm; ls; lj; em; ts; mi; tm; cc; tl; co] =>
      name ← read_string n; system_prompt ← read_string sp; soul ← read_opt as_str so;
      executor_name ← read_string ex; main ← read_opt as_str lm; small ← read_opt as_str ls;
      judge ← read_opt as_str lj; embedding ← read_opt as_str em;
      tools ← read_vec as_str ts; max_iterations ← read_uint U32_MAX mi;
      timeout_ms ← read_uint U64_MAX tm; cost_cap ← read_opt as_f64 cc;
      trace_level ← read_opt as_str tl;
      components ← read_default Harness_default (fun f => f ≫= read_harness) co;
      Some (mkAgentRow name system_prompt soul executor_name main small judge embedding tools
              max_iterations timeout_ms cost_cap trace_level components)
  | _ => None
  end.

(** ** Writing *)

Definition skill_to_json (s : Skill) : json :=
  json_object [("name", JString (skill_name s)); ("description", JString (skill_description s));
               ("body", JString (skill_body s))].

Definition tool_hint_to_json (h : ToolHint) : json :=
  json_object [("tool_name", json_option JString (hint_tool_name h));
               ("error_pattern", JString (hint_error_pattern h));
               ("hint", JString (hint_hint h))].

Definition harness_to_json (h : Harness) : json :=
  json_object [("guardrails", json_option JString (guardrails h));
               ("memory", json_option JString (memory h));
               ("critique", json_option JString (critique h));
               ("skills", JArray (map skill_to_json (skills h)));
               ("tool_hints", JArray (map tool_hint_to_json (tool_hints h)))].

Definition llm_profile_to_json (p : LlmProfileRow) : json :=
  json_object [("name", JString (llm_name p)); ("provider", JString (llm_provider p));
               ("model", JString (llm_model p));
               ("api_key_secret", json_option JString (llm_api_key_secret p));
               ("base_url", json_option JString (llm_base_url p)); ("params", llm_params p)].

Definition embedding_profile_to_json (p : EmbeddingProfileRow) : json :=
  json_object [("name", JString (emb_name p)); ("provider", JString (emb_provider p));
               ("model", JString (emb_model p)); ("dimension", json_u64 (emb_dimension p));
               ("api_key_secret", json_option JString (emb_api_key_secret p));
               ("base_url", json_option JString (emb_base_url p)); ("params", emb_params p)].

Definition agent_to_json (a : AgentRow) : json :=
  json_object
    [("name", JString (ar_name a)); ("system_prompt", JString (ar_system_prompt a));
     ("soul", json_option JString (ar_soul a)); ("executor_name", JString (ar_executor_name a));
     ("llm_profile_main", json_option JString (ar_llm_profile_main a));
     ("llm_profile_small", json_option JString (ar_llm_profile_small a));
     ("llm_profile_judge", json_option JString (ar_llm_profile_judge a));
     ("embedding_profile", json_option JString (ar_embedding_profile a));
     ("tools", JArray (map JString (ar_tools a)));
     ("max_iterations", json_u64 (ar_max_iterations a));
     ("timeout_ms", json_u64 (ar_timeout_ms a));
     ("cost_cap_usd", json_option json_f64 (ar_cost_cap_usd a));
     ("trace_level", json_option JString (ar_trace_level a));
     ("components", harness_to_json (ar_components a))].

(** ** Lemmas *)

(** The values a row may hold: integers of their width, a finite cost. *)
Definition agent_wf (a : AgentRow) : Prop :=
  in_u32 (ar_max_iterations a) /\ in_u64 (ar_timeout_ms a) /\
  match ar_cost_cap_usd a with Some f => f64_is_finite f = true | None => True end.

Lemma mapM_as_str l : mapM as_str (map JString l) = Some l.
Proof. induction l as [|s l IH]; [done|]. simpl. by rewrite IH. Qed.

Lemma mapM_roundtrip {A} (read : json -> option A) (write : A -> json) l :
  (forall a, read (write a) = Some a) -> mapM read (map write l) = Some l.
Proof. intros H. induction l as [|a l IH]; [done|]. simpl. by rewrite H, IH. Qed.

Lemma read_opt_string o : read_opt as_str (Some (json_option JString o)) = Some o.
Proof. by destruct o. Qed.

Lemma read_skill_write s : read_skill (skill_to_json s) = Some s.
Proof. by destruct s. Qed.

Lemma read_tool_hint_write h : read_tool_hint (tool_hint_to_json h) = Some h.
Proof. by destruct h as [[] ? ?]. Qed.

Lemma read_harness_write h : read_harness (harness_to_json h) = Some h.
Proof.
  destruct h as [g m c s t].
  change (read_harness (harness_to_json (mkHarness g m c s t))) with
    (guardrails ← read_opt as_str (Some (json_option JString g));
     memory ← read_opt as_str (Some (json_option JString m));
     critique ← read_opt as_str (Some (json_option JString c));
     skills ← mapM read_skill (map skill_to_json s);
     tool_hints ← mapM read_tool_hint (map tool_hint_to_json t);
     Some (mkHarness guardrails memory critique skills tool_hints)).
  rewrite !read_opt_string. simpl.
  rewrite (mapM_roundtrip _ _ s read_skill_write). simpl.
  by rewrite (mapM_roundtrip _ _ t read_tool_hint_write).
Qed.

Lemma read_uint_write max n : 0 <= n <= max -> read_uint max (Some (json_u64 n)) = Some n.
Proof.
  intros [H0%Z.leb_le H%Z.leb_le]. unfold read_uint. simpl. by rewrite H0, H.
Qed.

Lemma read_cost o :
  match o with Some f => f64_is_finite f = true | None => True end ->
  read_opt as_f64 (Some (json_option json_f64 o)) = Some o.
Proof. destruct o as [f|]; [|done]. intros H. unfold json_option, json_f64. by rewrite H. Qed.

Lemma read_agent_write a : agent_wf a -> read_agent (agent_to_json a) = Some a.
Proof.
  intros (Hi & Ht & Hc). destruct a as [n sp so ex lm ls lj em ts mi tm cc tl co]; simpl in *.
  change (read_agent (agent_to_json (mkAgentRow n sp so ex lm ls lj em ts mi tm cc tl co))) with
    (soul ← read_opt as_str (Some (json_option JString so));
     main ← read_opt as_str (Some (json_option JString lm));
     small ← read_opt as_str (Some (json_option JString ls));
     judge ← read_opt as_str (Some (json_option JString lj));
     embedding ← read_opt as_str (Some (json_option JString em));
     tools ← mapM as_str (map JString ts);
     max_iterations ← read_uint U32_MAX (Some (json_u64 mi));
     timeout_ms ← read_uint U64_MAX (Some (json_u64 tm));
     cost_cap ← read_opt as_f64 (Some (json_option json_f64 cc));
     trace_level ← read_opt as_str (Some (json_option JString tl));
     components ← read_harness (harness_to_json co);
     Some (mkAgentRow n sp soul ex main small judge embedding tools max_iterations timeout_ms
             cost_cap trace_level components)).
  rewrite !read_opt_string, mapM_as_str, (read_uint_write U32_MAX) by done.
  by rewrite (read_uint_write U64_MAX), (read_cost cc Hc), read_harness_write.
Qed.

Lemma read_llm_profile_write p : read_llm_profile (llm_profile_to_json p) = Some p.
Proof. by destruct p as [? ? ? [] [] ?]. Qed.

Lemma read_embedding_profile_write p :
  in_u32 (emb_dimension p) -> read_embedding_profile (embedding_profile_to_json p) = Some p.
Proof.
  destruct p as [n pr m d k b ps]. simpl. intros Hd.
  change (read_embedding_profile (embedding_profile_to_json (mkEmbeddingProfileRow n pr m d k b ps)))
    with
    (dimension ← read_uint U32_MAX (Some (json_u64 d));
     key ← read_opt as_str (Some (json_option JString k));
     base_url ← read_opt as_str (Some (json_option JString b));
     Some (mkEmbeddingProfileRow n pr m dimension key base_url ps)).
  by rewrite (read_uint_write U32_MAX), !read_opt_string.
Qed.
