(* ===== verification/TypesJson.v ===== *)
(** * Requests and responses as JSON

    What [#[derive(Serialize, Deserialize)]] generates for the types of
    [types/message.rs], [types/llm.rs], [llm/mod.rs] and for [LlmError]:
    the form in which exchanges with a provider are kept on disk. *)

From S2P Require Import Prelude.
From S2P Require Import RustStr.
From S2P Require Import F64.
From S2P Require Import Json.
From S2P Require Import Errors.
From S2P Require Import Types.
From S2P Require Import Effects.
From S2P Require Import Traits.
From S2P Require Import LoopHarness.
From S2P Require Import Rows.
From S2P Require Import LlamaCpp.
From S2P Require Import Mcp.

(** The readers of ids and times, and the number that the text of an [f32]
    stands for. *)
Class ParseLib := {
  parse_uuid : string -> option Uuid;
  parse_timestamp : string -> option Timestamp;
  f32_text : spec_float -> f64 }.

(** ** Reading *)

Definition read_role (v : json) : option Role :=
  match v with
  | JString s =>
      if String.eqb s "system" then Some System
      else if String.eqb s "user" then Some User
      else if String.eqb s "assistant" then Some Assistant
      else if String.eqb s "tool" then Some Tool
      else None
  | _ => None
  end.

(** An enum variant is an object with its name as the one key. *)
Definition variant (v : json) : option (string * json) :=
  match v with JObject [(k, x)] => Some (k, x) | _ => None end.

Definition f32_to_json (f : spec_float) `{ParseLib} : json := json_f64 (f32_text f).

Section read.
Context `{McpLib, ParseLib}.

Definition read_message (v : json) : option Message :=
  fs ← row_fields 9 ["execution_id"; "seq"; "role"; "content"; "tool_call_id"; "tool_name";
                     "tool_input"; "tool_output"; "timestamp"] v;
  match fs with
  | [e; s; r; c; ti; tn; tin; tout; ts] =>
      execution_id ← read_string e ≫= parse_uuid; seq ← read_uint U32_MAX s;
      role ← r ≫= read_role; content ← read_opt as_str c; call_id ← read_opt as_str ti;
      name ← read_opt as_str tn; input ← read_opt Some tin; output ← read_opt Some tout;
      timestamp ← read_string ts ≫= parse_timestamp;
      Some (mkMessage execution_id seq role content call_id name input output timestamp)
  | _ => None
  end.

Definition read_schema (v : json) : option ToolSchema :=
  match root_schema v with Ok s => Some s | Err _ => None end.

Definition read_tool_definition (v : json) : option ToolDefinition :=
  fs ← row_fields 3 ["name"; "description"; "schema"] v;
  match fs with
  | [n; d; s] =>
      name ← read_string n; description ← read_string d; schema ← s ≫= read_schema;
      Some (mkToolDefinition name description schema)
  | _ => None
  end.

(** An [f32] from an integer or from an [f64]. *)
Definition read_f32 (v : json) : option spec_float :=
  match v with
  | JNumber (PosInt n) | JNumber (NegInt n) => Some (binary_normalize 24 128 n 0 false)
  | JNumber (Float f) => Some (f32_of_f64 f)
  | _ => None
  end.

Definition read_request (v : json) : option CompletionRequest :=
  fs ← row_fields 6 ["messages"; "tools"; "model"; "temperature"; "max_tokens"; "params"] v;
  match fs with
  | [ms; ts; mo; te; mx; p] =>
      messages ← read_vec read_message ms; tools ← read_vec read_tool_definition ts;
      model ← read_opt as_str mo; temperature ← read_opt read_f32 te;
      max_tokens ← read_opt (fun v => read_uint U32_MAX (Some v)) mx; params ← p;
      Some (mkCompletionRequest messages tools model temperature max_tokens params)
  | _ => None
  end.

Definition read_tool_call (v : json) : option ToolCall :=
  fs ← row_fields 3 ["id"; "name"; "args"] v;
  match fs with
  | [i; n; a] => id ← read_string i; name ← read_string n; args ← a; Some (mkToolCall id name args)
  | _ => None
  end.

Definition read_usage (v : json) : option Usage :=
  fs ← row_fields 3 ["tokens_in"; "tokens_out"; "cost_usd"] v;
  match fs with
  | [i; o; c] =>
      tokens_in ← read_uint U32_MAX i; tokens_out ← read_uint U32_MAX o;
      cost ← read_opt as_f64 c; Some (mkUsage tokens_in tokens_out cost)
  | _ => None
  end.

Definition read_completion (v : json) : option CompletionResponse :=
  fs ← row_fields 4 ["content"; "tool_calls"; "finish_reason"; "usage"] v;
  match fs with
  | [c; tc; f; u] =>
      content ← read_opt as_str c; calls ← read_vec read_tool_call tc; reason ← read_string f;
      usage ← u ≫= read_usage; Some (mkCompletionResponse content calls reason usage)
  | _ => None
  end.

Definition read_capabilities (v : json) : option ProviderCapabilities :=
  fs ← row_fields 6 ["tool_use"; "streaming"; "json_mode"; "vision"; "max_context_tokens";
                     "max_output_tokens"] v;
  match fs with
  | [t; s; j; vi; mc; mo] =>
      tool_use ← t ≫= as_bool; streaming ← s ≫= as_bool; json_mode ← j ≫= as_bool;
      vision ← vi ≫= as_bool; context ← read_opt (fun v => read_uint U32_MAX (Some v)) mc;
      output ← read_opt (fun v => read_uint U32_MAX (Some v)) mo;
      Some (mkProviderCapabilities tool_use streaming json_mode vision context output)
  | _ => None
  end.

Definition read_llm_error (v : json) : option LlmError :=
  kv ← variant v;
  let '(k, x) := kv in
  if String.eqb k "Provider" then
    fs ← row_fields 2 ["provider"; "reason"] x;
    match fs with
    | [p; r] => provider ← read_string p; reason ← read_string r; Some (LlmError_Provider provider reason)
    | _ => None
    end
  else if String.eqb k "Auth" then LlmError_Auth <$> as_str x
  else if String.eqb k "RateLimited" then
    fs ← row_fields 2 ["provider"; "retry_after_ms"] x;
    match fs with
    | [p; r] =>
        provider ← read_string p; retry ← read_opt (fun v => read_uint U64_MAX (Some v)) r;
        Some (LlmError_RateLimited provider retry)
    | _ => None
    end
  else if String.eqb k "ContextLengthExceeded" then
    fs ← row_fields 3 ["model"; "tokens"; "limit"] x;
    match fs with
    | [m; t; l] =>
        model ← read_string m; tokens ← read_uint U32_MAX t; limit ← read_uint U32_MAX l;
        Some (LlmError_ContextLengthExceeded model tokens limit)
    | _ => None
    end
  else if String.eqb k "ResponseTruncated" then
    fs ← row_fields 2 ["model"; "tokens_out"] x;
    match fs with
    | [m; t] =>
        model ← read_string m; tokens ← read_uint U32_MAX t;
        Some (LlmError_ResponseTruncated model tokens)
    | _ => None
    end
  else if String.eqb k "Network" then LlmError_Network <$> as_str x
  else None.
End read.

(** ** Writing *)

Definition tool_definition_to_json (d : ToolDefinition) : json :=
  json_object [("name", JString (td_name d)); ("description", JString (td_description d));
               ("schema", td_schema d)].

Definition request_to_json `{Printers, ParseLib} (r : CompletionRequest) : json :=
  json_object
    [("messages", JArray (map message_to_json (req_messages r)));
     ("tools", JArray (map tool_definition_to_json (req_tools r)));
     ("model", json_option JString (req_model r));
     ("temperature", json_option (fun f => f32_to_json f) (req_temperature r));
     ("max_tokens", json_option json_u64 (req_max_tokens r)); ("params", req_params r)].

Definition usage_to_json (u : Usage) : json :=
  json_object [("tokens_in", json_u64 (tokens_in u)); ("tokens_out", json_u64 (tokens_out u));
               ("cost_usd", json_option json_f64 (cost_usd u))].

Definition completion_to_json (r : CompletionResponse) : json :=
  json_object
    [("content", json_option JString (resp_content r));
     ("tool_calls", JArray (map tool_call_to_json (resp_tool_calls r)));
     ("finish_reason", JString (resp_finish_reason r)); ("usage", usage_to_json (resp_usage r))].

Definition capabilities_to_json (c : ProviderCapabilities) : json :=
  json_object
    [("tool_use", JBool (tool_use c)); ("streaming", JBool (streaming c));
     ("json_mode", JBool (json_mode c)); ("vision", JBool (vision c));
     ("max_context_tokens", json_option json_u64 (max_context_tokens c));
     ("max_output_tokens", json_option json_u64 (max_output_tokens c))].

Definition llm_error_to_json (e : LlmError) : json :=
  match e with
  | LlmError_Provider p r =>
      json_object [("Provider", json_object [("provider", JString p); ("reason", JString r)])]
  | LlmError_Auth p => json_object [("Auth", JString p)]
  | LlmError_RateLimited p r =>
      json_object [("RateLimited", json_object [("provider", JString p);
                                                ("retry_after_ms", json_option json_u64 r)])]
  | LlmError_ContextLengthExceeded m t l =>
      json_object [("ContextLengthExceeded",
        json_object [("model", JString m); ("tokens", json_u64 t); ("limit", json_u64 l)])]
  | LlmError_ResponseTruncated m t =>
      json_object [("ResponseTruncated", json_object [("model", JString m); ("tokens_out", json_u64 t)])]
  | LlmError_Network m => json_object [("Network", JString m)]
  end.

(** ** Lemmas

    Reading what was written gives the value back, for values that JSON can
    hold: integers of their width, finite costs, and no [Some(Null)]. *)

Lemma read_opt_write {A} (read : json -> option A) (write : A -> json) o :
  match o with Some a => read (write a) = Some a /\ write a <> JNull | None => True end ->
  read_opt read (Some (json_option write o)) = Some o.
Proof.
  destruct o as [a|]; [|done]. intros [Hr Hn]. unfold json_option, read_opt.
  rewrite Hr. by destruct (write a).
Qed.

Lemma read_opt_uint max o :
  match o with Some n => 0 <= n <= max | None => True end ->
  read_opt (fun v => read_uint max (Some v)) (Some (json_option json_u64 o)) = Some o.
Proof.
  intros Ho. apply read_opt_write. destruct o; [|done]. by rewrite read_uint_write.
Qed.

Lemma read_opt_value o :
  o <> Some JNull -> read_opt Some (Some (json_option id o)) = Some o.
Proof. by destruct o as [[]|]. Qed.

Lemma read_vec_write {A} (read : json -> option A) (write : A -> json) l :
  Forall (fun a => read (write a) = Some a) l ->
  read_vec read (Some (JArray (map write l))) = Some l.
Proof.
  unfold read_vec. simpl. induction 1 as [|a l Ha _ IH]; [done|]. simpl. by rewrite Ha, IH.
Qed.

Definition usage_writes (u : Usage) : Prop :=
  in_u32 (tokens_in u) /\ in_u32 (tokens_out u) /\
  match cost_usd u with Some f => f64_is_finite f = true | None => True end.
Definition completion_wf (r : CompletionResponse) : Prop := usage_writes (resp_usage r).

Definition llm_error_wf (e : LlmError) : Prop :=
  match e with
  | LlmError_RateLimited _ (Some ms) => in_u64 ms
  | LlmError_ContextLengthExceeded _ t l => in_u32 t /\ in_u32 l
  | LlmError_ResponseTruncated _ t => in_u32 t
  | _ => True
  end.

Definition in_opt_u32 (o : option Z) : Prop := match o with Some n => in_u32 n | None => True end.
Definition capabilities_wf (c : ProviderCapabilities) : Prop :=
  in_opt_u32 (max_context_tokens c) /\ in_opt_u32 (max_output_tokens c).

#[local] Arguments read_uint : simpl never.
#[local] Arguments role_to_json : simpl never.
#[local] Arguments read_role : simpl never.
#[local] Arguments read_opt : simpl never.
#[local] Arguments json_option : simpl never.
#[local] Arguments json_f64 : simpl never.
#[local] Arguments json_u64 : simpl never.

Lemma read_tool_call_write tc : read_tool_call (tool_call_to_json tc) = Some tc.
Proof. by destruct tc. Qed.

Lemma read_usage_write u : usage_writes u -> read_usage (usage_to_json u) = Some u.
Proof.
  destruct u as [i o c]. intros (Hi & Ho & Hc). unfold read_usage. simpl in *.
  rewrite (read_uint_write _ i), (read_uint_write _ o) by done. simpl. by rewrite read_cost.
Qed.

Lemma read_completion_write r :
  completion_wf r -> read_completion (completion_to_json r) = Some r.
Proof.
  destruct r as [c tc f u]. intros Hu. unfold read_completion. simpl in *.
  rewrite read_opt_string. simpl.
  rewrite read_vec_write by (by apply Forall_true; intros; apply read_tool_call_write). simpl. by rewrite read_usage_write.
Qed.

Lemma read_capabilities_write c :
  capabilities_wf c -> read_capabilities (capabilities_to_json c) = Some c.
Proof.
  destruct c as [t s j v mc mo]. intros [Hc Ho]. unfold read_capabilities. simpl in *.
  by rewrite (read_opt_uint _ mc), (read_opt_uint _ mo).
Qed.

Lemma read_llm_error_write e : llm_error_wf e -> read_llm_error (llm_error_to_json e) = Some e.
Proof.
  destruct e as [p r|p|p r|m t l|m t|m]; intros He; try done; unfold read_llm_error; simpl in *.
  - by rewrite read_opt_uint by (by destruct r).
  - destruct He. by rewrite !read_uint_write.
  - by rewrite read_uint_write.
Qed.

Section requests.
Context `{McpLib, ParseLib, Printers}.

Definition message_wf (m : Message) : Prop :=
  parse_uuid (fmt_uuid (msg_execution_id m)) = Some (msg_execution_id m) /\
  parse_timestamp (fmt_timestamp (msg_timestamp m)) = Some (msg_timestamp m) /\
  in_u32 (msg_seq m) /\ msg_tool_input m <> Some JNull /\ msg_tool_output m <> Some JNull.

Definition temperature_wf (f : spec_float) : Prop :=
  f64_is_finite (f32_text f) = true /\ f32_of_f64 (f32_text f) = f.

Definition request_wf (r : CompletionRequest) : Prop :=
  Forall message_wf (req_messages r) /\
  Forall (fun d => root_schema (td_schema d) = Ok (td_schema d)) (req_tools r) /\
  match req_temperature r with Some f => temperature_wf f | None => True end /\
  in_opt_u32 (req_max_tokens r).

Lemma read_message_write m : message_wf m -> read_message (message_to_json m) = Some m.
Proof.
  destruct m as [e s r c ti tn tin tout ts]. intros (He & Ht & Hs & Hi & Ho).
  unfold read_message. simpl in *. rewrite He. simpl. rewrite read_uint_write by done. simpl.
  assert (read_role (role_to_json r) = Some r) as Hr by (by destruct r).
  rewrite Hr. simpl.
  rewrite !read_opt_string. simpl. rewrite !read_opt_value by done. simpl. by rewrite Ht.
Qed.

Lemma read_tool_definition_write d :
  root_schema (td_schema d) = Ok (td_schema d) ->
  read_tool_definition (tool_definition_to_json d) = Some d.
Proof.
  destruct d as [n de s]. intros Hs. unfold read_tool_definition, read_schema. simpl in *.
  by rewrite Hs.
Qed.

Lemma read_request_write r : request_wf r -> read_request (request_to_json r) = Some r.
Proof.
  destruct r as [ms ts mo te mx p]. intros (Hm & Ht & Hte & Hmx). unfold read_request. simpl in *.
  rewrite (read_vec_write read_message) by (by eapply Forall_impl; [exact Hm|]; intros; apply read_message_write). simpl.
  rewrite (read_vec_write read_tool_definition) by (by eapply Forall_impl; [exact Ht|]; intros; apply read_tool_definition_write).
  simpl. rewrite read_opt_string. simpl. rewrite (read_opt_write read_f32).
  - simpl. by rewrite read_opt_uint.
  - destruct te as [f|]; [|done]. destruct Hte as [Hf Hr]. unfold f32_to_json, json_f64.
    rewrite Hf. split; [|done]. simpl. by rewrite Hr.
Qed.
End requests.
