(* ===== verification/Testing.v ===== *)
(** * Test doubles and cassettes ([crates/pg-synapse-core/src/testing/])

    Scripted providers and tools, and the recording of exchanges with a
    provider that can be kept on disk and replayed.  What a double holds
    behind a lock or an atomic is a state that its calls thread; delays are
    in whole milliseconds.  [stream] has no caller and is left out. *)

From S2P Require Import Prelude.
From S2P Require Import RustStr.
From S2P Require Import F64.
From S2P Require Import Json.
From S2P Require Import Errors.
From S2P Require Import Types.
From S2P Require Import Effects.
From S2P Require Import Traits.
From S2P Require Import LoopHarness.
From S2P Require Import Registry.
From S2P Require Import Builder.
From S2P Require Import StrSlice.
From S2P Require Import Wire.
From S2P Require Import Rows.
From S2P Require Import LlamaCpp.
From S2P Require Import ToolInput.
From S2P Require Import Fs.
From S2P Require Import ToolsLoad.
From S2P Require Import Mcp.
From S2P Require Import TypesJson.
#[local] Open Scope Z_scope.

(** A provider with a state: what [complete] panics with is lost. *)
Record StatefulLlm (S : Type) := mkStatefulLlm {
  sl_complete : S -> CompletionRequest -> prog (outcome (result CompletionResponse LlmError) * S);
  sl_model_name : S -> string;
  sl_capabilities : S -> ProviderCapabilities }.
Arguments mkStatefulLlm {S}.
Arguments sl_complete {S}.
Arguments sl_model_name {S}.
Arguments sl_capabilities {S}.

Definition stateless (p : LlmProvider) : StatefulLlm unit :=
  mkStatefulLlm (fun _ req => r ← llm_complete p req; mret (Done r, tt))
    (fun _ => llm_model_name p) (fun _ => llm_capabilities p).

Definition Usage_default : Usage := mkUsage 0 0 None.
Definition CompletionRequest_default : CompletionRequest :=
  mkCompletionRequest [] [] None None None JNull.

(** ** [MockLlmProvider] ([mock_llm.rs]) *)

Inductive MockResponse :=
| MockText (text : string)
| MockTextWithUsage (text : string) (usage : Usage)
| MockTruncated (text : string)
| MockToolCall (id name : string) (args : json)
| MockToolCallWithUsage (id name : string) (args : json) (usage : Usage)
| MockError (e : LlmError).

Record MockLlmProvider := mkMockLlmProvider {
  mock_queue : list MockResponse;
  mock_model : string;
  mock_capabilities : ProviderCapabilities;
  mock_response_delay : Z;
  mock_delay_after : option (Z * Z);
  mock_calls : Z }.

Module MockLlm.
Definition new (model : string) : MockLlmProvider :=
  mkMockLlmProvider [] model ProviderCapabilities_default 0 None 0.
Definition set_capabilities (c : ProviderCapabilities) (m : MockLlmProvider) : MockLlmProvider :=
  let '(mkMockLlmProvider q mo _ d da n) := m in mkMockLlmProvider q mo c d da n.
Definition set_response_delay (d : Z) (m : MockLlmProvider) : MockLlmProvider :=
  let '(mkMockLlmProvider q mo c _ da n) := m in mkMockLlmProvider q mo c d da n.
Definition set_delay_after (calls d : Z) (m : MockLlmProvider) : MockLlmProvider :=
  let '(mkMockLlmProvider q mo c rd _ n) := m in mkMockLlmProvider q mo c rd (Some (calls, d)) n.
Definition push (r : MockResponse) (m : MockLlmProvider) : MockLlmProvider :=
  let '(mkMockLlmProvider q mo c d da n) := m in mkMockLlmProvider (q ++ [r]) mo c d da n.

Definition push_text (t : string) : MockLlmProvider -> MockLlmProvider := push (MockText t).
Definition push_truncated (t : string) : MockLlmProvider -> MockLlmProvider :=
  push (MockTruncated t).
Definition push_text_with_usage (t : string) (u : Usage) : MockLlmProvider -> MockLlmProvider :=
  push (MockTextWithUsage t u).
Definition push_tool_call (id name : string) (args : json) : MockLlmProvider -> MockLlmProvider :=
  push (MockToolCall id name args).
Definition push_tool_call_with_usage (id name : string) (args : json) (u : Usage)
  : MockLlmProvider -> MockLlmProvider := push (MockToolCallWithUsage id name args u).
Definition push_error (e : LlmError) : MockLlmProvider -> MockLlmProvider := push (MockError e).
Definition queued (m : MockLlmProvider) : Z := Z.of_nat (length (mock_queue m)).

Definition text_response (t finish : string) (u : Usage)
  : result CompletionResponse LlmError := Ok (mkCompletionResponse (Some t) [] finish u).
Definition call_response (id name : string) (args : json) (u : Usage)
  : result CompletionResponse LlmError :=
  Ok (mkCompletionResponse None [mkToolCall id name args] "tool_calls" u).

Definition respond (r : option MockResponse) : result CompletionResponse LlmError :=
  match r with
  | Some (MockText t) => text_response t "stop" Usage_default
  | Some (MockTruncated t) => text_response t "length" Usage_default
  | Some (MockTextWithUsage t u) => text_response t "stop" u
  | Some (MockToolCall id name args) => call_response id name args Usage_default
  | Some (MockToolCallWithUsage id name args u) => call_response id name args u
  | Some (MockError e) => Err e
  | None => Err (LlmError_Provider "mock" "queue exhausted")
  end.

Definition delay_of (m : MockLlmProvider) : Z :=
  match mock_delay_after m with
  | Some (after, d) => if after <=? mock_calls m then d else mock_response_delay m
  | None => mock_response_delay m
  end.

Definition complete (m : MockLlmProvider) (_ : CompletionRequest)
  : prog (outcome (result CompletionResponse LlmError) * MockLlmProvider) :=
  let d := delay_of m in
  _ ← (if d =? 0 then mret tt else perform (ESleep d));
  let '(mkMockLlmProvider q mo c rd da n) := m in
  mret (Done (respond (head q)), mkMockLlmProvider (tail q) mo c rd da (wrap64 (n + 1))).

Definition provider : StatefulLlm MockLlmProvider :=
  mkStatefulLlm complete mock_model mock_capabilities.
End MockLlm.

(** ** The other doubles ([mock_tool.rs], [mock_embedding.rs],
    [mock_factories.rs]) *)

Definition MockTool (name : string) (schema : ToolSchema) (response : ToolOutput) : ToolObj :=
  {| tool_name := name; tool_schema := schema;
     tool_run := fun _ _ => mret (ToolReturned (Ok response)) |}.

(** [(i % 10 + 1) as f32 / 10.0], in binary32 *)
Definition f32_of_Z (z : Z) : spec_float := binary_normalize 24 128 z 0 false.
Definition fixed_vector (dimension : nat) : EmbeddingVector :=
  map (fun i => SFdiv 24 128 (f32_of_Z (Z.of_nat (i mod 10) + 1)) (f32_of_Z 10)) (seq 0 dimension).

Definition MockEmbeddingProvider (model : string) (dimension : nat) : EmbeddingProvider :=
  {| embed_texts := fun texts => mret (Ok (map (fun _ => fixed_vector dimension) texts));
     embed_dimension := Z.of_nat dimension; embed_model_name := model |}.

Definition MockLlmFactory (name : string) (p : LlmProvider) : LlmProviderFactory :=
  {| llm_provider_name := name; llm_build := fun _ => Ok p |}.
Definition MockEmbeddingFactory (name : string) (p : EmbeddingProvider) : EmbeddingProviderFactory :=
  {| emb_provider_name := name; emb_build := fun _ => Ok p |}.
Definition MockLlmFactory_plugin (name : string) (p : LlmProvider) : Plugin :=
  mkPlugin "mock-llm" "0.1.0" (with_llm_factory (MockLlmFactory name p)).
Definition MockEmbeddingFactory_plugin (name : string) (p : EmbeddingProvider) : Plugin :=
  mkPlugin "mock-embedding" "0.1.0" (with_embedding_factory (MockEmbeddingFactory name p)).
