(* ===== verification/PgGuc.v ===== *)
(** * Settings of the Postgres extension ([crates/pg-synapse-pgrx/src/schema_guc.rs])

    The [pg_synapse.*] settings, how they are registered, and the defaults
    they give to an agent row that leaves a field open.  A text setting that
    is not valid UTF-8 reads as unset, which is [None] here. *)

From S2P Require Import Prelude.
From S2P Require Import RustStr.
From S2P Require Import F64.
From S2P Require Import NumText.
From S2P Require Import Types.
From S2P Require Import HarnessText.
From S2P Require Import Wire.
From S2P Require Import Runtime.

(** The values the backend reads. *)
Record Gucs := mkGucs {
  DISABLE_BUILTIN_SQL_TOOLS : bool;
  DEFAULT_LLM_PROFILE_MAIN : option string;
  DEFAULT_LLM_PROFILE_SMALL : option string;
  DEFAULT_LLM_PROFILE_JUDGE : option string;
  DEFAULT_EMBEDDING_PROFILE : option string;
  DEFAULT_TIMEOUT_MS : Z;
  INLINE_TIMEOUT_MS : Z;
  DEFAULT_TIMEOUT_SECONDS : Z;
  DEFAULT_MAX_ITERATIONS : Z;
  DEFAULT_COST_CAP_USD : option string;
  TRACE_ENABLED : bool;
  MAX_CONCURRENT_RUNS : Z;
  SIDECAR_URL : option string;
  WORKER_DATABASE : option string;
  WORKER_INTERVAL_MS : Z;
  MASTER_KEY : option string;
  COMPRESSION_THRESHOLD_TOKENS : Z;
  DEFAULT_EXECUTOR : option string }.

(** The values of the statics, before any is set. *)
Definition Gucs_boot : Gucs :=
  {| DISABLE_BUILTIN_SQL_TOOLS := false;
     DEFAULT_LLM_PROFILE_MAIN := None;
     DEFAULT_LLM_PROFILE_SMALL := None;
     DEFAULT_LLM_PROFILE_JUDGE := None;
     DEFAULT_EMBEDDING_PROFILE := None;
     DEFAULT_TIMEOUT_MS := 60000;
     INLINE_TIMEOUT_MS := 2000;
     DEFAULT_TIMEOUT_SECONDS := 60;
     DEFAULT_MAX_ITERATIONS := 10;
     DEFAULT_COST_CAP_USD := None;
     TRACE_ENABLED := true;
     MAX_CONCURRENT_RUNS := 4;
     SIDECAR_URL := None;
     WORKER_DATABASE := None;
     WORKER_INTERVAL_MS := 1000;
     MASTER_KEY := None;
     COMPRESSION_THRESHOLD_TOKENS := 0;
     DEFAULT_EXECUTOR := None |}.

(** ** Registration *)

Inductive guc_kind := GucBool | GucString | GucInt (min max : Z).
Inductive guc_context := Userset | Suset | Sighup.

Record guc_def := mkGucDef {
  guc_name : string;
  guc_kind_of : guc_kind;
  guc_set_by : guc_context;
  guc_superuser_only : bool }.

(** [register_gucs]: the definitions, in their order. *)
Definition register_gucs : list guc_def :=
  [mkGucDef "pg_synapse.disable_builtin_sql_tools" GucBool Userset false;
   mkGucDef "pg_synapse.default_llm_profile_main" GucString Userset false;
   mkGucDef "pg_synapse.default_llm_profile_small" GucString Userset false;
   mkGucDef "pg_synapse.default_llm_profile_judge" GucString Userset false;
   mkGucDef "pg_synapse.default_embedding_profile" GucString Userset false;
   mkGucDef "pg_synapse.default_timeout_ms" (GucInt 100 I32_MAX) Userset false;
   mkGucDef "pg_synapse.worker_database" GucString Sighup false;
   mkGucDef "pg_synapse.worker_interval_ms" (GucInt 50 I32_MAX) Sighup false;
   mkGucDef "pg_synapse.inline_timeout_ms" (GucInt 1 I32_MAX) Suset false;
   mkGucDef "pg_synapse.default_timeout_seconds" (GucInt 1 (I32_MAX / 1000)) Userset false;
   mkGucDef "pg_synapse.default_max_iterations" (GucInt 1 1000) Userset false;
   mkGucDef "pg_synapse.default_cost_cap_usd" GucString Userset false;
   mkGucDef "pg_synapse.max_concurrent_runs" (GucInt 1 1024) Suset false;
   mkGucDef "pg_synapse.trace_enabled" GucBool Userset false;
   mkGucDef "pg_synapse.sidecar_url" GucString Userset false;
   mkGucDef "pg_synapse.master_key" GucString Suset true;
   mkGucDef "pg_synapse.compression_threshold_tokens" (GucInt 0 I32_MAX) Userset false;
   mkGucDef "pg_synapse.default_executor" GucString Userset false].

(** The integer settings by name: what Postgres checks against the range a
    setting is registered with. *)
Definition int_settings (g : Gucs) : list (string * Z) :=
  [("pg_synapse.default_timeout_ms", DEFAULT_TIMEOUT_MS g);
   ("pg_synapse.worker_interval_ms", WORKER_INTERVAL_MS g);
   ("pg_synapse.inline_timeout_ms", INLINE_TIMEOUT_MS g);
   ("pg_synapse.default_timeout_seconds", DEFAULT_TIMEOUT_SECONDS g);
   ("pg_synapse.default_max_iterations", DEFAULT_MAX_ITERATIONS g);
   ("pg_synapse.max_concurrent_runs", MAX_CONCURRENT_RUNS g);
   ("pg_synapse.compression_threshold_tokens", COMPRESSION_THRESHOLD_TOKENS g)].

Definition in_registered_range (name : string) (v : Z) : bool :=
  match List.find (fun d => String.eqb (guc_name d) name) register_gucs with
  | Some d => match guc_kind_of d with GucInt lo hi => (lo <=? v) && (v <=? hi) | _ => false end
  | None => false
  end.

(** Settings that Postgres lets stand. *)
Definition gucs_admitted (g : Gucs) : bool :=
  forallb (fun s => in_registered_range s.1 s.2) (int_settings g).

(** ** Readers *)

Definition guc_string (setting : option string) : option string :=
  match setting with Some s => if is_empty s then None else Some s | None => None end.

Definition worker_database (g : Gucs) : option string := non_blank (WORKER_DATABASE g).

(** [master_key] of sql_functions.rs: the key as it is, unless blank. *)
Definition master_key (g : Gucs) : option string :=
  match MASTER_KEY g with Some k => if is_blank k then None else Some k | None => None end.

(** ** Fallbacks *)

Section fallbacks.
Context `{WireLib}.

Definition or_default {A} (o d : option A) : option A :=
  match o with Some a => Some a | None => d end.

Definition timeout_fallback (g : Gucs) (timeout_ms : Z) : Z :=
  if timeout_ms =? 0 then
    let ms := DEFAULT_TIMEOUT_MS g in
    if 0 <? ms then ms
    else let secs := DEFAULT_TIMEOUT_SECONDS g in
         if 0 <? secs then secs * 1000 else timeout_ms
  else timeout_ms.

Definition iterations_fallback (g : Gucs) (max_iterations : Z) : Z :=
  if max_iterations =? 0 then
    let it := DEFAULT_MAX_ITERATIONS g in if 0 <? it then it else max_iterations
  else max_iterations.

(** Each assignment is to a field of its own. *)
Definition apply_guc_fallbacks (g : Gucs) (a : AgentRow) : AgentRow :=
  {| ar_name := ar_name a;
     ar_system_prompt := ar_system_prompt a;
     ar_soul := ar_soul a;
     ar_executor_name :=
       if is_empty (ar_executor_name a)
       then default (ar_executor_name a) (guc_string (DEFAULT_EXECUTOR g))
       else ar_executor_name a;
     ar_llm_profile_main :=
       or_default (ar_llm_profile_main a) (guc_string (DEFAULT_LLM_PROFILE_MAIN g));
     ar_llm_profile_small :=
       or_default (ar_llm_profile_small a) (guc_string (DEFAULT_LLM_PROFILE_SMALL g));
     ar_llm_profile_judge :=
       or_default (ar_llm_profile_judge a) (guc_string (DEFAULT_LLM_PROFILE_JUDGE g));
     ar_embedding_profile :=
       or_default (ar_embedding_profile a) (guc_string (DEFAULT_EMBEDDING_PROFILE g));
     ar_tools := ar_tools a;
     ar_max_iterations := iterations_fallback g (ar_max_iterations a);
     ar_timeout_ms := timeout_fallback g (ar_timeout_ms a);
     ar_cost_cap_usd :=
       or_default (ar_cost_cap_usd a) (guc_string (DEFAULT_COST_CAP_USD g) ≫= parse_f64);
     ar_trace_level := ar_trace_level a;
     ar_components := ar_components a |}.
End fallbacks.

(** ** Lemmas *)

Lemma gucs_boot_admitted : gucs_admitted Gucs_boot = true.
Proof. reflexivity. Qed.

Lemma admitted_ranges g :
  gucs_admitted g = true ->
  100 <= DEFAULT_TIMEOUT_MS g <= I32_MAX /\ 1 <= INLINE_TIMEOUT_MS g <= I32_MAX /\
  1 <= DEFAULT_MAX_ITERATIONS g <= 1000 /\ 1 <= MAX_CONCURRENT_RUNS g <= 1024 /\
  50 <= WORKER_INTERVAL_MS g <= I32_MAX.
Proof.
  unfold gucs_admitted, int_settings, in_registered_range. simpl.
  repeat rewrite andb_true_iff. rewrite !Z.leb_le. naive_solver lia.
Qed.

Lemma or_default_idemp {A} (o d : option A) : or_default (or_default o d) d = or_default o d.
Proof. by destruct o, d. Qed.

Lemma or_default_some {A} (o d : option A) a : o = Some a -> or_default o d = Some a.
Proof. by intros ->. Qed.

Lemma timeout_fallback_idemp g t : timeout_fallback g (timeout_fallback g t) = timeout_fallback g t.
Proof. unfold timeout_fallback. repeat case_match; try done; lia. Qed.

Lemma iterations_fallback_idemp g n :
  iterations_fallback g (iterations_fallback g n) = iterations_fallback g n.
Proof. unfold iterations_fallback. repeat case_match; try done; lia. Qed.

Lemma apply_guc_fallbacks_idemp `{WireLib} g a :
  apply_guc_fallbacks g (apply_guc_fallbacks g a) = apply_guc_fallbacks g a.
Proof.
  unfold apply_guc_fallbacks. simpl.
  rewrite !or_default_idemp, timeout_fallback_idemp, iterations_fallback_idemp.
  f_equal. destruct (is_empty (ar_executor_name a)) eqn:E; [|by rewrite E].
  destruct (guc_string (DEFAULT_EXECUTOR g)) eqn:Eg; simpl; [|by rewrite E].
  unfold guc_string in Eg. destruct (DEFAULT_EXECUTOR g) as [x|]; [|done].
  destruct (is_empty x) eqn:Ex; [done|]. injection Eg as ->. by rewrite Ex.
Qed.

Lemma timeout_fallback_pos g t : gucs_admitted g = true -> 0 <= t -> 0 < timeout_fallback g t.
Proof.
  intros Hg%admitted_ranges Ht. unfold timeout_fallback.
  destruct (Z.eqb_spec t 0); [|lia]. destruct (Z.ltb_spec 0 (DEFAULT_TIMEOUT_MS g)); lia.
Qed.

Lemma iterations_fallback_pos g n : gucs_admitted g = true -> 0 <= n -> 0 < iterations_fallback g n.
Proof.
  intros Hg%admitted_ranges Hn. unfold iterations_fallback.
  destruct (Z.eqb_spec n 0); [|lia]. destruct (Z.ltb_spec 0 (DEFAULT_MAX_ITERATIONS g)); lia.
Qed.
