(* ===== verification/PgSpi.v ===== *)
(** * SPI in the Postgres extension ([crates/pg-synapse-pgrx/src/spi_executor.rs])

    Typed binding of the agent's parameters, the SQL executor behind the
    built-in tools with its savepoint per call, and the source of
    configuration rows.

    [ESpi] is a statement sent through SPI.  A hard error unwinds the caller
    ([ERaise]) unless a savepoint catches it.  The counter that numbers
    savepoints is left out: nothing reads it. *)

From S2P Require Import Prelude.
From S2P Require Import RustStr.
From S2P Require Import F64.
From S2P Require Import Json.
From S2P Require Import NumText.
From S2P Require Import Errors.
From S2P Require Import Types.
From S2P Require Import Effects.
From S2P Require Import HarnessText.
From S2P Require Import Wire.
From S2P Require Import Runtime.
From S2P Require Import ToolsSql.
From S2P Require Import Rows.
From S2P Require Import PgGuc.

(** Error texts of the SPI library, plain and in [Debug] form, and of serde's
    decoding errors, and the parser of the library [uuid]. *)
Class PgLib := {
  debug_error : string -> string;
  parse_uuid : string -> option Uuid;
  no_row_error : string;
  column_error : datum -> string;
  decode_error : string -> json -> string }.

(** ** Parameters *)

Section datums.
Context `{WireLib}.

Definition json_to_datum (v : json) : datum :=
  match v with
  | JString s =>
      match parse_i64 s with
      | Some i => DInt8 i
      | None =>
          match parse_f64 s with
          | Some f => if f64_is_finite f then DFloat8 f else DText s
          | None => DText s
          end
      end
  | JBool b => DBool b
  | JNumber n =>
      match as_i64 v with
      | Some i => DInt8 i
      | None =>
          match as_u64 v with
          | Some u => DFloat8 (f64_of_Z u)
          | None => DFloat8 (default f64_zero (as_f64 v))
          end
      end
  | JNull => DNull TText
  | JObject _ | JArray _ => DJsonb v
  end.

Definition bind_args (params : list json) : list datum := map json_to_datum params.
End datums.

(** ** Statements *)

Section spi.
Context `{WireLib, PgLib}.

(** A statement whose soft errors are values and whose hard errors raise. *)
Definition spi (sql : string) (args : list datum) : prog (result (Z * list (list datum)) string) :=
  a ← perform (ESpi sql args);
  match a with
  | SpiDone n rows => mret (Ok (n, rows))
  | SpiErr e => mret (Err e)
  | SpiRaised msg => raise msg
  end.

(** Columns as Rust values: [row.get::<T>(i)]. *)
Definition get_jsonb (d : datum) : result (option json) string :=
  match d with DJsonb j => Ok (Some j) | DNull _ => Ok None | _ => Err (column_error d) end.
Definition get_text (d : datum) : result (option string) string :=
  match d with DText s => Ok (Some s) | DNull _ => Ok None | _ => Err (column_error d) end.
Definition get_i32 (d : datum) : result (option Z) string :=
  match d with DInt4 n => Ok (Some n) | DNull _ => Ok None | _ => Err (column_error d) end.
Definition get_i64 (d : datum) : result (option Z) string :=
  match d with DInt8 n => Ok (Some n) | DNull _ => Ok None | _ => Err (column_error d) end.
Definition get_bool (d : datum) : result (option bool) string :=
  match d with DBool b => Ok (Some b) | DNull _ => Ok None | _ => Err (column_error d) end.
Definition get_text_array (d : datum) : result (option (list string)) string :=
  match d with DTextArray l => Ok (Some l) | DNull _ => Ok None | _ => Err (column_error d) end.
Definition get_f64_numeric (d : datum) : result (option (option f64)) string :=
  match d with DNumeric f => Ok (Some f) | DNull _ => Ok None | _ => Err (column_error d) end.

Definition column {A} (get : datum -> result (option A) string) (i : nat) (row : list datum)
  : result (option A) string :=
  match nth_error row (pred i) with Some d => get d | None => Err no_row_error end.

(** [.ok().flatten()] *)
Definition ok_flatten {A} (r : result (option A) string) : option A :=
  match r with Ok o => o | Err _ => None end.

(** [Spi::get_one], [Spi::get_one_with_args]: the first column of the first row. *)
Definition spi_get_one {A} (get : datum -> result (option A) string) (sql : string)
    (args : list datum) : prog (result (option A) string) :=
  r ← spi sql args;
  mret (match r with
        | Ok (_, row :: _) => column get 1 row
        | Ok (_, []) => Err no_row_error
        | Err e => Err e
        end).

(** [Spi::run], [Spi::run_with_args] *)
Definition spi_run (sql : string) (args : list datum) : prog (result unit string) :=
  r ← spi sql args; mret (match r with Ok _ => Ok tt | Err e => Err e end).

(** ** The SQL executor *)

Definition publish_execution_id (execution_id : option string) : prog unit :=
  match execution_id with
  | Some id =>
      _ ← spi_run "SELECT set_config('synapse.execution_id', $1, true)" [DText id]; mret tt
  | None => mret tt
  end.

Definition with_savepoint {A} (tool : string) (body : prog (result A ToolError))
  : prog (result A ToolError) :=
  _ ← perform (ESub SubBegin);
  r ← guard body;
  let outcome := match r with
                 | inl o => o
                 | inr reason => Err (ToolError_Execution tool reason)
                 end in
  _ ← perform (ESub (if is_ok outcome then SubRelease else SubRollback));
  mret outcome.

(** The rows of a wrapped query; a NULL is dropped. *)
Fixpoint collect_rows (rows : list (list datum)) (out : list json)
  : result (list json) ToolError :=
  match rows with
  | [] => Ok out
  | row :: rest =>
      match column get_jsonb 1 row with
      | Err e => Err (ToolError_Execution SQL_QUERY e)
      | Ok (Some j) => collect_rows rest (out ++ [j])
      | Ok None => collect_rows rest out
      end
  end.

Definition tools_disabled (tool : string) : ToolError :=
  ToolError_Execution tool "pg_synapse.disable_builtin_sql_tools is true".

Definition wrap_query (sql : string) : string := "SELECT to_jsonb(t) FROM (" +:+ sql +:+ ") t".

Definition spi_query (g : Gucs) (sql : string) (params : list json) (_ : option string)
    (execution_id : option string) : prog (result (list json) ToolError) :=
  if DISABLE_BUILTIN_SQL_TOOLS g then mret (Err (tools_disabled SQL_QUERY))
  else
    with_savepoint SQL_QUERY
      (_ ← publish_execution_id execution_id;
       r ← spi (wrap_query sql) (bind_args params);
       mret (match r with
             | Err e => Err (ToolError_Execution SQL_QUERY e)
             | Ok (_, rows) => collect_rows rows []
             end)).

Definition spi_execute (g : Gucs) (sql : string) (params : list json) (_ : option string)
    (execution_id : option string) : prog (result Z ToolError) :=
  if DISABLE_BUILTIN_SQL_TOOLS g then mret (Err (tools_disabled SQL_EXEC))
  else
    with_savepoint SQL_EXEC
      (_ ← publish_execution_id execution_id;
       r ← spi sql (bind_args params);
       mret (match r with
             | Err e => Err (ToolError_Execution SQL_EXEC e)
             | Ok (n, _) => Ok n
             end)).

Definition SpiSqlExecutor (g : Gucs) : SqlExecutor :=
  {| sx_query := spi_query g; sx_execute := spi_execute g |}.

(** ** The source of configuration rows *)

(** [serde_json::from_value::<Vec<T>>] with an error text. *)
Definition config_json {A} (read : json -> option A) (sql : string)
  : prog (result (list A) RuntimeError) :=
  raw ← spi_get_one get_jsonb sql [];
  mret (match raw with
        | Err e => Err (RuntimeError_Config e)
        | Ok o =>
            let value := default (JArray []) o in
            ok_or (read_vec read (Some value))
              (RuntimeError_Config ("config decode: " +:+ decode_error sql value))
        end).

Definition LESSONS_HEADER : string :=
  "Lessons from earlier runs of this agent (each cites the execution it came from):".

Record Lesson := mkLesson { lesson_cue : string; lesson_text : string }.
Record Extras := mkExtras {
  ex_skills : list Skill; ex_tool_hints : list ToolHint; ex_lessons : list Lesson }.

Definition read_lesson (v : json) : option Lesson :=
  fs ← row_fields 0 ["cue"; "lesson"] v;
  match fs with
  | [c; l] =>
      cue ← read_default "" read_string c; lesson ← read_default "" read_string l;
      Some (mkLesson cue lesson)
  | _ => None
  end.

Definition read_extras (v : json) : option Extras :=
  fs ← row_fields 0 ["skills"; "tool_hints"; "lessons"] v;
  match fs with
  | [s; t; l] =>
      skills ← read_default [] (read_vec read_skill) s;
      hints ← read_default [] (read_vec read_tool_hint) t;
      lessons ← read_default [] (read_vec read_lesson) l;
      Some (mkExtras skills hints lessons)
  | _ => None
  end.

Definition set_components (h : Harness) (a : AgentRow) : AgentRow :=
  {| ar_name := ar_name a; ar_system_prompt := ar_system_prompt a; ar_soul := ar_soul a;
     ar_executor_name := ar_executor_name a; ar_llm_profile_main := ar_llm_profile_main a;
     ar_llm_profile_small := ar_llm_profile_small a;
     ar_llm_profile_judge := ar_llm_profile_judge a;
     ar_embedding_profile := ar_embedding_profile a; ar_tools := ar_tools a;
     ar_max_iterations := ar_max_iterations a; ar_timeout_ms := ar_timeout_ms a;
     ar_cost_cap_usd := ar_cost_cap_usd a; ar_trace_level := ar_trace_level a;
     ar_components := h |}.

Definition lesson_line (l : Lesson) : string :=
  "- When " +:+ trim (lesson_cue l) +:+ ": " +:+ trim (lesson_text l).

Definition lessons_block (ls : list Lesson) : string :=
  LESSONS_HEADER +:+ newline +:+ join newline (map lesson_line ls).

Definition trim_end (s : string) : string := trim_end_matches is_whitespace s.

(** Lessons folded into the memory. *)
Definition fold_lessons (ls : list Lesson) (memory : option string) : option string :=
  match ls with
  | [] => memory
  | _ =>
      let block := lessons_block ls in
      Some (match memory with
            | Some m =>
                if is_blank m then block
                else trim_end m +:+ newline +:+ newline +:+ block
            | None => block
            end)
  end.

Definition with_extras (ex : Extras) (a : AgentRow) : AgentRow :=
  let h := ar_components a in
  set_components
    (mkHarness (guardrails h) (fold_lessons (ex_lessons ex) (memory h)) (critique h)
       (ex_skills ex) (ex_tool_hints ex)) a.

Definition HARNESS_SQL : string := "SELECT synapse.config_harness($1)".

Definition load_harness_extras (a : AgentRow) : prog (result AgentRow string) :=
  raw ← spi_get_one get_jsonb HARNESS_SQL [DText (ar_name a)];
  mret (match raw with
        | Err e => Err e
        | Ok None => Ok (with_extras (mkExtras [] [] []) a)
        | Ok (Some j) =>
            match read_extras j with
            | Some ex => Ok (with_extras ex a)
            | None => Err ("harness decode: " +:+ decode_error HARNESS_SQL j)
            end
        end).

Fixpoint load_all_extras (rows : list AgentRow) : prog (result (list AgentRow) RuntimeError) :=
  match rows with
  | [] => mret (Ok [])
  | a :: rest =>
      r ← load_harness_extras a;
      match r with
      | Err e => mret (Err (RuntimeError_Config e))
      | Ok a' => prog_try (load_all_extras rest) (fun rest' => mret (Ok (a' :: rest')))
      end
  end.

Definition spi_agents (g : Gucs) : prog (result (list AgentRow) RuntimeError) :=
  prog_try (config_json read_agent "SELECT synapse.config_agents()") (fun rows =>
    load_all_extras (map (apply_guc_fallbacks g) rows)).

(** [HashMap<String, String>] from an object. *)
Definition read_secrets (v : json) : option Secrets :=
  match v with
  | JObject m => list_to_map <$> mapM (fun kv => s ← as_str kv.2; Some (kv.1, s)) m
  | _ => None
  end.

Definition SECRETS_SQL : string := "SELECT synapse.config_secrets($1)".

Definition spi_secrets (names : list string) : prog (result Secrets RuntimeError) :=
  match names with
  | [] => mret (Ok ∅)
  | _ =>
      raw ← spi_get_one get_jsonb SECRETS_SQL [DTextArray names];
      mret (match raw with
            | Err e => Err (RuntimeError_Config e)
            | Ok o =>
                let value := default (JObject []) o in
                ok_or (read_secrets value)
                  (RuntimeError_Config ("secret decode: " +:+ decode_error SECRETS_SQL value))
            end)
  end.

Definition SpiProfileSource (g : Gucs) : ProfileSource :=
  {| src_llm_profiles := config_json read_llm_profile "SELECT synapse.config_llm_profiles()";
     src_embedding_profiles :=
       config_json read_embedding_profile "SELECT synapse.config_embedding_profiles()";
     src_agents := spi_agents g;
     src_secrets := spi_secrets |}.
End spi.
