(* ===== verification/PgHost.v ===== *)
(** * The backend process of the extension
    ([crates/pg-synapse-pgrx/src/audit_capability.rs], [runtime_holder.rs])

    What a Postgres backend keeps between calls: its settings, the slot of the
    cached runtime and the live audit tokens.  A function of the extension is
    a [pg]: it may change the backend, and returns or raises.

    A statement that calls a function of the extension is [spi_call]: the
    answer says whether Postgres reaches the function, which then runs in the
    same backend. *)

From S2P Require Import Prelude.
From S2P Require Import RustStr.
From S2P Require Import F64.
From S2P Require Import Json.
From S2P Require Import NumText.
From S2P Require Import Errors.
From S2P Require Import Types.
From S2P Require Import Effects.
From S2P Require Import Traits.
From S2P Require Import LoopHarness.
From S2P Require Import Registry.
From S2P Require Import Layers.
From S2P Require Import Runtime.
From S2P Require Import Builder.
From S2P Require Import StrSlice.
From S2P Require Import Wire.
From S2P Require Import ToolInput.
From S2P Require Import ToolsDelegate.
From S2P Require Import ToolsSql.
From S2P Require Import Providers.
From S2P Require Import PgGuc.
From S2P Require Import PgSpi.

(** ** Backends *)

(** The slot is [None] until [_PG_init] has run. *)
Record Backend := mkBackend {
  be_gucs : Gucs;
  be_slot : option (option Runtime);
  be_live : list Z }.

Definition set_slot (s : option (option Runtime)) (b : Backend) : Backend :=
  mkBackend (be_gucs b) s (be_live b).
Definition set_live (l : list Z) (b : Backend) : Backend :=
  mkBackend (be_gucs b) (be_slot b) l.

(** [_PG_init] as far as the state goes. *)
Definition initialize (b : Backend) : Backend :=
  match be_slot b with None => set_slot (Some None) b | Some _ => b end.

(** ** Functions that may raise *)

Definition pg (A : Type) : Type := Backend -> prog (Backend * (A + string)).

#[export] Instance pg_mret : MRet pg := fun A a b => Ret (b, inl a).
#[export] Instance pg_mbind : MBind pg := fun A B f m b =>
  r ← m b;
  match r with
  | (b', inl a) => f a b'
  | (b', inr msg) => Ret (b', inr msg)
  end.

(** [pgrx::error!] *)
Definition error {A} (msg : string) : pg A := fun b => Ret (b, inr msg).

(** A computation that does not touch the backend's own state. *)
Definition lift {A} (p : prog A) : pg A := fun b => r ← guard p; Ret (b, r).

Definition get_backend : pg Backend := fun b => Ret (b, inl b).
Definition put_backend (b : Backend) : pg unit := fun _ => Ret (b, inl tt).

(** [r.unwrap_or_else(|e| error!("{label}: {e}"))], [r.unwrap()] *)
Definition or_error {A} (label : string) (r : result A string) : pg A :=
  match r with Ok a => mret a | Err e => error (label +:+ e) end.

(** ** Audit capabilities ([audit_capability.rs]) *)

Module Audit.
Definition is_live (token : Z) (b : Backend) : bool := bool_decide (token ∈ be_live b).

(** [mint] pushes a token, [drop] retires it by value. *)
Definition mint (t : Z) (b : Backend) : Backend := set_live (be_live b ++ [t]) b.
Definition retire (t : Z) (l : list Z) : list Z := List.filter (fun u => negb (u =? t)) l.
Definition drop (t : Z) (b : Backend) : Backend := set_live (retire t (be_live b)) b.

(** A scope that holds a grant: it is dropped on every way out. *)
Definition with_grant {A} (body : Z -> pg A) : pg A := fun b =>
  t ← perform EUuid;
  r ← body t (mint t b);
  Ret (drop t r.1, r.2).
End Audit.

(** ** The runtime holder ([runtime_holder.rs]) *)

Definition backend_interrupt : prog (option string) :=
  f ← perform EInterruptFlags;
  mret (if f.2 : bool then Some "backend termination requested"
        else if f.1 : bool then Some "statement cancelled" else None).

Section holder.
Context `{UnicodeTables, Printers, HashOrder, WireLib, DeriveLib, FloatPrinter, PgLib}.

(** The plugins that compile-time features add, in their order. *)
Context (features : list Plugin).

Definition kernel_builder (g : Gucs) : RuntimeBuilder :=
  let b := with_plugin (SqlToolsPlugin (SpiSqlExecutor g))
             (with_plugin OpenAiProviderFactory
               (with_interrupt_check backend_interrupt
                 (with_retry_config RetryConfig_default builder))) in
  load_profiles_from (SpiProfileSource g) (fold_left (fun b p => with_plugin p b) features b).

Definition build_kernel_from_db (g : Gucs) : prog (result Runtime string) :=
  r ← build (kernel_builder g);
  mret (map_err (fun e => "kernel build failed: " +:+ RuntimeError_to_string fmt_f64 e) r).

Definition kernel_handle : pg (result Runtime string) :=
  b ← get_backend;
  match be_slot b with
  | None => mret (Err "kernel slot not initialized; _PG_init not called")
  | Some (Some rt) => mret (Ok rt)
  | Some None =>
      r ← lift (build_kernel_from_db (be_gucs b));
      match r with
      | Err e => mret (Err e)
      | Ok rt => _ ← put_backend (set_slot (Some (Some rt)) b); mret (Ok rt)
      end
  end.

Definition rebuild_kernel : pg unit :=
  b ← get_backend;
  put_backend (match be_slot b with Some _ => set_slot (Some None) b | None => b end).

(** A statement whose only effect is to call [fn]. *)
Definition spi_call (sql : string) (args : list datum) (fn : pg unit) : pg (result unit string) :=
  r ← lift (spi_run sql args);
  match r with
  | Err e => mret (Err e)
  | Ok _ => _ ← fn; mret (Ok tt)
  end.
End holder.

(** ** Lemmas *)

Lemma guard_bind {A B} (p : prog A) (f : A -> prog B) :
  forall tr r, steps (guard (p ≫= f)) tr r <->
    steps (a ← guard p; match a with inl a => guard (f a) | inr m => mret (inr m) end) tr r.
Proof.
  induction p as [a|X e k IH]; intros tr r; [done|].
  destruct e; try (simpl; split; intros (x & tr' & -> & Hs); exists x, tr'; (split; [done|]); by apply IH).
  done.
Qed.

(** After the drop, no token is live that was not live before. *)
Lemma retire_mint t l : Audit.retire t (l ++ [t]) = Audit.retire t l.
Proof.
  unfold Audit.retire. rewrite List.filter_app. simpl. rewrite Z.eqb_refl. simpl. apply app_nil_r.
Qed.

Lemma elem_of_retire t u l : u ∈ Audit.retire t l <-> u <> t /\ u ∈ l.
Proof.
  unfold Audit.retire. rewrite !list_elem_of_In, List.filter_In, negb_true_iff, Z.eqb_neq. tauto.
Qed.
