(* ===== verification/PgExecute.v ===== *)
(** * Entry points of the extension ([crates/pg-synapse-pgrx/src/sql_functions.rs])

    Running an agent from SQL, calling a tool, the audit writes that go with a
    run and the functions that read.  Names are those of the module [synapse]
    of the source.  A [let _ = ...] on a statement drops a soft error; a hard
    error raises all the same. *)

From S2P Require Import Prelude.
From S2P Require Import RustStr.
From S2P Require Import F64.
From S2P Require Import Json.
From S2P Require Import Net.
From S2P Require Import NumText.
From S2P Require Import Errors.
From S2P Require Import Types.
From S2P Require Import Effects.
From S2P Require Import Traits.
From S2P Require Import LoopHarness.
From S2P Require Import Runtime.
From S2P Require Import Builder.
From S2P Require Import Wire.
From S2P Require Import ToolInput.
From S2P Require Import ToolsDelegate.
From S2P Require Import PgGuc.
From S2P Require Import PgSpi.
From S2P Require Import PgHost.

Module Synapse.

(** ** Labels *)

Definition status_label (s : OutcomeStatus) : string :=
  match s with
  | Completed => "completed"
  | MaxIterations => "max_iterations"
  | TimedOut => "timed_out"
  | CostCapExceeded => "cost_cap_exceeded"
  | Errored _ => "errored"
  end.

Definition EGRESS_TOOLS : list string :=
  ["http_get"; "http_head"; "http_post"; "search_news"; "fetch_feed"; "read_article"; "load_url";
   "remote_query"; "remote_exec"; "call_agent"].
Definition is_egress_tool (name : string) : bool := existsb (String.eqb name) EGRESS_TOOLS.

Definition role_str (r : Role) : string :=
  match r with
  | System => "system" | User => "user" | Assistant => "assistant" | Tool => "tool"
  end.

Definition quotation_mark : string := String (ascii_of_nat 34) "".

(** [queue_status_for] of lib.rs: queue status and reason. *)
Definition queue_status_for (envelope : json) : string * option string :=
  let status := default "errored" (json_get "status" envelope ≫= as_str) in
  if String.eqb status "completed" then ("done", None)
  else
    let reason := match json_get "error" envelope ≫= as_str with
                  | Some e => e
                  | None => "run ended with status " +:+ quotation_mark +:+ status +:+ quotation_mark
                  end in
    ("error", Some reason).

(** ** Statements *)

Definition CALLER_SQL : string :=
  "SELECT COALESCE(NULLIF(current_setting('role', true), 'none'), session_user::text)".
Definition DEPTH_SQL : string := "SELECT pg_trigger_depth()".
Definition ENSURE_SQL : string := "SELECT synapse.ensure_kernel()".
Definition TRACE_SQL : string := "SELECT synapse.agent_trace_level($1)".
Definition PRELOAD_SQL : string := "SELECT current_setting('shared_preload_libraries', true)".
Definition AUDIT_RUN_SQL : string := "SELECT synapse.audit_run($1, $2)".
Definition AUDIT_STATUS_SQL : string := "SELECT synapse.audit_status($1, $2)".
Definition RECORD_RUN_SQL : string := "SELECT synapse.record_run($1)".
Definition RECORD_STATUS_SQL : string := "SELECT synapse.record_status($1)".

Definition MASTER_KEY_WARNING : string :=
  "pg_synapse.master_key is set but pg_synapse_pgrx is not in shared_preload_libraries; until it is, the key is an unflagged GUC placeholder that any role can read with current_setting() before this library loads. See docs/threat-model.md".

Definition AUDIT_REFUSED : string :=
  "audit writes are reachable only from a run in progress; this function cannot be called directly".

Section synapse.
Context `{UnicodeTables, Printers, HashOrder, WireLib, DeriveLib, FloatPrinter, PgLib}.
Context (features : list Plugin).

(** ** Auditing *)

Definition check_audit_token (token : string) : pg unit :=
  b ← get_backend;
  match parse_unsigned 16 U128_MAX token with
  | Some t => if Audit.is_live t b then mret tt else error AUDIT_REFUSED
  | None => error AUDIT_REFUSED
  end.

Definition audit_run (payload : json) (token : string) : pg unit :=
  _ ← check_audit_token token;
  r ← lift (spi_run RECORD_RUN_SQL [DJsonb payload]);
  or_error "audit_run: " r.

Definition audit_status (payload : json) (token : string) : pg unit :=
  _ ← check_audit_token token;
  r ← lift (spi_run RECORD_STATUS_SQL [DJsonb payload]);
  or_error "audit_status: " r.

(** [{:032x}] *)
Definition token_text (grant : Z) : string := fmt_hex 32 32 grant.

Definition status_doc (execution_id agent : string) (input output : option string)
    (status : string) (caller : option string) : json :=
  json_object
    [("execution_id", JString execution_id); ("agent_name", JString agent);
     ("input", json_option JString input); ("output", json_option JString output);
     ("status", JString status); ("caller_role", json_option JString caller)].

Definition record_status (execution_id agent : string) (input output : option string)
    (status : string) (caller : option string) (grant : Z) : pg (result unit string) :=
  let doc := status_doc execution_id agent input output status caller in
  spi_call AUDIT_STATUS_SQL [DJsonb doc; DText (token_text grant)]
    (audit_status doc (token_text grant)).

Definition log_failed_execution (agent input error : string) (caller : option string) (grant : Z)
  : pg unit :=
  id ← lift (perform EUuid);
  _ ← record_status (fmt_uuid id) agent (Some input) (Some error) "errored" caller grant;
  mret tt.

Definition message_doc (m : Message) : json :=
  json_object
    [("seq", json_u64 (msg_seq m)); ("role", JString (role_str (msg_role m)));
     ("content", json_option JString (msg_content m));
     ("tool_call_id", json_option JString (msg_tool_call_id m));
     ("tool_name", json_option JString (msg_tool_name m));
     ("tool_input", json_option id (msg_tool_input m));
     ("tool_output", json_option id (msg_tool_output m))].

Definition event_doc (seq : nat) (ev : ExecutionEvent) : json :=
  json_object
    [("seq", json_u64 (Z.of_nat seq)); ("event", JString (EventKind_as_str (ev_kind ev)));
     ("payload", ev_payload ev)].

(** The id of the first message, if any. *)
Definition first_execution_id (o : ExecutorOutcome) : option Uuid :=
  msg_execution_id <$> head (out_messages o).

Definition run_doc (exec_id : string) (o : ExecutorOutcome) (agent input : string)
    (caller : option string) (trace_level : TraceLevel) (supersedes : option string) : json :=
  let run_succeeded := bool_decide (out_status o = Completed) in
  let messages := if should_persist_messages trace_level run_succeeded
                  then map message_doc (out_messages o) else [] in
  let events := if should_persist_events trace_level
                then imap event_doc (out_events o) else [] in
  let doc := json_object
    [("execution", json_object
        [("execution_id", JString exec_id); ("agent_name", JString agent);
         ("input", JString input); ("output", JString (out_output o));
         ("status", JString (status_label (out_status o)));
         ("tokens_in", json_u64 (out_tokens_in o)); ("tokens_out", json_u64 (out_tokens_out o));
         ("cost_usd", json_option json_f64 (out_cost_usd o));
         ("duration_ms", json_u64 (out_duration_ms o));
         ("caller_role", json_option JString caller)]);
     ("messages", JArray messages); ("events", JArray events)] in
  match supersedes with
  | Some id => json_set "supersedes" (JString id) doc
  | None => doc
  end.

Definition log_execution (o : ExecutorOutcome) (agent input : string) (caller : option string)
    (trace_level : TraceLevel) (supersedes : option string) (grant : Z)
  : pg (result unit string) :=
  exec_id ← match first_execution_id o with
            | Some id => mret (fmt_uuid id)
            | None => id ← lift (perform EUuid); mret (fmt_uuid id)
            end;
  if is_empty exec_id then mret (Ok tt)
  else
    let doc := run_doc exec_id o agent input caller trace_level supersedes in
    spi_call AUDIT_RUN_SQL [DJsonb doc; DText (token_text grant)]
      (audit_run doc (token_text grant)).

(** ** Running an agent *)

Definition is_preloaded (libraries : string) : bool :=
  existsb (fun l => String.eqb (trim l) "pg_synapse_pgrx") (split_on "," libraries).

Definition warn_if_master_key_is_exposed : pg unit :=
  b ← get_backend;
  match master_key (be_gucs b) with
  | None => mret tt
  | Some _ =>
      r ← lift (spi_get_one get_text PRELOAD_SQL []);
      if from_option is_preloaded false (ok_flatten r) then mret tt
      else lift (perform (EWarning MASTER_KEY_WARNING))
  end.

Definition ensure_kernel : pg unit :=
  _ ← warn_if_master_key_is_exposed;
  k ← kernel_handle features;
  match k with
  | Ok _ => mret tt
  | Err e => error ("ensure_kernel: " +:+ e)
  end.

Definition caller_role : pg (option string) :=
  r ← lift (spi_get_one get_text CALLER_SQL []); mret (ok_flatten r).

Definition inline_trigger : pg bool :=
  r ← lift (spi_get_one get_i32 DEPTH_SQL []); mret (0 <? default 0 (ok_flatten r)).

Definition resolve_trace_level (agent_name : string) : pg TraceLevel :=
  r ← lift (spi TRACE_SQL [DText agent_name]);
  let level_str := match r with
                   | Ok (_, row :: _) => ok_flatten (column get_text 1 row)
                   | _ => None
                   end in
  mret (match level_str with
        | Some s => match TraceLevel_from_str s with Ok l => l | Err _ => TraceLevel_default end
        | None => TraceLevel_default
        end).

Definition error_envelope (msg : string) : json :=
  json_object [("error", JString msg); ("status", JString "errored")].

Definition egress_refusal (kernel : Runtime) (agent_name : string) : option json :=
  match List.find (fun a => String.eqb (ar_name a) agent_name) (agents kernel) with
  | None => None
  | Some a =>
      (fun bad => error_envelope
         ("agent '" +:+ agent_name +:+ "' has the network tool '" +:+ bad
            +:+ "' and cannot run in inline trigger mode, which holds the writing transaction open for the whole run; attach it in queue mode instead"))
        <$> List.find is_egress_tool (ar_tools a)
  end.

Definition inline_cap (g : Gucs) : Z := from_millis (Z.max (INLINE_TIMEOUT_MS g) 1).

Definition is_assistant (m : Message) : bool := bool_decide (msg_role m = Assistant).

Definition success_envelope (o : ExecutorOutcome) : json :=
  json_object
    [("execution_id", JString (from_option fmt_uuid "" (first_execution_id o)));
     ("output", JString (out_output o)); ("status", JString (status_label (out_status o)));
     ("tokens_in", json_u64 (out_tokens_in o)); ("tokens_out", json_u64 (out_tokens_out o));
     ("cost_usd", json_option json_f64 (out_cost_usd o));
     ("duration_ms", json_u64 (out_duration_ms o));
     ("iterations", json_u64 (Z.of_nat (length (List.filter is_assistant (out_messages o)))));
     ("tool_calls", JArray (map (fun tc => json_object [("name", JString (tc_name tc));
                                                        ("args", tc_args tc)])
                              (out_tool_calls o)))].

(** What [execute] asks of the kernel. *)
Definition kernel_run (g : Gucs) (inline : bool) (kernel : Runtime) (agent_name input : string)
    (caller : option string) : prog (result ExecutorOutcome RuntimeError) :=
  if inline then execute_with_budget kernel agent_name input caller (inline_cap g)
  else execute_with_caller kernel agent_name input caller.

(** The part of [execute] after the run. *)
Definition conclude (agent_name input : string) (caller : option string) (grant : Z)
    (outcome : result ExecutorOutcome RuntimeError) : pg json :=
  match outcome with
  | Ok o =>
      tl ← resolve_trace_level agent_name;
      l ← log_execution o agent_name input caller tl None grant;
      _ ← match l with
          | Ok _ => mret tt
          | Err e =>
              lift (perform (EWarning ("could not record execution for agent " +:+ agent_name
                                         +:+ ": " +:+ e)))
          end;
      mret (success_envelope o)
  | Err e =>
      let msg := RuntimeError_to_string fmt_f64 e in
      _ ← log_failed_execution agent_name input msg caller grant;
      mret (error_envelope msg)
  end.

Definition run_agent (kernel : Runtime) (inline : bool) (agent_name input : string)
    (caller : option string) (grant : Z) : pg json :=
  match (if inline then egress_refusal kernel agent_name else None) with
  | Some refusal => mret refusal
  | None =>
      b ← get_backend;
      outcome ← lift (kernel_run (be_gucs b) inline kernel agent_name input caller);
      conclude agent_name input caller grant outcome
  end.

Definition execute (agent_name input : string) : pg json :=
  caller ← caller_role;
  Audit.with_grant (fun grant =>
    inline ← inline_trigger;
    ensured ← spi_call ENSURE_SQL [] ensure_kernel;
    match ensured with
    | Err e => mret (error_envelope e)
    | Ok _ =>
        k ← kernel_handle features;
        match k with
        | Err e => mret (error_envelope e)
        | Ok kernel => run_agent kernel inline agent_name input caller grant
        end
    end).

(** [execute_async]: the run is inline, the id is returned. *)
Definition conclude_async (agent_name input : string) (caller : option string) (grant : Z)
    (queued_id : Uuid) (outcome : result ExecutorOutcome RuntimeError) : pg Uuid :=
  match outcome with
  | Ok o =>
      tl ← resolve_trace_level agent_name;
      l ← log_execution o agent_name input caller tl (Some (fmt_uuid queued_id)) grant;
      _ ← match l with
          | Ok _ => mret tt
          | Err e =>
              lift (perform (EWarning ("could not record execution for agent " +:+ agent_name
                                         +:+ ": " +:+ e)))
          end;
      mret (default queued_id (first_execution_id o))
  | Err e =>
      _ ← record_status (fmt_uuid queued_id) agent_name (Some input)
            (Some (RuntimeError_to_string fmt_f64 e)) "errored" caller grant;
      mret queued_id
  end.

Definition execute_async (agent_name input : string) : pg Uuid :=
  caller ← caller_role;
  ensured ← spi_call ENSURE_SQL [] ensure_kernel;
  _ ← or_error "execute_async: " ensured;
  Audit.with_grant (fun grant =>
    queued_id ← lift (perform EUuid);
    _ ← record_status (fmt_uuid queued_id) agent_name (Some input) None "queued" caller grant;
    k ← kernel_handle features;
    match k with
    | Err e =>
        _ ← record_status (fmt_uuid queued_id) agent_name (Some input)
              (Some ("kernel error: " +:+ e)) "errored" caller grant;
        mret queued_id
    | Ok kernel =>
        outcome ← lift (execute_with_caller kernel agent_name input caller);
        conclude_async agent_name input caller grant queued_id outcome
    end).

(** ** Calling a tool, embedding, capabilities *)

Definition tool_call (tool_name : string) (input : json) : pg json :=
  caller ← caller_role;
  ensured ← spi_call ENSURE_SQL [] ensure_kernel;
  match ensured with
  | Err e => mret (error_envelope e)
  | Ok _ =>
      k ← kernel_handle features;
      match k with
      | Err e => mret (error_envelope e)
      | Ok kernel =>
          r ← lift (call_tool kernel tool_name input caller);
          match r with
          | inl (Ok v) => mret v
          | inl (Err e) => mret (error_envelope (RuntimeError_to_string fmt_f64 e))
          | inr p => error (match p with PanicStr s | PanicString s => s | PanicOther => "panic" end)
          end
      end
  end.

Definition embed (text : string) (profile_name : option string) : pg (list f64) :=
  k ← kernel_handle features;
  match k with
  | Err e => error ("embed: " +:+ e)
  | Ok kernel =>
      r ← lift (Runtime.embed kernel text profile_name);
      match r with
      | Ok v => mret (map f64_of_f32 v)
      | Err e => error ("embed error: " +:+ RuntimeError_to_string fmt_f64 e)
      end
  end.

Definition version : string := CARGO_PKG_VERSION.

Definition rebuild_kernel_fn : pg unit := rebuild_kernel.

Definition capabilities_json (c : ProviderCapabilities) : json :=
  json_object
    [("tool_use", JBool (tool_use c)); ("streaming", JBool (streaming c));
     ("json_mode", JBool (json_mode c)); ("vision", JBool (vision c));
     ("max_context_tokens", json_option json_u64 (max_context_tokens c));
     ("max_output_tokens", json_option json_u64 (max_output_tokens c))].

Definition provider_capabilities (profile_name : string) : pg json :=
  k ← kernel_handle features;
  mret (match k with
        | Err e => json_object [("error", JString e)]
        | Ok kernel =>
            match Runtime.provider_capabilities kernel profile_name with
            | Some caps => capabilities_json caps
            | None =>
                json_object [("error", JString ("LLM profile '" +:+ profile_name
                                                  +:+ "' not registered"))]
            end
        end).

(** ** Listings *)

Definition text_or_empty (i : nat) (row : list datum) : string :=
  default "" (ok_flatten (column get_text i row)).
Definition text_or_null (i : nat) (row : list datum) : json :=
  json_option JString (ok_flatten (column get_text i row)).

Definition AGENT_LIST_SQL : string :=
  "SELECT name, executor_name, llm_profile_main, tools FROM synapse.agents ORDER BY name".

Definition agent_entry (row : list datum) : json :=
  json_object
    [("name", JString (text_or_empty 1 row)); ("executor_name", JString (text_or_empty 2 row));
     ("llm_profile_main", text_or_null 3 row);
     ("tools", JArray (map JString (default [] (ok_flatten (column get_text_array 4 row)))))].

Definition list_rows (sql : string) (entry : list datum -> json) : pg json :=
  r ← lift (spi sql []);
  mret (match r with
        | Ok (_, rows) => JArray (map entry rows)
        | Err e => json_object [("error", JString e)]
        end).

Definition agent_list : pg json := list_rows AGENT_LIST_SQL agent_entry.

Definition TOOL_LIST_SQL : string :=
  "SELECT name, description, kind FROM synapse.tools ORDER BY name".

Definition tool_entry (row : list datum) : json :=
  json_object
    [("name", JString (text_or_empty 1 row)); ("description", text_or_null 2 row);
     ("kind", JString (text_or_empty 3 row))].

Definition tool_list : pg json := list_rows TOOL_LIST_SQL tool_entry.

Definition STATUS_SQL : string :=
  "SELECT status, output, tokens_in, tokens_out, cost_usd, duration_ms FROM synapse.executions WHERE execution_id = $1::uuid".

Definition status_entry (row : list datum) : json :=
  json_object
    [("status", JString (text_or_empty 1 row)); ("output", text_or_null 2 row);
     ("tokens_in", json_i64 (default 0 (ok_flatten (column get_i32 3 row))));
     ("tokens_out", json_i64 (default 0 (ok_flatten (column get_i32 4 row))));
     ("cost_usd", json_option json_f64 (ok_flatten (column get_f64_numeric 5 row) ≫= id));
     ("duration_ms", json_option json_i64 (ok_flatten (column get_i64 6 row)))].

Definition execution_status (execution_id : Uuid) : pg json :=
  r ← lift (spi STATUS_SQL [DText (fmt_uuid execution_id)]);
  mret (match r with
        | Ok (_, row :: _) => status_entry row
        | Ok (_, []) => json_object [("status", JString "not_found")]
        | Err e => error_envelope e
        end).
End synapse.
End Synapse.
