(* ===== verification/PgExecuteSpec.v ===== *)
(** * What the entry points guarantee: lemmas

    Executions of functions of the extension, the audit tokens they leave, and
    the statements they send. *)

From S2P Require Import Prelude.
From S2P Require Import RustStr.
From S2P Require Import F64.
From S2P Require Import Json.
From S2P Require Import NumText.
From S2P Require Import Errors.
From S2P Require Import Types.
From S2P Require Import Effects.
From S2P Require Import Traits.
From S2P Require Import LoopHarness.
From S2P Require Import Runtime.
From S2P Require Import Builder.
From S2P Require Import Wire.
From S2P Require Import ToolInput.
From S2P Require Import ToolsDelegate.
From S2P Require Import PgGuc.
From S2P Require Import PgSpi.
From S2P Require Import PgHost.
From S2P Require Import PgExecute.

(** ** Executions *)

Lemma steps_ret {A} (a b : A) tr : steps (Ret a) tr b <-> tr = [] /\ b = a.
Proof. done. Qed.

Lemma steps_pg_bind {A B} (m : pg A) (f : A -> pg B) b tr b' r :
  steps ((m ≫= f) b) tr (b', r) <->
  (exists tr1 tr2 b1 a, tr = tr1 ++ tr2 /\ steps (m b) tr1 (b1, inl a) /\
     steps (f a b1) tr2 (b', r)) \/
  (exists msg, r = inr msg /\ steps (m b) tr (b', inr msg)).
Proof.
  unfold mbind, pg_mbind. rewrite steps_bind. split.
  - intros (tr1 & tr2 & [b1 [a|msg]] & -> & H1 & H2); [by left; exists tr1, tr2, b1, a|].
    right. apply steps_ret in H2 as [-> [= -> ->]]. exists msg. by rewrite app_nil_r.
  - intros [(tr1 & tr2 & b1 & a & -> & H1 & H2)|(msg & -> & H1)].
    + by exists tr1, tr2, (b1, inl a).
    + exists tr, [], (b', inr msg). by rewrite app_nil_r.
Qed.

Lemma steps_pg_ret {A} (a : A) b tr b' r :
  steps ((mret a : pg A) b) tr (b', r) <-> tr = [] /\ b' = b /\ r = inl a.
Proof. unfold mret, pg_mret. rewrite steps_ret. naive_solver. Qed.

Lemma steps_error {A} msg b tr b' r :
  steps ((error msg : pg A) b) tr (b', r) <-> tr = [] /\ b' = b /\ r = inr msg.
Proof. unfold error. rewrite steps_ret. naive_solver. Qed.

Lemma steps_lift {A} (p : prog A) b tr b' r :
  steps (lift p b) tr (b', r) <-> b' = b /\ steps (guard p) tr r.
Proof.
  unfold lift. rewrite steps_bind. split.
  - intros (tr1 & tr2 & x & -> & H1 & [-> [= -> ->]]%steps_ret). by rewrite app_nil_r.
  - intros [-> H]. exists tr, [], r. by rewrite app_nil_r.
Qed.

Lemma steps_get_backend b tr b' r :
  steps (get_backend b) tr (b', r) <-> tr = [] /\ b' = b /\ r = inl b.
Proof. unfold get_backend. rewrite steps_ret. naive_solver. Qed.

Lemma steps_put_backend b0 b tr b' r :
  steps (put_backend b0 b) tr (b', r) <-> tr = [] /\ b' = b0 /\ r = inl tt.
Proof. unfold put_backend. rewrite steps_ret. naive_solver. Qed.

(** What a statement answers, as a guarded computation. *)
Definition spi_outcome (a : spi_answer) : result (Z * list (list datum)) string + string :=
  match a with
  | SpiDone n rows => inl (Ok (n, rows))
  | SpiErr e => inl (Err e)
  | SpiRaised msg => inr msg
  end.

Lemma steps_spi sql args tr r :
  steps (guard (spi sql args)) tr r <->
  exists a, tr = [Call (ESpi sql args) a] /\ r = spi_outcome a.
Proof.
  unfold spi, perform. simpl. split.
  - intros (a & tr' & -> & H). exists a.
    destruct a; simpl in H; destruct H as [-> ->]; done.
  - intros (a & -> & ->). exists a, []. split; [done|]. by destruct a.
Qed.

Lemma steps_guard_bind {A B} (p : prog A) (f : A -> prog B) tr r :
  steps (guard (p ≫= f)) tr r <->
  (exists tr1 tr2 a, tr = tr1 ++ tr2 /\ steps (guard p) tr1 (inl a) /\ steps (guard (f a)) tr2 r) \/
  (exists msg, r = inr msg /\ steps (guard p) tr (inr msg)).
Proof.
  rewrite guard_bind, steps_bind. split.
  - intros (tr1 & tr2 & [a|msg] & -> & H1 & H2); [by left; exists tr1, tr2, a|].
    right. apply steps_ret in H2 as [-> ->]. exists msg. by rewrite app_nil_r.
  - intros [(tr1 & tr2 & a & -> & H1 & H2)|(msg & -> & H1)].
    + by exists tr1, tr2, (inl a).
    + exists tr, [], (inr msg). by rewrite app_nil_r.
Qed.

Lemma steps_guard_ret {A} (a : A) tr r : steps (guard (mret a)) tr r <-> tr = [] /\ r = inl a.
Proof. done. Qed.

Lemma steps_spi_run sql args tr r :
  steps (guard (spi_run sql args)) tr r <->
  exists a, tr = [Call (ESpi sql args) a] /\
    r = match spi_outcome a with
        | inl (Ok _) => inl (Ok tt) | inl (Err e) => inl (Err e) | inr m => inr m end.
Proof.
  unfold spi_run. rewrite steps_guard_bind. split.
  - intros [(tr1 & tr2 & x & -> & (a & -> & Ha)%steps_spi & [-> ->]%steps_guard_ret)|
            (msg & -> & (a & -> & Ha)%steps_spi)].
    + exists a. split; [done|]. rewrite <- Ha. by destruct x.
    + exists a. split; [done|]. by rewrite <- Ha.
  - intros (a & -> & ->). destruct (spi_outcome a) as [x|m] eqn:E.
    + left. exists [Call (ESpi sql args) a], [], x. split; [done|].
      split; [apply steps_spi; by exists a|]. by destruct x.
    + right. exists m. split; [done|]. apply steps_spi. by exists a.
Qed.

(** Take an execution apart along the code. *)
Ltac pg_steps :=
  repeat match goal with
  | H : _ /\ _ |- _ => destruct H
  | H : exists _, _ |- _ => destruct H
  | H : steps ((_ ≫= _) _) _ (_, _) |- _ => apply steps_pg_bind in H as [H|H]
  | H : steps (mret _ _) _ (_, _) |- _ => apply steps_pg_ret in H
  | H : steps (error _ _) _ (_, _) |- _ => apply steps_error in H
  | H : steps (lift _ _) _ (_, _) |- _ => apply steps_lift in H
  | H : steps (get_backend _) _ (_, _) |- _ => apply steps_get_backend in H
  | H : steps (put_backend _ _) _ (_, _) |- _ => apply steps_put_backend in H
  end; simplify_eq.

(** ** Settings and live tokens *)

(** What a backend holds besides the cached runtime. *)
Definition rest (b : Backend) : Gucs * list Z := (be_gucs b, be_live b).
Definition keeps_rest {A} (m : pg A) : Prop := forall b tr b' r,
  steps (m b) tr (b', r) -> rest b' = rest b.

Lemma keeps_rest_ret {A} (a : A) : keeps_rest (mret a : pg A).
Proof. intros b tr b' r (_ & -> & _)%steps_pg_ret. done. Qed.

Lemma keeps_rest_error {A} msg : keeps_rest (error msg : pg A).
Proof. intros b tr b' r (_ & -> & _)%steps_error. done. Qed.

Lemma keeps_rest_lift {A} (p : prog A) : keeps_rest (lift p).
Proof. intros b tr b' r [-> _]%steps_lift. done. Qed.

Lemma keeps_rest_get : keeps_rest get_backend.
Proof. intros b tr b' r (_ & -> & _)%steps_get_backend. done. Qed.

Lemma keeps_rest_bind {A B} (m : pg A) (f : A -> pg B) :
  keeps_rest m -> (forall a, keeps_rest (f a)) -> keeps_rest (m ≫= f).
Proof.
  intros Hm Hf b tr b' r [(tr1 & tr2 & b1 & a & -> & H1 & H2)|(msg & -> & H1)]%steps_pg_bind.
  - rewrite (Hf a _ _ _ _ H2). by eapply Hm.
  - by eapply Hm.
Qed.

#[export] Hint Resolve keeps_rest_ret keeps_rest_error keeps_rest_lift keeps_rest_get : synapse.

(** Decide [keeps_rest] along the code. *)
Ltac keeps :=
  repeat first
    [ solve [auto with synapse nocore]
    | apply keeps_rest_bind; [|intros ?]
    | match goal with
      | |- keeps_rest (match ?x with _ => _ end) => destruct x
      | |- keeps_rest (if ?x then _ else _) => destruct x
      end ].

Lemma keeps_rest_or_error {A} label (r : result A string) : keeps_rest (or_error label r).
Proof. unfold or_error. keeps. Qed.

Lemma keeps_rest_put_slot s : keeps_rest (b ← get_backend; put_backend (set_slot s b)).
Proof. intros b tr b' r H. by pg_steps. Qed.
#[export] Hint Resolve keeps_rest_or_error : synapse.

Section spec.
Context `{UnicodeTables, Printers, HashOrder, WireLib, DeriveLib, FloatPrinter, PgLib}.
Context (features : list Plugin).

Lemma keeps_rest_kernel_handle : keeps_rest (kernel_handle features).
Proof.
  intros b tr b' r Hs. unfold kernel_handle in Hs.
  apply steps_pg_bind in Hs as [(tr1 & tr2 & b1 & b0 & -> & Hs1 & Hs2)|(? & -> & Hs1)]; [|by pg_steps].
  apply steps_get_backend in Hs1 as (-> & -> & [= ->]).
  destruct (be_slot b) as [[rt|]|]; [by pg_steps| |by pg_steps].
  apply steps_pg_bind in Hs2 as [(tr3 & tr4 & b2 & x & -> & Hs3 & Hs4)|(? & -> & Hs3)]; [|by pg_steps].
  apply steps_lift in Hs3 as [-> _]. destruct x; by pg_steps.
Qed.

Lemma keeps_rest_spi_call sql args fn : keeps_rest fn -> keeps_rest (spi_call sql args fn).
Proof. intros Hf. unfold spi_call. keeps. Qed.

Hint Resolve keeps_rest_kernel_handle keeps_rest_spi_call : synapse.

Lemma keeps_rest_ensure : keeps_rest (Synapse.ensure_kernel features).
Proof. unfold Synapse.ensure_kernel, Synapse.warn_if_master_key_is_exposed. keeps. Qed.

Lemma keeps_rest_audit_run payload token : keeps_rest (Synapse.audit_run payload token).
Proof. unfold Synapse.audit_run, Synapse.check_audit_token. keeps. Qed.

Lemma keeps_rest_audit_status payload token : keeps_rest (Synapse.audit_status payload token).
Proof. unfold Synapse.audit_status, Synapse.check_audit_token. keeps. Qed.
Hint Resolve keeps_rest_ensure keeps_rest_audit_run keeps_rest_audit_status : synapse.

Lemma keeps_rest_record_status id agent i o st c g :
  keeps_rest (Synapse.record_status id agent i o st c g).
Proof. unfold Synapse.record_status. keeps. Qed.
Hint Resolve keeps_rest_record_status : synapse.

Lemma keeps_rest_log o agent i c tl s g : keeps_rest (Synapse.log_execution o agent i c tl s g).
Proof. unfold Synapse.log_execution. keeps. Qed.

Lemma keeps_rest_log_failed agent i e c g : keeps_rest (Synapse.log_failed_execution agent i e c g).
Proof. unfold Synapse.log_failed_execution. keeps. Qed.
Hint Resolve keeps_rest_log keeps_rest_log_failed : synapse.

Lemma keeps_rest_conclude agent i c g o : keeps_rest (Synapse.conclude agent i c g o).
Proof. unfold Synapse.conclude, Synapse.resolve_trace_level. keeps. Qed.
Hint Resolve keeps_rest_conclude : synapse.

Lemma keeps_rest_run_agent k inl agent i c g : keeps_rest (Synapse.run_agent k inl agent i c g).
Proof. unfold Synapse.run_agent. keeps. Qed.

Lemma keeps_rest_conclude_async agent i c g q o : keeps_rest (Synapse.conclude_async agent i c g q o).
Proof. unfold Synapse.conclude_async, Synapse.resolve_trace_level. keeps. Qed.
Hint Resolve keeps_rest_run_agent keeps_rest_conclude_async : synapse.

(** A scope mints its token first and retires it on every way out. *)
Lemma steps_with_grant {A} (body : Z -> pg A) b tr b' r :
  steps (Audit.with_grant body b) tr (b', r) <->
  exists t tr' b1, tr = Call EUuid t :: tr' /\ steps (body t (Audit.mint t b)) tr' (b1, r) /\
    b' = Audit.drop t b1.
Proof.
  unfold Audit.with_grant. rewrite steps_bind. split.
  - intros (tr1 & tr2 & t & -> & ->%steps_perform & Hs).
    apply steps_bind in Hs as (tr3 & tr4 & [b1 r1] & -> & Hb & [-> [= -> ->]]%steps_ret).
    exists t, tr3, b1. by rewrite app_nil_r.
  - intros (t & tr' & b1 & -> & Hs & ->). exists [Call EUuid t], tr', t. split; [done|].
    split; [by apply steps_perform|]. apply steps_bind. exists tr', [], (b1, r).
    by rewrite app_nil_r.
Qed.

(** The tokens of the backend are as before, but for one made on the way. *)
Definition retires {A} (m : pg A) : Prop := forall b tr b' r,
  steps (m b) tr (b', r) ->
  be_live b' = be_live b \/
  exists t, Call EUuid t ∈ tr /\ be_live b' = Audit.retire t (be_live b).

Lemma retires_grant {A} (body : Z -> pg A) :
  (forall t, keeps_rest (body t)) -> retires (Audit.with_grant body).
Proof.
  intros Hk b tr b' r (t & tr' & b1 & -> & Hb & ->)%steps_with_grant. right. exists t.
  split; [left|]. simpl. apply Hk in Hb. injection Hb as _ ->. apply retire_mint.
Qed.

Lemma retires_after {A B} (m : pg A) (f : A -> pg B) :
  keeps_rest m -> (forall a, retires (f a)) -> retires (m ≫= f).
Proof.
  intros Hm Hf b tr b' r [(tr1 & tr2 & b1 & a & -> & Hs1 & Hs2)|(msg & -> & Hs)]%steps_pg_bind.
  - apply Hm in Hs1. injection Hs1 as _ <-.
    destruct (Hf _ _ _ _ _ Hs2) as [?|(t & Hin & ?)]; [by left|]. right. exists t.
    split; [set_solver|done].
  - left. apply Hm in Hs. by injection Hs.
Qed.

(** ** Statements of an execution *)

(** The documents of the audit rows that a part of an execution wrote. *)
Definition recorded_doc (c : call) : option json :=
  match c with
  | Call e x =>
      match e in eff X return X -> option json with
      | ESpi sql args => fun a =>
          if String.eqb sql Synapse.RECORD_RUN_SQL || String.eqb sql Synapse.RECORD_STATUS_SQL then
            match args, a with [DJsonb doc], SpiDone _ _ => Some doc | _, _ => None end
          else None
      | _ => fun _ => None
      end x
  end.
Definition recorded (tr : list call) : list json := omap recorded_doc tr.

Lemma recorded_cons c tr :
  recorded (c :: tr) = match recorded_doc c with Some d => d :: recorded tr | None => recorded tr end.
Proof. done. Qed.

Lemma recorded_app l1 l2 : recorded (l1 ++ l2) = recorded l1 ++ recorded l2.
Proof. apply omap_app. Qed.

Definition audit_dispatches : list string := [Synapse.AUDIT_RUN_SQL; Synapse.AUDIT_STATUS_SQL].
Definition audit_inserts : list string := [Synapse.RECORD_RUN_SQL; Synapse.RECORD_STATUS_SQL].

(** The row [doc] was written, or the statement that was to write it failed
    softly and nothing was written. *)
Definition refused (tr : list call) : Prop :=
  exists (sql : string) (args : list datum) (e : string), sql ∈ audit_dispatches /\
    Call (ESpi sql args) (SpiErr e) ∈ tr.
Definition written (doc : json) (tr : list call) : Prop :=
  recorded tr = [doc] \/ (recorded tr = [] /\ refused tr).

(** The row of a run was written; or the very call that was to write it was
    refused, and if the run had an outcome the caller was warned. *)
Definition warned (tr : list call) : Prop := exists msg, Call (EWarning msg) tt ∈ tr.
Definition audited (outcome : result ExecutorOutcome RuntimeError) (doc : json) (tr : list call)
  : Prop :=
  recorded tr = [doc] \/
  (recorded tr = [] /\ refused tr /\ (is_ok outcome = true -> warned tr)).

Lemma written_after doc l1 l2 l3 :
  recorded l1 = [] -> recorded l3 = [] -> written doc l2 -> written doc (l1 ++ l2 ++ l3).
Proof.
  unfold written. rewrite !recorded_app. intros -> -> [->|[-> (sql & args & e & Hin & He)]]; [by left|].
  right. split; [done|]. exists sql, args, e. split; [done|]. set_solver.
Qed.

(** What the host does besides running an agent and auditing it. *)
Definition host_statements : list string :=
  [Synapse.CALLER_SQL; Synapse.DEPTH_SQL; Synapse.ENSURE_SQL; Synapse.PRELOAD_SQL;
   "SELECT synapse.config_llm_profiles()"; "SELECT synapse.config_embedding_profiles()";
   "SELECT synapse.config_agents()"; HARNESS_SQL; SECRETS_SQL].
Definition host_call (c : call) : Prop :=
  match c with
  | Call (ESpi sql _) _ => sql ∈ host_statements
  | Call EUuid _ | Call (EWarning _) _ => True
  | _ => False
  end.

Lemma host_call_doc c : host_call c -> recorded_doc c = None.
Proof.
  destruct c as [X e x]. destruct e; try done. simpl. intros Hc.
  repeat (apply elem_of_cons in Hc as [->|Hc]; [done|]). by apply elem_of_nil in Hc.
Qed.

Lemma host_call_recorded tr : Forall host_call tr -> recorded tr = [].
Proof.
  induction 1 as [|c tr Hc _ IH]; [done|].
  by rewrite recorded_cons, host_call_doc.
Qed.

Definition only_host {A} (p : prog A) : Prop := forall tr r, steps (guard p) tr r -> Forall host_call tr.

Lemma only_host_ret {A} (a : A) : only_host (mret a).
Proof. intros tr r [-> _]%steps_guard_ret. constructor. Qed.

Lemma only_host_bind {A B} (p : prog A) (f : A -> prog B) :
  only_host p -> (forall a, only_host (f a)) -> only_host (p ≫= f).
Proof.
  intros Hp Hf tr r [(tr1 & tr2 & a & -> & Hs1 & Hs2)|(msg & -> & Hs)]%steps_guard_bind.
  - apply Forall_app. split; [by eapply Hp|by eapply Hf].
  - by eapply Hp.
Qed.

Lemma only_host_spi sql args : sql ∈ host_statements -> only_host (spi sql args).
Proof. intros Hin tr r (a & -> & _)%steps_spi. by apply Forall_singleton. Qed.

Lemma only_host_get_one {A} (get : datum -> result (option A) string) sql args :
  sql ∈ host_statements -> only_host (spi_get_one get sql args).
Proof.
  intros Hin. apply only_host_bind; [by apply only_host_spi|]. intros a. apply only_host_ret.
Qed.

Lemma only_host_run sql args : sql ∈ host_statements -> only_host (spi_run sql args).
Proof.
  intros Hin. apply only_host_bind; [by apply only_host_spi|]. intros a. apply only_host_ret.
Qed.

Lemma only_host_try {A B E} (m : prog (result A E)) (k : A -> prog (result B E)) :
  only_host m -> (forall a, only_host (k a)) -> only_host (prog_try m k).
Proof.
  intros Hm Hk. apply only_host_bind; [done|]. intros [a|e]; [apply Hk|apply only_host_ret].
Qed.

Lemma only_host_config {A} (read : json -> option A) sql :
  sql ∈ host_statements -> only_host (config_json read sql).
Proof.
  intros Hin. apply only_host_bind; [by apply only_host_get_one|]. intros a. apply only_host_ret.
Qed.

Ltac host_sql := unfold host_statements; set_solver.

Lemma only_host_extras rows : only_host (load_all_extras rows).
Proof.
  induction rows as [|a rows IH]; [apply only_host_ret|]. cbn [load_all_extras].
  apply only_host_bind.
  { apply only_host_bind; [|intros; apply only_host_ret].
    apply only_host_get_one. host_sql. }
  intros [a'|e]; [|apply only_host_ret]. apply only_host_try; [done|].
  intros rest. apply only_host_ret.
Qed.

(** Building the runtime only reads the configuration. *)
Lemma only_host_build g : only_host (build_kernel_from_db features g).
Proof.
  apply only_host_bind; [|intros; apply only_host_ret].
  assert (Hsrc : rb_profile_source (kernel_builder features g) = Some (SpiProfileSource g)).
  { unfold kernel_builder. by destruct (fold_left _ _ _). }
  unfold build. rewrite Hsrc.
  apply only_host_try; [apply only_host_config; host_sql|]. intros llm.
  apply only_host_try; [apply only_host_config; host_sql|]. intros emb.
  apply only_host_try.
  { apply only_host_try; [apply only_host_config; host_sql|]. intros rows. apply only_host_extras. }
  intros ags. destruct (collect_secret_names _ _) as [|n names]; [apply only_host_ret|].
  apply only_host_try; [|intros; apply only_host_ret].
  apply only_host_bind; [apply only_host_get_one; host_sql|]. intros; apply only_host_ret.
Qed.

(** The same for functions of the extension. *)
Definition pg_host {A} (m : pg A) : Prop := forall b tr b' r,
  steps (m b) tr (b', r) -> Forall host_call tr.

Lemma pg_host_bind {A B} (m : pg A) (f : A -> pg B) :
  pg_host m -> (forall a, pg_host (f a)) -> pg_host (m ≫= f).
Proof.
  intros Hm Hf b tr b' r [(tr1 & tr2 & b1 & a & -> & Hs1 & Hs2)|(msg & -> & Hs)]%steps_pg_bind.
  - apply Forall_app. split; [by eapply Hm|by eapply Hf].
  - by eapply Hm.
Qed.

Lemma pg_host_lift {A} (p : prog A) : only_host p -> pg_host (lift p).
Proof. intros Hp b tr b' r [_ Hs]%steps_lift. by eapply Hp. Qed.

Lemma pg_host_ret {A} (a : A) : pg_host (mret a).
Proof. intros b tr b' r (-> & _)%steps_pg_ret. constructor. Qed.

Lemma pg_host_error {A} msg : pg_host (error msg : pg A).
Proof. intros b tr b' r (-> & _)%steps_error. constructor. Qed.

Lemma pg_host_get : pg_host get_backend.
Proof. intros b tr b' r (-> & _)%steps_get_backend. constructor. Qed.

Lemma pg_host_put b0 : pg_host (put_backend b0).
Proof. intros b tr b' r (-> & _)%steps_put_backend. constructor. Qed.

Hint Resolve pg_host_ret pg_host_error pg_host_get pg_host_put : synapse.

Lemma pg_host_kernel_handle : pg_host (kernel_handle features).
Proof.
  apply pg_host_bind; [auto with synapse|]. intros b.
  destruct (be_slot b) as [[rt|]|]; [auto with synapse| |auto with synapse].
  apply pg_host_bind; [apply pg_host_lift, only_host_build|].
  intros [rt|e]; [|auto with synapse]. apply pg_host_bind; auto with synapse.
Qed.

Lemma pg_host_ensure : pg_host (Synapse.ensure_kernel features).
Proof.
  apply pg_host_bind.
  { apply pg_host_bind; [auto with synapse|]. intros b.
    destruct (master_key (be_gucs b)); [|auto with synapse].
    apply pg_host_bind; [apply pg_host_lift, only_host_get_one; host_sql|]. intros x.
    destruct (from_option _ _ _); [auto with synapse|]. apply pg_host_lift.
    intros tr r (? & ? & -> & -> & ->). by repeat constructor. }
  intros _. apply pg_host_bind; [apply pg_host_kernel_handle|].
  intros [|]; auto with synapse.
Qed.

Lemma pg_host_spi_call sql args fn :
  sql ∈ host_statements -> pg_host fn -> pg_host (spi_call sql args fn).
Proof.
  intros Hin Hfn. apply pg_host_bind; [by apply pg_host_lift, only_host_run|].
  intros [|]; [|auto with synapse]. apply pg_host_bind; auto with synapse.
Qed.

(** ** Audit writes *)

(** The token names a run in progress on this backend. *)
Definition admitted (token : string) (b : Backend) : Prop :=
  exists t, parse_unsigned 16 U128_MAX token = Some t /\ t ∈ be_live b.

Lemma check_token_refuses token b :
  ~ admitted token b ->
  Synapse.check_audit_token token b = Ret (b, inr Synapse.AUDIT_REFUSED).
Proof.
  intros Hno. unfold Synapse.check_audit_token, mbind, pg_mbind, get_backend. cbn.
  destruct (parse_unsigned _ _ _) as [t|] eqn:Ep; [|done].
  unfold Audit.is_live. case_bool_decide as Hin; [|done]. destruct Hno. by exists t.
Qed.

Lemma check_token_admits token b :
  admitted token b -> Synapse.check_audit_token token b = Ret (b, inl tt).
Proof.
  intros (t & Ep & Hin). unfold Synapse.check_audit_token, mbind, pg_mbind, get_backend. cbn.
  rewrite Ep. unfold Audit.is_live. by rewrite bool_decide_eq_true_2.
Qed.

(** The text of a grant names it. *)
Lemma token_text_admitted grant b :
  grant ∈ be_live b -> 0 <= grant <= U128_MAX -> admitted (Synapse.token_text grant) b.
Proof.
  intros Hin Hr. exists grant. split; [|done].
  assert (E : 16 ^ Z.of_nat 32 = U128_MAX + 1) by reflexivity.
  replace U128_MAX with (16 ^ Z.of_nat 32 - 1) by lia. apply parse_fmt_hex; lia.
Qed.

Lemma steps_check_token token b tr b' r :
  steps (Synapse.check_audit_token token b) tr (b', r) ->
  tr = [] /\ b' = b /\ (r = inl tt \/ r = inr Synapse.AUDIT_REFUSED).
Proof.
  unfold Synapse.check_audit_token. intros Hs.
  apply steps_pg_bind in Hs as [(tr1 & tr2 & b1 & a & -> & Hs1 & Hs2)|(msg & -> & Hs1)]; [|by pg_steps].
  apply steps_get_backend in Hs1 as (-> & -> & [= ->]).
  destruct (parse_unsigned _ _ _) as [t|]; [|pg_steps; auto].
  destruct (Audit.is_live t _); pg_steps; auto.
Qed.

Lemma steps_spi_call sql args fn b tr b' l :
  steps (spi_call sql args fn b) tr (b', inl l) ->
  (exists e, l = Err e /\ tr = [Call (ESpi sql args) (SpiErr e)] /\ b' = b) \/
  (exists n rows tr', l = Ok tt /\ tr = Call (ESpi sql args) (SpiDone n rows) :: tr' /\
     steps (fn b) tr' (b', inl tt)).
Proof.
  unfold spi_call. intros Hs.
  apply steps_pg_bind in Hs as [(tr1 & tr2 & b1 & a & -> & Hs1 & Hs2)|(msg & [=] & _)].
  apply steps_lift in Hs1 as [-> (x & -> & Hx)%steps_spi_run].
  destruct x as [n rows|e|msg]; simpl in Hx; simplify_eq.
  - right. exists n, rows, tr2.
    apply steps_pg_bind in Hs2 as [(tr3 & tr4 & b2 & [] & -> & Hs3 & Hs4)|(msg & [=] & _)].
    apply steps_pg_ret in Hs4 as (-> & -> & [= ->]). by rewrite app_nil_r.
  - left. exists e. by apply steps_pg_ret in Hs2 as (-> & -> & [= ->]).
Qed.

(** A write through either audit function, presented with its token. *)
Lemma audited_call dispatch args sql label doc token b tr b' l :
  dispatch ∈ audit_dispatches ->
  sql ∈ audit_inserts ->
  steps (spi_call dispatch args
           (_ ← Synapse.check_audit_token token;
            r ← lift (spi_run sql [DJsonb doc]); or_error label r) b) tr (b', inl l) ->
  b' = b /\ written doc tr /\ (l = Ok tt -> recorded tr = [doc]).
Proof.
  intros Hd Hsql Hs. assert (Hq : dispatch <> Synapse.RECORD_RUN_SQL /\ dispatch <> Synapse.RECORD_STATUS_SQL).
  { unfold audit_dispatches in Hd. set_solver. }
  assert (Hrec : forall a, recorded_doc (Call (ESpi dispatch args) a) = None).
  { intros a. simpl. destruct Hq as [Hq1 Hq2]. by rewrite !(proj2 (String.eqb_neq _ _)). }
  apply steps_spi_call in Hs as [(e & -> & -> & ->)|(n & rows & tr' & -> & -> & Hs)].
  { split; [done|]. split; [|done]. right. split; [by rewrite recorded_cons, Hrec|].
    exists dispatch, args, e. split; [done|left]. }
  apply steps_pg_bind in Hs as [(tr1 & tr2 & b1 & a & -> & Hs1 & Hs2)|(msg & [=] & _)].
  apply steps_check_token in Hs1 as (-> & -> & _).
  apply steps_pg_bind in Hs2 as [(tr3 & tr4 & b2 & x & -> & Hs3 & Hs4)|(msg & [=] & _)].
  apply steps_lift in Hs3 as [-> (y & -> & Hy)%steps_spi_run].
  destruct y as [m rws|e|msg]; simpl in Hy; simplify_eq; simpl in Hs4;
    [|by apply steps_error in Hs4 as (_ & _ & [=])].
  apply steps_pg_ret in Hs4 as (-> & -> & _). split; [done|].
  enough (Hdoc : recorded [Call (ESpi dispatch args) (SpiDone n rows);
                           Call (ESpi sql [DJsonb doc]) (SpiDone m rws)] = [doc]).
  { split; [by left|done]. }
  rewrite recorded_cons, Hrec. simpl.
  unfold audit_inserts in Hsql. repeat (apply elem_of_cons in Hsql as [->|Hsql]; [done|]).
  by apply elem_of_nil in Hsql.
Qed.

Lemma record_status_written id agent i o st c g b tr b' l :
  steps (Synapse.record_status id agent i o st c g b) tr (b', inl l) ->
  b' = b /\ written (Synapse.status_doc id agent i o st c) tr.
Proof. intros Hs. apply audited_call in Hs as (-> & Hw & _); [done|set_solver..]. Qed.

Lemma log_failed_written agent i e c g b tr b' :
  steps (Synapse.log_failed_execution agent i e c g b) tr (b', inl tt) ->
  exists id, written (Synapse.status_doc id agent (Some i) (Some e) "errored" c) tr.
Proof.
  unfold Synapse.log_failed_execution. intros Hs.
  apply steps_pg_bind in Hs as [(tr1 & tr2 & b1 & id & -> & Hs1 & Hs2)|(msg & [=] & _)].
  apply steps_lift in Hs1 as [-> Hs1]. simpl in Hs1.
  destruct Hs1 as (u & tr' & -> & -> & [= <-]).
  apply steps_pg_bind in Hs2 as [(tr3 & tr4 & b2 & l & -> & Hs3 & Hs4)|(msg & [=] & _)].
  apply record_status_written in Hs3 as [-> Hw]. apply steps_pg_ret in Hs4 as (-> & _ & _).
  exists (fmt_uuid id). by apply (written_after _ [_] tr3 []).
Qed.

Lemma log_written o agent i c tl s g b tr b' l :
  (forall u, fmt_uuid u <> "") ->
  steps (Synapse.log_execution o agent i c tl s g b) tr (b', inl l) ->
  exists id, written (Synapse.run_doc id o agent i c tl s) tr /\
    (l = Ok tt -> recorded tr = [Synapse.run_doc id o agent i c tl s]).
Proof.
  intros Hu Hs. unfold Synapse.log_execution in Hs.
  apply steps_pg_bind in Hs as [(tr1 & tr2 & b1 & id & -> & Hs1 & Hs2)|(msg & [=] & _)].
  assert (recorded tr1 = [] /\ is_empty id = false) as [Hr He].
  { destruct (Synapse.first_execution_id o) as [u|].
    - apply steps_pg_ret in Hs1 as (-> & -> & [= ->]). split; [done|]. specialize (Hu u).
      by destruct (fmt_uuid u).
    - apply steps_pg_bind in Hs1 as [(tr3 & tr4 & b2 & u & -> & Hs3 & Hs4)|(msg & [=] & _)].
      apply steps_lift in Hs3 as [-> (u' & ? & -> & -> & [= <-])].
      apply steps_pg_ret in Hs4 as (-> & -> & [= ->]). split; [done|]. specialize (Hu u).
      by destruct (fmt_uuid u). }
  rewrite He in Hs2. exists id. apply audited_call in Hs2 as (_ & Hw & Hok); [|set_solver..].
  split; [rewrite <- (app_nil_r tr2); by apply written_after|].
  intros El. by rewrite recorded_app, Hr, Hok.
Qed.

Lemma resolve_trace_quiet agent b tr b' tl :
  steps (Synapse.resolve_trace_level agent b) tr (b', inl tl) -> recorded tr = [].
Proof.
  unfold Synapse.resolve_trace_level. intros Hs.
  apply steps_pg_bind in Hs as [(tr1 & tr2 & b1 & x & -> & Hs1 & Hs2)|(msg & [=] & _)].
  apply steps_lift in Hs1 as [-> (a & -> & _)%steps_spi].
  by apply steps_pg_ret in Hs2 as (-> & _ & _).
Qed.

(** ** The parts of [execute] *)

(** The audit row of a run, and the envelope of its caller. *)
Inductive audit_row (agent input : string) (caller : option string)
  : result ExecutorOutcome RuntimeError -> json -> Prop :=
| row_of_run id o tl :
    audit_row agent input caller (Ok o) (Synapse.run_doc id o agent input caller tl None)
| row_of_failure id e :
    audit_row agent input caller (Err e)
      (Synapse.status_doc id agent (Some input) (Some (RuntimeError_to_string fmt_f64 e)) "errored"
         caller).

Definition envelope_of (outcome : result ExecutorOutcome RuntimeError) : json :=
  match outcome with
  | Ok o => Synapse.success_envelope o
  | Err e => Synapse.error_envelope (RuntimeError_to_string fmt_f64 e)
  end.

Lemma conclude_written agent i c g outcome b tr b' env :
  (forall u, fmt_uuid u <> "") ->
  steps (Synapse.conclude agent i c g outcome b) tr (b', inl env) ->
  env = envelope_of outcome /\ exists doc, audit_row agent i c outcome doc /\ audited outcome doc tr.
Proof.
  intros Hu Hs. destruct outcome as [o|e]; unfold Synapse.conclude in Hs.
  - apply steps_pg_bind in Hs as [(tr1 & tr2 & b1 & tl & -> & Hs1%resolve_trace_quiet & Hs2)|(msg & [=] & _)].
    apply steps_pg_bind in Hs2 as [(tr3 & tr4 & b2 & l & -> & Hs3 & Hs4)|(msg & [=] & _)].
    apply log_written in Hs3 as (id & Hw & Hok); [|done].
    apply steps_pg_bind in Hs4 as [(tr5 & tr6 & b3 & [] & -> & Hs5 & Hs6)|(msg & [=] & _)].
    apply steps_pg_ret in Hs6 as (-> & _ & [= ->]). split; [done|].
    exists (Synapse.run_doc id o agent i c tl None). split; [constructor|].
    rewrite app_nil_r. destruct l as [[]|e].
    + apply steps_pg_ret in Hs5 as (-> & _). left. by rewrite app_nil_r, recorded_app, Hs1, Hok.
    + apply steps_lift in Hs5 as [_ (x & tr' & -> & -> & _)].
      destruct (written_after _ tr1 tr3 [Call (EWarning ("could not record execution for agent "
        +:+ agent +:+ ": " +:+ e)) x] Hs1 eq_refl Hw) as [Hr|[Hr Hf]]; [by left|right].
      split; [done|]. split; [done|]. intros _. destruct x. eexists.
      apply elem_of_app. right. apply elem_of_app. right. by left.
  - apply steps_pg_bind in Hs as [(tr1 & tr2 & b1 & [] & -> & Hs1 & Hs2)|(msg & [=] & _)].
    apply log_failed_written in Hs1 as [id Hw]. apply steps_pg_ret in Hs2 as (-> & _ & [= ->]).
    split; [done|]. eexists. split; [econstructor|]. rewrite app_nil_r.
    destruct Hw as [|[]]; [by left|by right].
Qed.

Lemma run_agent_spec k inline agent i c g b tr b' env :
  (forall u, fmt_uuid u <> "") ->
  steps (Synapse.run_agent k inline agent i c g b) tr (b', inl env) ->
  (tr = [] /\ exists msg, env = Synapse.error_envelope msg) \/
  (exists ran after outcome doc, tr = ran ++ after /\
     steps (guard (Synapse.kernel_run (be_gucs b) inline k agent i c)) ran (inl outcome) /\
     env = envelope_of outcome /\ audit_row agent i c outcome doc /\ audited outcome doc after).
Proof.
  intros Hu Hs. unfold Synapse.run_agent in Hs.
  destruct (if inline then _ else _) as [refusal|] eqn:Er.
  - left. apply steps_pg_ret in Hs as (-> & _ & [= ->]). split; [done|].
    destruct inline; [|done]. unfold Synapse.egress_refusal in Er.
    destruct (List.find _ _) as [a|]; [|done]. destruct (List.find _ _); [|done].
    injection Er as <-. by eexists.
  - right.
    apply steps_pg_bind in Hs as [(tr1 & tr2 & b1 & b0 & -> & Hs1 & Hs2)|(msg & [=] & _)].
    apply steps_get_backend in Hs1 as (-> & -> & [= ->]).
    apply steps_pg_bind in Hs2 as [(tr3 & tr4 & b2 & outcome & -> & Hs3 & Hs4)|(msg & [=] & _)].
    apply steps_lift in Hs3 as [-> Hrun].
    apply conclude_written in Hs4 as [-> (doc & Hrow & Hw)]; [|done].
    by exists tr3, tr4, outcome, doc.
Qed.

Lemma pg_host_caller : pg_host Synapse.caller_role.
Proof.
  apply pg_host_bind; [apply pg_host_lift, only_host_get_one; host_sql|auto with synapse].
Qed.

Lemma pg_host_inline : pg_host Synapse.inline_trigger.
Proof.
  apply pg_host_bind; [apply pg_host_lift, only_host_get_one; host_sql|auto with synapse].
Qed.

Lemma keeps_rest_inline : keeps_rest Synapse.inline_trigger.
Proof. unfold Synapse.inline_trigger. keeps. Qed.
Lemma keeps_rest_caller : keeps_rest Synapse.caller_role.
Proof. unfold Synapse.caller_role. keeps. Qed.

(** An execution of [execute] that returns: it either stops before the run,
    with an error envelope, or runs the agent once and audits the run. *)
Lemma execute_spec agent input b tr b' env :
  (forall u, fmt_uuid u <> "") ->
  steps (Synapse.execute features agent input b) tr (b', inl env) ->
  (Forall host_call tr /\ exists msg, env = Synapse.error_envelope msg) \/
  (exists before ran after k inline caller outcome doc,
     tr = before ++ ran ++ after /\ Forall host_call before /\
     steps (guard (Synapse.kernel_run (be_gucs b) inline k agent input caller)) ran (inl outcome) /\
     env = envelope_of outcome /\ audit_row agent input caller outcome doc /\ audited outcome doc after).
Proof.
  intros Hu Hs. unfold Synapse.execute in Hs.
  apply steps_pg_bind in Hs as [(tr1 & tr2 & b1 & c & -> & Hs1 & Hs2)|(msg & [=] & _)].
  pose proof (pg_host_caller _ _ _ _ Hs1) as Hh1. apply keeps_rest_caller in Hs1.
  apply steps_with_grant in Hs2 as (t & tr3 & b2 & -> & Hs2 & ->).
  apply steps_pg_bind in Hs2 as [(tr4 & tr5 & b3 & inl_ & -> & Hs2 & Hs3)|(msg & [=] & _)].
  pose proof (pg_host_inline _ _ _ _ Hs2) as Hh2. apply keeps_rest_inline in Hs2.
  apply steps_pg_bind in Hs3 as [(tr6 & tr7 & b4 & ens & -> & Hs3 & Hs4)|(msg & [=] & _)].
  assert (Hh3 : Forall host_call tr6).
  { revert Hs3. apply pg_host_spi_call; [host_sql|apply pg_host_ensure]. }
  apply keeps_rest_spi_call in Hs3; [|apply keeps_rest_ensure].
  assert (Hpre : Forall host_call (tr1 ++ Call EUuid t :: tr4 ++ tr6)).
  { rewrite Forall_app, Forall_cons, Forall_app. done. }
  destruct ens as [[]|e].
  2:{ left. apply steps_pg_ret in Hs4 as (-> & _ & [= ->]). rewrite app_nil_r.
      split; [done|by eexists]. }
  apply steps_pg_bind in Hs4 as [(tr8 & tr9 & b5 & k & -> & Hs4 & Hs5)|(msg & [=] & _)].
  pose proof (pg_host_kernel_handle _ _ _ _ Hs4) as Hh4. apply keeps_rest_kernel_handle in Hs4.
  assert (Hpre' : Forall host_call (tr1 ++ Call EUuid t :: tr4 ++ tr6 ++ tr8)).
  { rewrite !Forall_app, !Forall_cons, !Forall_app in *. tauto. }
  destruct k as [k|e].
  2:{ left. apply steps_pg_ret in Hs5 as (-> & _ & [= ->]). rewrite app_nil_r.
      split; [done|by eexists]. }
  apply run_agent_spec in Hs5 as [[-> Hm]|(ran & after & o & doc & -> & Hrun & -> & Hrow & Hw)]; [| |done].
  - left. rewrite app_nil_r. done.
  - right. exists (tr1 ++ Call EUuid t :: tr4 ++ tr6 ++ tr8), ran, after, k, inl_, c, o, doc.
    split; [by rewrite <- !app_assoc; simpl; rewrite <- !app_assoc|]. split; [done|].
    assert (be_gucs b5 = be_gucs b) as <-; [|done].
    rewrite Hs3, Hs2 in Hs4. injection Hs4 as -> _. by injection Hs1.
Qed.
End spec.

#[export] Hint Resolve keeps_rest_inline keeps_rest_caller keeps_rest_kernel_handle keeps_rest_spi_call keeps_rest_ensure
  keeps_rest_record_status keeps_rest_conclude keeps_rest_run_agent keeps_rest_conclude_async : synapse.
#[export] Hint Resolve pg_host_ret pg_host_error pg_host_get pg_host_put : synapse.
