(* ===== verification/PgAdmin.v ===== *)
(** * Configuration functions of the extension ([sql_functions.rs])

    The functions that write the configuration tables.  Each sends one
    statement, raises when it fails, and drops the cached runtime of its
    backend.  The always-on text of an agent is checked against its cap by
    the functions of the harness components. *)

From S2P Require Import Prelude.
From S2P Require Import RustStr.
From S2P Require Import F64.
From S2P Require Import Json.
From S2P Require Import NumText.
From S2P Require Import Errors.
From S2P Require Import Types.
From S2P Require Import Effects.
From S2P Require Import HarnessText.
From S2P Require Import Traits.
From S2P Require Import LoopHarness.
From S2P Require Import Runtime.
From S2P Require Import Wire.
From S2P Require Import ToolInput.
From S2P Require Import ToolsDelegate.
From S2P Require Import Rows.
From S2P Require Import PgGuc.
From S2P Require Import PgSpi.
From S2P Require Import PgHost.
From S2P Require Import PgExecute.

(** [AgentRow::default()] with a name. *)
Definition named_agent (name : string) : AgentRow :=
  mkAgentRow name "" None "" None None None None [] 0 0 None None Harness_default.

Module Admin.

(** ** Statements *)

Definition AGENT_UPSERT_SQL : string :=
  "INSERT INTO synapse.agents (name, system_prompt, executor_name, llm_profile_main, tools, max_iterations, timeout_ms) VALUES ($1,$2,$3,$4,$5,$6,$7) ON CONFLICT (name) DO UPDATE SET system_prompt = EXCLUDED.system_prompt, executor_name = EXCLUDED.executor_name, llm_profile_main = EXCLUDED.llm_profile_main, tools = EXCLUDED.tools, max_iterations = EXCLUDED.max_iterations, timeout_ms = EXCLUDED.timeout_ms, updated_at = now()".
Definition MODEL_TIER_SQL : string :=
  "UPDATE synapse.agents SET model_tier = $1, updated_at = now() WHERE name = $2".
Definition TRACE_LEVEL_SQL : string :=
  "UPDATE synapse.agents SET trace_level = $1, updated_at = now() WHERE name = $2".
Definition AGENT_DELETE_SQL : string := "DELETE FROM synapse.agents WHERE name = $1".
Definition LLM_UPSERT_SQL : string :=
  "INSERT INTO synapse.llm_profiles (name, provider, model, base_url, api_key_secret, params) VALUES ($1,$2,$3,$4,$5,$6) ON CONFLICT (name) DO UPDATE SET provider=EXCLUDED.provider, model=EXCLUDED.model, base_url=EXCLUDED.base_url, api_key_secret=EXCLUDED.api_key_secret, params=EXCLUDED.params, updated_at=now()".
Definition SECRET_ENCRYPT_SQL : string :=
  "INSERT INTO synapse.secrets (name, value, is_encrypted) VALUES ($1, armor(pgp_sym_encrypt($2, $3)), true) ON CONFLICT (name) DO UPDATE SET value = EXCLUDED.value, is_encrypted = true, updated_at = now()".
Definition SECRET_UPSERT_SQL : string :=
  "INSERT INTO synapse.secrets (name, value, is_encrypted) VALUES ($1,$2,false) ON CONFLICT (name) DO UPDATE SET value=EXCLUDED.value, is_encrypted=false, updated_at=now()".
Definition EMBEDDING_UPSERT_SQL : string :=
  "INSERT INTO synapse.embedding_profiles (name, provider, model, dimension, base_url, params) VALUES ($1,$2,$3,$4,$5,$6) ON CONFLICT (name) DO UPDATE SET provider=EXCLUDED.provider, model=EXCLUDED.model, dimension=EXCLUDED.dimension, base_url=EXCLUDED.base_url, params=EXCLUDED.params, updated_at=now()".
Definition TOOL_UPSERT_SQL : string :=
  "INSERT INTO synapse.tools (name, description, schema_json, kind, config) VALUES ($1,$2,$3,$4,$5) ON CONFLICT (name) DO UPDATE SET description=EXCLUDED.description, schema_json=EXCLUDED.schema_json, kind=EXCLUDED.kind, config=EXCLUDED.config".
Definition LLM_DELETE_SQL : string := "DELETE FROM synapse.llm_profiles WHERE name = $1".
Definition EMBEDDING_DELETE_SQL : string :=
  "DELETE FROM synapse.embedding_profiles WHERE name = $1".
Definition SECRET_DELETE_SQL : string := "DELETE FROM synapse.secrets WHERE name = $1".
Definition ALWAYS_ON_SQL : string :=
  "SELECT system_prompt, soul, guardrails, memory FROM synapse.agents WHERE name = $1".
Definition SKILL_UPSERT_SQL : string :=
  "INSERT INTO synapse.skills (agent, name, description, body) VALUES ($1, $2, $3, $4) ON CONFLICT (agent, name) DO UPDATE SET description = EXCLUDED.description, body = EXCLUDED.body, updated_at = now()".
Definition SKILL_DELETE_SQL : string :=
  "DELETE FROM synapse.skills WHERE agent = $1 AND name = $2".
Definition HINT_INSERT_SQL : string :=
  "INSERT INTO synapse.tool_hints (agent, tool_name, error_pattern, hint) VALUES ($1, $2, $3, $4) RETURNING hint_id".
Definition LESSON_INSERT_SQL : string :=
  "INSERT INTO synapse.lessons (agent, cue, lesson, evidence, confidence, source_execution) VALUES ($1, $2, $3, $4, $5, $6) RETURNING lesson_id".
Definition LESSON_RETIRE_SQL : string :=
  "UPDATE synapse.lessons SET status = 'retired', superseded_by = $1 WHERE lesson_id = $2".
Definition HARNESS_COLUMNS_SQL : string :=
  "SELECT system_prompt, soul, guardrails, memory, critique, tools, executor_name FROM synapse.agents WHERE name = $1".

Definition set_component_sql (column : string) : string :=
  "UPDATE synapse.agents SET " +:+ column +:+ " = $1, updated_at = now() WHERE name = $2".

Definition purge_sql (days : Z) : string :=
  "DELETE FROM synapse.executions WHERE started_at < now() - interval '" +:+ show days +:+ " days'".
Definition purge_agent_sql (days : Z) : string := purge_sql days +:+ " AND agent_name = $1".

Definition text_or_null (s : option string) : datum :=
  match s with Some s => DText s | None => DNull TText end.

Section admin.
Context `{UnicodeTables, Printers, WireLib, PgLib}.

(** [r.unwrap()] *)
Definition unwrap {A} (r : result A string) : pg A :=
  match r with
  | Ok a => mret a
  | Err e => error ("called `Result::unwrap()` on an `Err` value: " +:+ debug_error e)
  end.

(** A write whose failure panics, and the cache dropped. *)
Definition write_config (sql : string) (args : list datum) : pg unit :=
  r ← lift (spi_run sql args);
  _ ← unwrap r;
  rebuild_kernel.

(** ** Agents, profiles, secrets and tools *)

Definition agent_create (name system_prompt executor_name : string)
    (llm_profile_main : option string) (tools : list string) (max_iterations timeout_ms : Z)
  : pg unit :=
  write_config AGENT_UPSERT_SQL
    [DText name; DText system_prompt; DText executor_name; text_or_null llm_profile_main;
     DTextArray tools; DInt4 max_iterations; DInt8 timeout_ms].

Definition agent_set_model_tier (name tier : string) : pg unit :=
  if String.eqb tier "small" || String.eqb tier "large" then
    r ← lift (spi_run MODEL_TIER_SQL [DText tier; DText name]);
    _ ← or_error "agent_set_model_tier: " r;
    rebuild_kernel
  else error ("invalid model tier '" +:+ tier +:+ "'; use 'small' or 'large'").

Definition TRACE_LEVELS : list string := ["off"; "error"; "info"; "debug"; "full"].

Definition agent_set_trace_level (name : string) (level : option string) : pg unit :=
  match level with
  | Some l =>
      if existsb (String.eqb l) TRACE_LEVELS
      then write_config TRACE_LEVEL_SQL [text_or_null level; DText name]
      else error ("invalid trace level '" +:+ l +:+ "'; use one of: off, error, info, debug, full")
  | None => write_config TRACE_LEVEL_SQL [text_or_null level; DText name]
  end.

(** [.map(|t| t.len() as i64).unwrap_or(0)] *)
Definition processed_or_zero {A} (r : result (Z * A) string) : Z :=
  match r with Ok (n, _) => n | Err _ => 0 end.

Definition purge_traces (older_than_days : Z) (agent_filter : option string) : pg Z :=
  r ← lift (match agent_filter with
            | Some a => spi (purge_agent_sql older_than_days) [DText a]
            | None => spi (purge_sql older_than_days) []
            end);
  mret (processed_or_zero r).

Definition agent_drop (name : string) : pg unit := write_config AGENT_DELETE_SQL [DText name].

Definition llm_profile_set (name provider model : string) (base_url api_key_secret : option string)
    (params : json) : pg unit :=
  write_config LLM_UPSERT_SQL
    [DText name; DText provider; DText model; text_or_null base_url; text_or_null api_key_secret;
     DJsonb params].

Definition secret_set (name value : string) : pg unit :=
  b ← get_backend;
  match master_key (be_gucs b) with
  | Some key =>
      r ← lift (spi_run SECRET_ENCRYPT_SQL [DText name; DText value; DText key]);
      _ ← or_error "could not encrypt secret: " r;
      rebuild_kernel
  | None => write_config SECRET_UPSERT_SQL [DText name; DText value]
  end.

Definition embedding_profile_set (name provider model : string) (dimension : Z)
    (base_url : option string) (params : json) : pg unit :=
  write_config EMBEDDING_UPSERT_SQL
    [DText name; DText provider; DText model; DInt4 dimension; text_or_null base_url;
     DJsonb params].

Definition tool_register (name description : string) (schema_json : json) (kind : string)
    (config : json) : pg unit :=
  write_config TOOL_UPSERT_SQL
    [DText name; DText description; DJsonb schema_json; DText kind; DJsonb config].

Definition llm_profile_drop (name : string) : pg unit := write_config LLM_DELETE_SQL [DText name].
Definition embedding_profile_drop (name : string) : pg unit :=
  write_config EMBEDDING_DELETE_SQL [DText name].
Definition secret_drop (name : string) : pg unit := write_config SECRET_DELETE_SQL [DText name].

(** ** Harness components *)

Definition set_system_prompt (s : string) (a : AgentRow) : AgentRow :=
  mkAgentRow (ar_name a) s (ar_soul a) (ar_executor_name a) (ar_llm_profile_main a)
    (ar_llm_profile_small a) (ar_llm_profile_judge a) (ar_embedding_profile a) (ar_tools a)
    (ar_max_iterations a) (ar_timeout_ms a) (ar_cost_cap_usd a) (ar_trace_level a)
    (ar_components a).
Definition set_soul (s : option string) (a : AgentRow) : AgentRow :=
  mkAgentRow (ar_name a) (ar_system_prompt a) s (ar_executor_name a) (ar_llm_profile_main a)
    (ar_llm_profile_small a) (ar_llm_profile_judge a) (ar_embedding_profile a) (ar_tools a)
    (ar_max_iterations a) (ar_timeout_ms a) (ar_cost_cap_usd a) (ar_trace_level a)
    (ar_components a).
Definition set_guardrails (s : option string) (a : AgentRow) : AgentRow :=
  let h := ar_components a in
  set_components (mkHarness s (memory h) (critique h) (skills h) (tool_hints h)) a.
Definition set_memory (s : option string) (a : AgentRow) : AgentRow :=
  let h := ar_components a in
  set_components (mkHarness (guardrails h) s (critique h) (skills h) (tool_hints h)) a.
Definition set_critique (s : option string) (a : AgentRow) : AgentRow :=
  let h := ar_components a in
  set_components (mkHarness (guardrails h) (memory h) s (skills h) (tool_hints h)) a.

(** The row as [always_on_after] reads it. *)
Definition always_on_row (agent : string) (row : list datum) : AgentRow :=
  set_memory (ok_flatten (column get_text 4 row))
    (set_guardrails (ok_flatten (column get_text 3 row))
      (set_soul (ok_flatten (column get_text 2 row))
        (set_system_prompt (default "" (ok_flatten (column get_text 1 row)))
          (named_agent agent)))).

(** A component replaced; any other name changes nothing. *)
Definition with_component (component : option string) (value : option string) (a : AgentRow)
  : AgentRow :=
  match component with
  | Some c =>
      if String.eqb c "system_prompt" then set_system_prompt (default "" value) a
      else if String.eqb c "soul" then set_soul value a
      else if String.eqb c "guardrails" then set_guardrails value a
      else if String.eqb c "memory" then set_memory value a
      else a
  | None => a
  end.

Definition agent_total (a : AgentRow) : Z :=
  total_always_on_chars (ar_components a) (ar_system_prompt a) (ar_soul a).

Definition no_agent (agent : string) : string := "agent '" +:+ agent +:+ "' does not exist".

Definition always_on_after (agent : string) (component value : option string)
  : prog (result Z string) :=
  r ← spi ALWAYS_ON_SQL [DText agent];
  match r with
  | Err e => mret (Err e)
  | Ok (_, []) => mret (Err (no_agent agent))
  | Ok (_, row :: _) =>
      a ← load_harness_extras (with_component component value (always_on_row agent row));
      mret (match a with Ok a => Ok (agent_total a) | Err e => Err e end)
  end.

Definition cap_message (agent : string) (total : Z) : string :=
  "always-on text for agent '" +:+ agent +:+ "' would be " +:+ show total
    +:+ " chars; the cap is " +:+ show ALWAYS_ON_MAX_CHARS
    +:+ ". Every always-on character is paid for on every turn: move procedure into a skill (synapse.skill_set) or cut prose.".

Definition enforce_always_on_cap (agent : string) (total : Z) : pg unit :=
  if ALWAYS_ON_MAX_CHARS <? total then error (cap_message agent total) else mret tt.

(** The check after a write. *)
Definition check_always_on (agent : string) (component value : option string) : pg unit :=
  t ← lift (always_on_after agent component value);
  match t with
  | Ok total => enforce_always_on_cap agent total
  | Err e => error e
  end.

Definition COMPONENTS : list string :=
  ["system_prompt"; "soul"; "guardrails"; "memory"; "critique"].

Definition agent_set_component (agent component : string) (value : option string) : pg unit :=
  if existsb (String.eqb component) COMPONENTS then
    if String.eqb component "system_prompt" && from_option is_blank true value
    then error "system_prompt must not be empty"
    else
      _ ← (if String.eqb component "critique" then mret tt
           else check_always_on agent (Some component) value);
      r ← lift (spi (set_component_sql component) [text_or_null value; DText agent]);
      if processed_or_zero r =? 0 then error (no_agent agent) else rebuild_kernel
  else
    error ("unknown component '" +:+ component
             +:+ "'; use one of: system_prompt, soul, guardrails, memory, critique").

Definition skill_set (agent name description body : string) : pg unit :=
  if is_blank description || is_blank body
  then error "skill description and body must not be empty"
  else
    r ← lift (spi_run SKILL_UPSERT_SQL [DText agent; DText name; DText description; DText body]);
    match r with
    | Err e => error ("skill_set failed: " +:+ e)
    | Ok _ =>
        t ← lift (always_on_after agent None None);
        match t with
        | Err e => error e
        | Ok total =>
            _ ← (if ALWAYS_ON_MAX_CHARS <? total then
                   _ ← lift (spi_run SKILL_DELETE_SQL [DText agent; DText name]);
                   enforce_always_on_cap agent total
                 else mret tt);
            rebuild_kernel
        end
    end.

Definition skill_drop (agent name : string) : pg unit :=
  _ ← lift (spi_run SKILL_DELETE_SQL [DText agent; DText name]);
  rebuild_kernel.

(** The id an insert returns. *)
Definition returned_id (label : string) (r : result (option Z) string) : pg Z :=
  match r with
  | Ok (Some i) => mret i
  | Ok None => error (label +:+ " returned no id")
  | Err e => error (label +:+ " failed: " +:+ e)
  end.

Definition tool_hint_add (agent tool_name : option string) (error_pattern hint : string) : pg Z :=
  if is_blank error_pattern || is_blank hint
  then error "error_pattern and hint must not be empty"
  else
    r ← lift (spi_get_one get_i64 HINT_INSERT_SQL
                [text_or_null agent; text_or_null tool_name; DText error_pattern; DText hint]);
    i ← returned_id "tool_hint_add" r;
    _ ← rebuild_kernel;
    mret i.

Definition lesson_add (agent cue lesson evidence : string) (confidence : option string)
    (source_execution : option Uuid) : pg Z :=
  if is_blank cue || is_blank lesson || is_blank evidence
  then error
    "cue, lesson and evidence must all be non-empty; a lesson without evidence is a guess"
  else
    r ← lift (spi_get_one get_i64 LESSON_INSERT_SQL
                [DText agent; DText cue; DText lesson; DText evidence; text_or_null confidence;
                 match source_execution with Some u => DUuid u | None => DNull TUuid end]);
    i ← returned_id "lesson_add" r;
    _ ← check_always_on agent None None;
    _ ← rebuild_kernel;
    mret i.

Definition lesson_retire (lesson_id : Z) (superseded_by : option Z) : pg unit :=
  r ← lift (spi LESSON_RETIRE_SQL
              [match superseded_by with Some s => DInt8 s | None => DNull TInt8 end;
               DInt8 lesson_id]);
  if processed_or_zero r =? 0
  then error ("lesson " +:+ show lesson_id +:+ " does not exist")
  else rebuild_kernel.

(** ** What the tuner reads *)

Definition harness_row (agent : string) (row : list datum) : AgentRow :=
  let a := always_on_row agent row in
  set_critique (ok_flatten (column get_text 5 row))
    (mkAgentRow (ar_name a) (ar_system_prompt a) (ar_soul a)
       (default "" (ok_flatten (column get_text 7 row)))
       (ar_llm_profile_main a) (ar_llm_profile_small a) (ar_llm_profile_judge a)
       (ar_embedding_profile a) (default [] (ok_flatten (column get_text_array 6 row)))
       (ar_max_iterations a) (ar_timeout_ms a) (ar_cost_cap_usd a) (ar_trace_level a)
       (ar_components a)).

Definition harness_doc (a : AgentRow) (raw_memory : option string) : json :=
  let h := ar_components a in
  json_object
    [("agent", JString (ar_name a)); ("executor_name", JString (ar_executor_name a));
     ("tools", JArray (map JString (ar_tools a))); ("system_prompt", JString (ar_system_prompt a));
     ("soul", json_option JString (ar_soul a)); ("guardrails", json_option JString (guardrails h));
     ("memory", json_option JString raw_memory);
     ("memory_with_lessons", json_option JString (memory h));
     ("critique", json_option JString (critique h));
     ("skills", JArray (map skill_to_json (skills h)));
     ("tool_hints", JArray (map tool_hint_to_json (tool_hints h)));
     ("always_on_block", json_option JString (always_on_block h));
     ("always_on_chars", json_u64 (agent_total a));
     ("always_on_cap", json_u64 ALWAYS_ON_MAX_CHARS)].

Definition agent_harness (agent : string) : pg json :=
  r ← lift (spi HARNESS_COLUMNS_SQL [DText agent]);
  match r with
  | Err e => mret (json_object [("error", JString e)])
  | Ok (_, []) => mret (json_object [("error", JString (no_agent agent))])
  | Ok (_, row :: _) =>
      let a := harness_row agent row in
      ex ← lift (load_harness_extras a);
      mret (match ex with
            | Ok a' => harness_doc a' (memory (ar_components a))
            | Err e => json_object [("error", JString e)]
            end)
  end.
End admin.
End Admin.
