(* ===== verification/PgQueue.v ===== *)
(** * The job queue and the triggers that feed it ([sql_functions.rs], [worker.rs])

    Enqueueing a job, draining the queue in one transaction, the ticks of the
    background worker, and the statements that attach an agent to a table.

    The worker's loop is given by its tick: [wait_latch], the process and its
    signals are Postgres'. *)

From S2P Require Import Prelude.
From S2P Require Import RustStr.
From S2P Require Import F64.
From S2P Require Import Json.
From S2P Require Import Errors.
From S2P Require Import Types.
From S2P Require Import NumText.
From S2P Require Import Effects.
From S2P Require Import HarnessText.
From S2P Require Import Traits.
From S2P Require Import LoopHarness.
From S2P Require Import Runtime.
From S2P Require Import Builder.
From S2P Require Import StrSlice.
From S2P Require Import Wire.
From S2P Require Import ToolInput.
From S2P Require Import ToolsDelegate.
From S2P Require Import PgGuc.
From S2P Require Import PgSpi.
From S2P Require Import PgHost.
From S2P Require Import PgExecute.
From S2P Require Import PgAdmin.

Module Queue.

Definition ENQUEUE_SQL : string :=
  "INSERT INTO synapse.agent_queue (job_id, agent, input, source) VALUES ($1::uuid, $2, $3, $4)".
Definition RUNNING_SQL : string :=
  "SELECT count(*) FROM synapse.agent_queue WHERE status = 'running'".
Definition CLAIM_SQL : string :=
  "WITH claimed AS ( UPDATE synapse.agent_queue SET status='running', started_at=now() WHERE job_id IN ( SELECT job_id FROM synapse.agent_queue WHERE status='queued' ORDER BY enqueued_at LIMIT $1 FOR UPDATE SKIP LOCKED ) RETURNING job_id, agent, input ) SELECT job_id::text, agent, input FROM claimed".
Definition MARK_SQL : string :=
  "UPDATE synapse.agent_queue SET status='running', started_at=COALESCE(started_at, now()) WHERE job_id=$1::uuid".
Definition FINISH_SQL : string :=
  "UPDATE synapse.agent_queue SET status=$1, result=$2, error=$3, finished_at=now() WHERE job_id=$4::uuid".
Definition HAS_WORK_SQL : string :=
  "SELECT EXISTS (SELECT 1 FROM synapse.agent_queue WHERE status = 'queued')".
Definition DRAIN_SQL : string := "SELECT synapse.drain_queue(1)".

Section queue.
Context `{UnicodeTables, Printers, HashOrder, WireLib, DeriveLib, FloatPrinter, PgLib}.
Context (features : list Plugin).

Definition enqueue (agent input : string) (source : option string) : pg Uuid :=
  job_id ← lift (perform EUuid);
  r ← lift (spi_run ENQUEUE_SQL
              [DText (fmt_uuid job_id); DText agent; DText input; Admin.text_or_null source]);
  _ ← or_error "enqueue: " r;
  mret job_id.

Record Job := mkJob { job_id : Uuid; job_agent : string; job_input : string }.

(** A claimed row; a row with a NULL or a malformed id is dropped. *)
Definition read_job (row : list datum) : option Job :=
  id_s ← ok_flatten (column get_text 1 row);
  a ← ok_flatten (column get_text 2 row);
  i ← ok_flatten (column get_text 3 row);
  uid ← parse_uuid id_s;
  Some (mkJob uid a i).

Definition running_count : prog Z :=
  r ← spi_get_one get_i64 RUNNING_SQL []; mret (default 0 (ok_flatten r)).

Definition headroom (g : Gucs) (running : Z) : Z := Z.max (MAX_CONCURRENT_RUNS g - running) 0.

(** How many jobs a drain asks for; [headroom as i32] wraps. *)
Definition claim_limit (max_jobs room : Z) : Z := Z.min max_jobs (wrap_i32 room).

Definition claim (limit : Z) : prog (list Job) :=
  r ← spi CLAIM_SQL [DInt4 limit];
  mret (match r with Ok (_, rows) => omap read_job rows | Err _ => [] end).

Definition finish_args (id : string) (envelope : json) : list datum :=
  let '(status, reason) := Synapse.queue_status_for envelope in
  [DText status; DJsonb envelope; Admin.text_or_null reason; DText id].

(** One claimed job. *)
Definition run_job (j : Job) : pg unit :=
  let id := fmt_uuid (job_id j) in
  _ ← lift (spi_run MARK_SQL [DText id]);
  envelope ← Synapse.execute features (job_agent j) (job_input j);
  _ ← lift (spi_run FINISH_SQL (finish_args id envelope));
  mret tt.

Fixpoint run_jobs (jobs : list Job) (processed : Z) : pg Z :=
  match jobs with
  | [] => mret processed
  | j :: rest => _ ← run_job j; run_jobs rest (processed + 1)
  end.

Definition drain_queue (max_jobs : Z) : pg Z :=
  b ← get_backend;
  running ← lift running_count;
  let room := headroom (be_gucs b) running in
  if room =? 0 then mret 0
  else
    claimed ← lift (claim (claim_limit max_jobs room));
    run_jobs claimed 0.

(** The transaction of a tick of the worker: how many jobs it ran. *)
Definition tick : pg (option Z) :=
  w ← lift (spi_get_one get_bool HAS_WORK_SQL []);
  _ ← (if default false (ok_flatten w) : bool then rebuild_kernel else mret tt);
  r ← lift (spi DRAIN_SQL []);
  match r with
  | Ok _ => n ← drain_queue 1; mret (Some n)
  | Err _ => mret (Some 0)
  end.
End queue.

(** [register]: the database the worker is registered for, if any. *)
Definition register (g : Gucs) : option string := worker_database g.

(** What the worker's loop does with the end of a tick: log and go on, or
    resume the unwinding, after which Postgres restarts the worker. *)
Inductive tick_end := Logged (msg : string) | Quiet | Unwinds (msg : string).

Definition after_tick (r : option Z + string) : tick_end :=
  match r with
  | inl (Some n) =>
      if 0 <? n then Logged ("pg_synapse queue worker ran " +:+ show n +:+ " job(s)") else Quiet
  | inl None => Quiet
  | inr msg => Unwinds msg
  end.

(** The pause between ticks, in milliseconds. *)
Definition wait_ms (g : Gucs) : Z := Z.max (WORKER_INTERVAL_MS g) 1.
End Queue.

(** ** Reactive triggers ([sql_functions.rs])

    The statements that attach an agent to a table and detach it: names
    derived from the table's, the agent as a literal in the body of a PL/pgSQL
    function, the function as a dollar-quoted constant. *)

Module Trigger.

Definition quote_char : ascii := ascii_of_nat 34.

Definition safe_name (target_table : string) : string :=
  replace_char quote_char "" (replace_char "." "_" target_table).
Definition fn_name (target_table : string) : string := "synapse_trig_" +:+ safe_name target_table.
Definition trig_name (target_table : string) : string := "synapse_agent_" +:+ safe_name target_table.

Definition when_clause (when_sql : option string) : string :=
  match when_sql with Some w => "WHEN (" +:+ w +:+ ")" | None => "" end.

Definition double_quotes (s : string) : string := replace_char "'" "''" s.
Definition agent_lit (agent : string) : string := "'" +:+ double_quotes agent +:+ "'".
Definition table_lit (target_table : string) : string := double_quotes target_table.

Definition nl : string := newline.
Definition dq : string := String quote_char "".
Definition bs : string := String (ascii_of_nat 92) "".

(** The body in mode inline. *)
Definition inline_lines (agent input_expr : string) : list string :=
    [""; "DECLARE"; "  _res JSONB;"; "  _status TEXT;"; "  _out TEXT;"; "  _obj JSONB;";
     "  _decision TEXT;"; "  _reason TEXT;"; "BEGIN"; "  IF pg_trigger_depth() > 1 THEN";
     "    RETURN NEW;"; "  END IF;";
     "  _res := synapse.execute(" +:+ agent_lit agent +:+ ", (" +:+ input_expr +:+ ")::text);";
     "  _status := _res->>'status';";
     "  -- The envelope output is the agent reply TEXT, not a JSON object.";
     "  -- Pull the first JSON object substring out of it and parse a decision.";
     "  _out := _res->>'output';"; "  BEGIN";
     "    _obj := substring(_out from '" +:+ bs +:+ "{[" +:+ bs +:+ "s" +:+ bs +:+ "S]*" +:+ bs +:+ "}')::jsonb;";
     "    _decision := lower(_obj->>'decision');"; "  EXCEPTION WHEN others THEN";
     "    _obj := NULL;"; "    _decision := NULL;"; "  END;";
     "  IF _status IS DISTINCT FROM 'completed' THEN";
     "    -- NULLIF because a run that did not complete has output '', not NULL, so";
     "    -- a plain COALESCE stopped there and raised " +:+ dq +:+ "rejected: " +:+ dq +:+ " with no reason.";
     "    -- The person reading this is a DBA whose write just rolled back.";
     "    _reason := COALESCE("; "      _res->>'error',"; "      NULLIF(_out, ''),";
     "      CASE WHEN _status = 'timed_out'";
     "           THEN 'agent exceeded the inline budget, see pg_synapse.inline_timeout_ms'";
     "           ELSE 'agent did not complete, status ' || COALESCE(_status, 'unknown') END"; "    );";
     "    RAISE EXCEPTION 'synapse inline trigger rejected: %', _reason;"; "  END IF;";
     "  IF _decision = 'reject'";
     "     OR (_decision IS NULL AND _out ~* '" +:+ dq +:+ "decision" +:+ dq +:+ bs +:+ "s*:" +:+ bs
       +:+ "s*" +:+ dq +:+ "reject" +:+ dq +:+ "') THEN";
     "    _reason := COALESCE("; "      _obj->>'reason',";
     "      substring(_out from '" +:+ dq +:+ "reason" +:+ dq +:+ bs +:+ "s*:" +:+ bs +:+ "s*" +:+ dq
       +:+ "([^" +:+ dq +:+ "]*)" +:+ dq +:+ "'),";
     "      _out,"; "      'agent rejected row'"; "    );";
     "    RAISE EXCEPTION 'synapse inline trigger rejected: %', _reason;"; "  END IF;";
     "  RETURN NEW;"; "END;"].
Definition inline_body (agent input_expr : string) : string :=
  join nl (inline_lines agent input_expr).

(** The body in any other mode. *)
Definition queue_lines (target_table agent input_expr : string) : list string :=
    [""; "BEGIN"; "  IF pg_trigger_depth() > 1 THEN"; "    RETURN NEW;"; "  END IF;";
     "  PERFORM synapse.enqueue("; "    " +:+ agent_lit agent +:+ ",";
     "    (" +:+ input_expr +:+ ")::text,"; "    'trigger:" +:+ table_lit target_table +:+ "'"; "  );";
     "  RETURN NEW;"; "END;"].
Definition queue_body (target_table agent input_expr : string) : string :=
  join nl (queue_lines target_table agent input_expr).

Definition body (mode target_table agent input_expr : string) : string :=
  if String.eqb mode "inline" then inline_body agent input_expr
  else queue_body target_table agent input_expr.

Definition TAG : string := "$trig_body$".

Definition create_fn_sql (target_table text : string) : string :=
  "CREATE OR REPLACE FUNCTION " +:+ fn_name target_table
    +:+ "() RETURNS trigger LANGUAGE plpgsql SECURITY DEFINER AS " +:+ TAG +:+ text +:+ TAG.

Definition DROP_FORMAT_SQL : string :=
  "SELECT format('DROP TRIGGER IF EXISTS %I ON %s', $1, $2::regclass)".

Definition create_trig_sql (target_table events : string) (when_sql : option string) : string :=
  "SELECT format('CREATE TRIGGER %I AFTER " +:+ events +:+ " ON %s FOR EACH ROW "
    +:+ when_clause when_sql +:+ " EXECUTE FUNCTION " +:+ fn_name target_table
    +:+ "()', $1, $2::regclass)".

Definition drop_fn_sql (target_table : string) : string :=
  "DROP FUNCTION IF EXISTS " +:+ fn_name target_table +:+ "()".

Section triggers.
Context `{PgLib}.

Definition name_args (target_table : string) : list datum :=
  [DText (trig_name target_table); DText target_table].

(** Drop the trigger if there is one; soft failures are dropped. *)
Definition drop_trigger (target_table : string) : pg unit :=
  r ← lift (spi_get_one get_text DROP_FORMAT_SQL (name_args target_table));
  match r with
  | Ok (Some stmt) => _ ← lift (spi_run stmt []); mret tt
  | _ => mret tt
  end.

Definition attach_agent_trigger (target_table agent mode events : string)
    (when_sql : option string) (input_expr : string) : pg unit :=
  r ← lift (spi_run (create_fn_sql target_table (body mode target_table agent input_expr)) []);
  _ ← or_error "attach_agent_trigger create function: " r;
  _ ← drop_trigger target_table;
  t ← lift (spi_get_one get_text (create_trig_sql target_table events when_sql)
              (name_args target_table));
  stmt ← or_error "attach_agent_trigger format trigger: " t;
  match stmt with
  | Some stmt =>
      c ← lift (spi_run stmt []);
      or_error "attach_agent_trigger create trigger: " c
  | None => mret tt
  end.

Definition detach_agent_trigger (target_table : string) : pg unit :=
  _ ← drop_trigger target_table;
  r ← lift (spi_run (drop_fn_sql target_table) []);
  or_error "detach_agent_trigger drop function: " r.
End triggers.
End Trigger.

(** ** How Postgres reads the constants *)

(** The rest of a dollar-quoted constant after its opening tag: it ends at
    the first tag. *)
Fixpoint read_dollar (tag s : string) : option (string * string) :=
  match strip_prefix tag s with
  | Some rest => Some ("", rest)
  | None =>
      match s with
      | "" => None
      | String a s' => (fun r => (String a r.1, r.2)) <$> read_dollar tag s'
      end
  end.
