(* ===== verification/PgDatabase.v ===== *)
(** * A database under the statements

    Runs of functions of the extension against a database: what a statement
    answers and does is a function of the state, subtransactions save it; and
    the configuration tables as such a database. *)

From S2P Require Import Prelude.
From S2P Require Import RustStr.
From S2P Require Import F64.
From S2P Require Import Json.
From S2P Require Import Errors.
From S2P Require Import Types.
From S2P Require Import Effects.
From S2P Require Import HarnessText.
From S2P Require Import Traits.
From S2P Require Import LoopHarness.
From S2P Require Import Runtime.
From S2P Require Import Wire.
From S2P Require Import Rows.
From S2P Require Import PgGuc.
From S2P Require Import PgSpi.
From S2P Require Import PgHost.
From S2P Require Import PgExecute.
From S2P Require Import PgExecuteSpec.
From S2P Require Import PgAdmin.

(** ** A database with savepoints *)

Section database.
Context {DB : Type} (exec : string -> list datum -> DB -> spi_answer * DB).

(** [exec] says what a statement answers and does; the states saved by the
    subtransactions in progress, innermost first. *)
Definition database : handler (DB * list DB) := fun X e w =>
  match e in eff X return option (X * (DB * list DB)) with
  | ESpi sql args => let r := exec sql args w.1 in Some (r.1, (r.2, w.2))
  | ESub SubBegin => Some (tt, (w.1, w.1 :: w.2))
  | ESub SubRelease => Some (tt, (w.1, tail w.2))
  | ESub SubRollback => Some (tt, (default w.1 (head w.2), tail w.2))
  | _ => None
  end.

(** Programs that only send statements, or raise. *)
Fixpoint statements {A} (p : prog A) : Prop :=
  match p with
  | Ret _ => True
  | Vis e k =>
      match e in eff X return (X -> Prop) -> Prop with
      | ESpi _ _ => fun rest => forall x, rest x
      | ERaise _ => fun _ => True
      | _ => fun _ => False
      end (fun x => statements (k x))
  end.

Lemma statements_bind {A B} (p : prog A) (f : A -> prog B) :
  statements p -> (forall a, statements (f a)) -> statements (p ≫= f).
Proof.
  intros Hp Hf. induction p as [a|X e k IH]; [apply Hf|].
  destruct e; try done. intros x. apply IH, Hp.
Qed.

Lemma statements_spi sql args : statements (spi sql args).
Proof. by intros [| |]. Qed.

(** Caught, such a program always ends, in the subtransaction it began in. *)
Lemma statements_run {A} (p : prog A) d stk s :
  statements p -> exists r d', run database (guard p) (d, stk) s = Some (r, (d', stk), s).
Proof.
  revert d. induction p as [a|X e k IH]; intros d Hp; [by eexists _, _|].
  destruct e; try done; [apply IH, Hp|]. by eexists _, _.
Qed.

Lemma run_with_savepoint {A} tool (body : prog (result A ToolError)) d stk s :
  statements body ->
  exists o d', run database (with_savepoint tool body) (d, stk) s = Some (o, (d', stk), s) /\
    (is_ok o = false -> d' = d).
Proof.
  intros Hb. destruct (statements_run body d (d :: stk) s Hb) as (r & d' & Hr).
  unfold with_savepoint. rewrite run_bind. simpl. rewrite run_bind, Hr.
  destruct r as [[a|e]|msg]; simpl; eexists _, _; (split; [reflexivity|done]).
Qed.

(** ** Running functions of the extension *)

Lemma run_guard_bind {W A B} (h : handler W) (p : prog A) (f : A -> prog B) w s :
  run h (guard (p ≫= f)) w s =
  match run h (guard p) w s with
  | Some (inl a, w', s') => run h (guard (f a)) w' s'
  | Some (inr msg, w', s') => Some (inr msg, w', s')
  | None => None
  end.
Proof.
  revert w s. induction p as [a|X e k IH]; intros w s; [done|].
  destruct e; simpl; try (destruct (h _ _ w) as [[x w']|]; [apply IH|done]). done.
Qed.

Lemma run_pg_bind {W A B} (h : handler W) (m : pg A) (f : A -> pg B) b w s :
  run h ((m ≫= f) b) w s =
  match run h (m b) w s with
  | Some ((b', inl a), w', s') => run h (f a b') w' s'
  | Some ((b', inr msg), w', s') => Some ((b', inr msg), w', s')
  | None => None
  end.
Proof.
  unfold mbind, pg_mbind. rewrite run_bind.
  destruct (run h (m b) w s) as [[[[b' [a|msg]] w'] s']|]; done.
Qed.

Lemma run_lift {W A} (h : handler W) (p : prog A) b w s :
  run h (lift p b) w s =
  match run h (guard p) w s with
  | Some (r, w', s') => Some ((b, r), w', s')
  | None => None
  end.
Proof.
  unfold lift. rewrite run_bind. by destruct (run h (guard p) w s) as [[[r w'] s']|].
Qed.

Lemma run_spi sql args d stk s :
  run database (guard (spi sql args)) (d, stk) s =
  Some (spi_outcome (exec sql args d).1, ((exec sql args d).2, stk), s).
Proof. unfold spi, perform. simpl. by destruct (exec sql args d) as [[n rows|e|msg] d']. Qed.

(** The outcome of a statement whose rows are not read. *)
Definition run_outcome_of (a : spi_answer) : result unit string + string :=
  match a with SpiDone _ _ => inl (Ok tt) | SpiErr e => inl (Err e) | SpiRaised m => inr m end.

Lemma run_spi_run sql args d stk s :
  run database (guard (spi_run sql args)) (d, stk) s =
  Some (run_outcome_of (exec sql args d).1, ((exec sql args d).2, stk), s).
Proof.
  unfold spi_run. rewrite run_guard_bind, run_spi.
  by destruct (exec sql args d) as [[n rows|e|msg] d'].
Qed.

Lemma run_get_one `{PgLib} {A} (get : datum -> result (option A) string) sql args d stk s :
  run database (guard (spi_get_one get sql args)) (d, stk) s =
  Some (match (exec sql args d).1 with
        | SpiDone _ (row :: _) => inl (column get 1 row)
        | SpiDone _ [] => inl (Err no_row_error)
        | SpiErr e => inl (Err e)
        | SpiRaised m => inr m
        end, ((exec sql args d).2, stk), s).
Proof.
  unfold spi_get_one. rewrite run_guard_bind, run_spi.
  by destruct (exec sql args d) as [[n [|row rows]|e|msg] d'].
Qed.
End database.

(** ** The configuration tables ([crates/pg-synapse-pgrx/sql/schema.sql])

    The tables behind an agent's always-on text, and what the statements of
    [PgAdmin] answer and do on them: keys and foreign keys, the check on the
    name of a skill, and [synapse.config_harness].  A statement the tables do
    not know fails softly. *)

(** ** Rows *)

Record AgentColumns := mkColumns {
  col_system_prompt : string;
  col_soul : option string;
  col_guardrails : option string;
  col_memory : option string;
  col_critique : option string }.

Record LessonRow := mkLessonRow {
  lr_id : Z; lr_agent : string; lr_lesson : Lesson; lr_active : bool }.

(** Skills by agent, in the order of their names; hints and lessons in the
    order of their ids. *)
Record Tables := mkTables {
  t_agents : gmap string AgentColumns;
  t_skills : gmap string (list Skill);
  t_hints : list (option string * ToolHint);
  t_lessons : list LessonRow }.

Definition skills_of (d : Tables) (agent : string) : list Skill := default [] (t_skills d !! agent).

(** ** [synapse.config_harness] *)

Definition hints_of (d : Tables) (agent : string) : list ToolHint :=
  map snd (List.filter (fun h => bool_decide (h.1 = Some agent)) (t_hints d)) ++
  map snd (List.filter (fun h => bool_decide (h.1 = None)) (t_hints d)).

Definition lessons_of (d : Tables) (agent : string) : list Lesson :=
  map lr_lesson (List.filter (fun l => String.eqb (lr_agent l) agent && lr_active l) (t_lessons d)).

Definition extras_of (d : Tables) (agent : string) : Extras :=
  mkExtras (skills_of d agent) (hints_of d agent) (lessons_of d agent).

Definition lesson_to_json (l : Lesson) : json :=
  json_object [("cue", JString (lesson_cue l)); ("lesson", JString (lesson_text l))].

Definition extras_to_json (ex : Extras) : json :=
  json_object
    [("skills", JArray (map skill_to_json (ex_skills ex)));
     ("tool_hints", JArray (map tool_hint_to_json (ex_tool_hints ex)));
     ("lessons", JArray (map lesson_to_json (ex_lessons ex)))].

(** ** Statements *)

(** [^[a-z0-9][a-z0-9_-]*$] *)
Definition is_lower_alnum (c : ascii) : bool :=
  let n := Z.of_nat (nat_of_ascii c) in
  ((97 <=? n) && (n <=? 122)) || ((48 <=? n) && (n <=? 57)).
Definition skill_name_ok (name : string) : bool :=
  match String.list_ascii_of_string name with
  | [] => false
  | c :: l =>
      is_lower_alnum c &&
      forallb (fun c => is_lower_alnum c || Ascii.eqb c "_" || Ascii.eqb c "-") l
  end.

(** Insert or replace, in the order of the names. *)
Fixpoint upsert_skill (sk : Skill) (l : list Skill) : list Skill :=
  match l with
  | [] => [sk]
  | x :: l' =>
      if String.eqb (skill_name x) (skill_name sk) then sk :: l'
      else if String.ltb (skill_name sk) (skill_name x) then sk :: x :: l'
      else x :: upsert_skill sk l'
  end.

Definition set_agents (f : gmap string AgentColumns -> gmap string AgentColumns) (d : Tables)
  : Tables := mkTables (f (t_agents d)) (t_skills d) (t_hints d) (t_lessons d).
Definition set_skills (agent : string) (f : list Skill -> list Skill) (d : Tables) : Tables :=
  mkTables (t_agents d) (<[agent := f (skills_of d agent)]> (t_skills d)) (t_hints d) (t_lessons d).
Definition set_lessons (f : list LessonRow -> list LessonRow) (d : Tables) : Tables :=
  mkTables (t_agents d) (t_skills d) (t_hints d) (f (t_lessons d)).

Definition set_column (component : string) (value : option string) (c : AgentColumns)
  : AgentColumns :=
  if String.eqb component "system_prompt"
  then mkColumns (default "" value) (col_soul c) (col_guardrails c) (col_memory c) (col_critique c)
  else if String.eqb component "soul"
  then mkColumns (col_system_prompt c) value (col_guardrails c) (col_memory c) (col_critique c)
  else if String.eqb component "guardrails"
  then mkColumns (col_system_prompt c) (col_soul c) value (col_memory c) (col_critique c)
  else if String.eqb component "memory"
  then mkColumns (col_system_prompt c) (col_soul c) (col_guardrails c) value (col_critique c)
  else mkColumns (col_system_prompt c) (col_soul c) (col_guardrails c) (col_memory c) value.

(** The text of a parameter, [None] for NULL. *)
Definition datum_text (d : datum) : option string := match d with DText s => Some s | _ => None end.

Definition fk_violation : spi_answer := SpiRaised "violates foreign key constraint".

Definition next_id (l : list LessonRow) : Z := 1 + fold_right Z.max 0 (map lr_id l).

Definition component_update (sql : string) : option string :=
  List.find (fun c => String.eqb sql (Admin.set_component_sql c)) Admin.COMPONENTS.

Definition columns_row (c : AgentColumns) : list datum :=
  [DText (col_system_prompt c); Admin.text_or_null (col_soul c);
   Admin.text_or_null (col_guardrails c); Admin.text_or_null (col_memory c)].

Definition exec_read (sql : string) (args : list datum) (d : Tables) : option spi_answer :=
  match args with
  | [DText agent] =>
      if String.eqb sql Admin.ALWAYS_ON_SQL then
        Some (match t_agents d !! agent with
              | Some c => SpiDone 1 [columns_row c]
              | None => SpiDone 0 []
              end)
      else if String.eqb sql HARNESS_SQL
      then Some (SpiDone 1 [[DJsonb (extras_to_json (extras_of d agent))]])
      else None
  | _ => None
  end.

(** A write: its answer and the tables after it. *)
Definition exec_write (sql : string) (args : list datum) (d : Tables)
  : option (spi_answer * Tables) :=
  match component_update sql, args with
  | Some component, [value; DText agent] =>
      Some (match t_agents d !! agent with
            | Some c =>
                (SpiDone 1 [], set_agents (insert agent (set_column component (datum_text value) c)) d)
            | None => (SpiDone 0 [], d)
            end)
  | Some _, _ => None
  | None, [DText name; DText prompt; DText _; _; DTextArray _; DInt4 _; DInt8 _] =>
      if String.eqb sql Admin.AGENT_UPSERT_SQL then
        Some (SpiDone 1 [],
              set_agents (partial_alter (fun o =>
                Some (match o with
                      | Some c => set_column "system_prompt" (Some prompt) c
                      | None => mkColumns prompt None None None None
                      end)) name) d)
      else None
  | None, [DText agent; DText name; DText description; DText body] =>
      if String.eqb sql Admin.SKILL_UPSERT_SQL then
        Some (if negb (skill_name_ok name)
              then (SpiRaised "violates check constraint", d)
              else match t_agents d !! agent with
                   | Some _ =>
                       (SpiDone 1 [], set_skills agent (upsert_skill (mkSkill name description body)) d)
                   | None => (fk_violation, d)
                   end)
      else None
  | None, [DText agent; DText cue; DText lesson; DText _; _; _] =>
      if String.eqb sql Admin.LESSON_INSERT_SQL then
        Some (match t_agents d !! agent with
              | Some _ =>
                  let i := next_id (t_lessons d) in
                  (SpiDone 1 [[DInt8 i]],
                   set_lessons (fun l => l ++ [mkLessonRow i agent (mkLesson cue lesson) true]) d)
              | None => (fk_violation, d)
              end)
      else None
  | None, [DText agent; DText name] =>
      if String.eqb sql Admin.SKILL_DELETE_SQL then
        Some (SpiDone (Z.of_nat (length (List.filter (fun s => String.eqb (skill_name s) name)
                                           (skills_of d agent)))) [],
              set_skills agent (List.filter (fun s => negb (String.eqb (skill_name s) name))) d)
      else None
  | None, [_; DInt8 i] =>
      if String.eqb sql Admin.LESSON_RETIRE_SQL then
        Some (SpiDone (Z.of_nat (length (List.filter (fun l => lr_id l =? i) (t_lessons d)))) [],
              set_lessons (map (fun l =>
                if lr_id l =? i then mkLessonRow (lr_id l) (lr_agent l) (lr_lesson l) false else l)) d)
      else None
  | None, _ => None
  end.

Definition exec_tables (sql : string) (args : list datum) (d : Tables) : spi_answer * Tables :=
  match exec_read sql args d with
  | Some a => (a, d)
  | None =>
      match exec_write sql args d with
      | Some r => r
      | None => (SpiErr "unknown statement", d)
      end
  end.

(** ** The always-on text of an agent *)

Definition columns_agent (agent : string) (c : AgentColumns) : AgentRow :=
  Admin.set_memory (col_memory c)
    (Admin.set_guardrails (col_guardrails c)
      (Admin.set_soul (col_soul c)
        (Admin.set_system_prompt (col_system_prompt c) (named_agent agent)))).

(** Its length, as a run composes it. *)
Definition always_on_total (d : Tables) (agent : string) : option Z :=
  (fun c => Admin.agent_total (with_extras (extras_of d agent) (columns_agent agent c)))
    <$> t_agents d !! agent.

Definition within_cap (d : Tables) (agent : string) : Prop :=
  exists n, always_on_total d agent = Some n /\ n <= ALWAYS_ON_MAX_CHARS.

(** ** Lemmas *)

Lemma read_lesson_write l : read_lesson (lesson_to_json l) = Some l.
Proof. by destruct l. Qed.

Lemma read_extras_write ex : read_extras (extras_to_json ex) = Some ex.
Proof.
  destruct ex as [s t l].
  change (read_extras (extras_to_json (mkExtras s t l))) with
    (skills ← mapM read_skill (map skill_to_json s);
     hints ← mapM read_tool_hint (map tool_hint_to_json t);
     lessons ← mapM read_lesson (map lesson_to_json l);
     Some (mkExtras skills hints lessons)).
  rewrite (mapM_roundtrip _ _ s read_skill_write). simpl.
  rewrite (mapM_roundtrip _ _ t read_tool_hint_write). simpl.
  by rewrite (mapM_roundtrip _ _ l read_lesson_write).
Qed.

Section rows.
Context `{PgLib}.

Lemma get_text_or_null s : ok_flatten (get_text (Admin.text_or_null s)) = s.
Proof. by destruct s. Qed.

Lemma always_on_columns agent c :
  Admin.always_on_row agent (columns_row c) = columns_agent agent c.
Proof.
  unfold Admin.always_on_row, columns_row, column. simpl. by rewrite !get_text_or_null.
Qed.
End rows.
