(* ===== verification/PgSample.v ===== *)
(** * Sample backends and scripts for the extension *)

From S2P Require Import Prelude.
From S2P Require Import RustStr.
From S2P Require Import F64.
From S2P Require Import Json.
From S2P Require Import Errors.
From S2P Require Import Types.
From S2P Require Import Effects.
From S2P Require Import HarnessText.
From S2P Require Import Traits.
From S2P Require Import LoopHarness.
From S2P Require Import Runtime.
From S2P Require Import RuntimeProps.
From S2P Require Import Wire.
From S2P Require Import ToolInput.
From S2P Require Import ToolsDelegate.
From S2P Require Import PgGuc.
From S2P Require Import PgSpi.
From S2P Require Import PgHost.
From S2P Require Import PgDatabase.
From S2P Require Import Sample.
From S2P Require Import WireProps.

#[export] Instance sample_pg_lib : PgLib :=
  {| debug_error := fun e => e; parse_uuid := fun _ => Some 9; no_row_error := "no row";
     column_error := fun _ => "wrong type"; decode_error := fun _ _ => "bad row" |}.

#[export] Instance sample_derive : DeriveLib :=
  {| serde_error := fun _ _ => "bad input"; schema_for := fun _ => JNull |}.

#[export] Instance sample_floats : FloatPrinter := {| fmt_f64 := fun _ => "1.5" |}.

(** A backend with the settings as they boot and a runtime in its cache. *)
Definition sample_backend : Backend :=
  mkBackend Gucs_boot (Some (Some (sample_runtime 1000 tool_llm))) [].

(** Answers of Postgres, then success without rows; the model answers [hi]. *)
Definition pg_script (spi : list spi_answer) : script :=
  mkScript 0 1000 [text_reply "hi"] [] [] [] spi.

Definition pg_run {A} (p : prog A) (spi : list spi_answer) : option A :=
  (fun r => r.1.1) <$> run script_handler p (pg_script spi) ExecutorOutcome_default.

(** A run in a script is an execution. *)
Lemma pg_run_steps {A} (p : prog A) spi a : pg_run p spi = Some a -> exists tr, steps p tr a.
Proof.
  unfold pg_run. destruct (run _ p _ _) as [[[a' w] s]|] eqn:E; [|done].
  intros [= <-]. by eapply run_steps.
Qed.

(** The answers to the reads at the start of [execute]. *)
Definition caller_answers : list spi_answer :=
  [SpiDone 1 [[DText "alice"]]; SpiDone 1 [[DInt4 0]]].

(** One agent, short of its cap. *)
Definition sample_tables : Tables :=
  mkTables {["agent" := mkColumns "be helpful" None None None None]} ∅ [] [].
