(* ===== verification/PgProps.v ===== *)
(** * Properties of the Postgres extension: SPI and one execution

    The first part is about SPI: how a SQL tool leaves the database when it
    fails, what rows read from the tables are worth, and which rows survive
    the round trip through a column.  The second part is about one call of
    [pg_synapse.execute]: which audit writes need a run, the rows a run leaves,
    and the grants that are retired when it ends. *)

From S2P Require Import Prelude.
From S2P Require Import RustStr.
From S2P Require Import F64.
From S2P Require Import Json.
From S2P Require Import Errors.
From S2P Require Import Types.
From S2P Require Import NumText.
From S2P Require Import Effects.
From S2P Require Import HarnessText.
From S2P Require Import Traits.
From S2P Require Import LoopHarness.
From S2P Require Import Executors.
From S2P Require Import Runtime.
From S2P Require Import Builder.
From S2P Require Import RuntimeSpec.
From S2P Require Import Wire.
From S2P Require Import ToolInput.
From S2P Require Import ToolsDelegate.
From S2P Require Import Sample.
From S2P Require Import RuntimeProps.
From S2P Require Import WireProps.
From S2P Require Import ToolsSql.
From S2P Require Import Rows.
From S2P Require Import PgGuc.
From S2P Require Import PgSpi.
From S2P Require Import PgHost.
From S2P Require Import PgExecute.
From S2P Require Import PgExecuteSpec.
From S2P Require Import PgDatabase.
From S2P Require Import PgSample.

(** ** Rows *)

Section props.
Context `{UnicodeTables, Printers, WireLib, DeriveLib, PgLib}.

Lemma statements_publish id : statements (publish_execution_id id).
Proof.
  destruct id; [|done]. apply statements_bind; [|done].
  apply statements_bind; [apply statements_spi|done].
Qed.

Lemma statements_request {A B} id sql args (f : _ -> result A B) :
  statements (_ ← publish_execution_id id; r ← spi sql args; mret (f r)).
Proof.
  apply statements_bind; [apply statements_publish|intros _].
  apply statements_bind; [apply statements_spi|done].
Qed.

(** The end of a statement of a tool. *)
Definition atomic {DB A} (exec : string -> list datum -> DB -> spi_answer * DB)
    (p : prog (result A ToolError)) : Prop :=
  forall d stk s, exists o d',
    run (database exec) p (d, stk) s = Some (o, (d', stk), s) /\ (is_ok o = false -> d' = d).

Lemma atomic_query {DB} (exec : string -> list datum -> DB -> spi_answer * DB) g sql ps role id :
  atomic exec (spi_query g sql ps role id).
Proof.
  intros d stk s. unfold spi_query. destruct (DISABLE_BUILTIN_SQL_TOOLS g); [by eexists _, d|].
  apply run_with_savepoint, statements_request.
Qed.

Lemma atomic_execute {DB} (exec : string -> list datum -> DB -> spi_answer * DB) g sql ps role id :
  atomic exec (spi_execute g sql ps role id).
Proof.
  intros d stk s. unfold spi_execute. destruct (DISABLE_BUILTIN_SQL_TOOLS g); [by eexists _, d|].
  apply run_with_savepoint, statements_request.
Qed.

Lemma atomic_map {DB A B} (exec : string -> list datum -> DB -> spi_answer * DB)
    (p : prog (result A ToolError)) (f : result A ToolError -> result B ToolError) :
  (forall r, is_ok (f r) = is_ok r) -> atomic exec p -> atomic exec (r ← p; mret (f r)).
Proof.
  intros Hf Hp d stk s. destruct (Hp d stk s) as (o & d' & Hr & Hd).
  exists (f o), d'. rewrite run_bind, Hr, Hf. done.
Qed.

(** C21: Whatever Postgres does with its statements, a SQL tool ends with a
    value, never with a raised error, in the transaction it was called in;
    when it reports an error, the database is as it was before the call. *)
Theorem sql_tools_are_atomic {DB} (exec : string -> list datum -> DB -> spi_answer * DB)
    g args schema ctx :
  atomic exec (sql_query_run (SpiSqlExecutor g) args ctx) /\
  atomic exec (sql_exec_run (SpiSqlExecutor g) args ctx) /\
  atomic exec (describe_schema_run (SpiSqlExecutor g) schema ctx).
Proof.
  split_and!; (apply atomic_map; [by intros []|]);
    [apply atomic_query|apply atomic_execute|apply atomic_query].
Qed.

(** ** Agents read from the tables *)

Lemma read_uint_in max f n : read_uint max f = Some n -> 0 <= n <= max.
Proof.
  unfold read_uint. destruct (f ≫= as_u64) as [m|]; simpl; [|done].
  destruct (Z.leb_spec 0 m), (Z.leb_spec m max); simpl; try done. intros [= <-]. lia.
Qed.

(** The integers of a decoded agent are of their width. *)
Lemma read_agent_in v a :
  read_agent v = Some a -> in_u32 (ar_max_iterations a) /\ in_u64 (ar_timeout_ms a).
Proof.
  unfold read_agent. intros (fs & _ & Hr)%bind_Some.
  do 14 (destruct fs as [|? fs]; [done|]). destruct fs; [|done].
  repeat apply bind_Some in Hr as (? & ?E & Hr). injection Hr as <-. simpl.
  split; eapply read_uint_in; eassumption.
Qed.

(** The settings that replace a zero are within the types. *)
Lemma loaded_bounds g a :
  gucs_admitted g = true -> in_u32 (ar_max_iterations a) -> in_u64 (ar_timeout_ms a) ->
  0 < ar_max_iterations (apply_guc_fallbacks g a) <= U32_MAX /\
  0 < ar_timeout_ms (apply_guc_fallbacks g a) <= U64_MAX.
Proof.
  intros Hg [Hi1 Hi2] [Ht1 Ht2]. pose proof (iterations_fallback_pos g _ Hg Hi1).
  pose proof (timeout_fallback_pos g _ Hg Ht1). apply admitted_ranges in Hg. simpl.
  assert (I32_MAX <= U64_MAX) by done. assert (1000 <= U32_MAX) by done.
  split; (split; [done|]).
  - unfold iterations_fallback. repeat case_match; lia.
  - unfold timeout_fallback. repeat case_match; lia.
Qed.

Lemma load_harness_same a tr a' :
  steps (guard (load_harness_extras a)) tr (inl (Ok a')) -> exists ex, a' = with_extras ex a.
Proof.
  intros [(tr1 & tr2 & raw & -> & _ & [_ Hr]%steps_guard_ret)|(msg & [=] & _)]%steps_guard_bind.
  repeat case_match; simplify_eq; by eexists.
Qed.

Lemma load_extras_same rows tr rows' :
  steps (guard (load_all_extras rows)) tr (inl (Ok rows')) ->
  Forall2 (fun a a' => exists ex, a' = with_extras ex a) rows rows'.
Proof.
  revert tr rows'. induction rows as [|a rows IH]; intros tr rows'.
  { cbn [load_all_extras]. intros [_ [= ->]]%steps_guard_ret. constructor. }
  cbn [load_all_extras].
  intros [(tr1 & tr2 & r & -> & Hs1 & Hs2)|(msg & [=] & _)]%steps_guard_bind.
  destruct r as [a'|e]; [|by apply steps_guard_ret in Hs2 as [_ [=]]].
  apply steps_guard_bind in Hs2 as [(tr3 & tr4 & r & -> & Hs2 & Hs3)|(msg & [=] & _)].
  destruct r as [rest|e]; [|by apply steps_guard_ret in Hs3 as [_ [=]]].
  apply steps_guard_ret in Hs3 as [_ [= ->]]. constructor; [by eapply load_harness_same|by eapply IH].
Qed.

Lemma config_rows_decoded {A} (read : json -> option A) sql tr rows :
  steps (guard (config_json read sql)) tr (inl (Ok rows)) ->
  Forall (fun a => exists v, read v = Some a) rows.
Proof.
  unfold config_json.
  intros [(tr1 & tr2 & raw & -> & _ & [_ Hr]%steps_guard_ret)|(msg & [=] & _)]%steps_guard_bind.
  destruct raw as [o|e]; [|done]. unfold ok_or in Hr.
  destruct (read_vec read _) as [l|] eqn:E; [|done]. simplify_eq.
  unfold read_vec in E. apply bind_Some in E as (vs & _ & Hm). apply mapM_Some in Hm.
  induction Hm as [|v a vs l Hv _ IH]; constructor; [by exists v|done].
Qed.

(** C22: Every agent the extension reads has an iteration cap and a time
    budget that are positive and fit their types, whatever the tables hold:
    a stored zero is replaced by a setting.  So an inline run of any of them
    has a positive budget within the inline ceiling. *)
Theorem loaded_agents_are_bounded g tr rows :
  gucs_admitted g = true -> steps (guard (spi_agents g)) tr (inl (Ok rows)) ->
  Forall (fun a => 0 < ar_max_iterations a <= U32_MAX /\ 0 < ar_timeout_ms a <= U64_MAX /\
                   0 < effective_timeout a (Some (Synapse.inline_cap g)) <= Synapse.inline_cap g) rows.
Proof.
  intros Hg Hs. apply steps_guard_bind in Hs as [(tr1 & tr2 & r & -> & Hs1 & Hs2)|(msg & [=] & _)].
  destruct r as [decoded|e]; [|by apply steps_guard_ret in Hs2 as [_ [=]]].
  apply config_rows_decoded in Hs1. apply load_extras_same in Hs2.
  apply Forall_forall. intros a' Hin.
  apply list_elem_of_lookup in Hin as [i Hi].
  destruct (Forall2_lookup_r _ _ _ _ _ Hs2 Hi) as (a1 & Ha1 & ex & ->).
  apply list_lookup_fmap_Some in Ha1 as (a & -> & Ha).
  destruct (Forall_lookup_1 _ _ _ _ Hs1 Ha) as (v & Hv). apply read_agent_in in Hv as [Hu1 Hu2].
  pose proof (loaded_bounds g a Hg Hu1 Hu2) as (Hb1 & Hb2). simpl. split; [done|]. split; [done|].
  unfold Synapse.inline_cap, effective_timeout, from_millis, NANOS_PER_MILLI. simpl in *. lia.
Qed.

(** A configuration row is read back as it was written, for every row a
    table can hold: integers of their width and a finite cost cap. *)
Lemma rows_round_trip :
  (forall a, agent_wf a -> read_agent (agent_to_json a) = Some a) /\
  (forall p, read_llm_profile (llm_profile_to_json p) = Some p) /\
  (forall p, in_u32 (emb_dimension p) ->
     read_embedding_profile (embedding_profile_to_json p) = Some p) /\
  (forall h, read_harness (harness_to_json h) = Some h).
Proof.
  split; [exact read_agent_write|]. split; [exact read_llm_profile_write|].
  split; [exact read_embedding_profile_write|exact read_harness_write].
Qed.
End props.

(** ** Instances *)

(** A row with zeros in place of its bounds. *)
Definition zero_agent : AgentRow :=
  mkAgentRow "agent" "be helpful" None "" None None None None [] 0 0 None None Harness_default.

Definition zero_answers : list spi_answer :=
  [SpiDone 1 [[DJsonb (JArray [agent_to_json zero_agent])]]; SpiDone 1 [[DNull TJsonb]]].

Lemma loaded_agents_are_bounded_witness :
  exists tr rows, steps (guard (spi_agents Gucs_boot)) tr (inl (Ok rows)) /\ length rows = 1%nat /\
    Forall (fun a => 0 < ar_max_iterations a <= U32_MAX /\ 0 < ar_timeout_ms a <= U64_MAX /\
      0 < effective_timeout a (Some (Synapse.inline_cap Gucs_boot)) <= Synapse.inline_cap Gucs_boot)
      rows.
Proof.
  assert (Hd : option_map (fun r => match r with inl (Ok l) => length l | _ => 0%nat end)
                 (pg_run (guard (spi_agents Gucs_boot)) zero_answers) = Some 1%nat)
    by (vm_compute; reflexivity).
  destruct (pg_run (guard (spi_agents Gucs_boot)) zero_answers) as [[[rows|e]|m]|] eqn:E;
    [|discriminate Hd..].
  destruct (pg_run_steps _ _ _ E) as [tr Htr]. exists tr, rows. split; [exact Htr|].
  split; [by injection Hd|].
  apply (loaded_agents_are_bounded Gucs_boot tr rows); [reflexivity|exact Htr].
Defined.

Lemma rows_round_trip_witness :
  agent_wf zero_agent /\ read_agent (agent_to_json zero_agent) = Some zero_agent.
Proof.
  assert (Hw : agent_wf zero_agent).
  { unfold agent_wf, in_u32, in_u64, U32_MAX, U64_MAX. simpl. lia. }
  split; [exact Hw|]. exact (proj1 rows_round_trip zero_agent Hw).
Defined.

(** ** Properties of the extension's entry points

    Who may write the audit trail, what a run leaves in it and in the
    backend, when a queued job counts as done, and how SQL tools fail. *)

Section props.
Context `{UnicodeTables, Printers, HashOrder, WireLib, DeriveLib, FloatPrinter, PgLib}.
Context (features : list Plugin).

(** ** The audit trail *)

(** The audit writers write nothing and raise for a token that is not
    that of a run in progress; with the token of such a run, as the entry
    points print it, they send their one statement. *)
Lemma audit_writes_need_a_run payload b :
  (forall token, ~ admitted token b ->
     Synapse.audit_run payload token b = Ret (b, inr Synapse.AUDIT_REFUSED) /\
     Synapse.audit_status payload token b = Ret (b, inr Synapse.AUDIT_REFUSED)) /\
  (forall grant, grant ∈ be_live b -> 0 <= grant <= U128_MAX ->
     Synapse.audit_run payload (Synapse.token_text grant) b =
       (r ← lift (spi_run Synapse.RECORD_RUN_SQL [DJsonb payload]); or_error "audit_run: " r) b /\
     Synapse.audit_status payload (Synapse.token_text grant) b =
       (r ← lift (spi_run Synapse.RECORD_STATUS_SQL [DJsonb payload]);
        or_error "audit_status: " r) b).
Proof.
  unfold Synapse.audit_run, Synapse.audit_status, mbind, pg_mbind. split.
  - intros token Hno. by rewrite check_token_refuses.
  - intros grant Hin Hr. by rewrite check_token_admits by by apply token_text_admitted.
Qed.

(** C20: Whether an entry point returns or raises, the backend is left with
    the tokens it had, but for the one of this call: no token outlives the
    run it was made for. *)
Theorem grants_are_retired agent input b tr b' :
  (exists r, steps (Synapse.execute features agent input b) tr (b', r)) \/
  (exists r, steps (Synapse.execute_async features agent input b) tr (b', r)) ->
  be_live b' = be_live b \/
  exists t, Call EUuid t ∈ tr /\ be_live b' = Audit.retire t (be_live b).
Proof.
  intros [[r Hs]|[r Hs]]; revert Hs.
  - refine ((_ : retires (Synapse.execute features agent input)) b tr b' r).
    apply retires_after; [keeps|intros c]. apply retires_grant.
    intros t. keeps.
  - refine ((_ : retires (Synapse.execute_async features agent input)) b tr b' r).
    apply retires_after; [keeps|intros c].
    apply retires_after; [keeps|intros ens]. apply retires_after; [keeps|intros _].
    apply retires_grant. intros t. keeps.
Qed.

(** C19: A call of [execute] that returns either stopped before the agent
    ran, with an error envelope and nothing but reads; or it ran the agent once
    and then wrote one audit row, of that run's outcome, and no other, unless
    Postgres refused the very call of the audit function: then no row was
    written, and the caller of a run that had an outcome was warned.  The
    envelope says what the row says.  (A call that raises returns no envelope,
    and Postgres rolls its transaction back, rows included.) *)
Theorem every_run_is_audited agent input b tr b' env :
  (forall u, fmt_uuid u <> "") ->
  steps (Synapse.execute features agent input b) tr (b', inl env) ->
  (Forall host_call tr /\ exists msg, env = Synapse.error_envelope msg) \/
  (exists before ran after k inline caller outcome doc,
     tr = before ++ ran ++ after /\ Forall host_call before /\
     steps (guard (Synapse.kernel_run (be_gucs b) inline k agent input caller)) ran (inl outcome) /\
     env = envelope_of outcome /\ audit_row agent input caller outcome doc /\
     (recorded after = [doc] \/
      (recorded after = [] /\ refused after /\ (is_ok outcome = true -> warned after)))).
Proof. apply execute_spec. Qed.

(** A queued job is marked done exactly when the run its drain made
    completed: every other status, and every error, marks it as failed. *)
Lemma done_means_completed agent input b tr b' env :
  (forall u, fmt_uuid u <> "") ->
  steps (Synapse.execute features agent input b) tr (b', inl env) ->
  (Synapse.queue_status_for env).1 = "done" <->
  exists before ran after k inline caller o,
    tr = before ++ ran ++ after /\
    steps (guard (Synapse.kernel_run (be_gucs b) inline k agent input caller)) ran (inl (Ok o)) /\
    out_status o = Completed /\ env = Synapse.success_envelope o.
Proof.
  intros Hu Hs. split.
  - intros Hd. apply execute_spec in Hs as [[_ [msg ->]]|Hs]; [done| |done].
    destruct Hs as (before & ran & after & k & inline & c & outcome & doc & -> & _ & Hrun & -> & _).
    destruct outcome as [o|e]; [|done]. exists before, ran, after, k, inline, c, o.
    split; [done|]. split; [done|]. split; [|done]. revert Hd.
    unfold Synapse.queue_status_for. simpl. by destruct (out_status o).
  - intros (before & ran & after & k & inline & c & o & _ & _ & Ho & ->).
    unfold Synapse.queue_status_for. simpl. by rewrite Ho.
Qed.
End props.

(** ** Instances *)

Definition hello_run := Synapse.execute [] "agent" "hello" sample_backend.

Lemma hello_env :
  exists tr b' env, steps hello_run tr (b', inl env) /\ (Synapse.queue_status_for env).1 = "done".
Proof.
  assert (Hd : option_map (fun r => match r.2 with
                                    | inl v => (Synapse.queue_status_for v).1 | inr _ => "" end)
                 (pg_run hello_run caller_answers) = Some "done") by (vm_compute; reflexivity).
  destruct (pg_run hello_run caller_answers) as [[b' [env|msg]]|] eqn:E; [|done..].
  destruct (pg_run_steps _ _ _ E) as [tr Htr]. exists tr, b', env. split; [exact Htr|].
  by injection Hd.
Qed.

Lemma uuid_text : forall u, fmt_uuid u <> "".
Proof. done. Qed.

Lemma audit_writes_need_a_run_witness :
  Synapse.audit_run JNull "7" (mkBackend Gucs_boot None []) =
    Ret (mkBackend Gucs_boot None [], inr Synapse.AUDIT_REFUSED) /\
  Synapse.audit_run JNull (Synapse.token_text 7) (mkBackend Gucs_boot None [7]) =
    (r ← lift (spi_run Synapse.RECORD_RUN_SQL [DJsonb JNull]); or_error "audit_run: " r)
      (mkBackend Gucs_boot None [7]).
Proof.
  split.
  - apply (audit_writes_need_a_run JNull (mkBackend Gucs_boot None [])).
    intros (t & _ & Hin). by apply elem_of_nil in Hin.
  - apply (audit_writes_need_a_run JNull (mkBackend Gucs_boot None [7])).
    + left.
    + unfold U128_MAX. lia.
Defined.

Lemma grants_are_retired_witness :
  exists tr b' r, steps hello_run tr (b', r) /\
    (be_live b' = [] \/ exists t, Call EUuid t ∈ tr /\ be_live b' = Audit.retire t []).
Proof.
  destruct hello_env as (tr & b' & env & Hs & _). exists tr, b', (inl env). split; [exact Hs|].
  apply (grants_are_retired [] "agent" "hello" sample_backend tr b'). left. by exists (inl env).
Defined.

Lemma every_run_is_audited_witness :
  exists before ran after k inline caller outcome doc,
    steps (guard (Synapse.kernel_run Gucs_boot inline k "agent" "hello" caller)) ran (inl outcome) /\
    audit_row "agent" "hello" caller outcome doc /\ audited outcome doc after /\
    exists b', steps hello_run (before ++ ran ++ after) (b', inl (envelope_of outcome)).
Proof.
  destruct hello_env as (tr & b' & env & Hs & Hd).
  destruct (every_run_is_audited [] "agent" "hello" sample_backend tr b' env uuid_text Hs)
    as [[_ [msg ->]]|(before & ran & after & k & i & c & o & doc & -> & _ & Hr & -> & Hrow & Hw)];
    [discriminate Hd|].
  exists before, ran, after, k, i, c, o, doc. split; [exact Hr|]. split; [exact Hrow|].
  split; [exact Hw|]. by exists b'.
Defined.

Lemma done_means_completed_witness :
  exists o b' tr, out_status o = Completed /\
    steps hello_run tr (b', inl (Synapse.success_envelope o)).
Proof.
  destruct hello_env as (tr & b' & env & Hs & Hd).
  destruct (proj1 (done_means_completed [] "agent" "hello" sample_backend tr b' env uuid_text Hs) Hd)
    as (before & ran & after & k & i & c & o & _ & _ & Ho & ->).
  by exists o, b', tr.
Defined.
