(* ===== verification/PgQueueProps.v ===== *)
(** * Draining the queue: structure and concurrency

    What one drain sends, and the queue under several sessions as a step
    relation.  Marks made by a drain are seen by other sessions only when its
    transaction commits; its row locks, taken with SKIP LOCKED, are seen at
    once. *)

From S2P Require Import Prelude.
From S2P Require Import RustStr.
From S2P Require Import F64.
From S2P Require Import Json.
From S2P Require Import Errors.
From S2P Require Import Types.
From S2P Require Import NumText.
From S2P Require Import Effects.
From S2P Require Import Traits.
From S2P Require Import LoopHarness.
From S2P Require Import Runtime.
From S2P Require Import Builder.
From S2P Require Import Wire.
From S2P Require Import ToolInput.
From S2P Require Import ToolsDelegate.
From S2P Require Import Sample.
From S2P Require Import WireProps.
From S2P Require Import PgGuc.
From S2P Require Import PgSpi.
From S2P Require Import PgHost.
From S2P Require Import PgExecute.
From S2P Require Import PgExecuteSpec.
From S2P Require Import PgAdmin.
From S2P Require Import PgQueue.
From S2P Require Import PgSample.

(** ** One drain *)

Section drain.
Context `{UnicodeTables, Printers, HashOrder, WireLib, DeriveLib, FloatPrinter, PgLib}.
Context (features : list Plugin).

(** The requests of one job: marked, executed, and finished with the status
    of its own envelope. *)
Definition job_trace (j : Queue.Job) (tr : list call) : Prop :=
  let id := fmt_uuid (Queue.job_id j) in
  exists a1 a2 b0 b1 ran env,
    tr = Call (ESpi Queue.MARK_SQL [DText id]) a1 :: ran
         ++ [Call (ESpi Queue.FINISH_SQL (Queue.finish_args id env)) a2] /\
    steps (Synapse.execute features (Queue.job_agent j) (Queue.job_input j) b0) ran (b1, inl env).

Lemma steps_lift_run sql args b tr b' x :
  steps (lift (spi_run sql args) b) tr (b', inl x) ->
  b' = b /\ exists a, tr = [Call (ESpi sql args) a].
Proof. intros [-> (a & -> & _)%steps_spi_run]%steps_lift. eauto. Qed.

Lemma steps_run_job j b tr b' :
  steps (Queue.run_job features j b) tr (b', inl tt) -> job_trace j tr.
Proof.
  intros Hs. unfold Queue.run_job in Hs.
  apply steps_pg_bind in Hs as [(tr1 & tr2 & b1 & x & -> & Hs1 & Hs2)|(msg & [=] & _)].
  apply steps_lift_run in Hs1 as [-> [a1 ->]].
  apply steps_pg_bind in Hs2 as [(tr3 & tr4 & b2 & env & -> & Hs2 & Hs3)|(msg & [=] & _)].
  apply steps_pg_bind in Hs3 as [(tr5 & tr6 & b3 & y & -> & Hs3 & Hs4)|(msg & [=] & _)].
  apply steps_lift_run in Hs3 as [-> [a2 ->]]. apply steps_pg_ret in Hs4 as (-> & _).
  by exists a1, a2, b, b2, tr3, env.
Qed.

Lemma steps_run_jobs jobs n b tr b' m :
  steps (Queue.run_jobs features jobs n b) tr (b', inl m) ->
  m = n + Z.of_nat (length jobs) /\
  exists trs, tr = concat trs /\ Forall2 job_trace jobs trs.
Proof.
  revert n b tr. induction jobs as [|j jobs IH]; intros n b tr Hs.
  - apply steps_pg_ret in Hs as (-> & _ & [= ->]). split; [simpl; lia|]. by exists [].
  - apply steps_pg_bind in Hs as [(tr1 & tr2 & b1 & [] & -> & Hs1%steps_run_job & Hs2)|(msg & [=] & _)].
    apply IH in Hs2 as (-> & trs & -> & Hall). split; [simpl length; lia|].
    exists (tr1 :: trs). by split; [|constructor].
Qed.

(** A drain that returns: the count, and then either no claim for want of
    room, or one claim whose jobs are run, each once and in order. *)
Lemma drain_structure max_jobs b tr b' n :
  steps (Queue.drain_queue features max_jobs b) tr (b', inl n) ->
  exists a running,
    steps (guard Queue.running_count) [Call (ESpi Queue.RUNNING_SQL []) a] (inl running) /\
    let room := Queue.headroom (be_gucs b) running in
    (room = 0 /\ n = 0 /\ tr = [Call (ESpi Queue.RUNNING_SQL []) a]) \/
    (room <> 0 /\ exists c jobs trs,
       tr = Call (ESpi Queue.RUNNING_SQL []) a
            :: Call (ESpi Queue.CLAIM_SQL [DInt4 (Queue.claim_limit max_jobs room)]) c
            :: concat trs /\
       jobs = (match c with SpiDone _ rows => omap Queue.read_job rows | _ => [] end) /\
       n = Z.of_nat (length jobs) /\ Forall2 job_trace jobs trs).
Proof.
  intros Hs. unfold Queue.drain_queue in Hs.
  apply steps_pg_bind in Hs as [(tr1 & tr2 & b1 & b0 & -> & Hs1 & Hs2)|(msg & [=] & _)].
  apply steps_get_backend in Hs1 as (-> & -> & [= ->]).
  apply steps_pg_bind in Hs2 as [(tr3 & tr4 & b2 & running & -> & Hs2 & Hs3)|(msg & [=] & _)].
  apply steps_lift in Hs2 as [-> Hc]. pose proof Hc as Hc'.
  apply steps_guard_bind in Hc' as [(tr5 & tr6 & x & -> & Hx & Hr)|(msg & [=] & _)].
  apply steps_guard_ret in Hr as [-> [= ->]].
  apply steps_guard_bind in Hx as [(tr7 & tr8 & y & -> & (a & -> & Ha)%steps_spi & Hy)|(msg & [=] & _)].
  apply steps_guard_ret in Hy as [-> _]. exists a, (default 0 (ok_flatten x)).
  split; [exact Hc|]. cbv zeta in *.
  destruct (Z.eqb_spec (Queue.headroom (be_gucs b) (default 0 (ok_flatten x))) 0) as [E|E].
  - left. apply steps_pg_ret in Hs3 as (-> & _ & [= ->]). done.
  - right. split; [done|].
    apply steps_pg_bind in Hs3 as [(tr9 & tr10 & b3 & jobs & -> & Hs3 & Hs4)|(msg & [=] & _)].
    apply steps_lift in Hs3 as [-> Hj].
    apply steps_guard_bind in Hj as [(tr11 & tr12 & z & -> & (c & -> & Hz)%steps_spi & Hj)|(msg & [=] & _)].
    apply steps_guard_ret in Hj as [-> [= ->]].
    apply steps_run_jobs in Hs4 as (-> & trs & -> & Hall).
    exists c, (match z with Ok (_, rows) => omap Queue.read_job rows | Err _ => [] end), trs.
    split; [done|]. split; [|split; [lia|exact Hall]].
    destruct c; simpl in Hz; by simplify_eq.
Qed.
End drain.

(** ** The queue under several sessions *)

Inductive job_status := Queued | Running | Done | Failed.
#[export] Instance job_status_eq : EqDecision job_status.
Proof. solve_decision. Defined.

Record QueueRow := mkQueueRow { q_id : Uuid; q_agent : string; q_input : string; q_status : job_status }.

(** The committed table in the order of enqueueing, and the rows claimed by
    each session in the middle of a drain. *)
Record QueueState := mkQueueState {
  committed : list QueueRow;
  in_flight : gmap nat (list Uuid) }.

Definition locked (st : QueueState) (id : Uuid) : Prop :=
  exists s ids, in_flight st !! s = Some ids /\ id ∈ ids.
#[export] Instance locked_dec st id : Decision (locked st id).
Proof.
  refine (cast_if (decide (map_Exists (fun _ ids => id ∈ ids) (in_flight st)))); unfold locked, map_Exists in *; naive_solver.
Defined.

Definition is_running (r : QueueRow) : Prop := q_status r = Running.
#[export] Instance is_running_dec r : Decision (is_running r).
Proof. unfold is_running. apply _. Defined.

Definition running_rows (rows : list QueueRow) : Z := Z.of_nat (length (filter is_running rows)).

(** The rows a claim may take, in order. *)
Definition claimable (st : QueueState) (r : QueueRow) : Prop :=
  q_status r = Queued /\ ~ locked st (q_id r).
#[export] Instance claimable_dec st r : Decision (claimable st r).
Proof. unfold claimable. apply _. Defined.

Definition drain_claims (g : Gucs) (max_jobs : Z) (st : QueueState) : list Uuid :=
  let room := Queue.headroom g (running_rows (committed st)) in
  if room =? 0 then []
  else take (Z.to_nat (Queue.claim_limit max_jobs room))
         (q_id <$> filter (claimable st) (committed st)).

(** The row a finished job is left with. *)
Definition settle (ids : list Uuid) (ok : Uuid -> bool) (r : QueueRow) : QueueRow :=
  if decide (q_id r ∈ ids)
  then mkQueueRow (q_id r) (q_agent r) (q_input r) (if ok (q_id r) then Done else Failed)
  else r.

Inductive queue_step (g : Gucs) : QueueState -> QueueState -> Prop :=
| step_enqueue st id agent input :
    id ∉ q_id <$> committed st ->
    queue_step g st (mkQueueState (committed st ++ [mkQueueRow id agent input Queued]) (in_flight st))
| step_drain st s max_jobs :
    in_flight st !! s = None -> 0 <= max_jobs ->
    queue_step g st (mkQueueState (committed st) (<[s := drain_claims g max_jobs st]> (in_flight st)))
| step_commit st s ids ok :
    in_flight st !! s = Some ids ->
    queue_step g st (mkQueueState (settle ids ok <$> committed st) (delete s (in_flight st)))
| step_abort st s ids :
    in_flight st !! s = Some ids ->
    queue_step g st (mkQueueState (committed st) (delete s (in_flight st))).

Definition queue_reachable (g : Gucs) : QueueState -> Prop :=
  rtc (queue_step g) (mkQueueState [] ∅).

(** ** The invariant *)

Record queue_inv (st : QueueState) : Prop := {
  inv_ids : NoDup (q_id <$> committed st);
  inv_not_running : Forall (fun r => ~ is_running r) (committed st);
  inv_claims : forall s ids, in_flight st !! s = Some ids ->
    NoDup ids /\ forall id, id ∈ ids -> exists r, r ∈ committed st /\ q_id r = id /\ q_status r = Queued;
  inv_disjoint : forall s1 s2 ids1 ids2 id,
    in_flight st !! s1 = Some ids1 -> in_flight st !! s2 = Some ids2 -> id ∈ ids1 -> id ∈ ids2 ->
    s1 = s2 }.

Lemma settle_id ids ok (rows : list QueueRow) : q_id <$> (settle ids ok <$> rows) = q_id <$> rows.
Proof.
  rewrite <- list_fmap_compose. apply list_fmap_ext. intros i r _. unfold compose, settle.
  by destruct (decide _).
Qed.

Lemma drain_claims_spec g max_jobs st :
  NoDup (q_id <$> committed st) ->
  NoDup (drain_claims g max_jobs st) /\
  forall id, id ∈ drain_claims g max_jobs st ->
    ~ locked st id /\ exists r, r ∈ committed st /\ q_id r = id /\ q_status r = Queued.
Proof.
  intros Hnd. unfold drain_claims. destruct (_ =? 0); [split; [constructor|set_solver]|].
  set (l := q_id <$> filter (claimable st) (committed st)).
  assert (Hl : NoDup l).
  { unfold l. revert Hnd. clear. generalize (committed st) as rows.
    induction rows as [|r rows IH]; [done|]. rewrite fmap_cons, NoDup_cons. intros [Hni Hnd].
    rewrite filter_cons. destruct (decide _); [|by apply IH]. rewrite fmap_cons, NoDup_cons.
    split; [|by apply IH]. intros (x & E & Hx)%list_elem_of_fmap.
    apply list_elem_of_filter in Hx as [_ Hx]. apply Hni. apply list_elem_of_fmap. eauto. }
  split.
  - eapply sublist_NoDup; [exact Hl|]. apply sublist_take.
  - intros id Hid. apply (sublist_subseteq _ l) in Hid; [|apply sublist_take].
    apply list_elem_of_fmap in Hid as (r & -> & Hr).
    apply list_elem_of_filter in Hr as [[Hq Hlk] Hr]. split; [done|]. by exists r.
Qed.

Lemma queue_step_inv g st st' : queue_inv st -> queue_step g st st' -> queue_inv st'.
Proof.
  intros [Hids Hrun Hcl Hdis] Hstep. destruct Hstep as [st id agent input Hid|st s mx Hs Hmx|st s ids ok Hs|st s ids Hs].
  - split; simpl.
    + rewrite fmap_app. apply NoDup_app. split; [done|]. split; [set_solver|]. apply NoDup_singleton.
    + apply Forall_app. split; [done|]. by apply Forall_singleton.
    + intros s ids Hs. destruct (Hcl _ _ Hs) as [Hnd Hq]. split; [done|].
      intros i Hi. destruct (Hq i Hi) as (r & Hr & ?). exists r. split; [set_solver|done].
    + done.
  - destruct (drain_claims_spec g mx st Hids) as [Hnd Hq]. split; simpl; [done|done| |].
    + intros s' ids. rewrite lookup_insert_Some. intros [[<- <-]|[_ Hs']]; [|by eapply Hcl].
      split; [done|]. intros i Hi. by apply Hq.
    + assert (Hno : forall s2 ids2 i, in_flight st !! s2 = Some ids2 -> i ∈ ids2 ->
                    i ∈ drain_claims g mx st -> False).
      { intros s2 ids2 i H2 Hi2 Hi. apply Hq in Hi as [Hl _]. apply Hl. by exists s2, ids2. }
      intros s1 s2 ids1 ids2 i. rewrite !lookup_insert_Some. naive_solver.
  - split; simpl.
    + by rewrite settle_id.
    + apply Forall_fmap. eapply Forall_impl; [exact Hrun|]. intros r Hr. unfold compose, settle.
      destruct (decide _); [|done]. unfold is_running. simpl. by destruct (ok _).
    + intros s' ids'. rewrite lookup_delete_Some. intros [Hne Hs'].
      destruct (Hcl _ _ Hs') as [Hnd Hq]. split; [done|]. intros i Hi.
      destruct (Hq i Hi) as (r & Hr & <- & Hst). exists r. split; [|done].
      apply list_elem_of_fmap. exists r. split; [|done]. unfold settle.
      destruct (decide _) as [Hin|]; [|done]. destruct Hne. by eapply Hdis.
    + intros s1 s2 ids1 ids2 i. rewrite !lookup_delete_Some. naive_solver.
  - split; simpl; [done|done| |].
    + intros s' ids'. rewrite lookup_delete_Some. intros [_ Hs']. by eapply Hcl.
    + intros s1 s2 ids1 ids2 i. rewrite !lookup_delete_Some. naive_solver.
Qed.

Lemma queue_reachable_inv g st : queue_reachable g st -> queue_inv st.
Proof.
  intros Hr. unfold queue_reachable in Hr. remember (mkQueueState [] ∅) as st0 eqn:E.
  assert (queue_inv st0) as Hi.
  { subst. split; simpl; [constructor|constructor| |]; intros; by rewrite lookup_empty in *. }
  clear E. induction Hr as [|? ? ? Hs _ IH]; [done|]. apply IH. by eapply queue_step_inv.
Qed.

Lemma no_running_rows rows : Forall (fun r => ~ is_running r) rows -> running_rows rows = 0.
Proof.
  intros H. unfold running_rows. induction H as [|r rows Hr _ IH]; [done|].
  by rewrite filter_cons, decide_False.
Qed.

(** Rows of distinct ids: a row is known by its id. *)
Lemma fmap_id_inj (rows : list QueueRow) r r' :
  NoDup (q_id <$> rows) -> r ∈ rows -> r' ∈ rows -> q_id r = q_id r' -> r = r'.
Proof.
  induction rows as [|x rows IH]; [set_solver|]. rewrite fmap_cons, NoDup_cons.
  intros [Hni Hnd] [->|Hr]%elem_of_cons [->|Hr']%elem_of_cons E; [done| | |by apply IH].
  - destruct Hni. apply list_elem_of_fmap. eauto.
  - destruct Hni. apply list_elem_of_fmap. eauto.
Qed.

Lemma wrap_i32_id x : I32_MIN <= x <= I32_MAX -> wrap_i32 x = x.
Proof. unfold wrap_i32, I32_MIN, I32_MAX. intros H. rewrite Z.mod_small; lia. Qed.

(** ** Properties of the queue *)

(** C25: A drain that returns either found no room and touched nothing, or
    sent one claim; then every job of the answer was marked, executed once
    and finished with the status of its own envelope, in the order of the
    answer, and the drain returns how many they were. *)
Theorem drain_runs_claims_in_order `{UnicodeTables, Printers, HashOrder, WireLib, DeriveLib,
    FloatPrinter, PgLib} features max_jobs b tr b' n :
  steps (Queue.drain_queue features max_jobs b) tr (b', inl n) ->
  exists a running,
    steps (guard Queue.running_count) [Call (ESpi Queue.RUNNING_SQL []) a] (inl running) /\
    let room := Queue.headroom (be_gucs b) running in
    (room = 0 /\ n = 0 /\ tr = [Call (ESpi Queue.RUNNING_SQL []) a]) \/
    (room <> 0 /\ exists c jobs trs,
       tr = Call (ESpi Queue.RUNNING_SQL []) a
            :: Call (ESpi Queue.CLAIM_SQL [DInt4 (Queue.claim_limit max_jobs room)]) c
            :: concat trs /\
       jobs = (match c with SpiDone _ rows => omap Queue.read_job rows | _ => [] end) /\
       n = Z.of_nat (length jobs) /\ Forall2 (job_trace features) jobs trs).
Proof. apply drain_structure. Qed.

Definition finished (r : QueueRow) : Prop := q_status r = Done \/ q_status r = Failed.

(** C24: However sessions enqueue, drain, commit and abort, a job is in the
    hands of at most one session and is then still queued in the committed
    table; a finished job is never touched again; and the jobs of a drain
    that is lost can be claimed by the next one. *)
Theorem jobs_run_once g st :
  queue_reachable g st ->
  (forall s1 s2 ids1 ids2 id,
     in_flight st !! s1 = Some ids1 -> in_flight st !! s2 = Some ids2 ->
     id ∈ ids1 -> id ∈ ids2 -> s1 = s2) /\
  (forall st' r, queue_step g st st' -> r ∈ committed st -> finished r -> r ∈ committed st') /\
  (forall s ids r, in_flight st !! s = Some ids -> r ∈ committed st -> q_id r ∈ ids ->
     q_status r = Queued /\
     claimable (mkQueueState (committed st) (delete s (in_flight st))) r).
Proof.
  intros [Hids Hrun Hcl Hdis]%queue_reachable_inv.
  assert (Hq : forall s ids r, in_flight st !! s = Some ids -> r ∈ committed st -> q_id r ∈ ids ->
                 q_status r = Queued).
  { intros s ids r Hs Hr Hin. destruct (Hcl s ids Hs) as [_ Hc].
    destruct (Hc _ Hin) as (r' & Hr' & E & Hst). by rewrite (fmap_id_inj _ _ _ Hids Hr Hr' (eq_sym E)). }
  split; [exact Hdis|]. split.
  - intros st' r Hstep Hr Hf. destruct Hstep as [| |st s ids ok Hs|]; simpl; [set_solver|done| |done].
    apply list_elem_of_fmap. exists r. split; [|done]. unfold settle.
    destruct (decide _) as [Hin|]; [|done]. destruct Hf; by rewrite (Hq _ _ _ Hs Hr Hin) in *.
  - intros s ids r Hs Hr Hin. split; [by eapply Hq|]. split; [by eapply Hq|].
    intros (s' & ids' & Hs' & Hin'). simpl in Hs'. apply lookup_delete_Some in Hs' as [Hne Hs'].
    apply Hne. by eapply Hdis.
Qed.

(** The ceiling on concurrent runs does not see other sessions: in every
    reachable state a drain is granted the whole of [max_concurrent_runs],
    however many jobs the other sessions are running. *)
Lemma ceiling_is_per_drain g st max_jobs :
  gucs_admitted g = true -> queue_reachable g st ->
  drain_claims g max_jobs st =
  take (Z.to_nat (Z.min max_jobs (MAX_CONCURRENT_RUNS g)))
    (q_id <$> filter (claimable st) (committed st)).
Proof.
  intros Hg%admitted_ranges [_ Hrun _ _]%queue_reachable_inv. unfold drain_claims, Queue.headroom.
  rewrite (no_running_rows _ Hrun).
  replace (Z.max (MAX_CONCURRENT_RUNS g - 0) 0) with (MAX_CONCURRENT_RUNS g) by lia.
  destruct (Z.eqb_spec (MAX_CONCURRENT_RUNS g) 0); [lia|]. unfold Queue.claim_limit.
  by rewrite wrap_i32_id by (unfold I32_MAX, I32_MIN; lia).
Qed.

(** ** Instances *)

Definition one_at_a_time : Gucs :=
  {| DISABLE_BUILTIN_SQL_TOOLS := false; DEFAULT_LLM_PROFILE_MAIN := None;
     DEFAULT_LLM_PROFILE_SMALL := None; DEFAULT_LLM_PROFILE_JUDGE := None;
     DEFAULT_EMBEDDING_PROFILE := None; DEFAULT_TIMEOUT_MS := 60000; INLINE_TIMEOUT_MS := 2000;
     DEFAULT_TIMEOUT_SECONDS := 60; DEFAULT_MAX_ITERATIONS := 10; DEFAULT_COST_CAP_USD := None;
     TRACE_ENABLED := true; MAX_CONCURRENT_RUNS := 1; SIDECAR_URL := None; WORKER_DATABASE := None;
     WORKER_INTERVAL_MS := 1000; MASTER_KEY := None; COMPRESSION_THRESHOLD_TOKENS := 0;
     DEFAULT_EXECUTOR := None |}.

(** Two jobs and a ceiling of one: two sessions run both at once. *)
Definition two_jobs : list QueueRow := [mkQueueRow 1 "a" "x" Queued; mkQueueRow 2 "a" "y" Queued].
Definition first_drain : QueueState := mkQueueState two_jobs {[0%nat := [1]]}.
Definition both_drain : QueueState := mkQueueState two_jobs (<[1%nat := [2]]> {[0%nat := [1]]}).

Lemma first_drain_reachable : queue_reachable one_at_a_time first_drain.
Proof.
  eapply rtc_l; [apply (step_enqueue _ (mkQueueState [] ∅) 1 "a" "x"); set_solver|].
  eapply rtc_l; [apply (step_enqueue _ (mkQueueState [mkQueueRow 1 "a" "x" Queued] ∅) 2 "a" "y"); simpl; set_solver|].
  eapply rtc_l; [apply (step_drain _ (mkQueueState two_jobs ∅) 0%nat 10); [done|lia]|].
  replace (mkQueueState _ _) with first_drain; [apply rtc_refl|].
  unfold first_drain. f_equal.
Qed.

Lemma both_drain_reachable : queue_reachable one_at_a_time both_drain.
Proof.
  eapply rtc_r; [apply first_drain_reachable|].
  exact (step_drain one_at_a_time first_drain 1%nat 10 eq_refl (Zle_0_pos 10)).
Qed.

Lemma jobs_run_once_witness :
  queue_reachable one_at_a_time both_drain /\
  claimable (mkQueueState two_jobs {[0%nat := [1]]}) (mkQueueRow 2 "a" "y" Queued).
Proof.
  split; [apply both_drain_reachable|].
  destruct (jobs_run_once one_at_a_time both_drain both_drain_reachable) as (_ & _ & Hq).
  destruct (Hq 1%nat [2] (mkQueueRow 2 "a" "y" Queued)) as [_ Hc]; [reflexivity| | |exact Hc].
  - right. left.
  - left.
Defined.

Lemma ceiling_is_per_drain_witness :
  drain_claims one_at_a_time 10 first_drain = [2].
Proof.
  rewrite (ceiling_is_per_drain one_at_a_time first_drain 10).
  - vm_compute. reflexivity.
  - reflexivity.
  - apply first_drain_reachable.
Defined.

(** A queue with one job. *)
Definition drain_answers : list spi_answer :=
  [SpiDone 1 [[DInt8 0]]; SpiDone 1 [[DText "uuid"; DText "agent"; DText "hello"]]; SpiDone 1 []]
  ++ caller_answers.

Lemma drain_runs_claims_in_order_witness :
  exists tr b' running jobs trs,
    steps (Queue.drain_queue [] 10 sample_backend) tr (b', inl 1) /\
    Queue.headroom Gucs_boot running <> 0 /\ length jobs = 1%nat /\ Forall2 (job_trace []) jobs trs.
Proof.
  assert (Hd : option_map snd (pg_run (Queue.drain_queue [] 10 sample_backend) drain_answers)
               = Some (inl 1)) by (vm_compute; reflexivity).
  destruct (pg_run (Queue.drain_queue [] 10 sample_backend) drain_answers) as [[b' r]|] eqn:E;
    [|discriminate Hd].
  injection Hd as ->. destruct (pg_run_steps _ _ _ E) as [tr Htr].
  destruct (drain_runs_claims_in_order [] 10 sample_backend tr b' 1 Htr)
    as (a & running & _ & [(_ & Hn & _)|(Hroom & c & jobs & trs & _ & _ & Hn & Hall)]);
    [discriminate Hn|].
  exists tr, b', running, jobs, trs. split; [exact Htr|]. split; [exact Hroom|]. split; [lia|exact Hall].
Defined.
