(* ===== verification/PgAdminProps.v ===== *)
(** * Properties of the configuration functions and of the triggers

    The cap on an agent's always-on text, run against the tables; the quoting
    of a generated trigger body. *)

From S2P Require Import Prelude.
From S2P Require Import RustStr.
From S2P Require Import F64.
From S2P Require Import Json.
From S2P Require Import Errors.
From S2P Require Import Types.
From S2P Require Import Effects.
From S2P Require Import HarnessText.
From S2P Require Import Traits.
From S2P Require Import LoopHarness.
From S2P Require Import Runtime.
From S2P Require Import StrSlice.
From S2P Require Import Wire.
From S2P Require Import Sample.
From S2P Require Import WireProps.
From S2P Require Import Rows.
From S2P Require Import PgGuc.
From S2P Require Import PgSpi.
From S2P Require Import PgHost.
From S2P Require Import PgExecute.
From S2P Require Import PgExecuteSpec.
From S2P Require Import PgAdmin.
From S2P Require Import PgQueue.
From S2P Require Import PgDatabase.
From S2P Require Import PgSample.

Section props.
Context `{UnicodeTables, Printers, WireLib, PgLib}.

Definition runs {A} (m : pg A) (b : Backend) (d : Tables) (r : A + string) (d' : Tables) : Prop :=
  exists b' stk' s', run (database exec_tables) (m b) (d, []) ExecutorOutcome_default
                     = Some ((b', r), (d', stk'), s').

Lemma exec_always_on agent d :
  exec_tables Admin.ALWAYS_ON_SQL [DText agent] d =
  (match t_agents d !! agent with Some c => SpiDone 1 [columns_row c] | None => SpiDone 0 [] end, d).
Proof. unfold exec_tables, exec_read. by rewrite String.eqb_refl. Qed.

Lemma exec_harness agent d :
  exec_tables HARNESS_SQL [DText agent] d =
  (SpiDone 1 [[DJsonb (extras_to_json (extras_of d agent))]], d).
Proof. unfold exec_tables, exec_read. by rewrite String.eqb_refl. Qed.

Lemma run_load_extras a d stk s :
  run (database exec_tables) (guard (load_harness_extras a)) (d, stk) s =
  Some (inl (Ok (with_extras (extras_of d (ar_name a)) a)), (d, stk), s).
Proof.
  unfold load_harness_extras. rewrite run_guard_bind, run_get_one, exec_harness.
  cbn [fst snd column nth_error pred get_jsonb]. by rewrite read_extras_write.
Qed.

Lemma with_component_name c v a : ar_name (Admin.with_component c v a) = ar_name a.
Proof. unfold Admin.with_component. by repeat case_match. Qed.

(** Reading the length changes nothing and gives the length. *)
Lemma run_always_on agent c v d stk s :
  run (database exec_tables) (guard (Admin.always_on_after agent c v)) (d, stk) s =
  Some (inl (match t_agents d !! agent with
             | Some cols =>
                 Ok (Admin.agent_total
                       (with_extras (extras_of d agent)
                          (Admin.with_component c v (columns_agent agent cols))))
             | None => Err (Admin.no_agent agent)
             end), (d, stk), s).
Proof.
  unfold Admin.always_on_after. rewrite run_guard_bind, run_spi, exec_always_on.
  destruct (t_agents d !! agent) as [cols|]; [|done]. cbn [fst snd spi_outcome].
  rewrite run_guard_bind, run_load_extras, with_component_name, always_on_columns. done.
Qed.

Lemma run_check_always_on agent c v b d stk s :
  run (database exec_tables) (Admin.check_always_on agent c v b) (d, stk) s =
  Some ((b, match t_agents d !! agent with
            | Some cols =>
                let total := Admin.agent_total (with_extras (extras_of d agent)
                               (Admin.with_component c v (columns_agent agent cols))) in
                if ALWAYS_ON_MAX_CHARS <? total then inr (Admin.cap_message agent total) else inl tt
            | None => inr (Admin.no_agent agent)
            end), (d, stk), s).
Proof.
  unfold Admin.check_always_on. rewrite run_pg_bind, run_lift, run_always_on.
  destruct (t_agents d !! agent) as [cols|]; [|done]. unfold Admin.enforce_always_on_cap.
  by destruct (ALWAYS_ON_MAX_CHARS <? _).
Qed.

Lemma run_rebuild b w s :
  exists b', run (database exec_tables) (rebuild_kernel b) w s = Some ((b', inl tt), w, s).
Proof.
  unfold rebuild_kernel. rewrite run_pg_bind. simpl. by eexists.
Qed.

Lemma components_update c :
  existsb (String.eqb c) Admin.COMPONENTS = true ->
  component_update (Admin.set_component_sql c) = Some c.
Proof.
  intros (x & Hin & ->%String.eqb_eq)%existsb_exists. unfold Admin.COMPONENTS in Hin. simpl in Hin.
  repeat (destruct Hin as [<-|Hin]; [reflexivity|]). done.
Qed.

(** The column an update sets is the component that was checked. *)
Lemma set_column_agent agent comp v cols :
  comp <> "critique" -> existsb (String.eqb comp) Admin.COMPONENTS = true ->
  columns_agent agent (set_column comp v cols) =
  Admin.with_component (Some comp) v (columns_agent agent cols).
Proof.
  intros Hne (x & Hin & ->%String.eqb_eq)%existsb_exists. simpl in Hin.
  by repeat (destruct Hin as [<-|Hin]; [|]).
Qed.

Lemma within_of_check d agent cols total :
  t_agents d !! agent = Some cols ->
  Admin.agent_total (with_extras (extras_of d agent) (columns_agent agent cols)) = total ->
  (ALWAYS_ON_MAX_CHARS <? total) = false -> within_cap d agent.
Proof.
  intros Hc <- Hle%Z.ltb_ge. eexists. split; [|exact Hle]. unfold always_on_total. by rewrite Hc.
Qed.

Lemma set_component_capped agent comp v b d d' :
  comp <> "critique" -> runs (Admin.agent_set_component agent comp v) b d (inl tt) d' ->
  within_cap d' agent.
Proof.
  intros Hne (b' & stk' & s' & Hr). unfold Admin.agent_set_component in Hr.
  destruct (existsb _ _) eqn:Hc; [|done].
  destruct (String.eqb comp "system_prompt" && _); [done|].
  rewrite (proj2 (String.eqb_neq comp "critique") Hne) in Hr.
  rewrite run_pg_bind, run_check_always_on in Hr.
  destruct (t_agents d !! agent) as [cols|] eqn:Ha; [|done]. cbv zeta in Hr.
  destruct (ALWAYS_ON_MAX_CHARS <? _) eqn:Hcap; [done|].
  rewrite run_pg_bind, run_lift, run_spi in Hr.
  replace (exec_tables _ _ d) with
    (SpiDone 1 [], set_agents (insert agent (set_column comp v cols)) d) in Hr; last first.
  { unfold exec_tables, exec_write. rewrite components_update by done.
    rewrite Ha. by destruct v. }
  cbn [spi_outcome fst snd Admin.processed_or_zero Z.eqb] in Hr.
  destruct (run_rebuild b (set_agents (insert agent (set_column comp v cols)) d, [])
    ExecutorOutcome_default) as [b2 Hb]. rewrite Hb in Hr. simplify_eq.
  eapply within_of_check; [by apply lookup_insert_eq| |exact Hcap].
  by rewrite set_column_agent.
Qed.

Lemma checked_after_write agent b d stk s b' d' stk' s' :
  run (database exec_tables) (Admin.check_always_on agent None None b) (d, stk) s =
    Some ((b', inl tt), (d', stk'), s') ->
  d' = d /\ within_cap d agent.
Proof.
  rewrite run_check_always_on. destruct (t_agents d !! agent) as [cols|] eqn:Ha; [|done].
  cbv zeta. destruct (ALWAYS_ON_MAX_CHARS <? _) eqn:Hcap; [done|]. intros [= <- <- <- <-].
  split; [done|]. by eapply within_of_check.
Qed.

Lemma skill_set_capped agent name description body b d d' :
  runs (Admin.skill_set agent name description body) b d (inl tt) d' -> within_cap d' agent.
Proof.
  intros (b' & stk' & s' & Hr). unfold Admin.skill_set in Hr.
  destruct (is_blank description || is_blank body); [done|].
  rewrite run_pg_bind, run_lift, run_spi_run in Hr.
  destruct (exec_tables _ _ d) as [[n rows|e|msg] d1]; cbn [run_outcome_of fst snd] in Hr; try done.
  rewrite run_pg_bind, run_lift, run_always_on in Hr.
  destruct (t_agents d1 !! agent) as [cols|] eqn:Ha; [|done].
  destruct (ALWAYS_ON_MAX_CHARS <? _) eqn:Hcap.
  - rewrite !run_pg_bind, run_lift, run_spi_run in Hr. unfold Admin.enforce_always_on_cap in Hr.
    rewrite Hcap in Hr. by destruct (exec_tables _ _ d1) as [[n'' rows''|e''|msg''] d2].
  - rewrite run_pg_bind in Hr.
    destruct (run_rebuild b (d1, []) ExecutorOutcome_default) as [b2 Hb]. simpl in Hr, Hb.
    simplify_eq. by eapply within_of_check.
Qed.

Lemma lesson_add_capped agent cue lesson evidence confidence source i b d d' :
  runs (Admin.lesson_add agent cue lesson evidence confidence source) b d (inl i) d' ->
  within_cap d' agent.
Proof.
  intros (b' & stk' & s' & Hr). unfold Admin.lesson_add in Hr.
  destruct (is_blank cue || is_blank lesson || is_blank evidence); [done|].
  rewrite run_pg_bind, run_lift, run_get_one in Hr. revert Hr.
  set (r := match (exec_tables _ _ d).1 with SpiDone _ _ => _ | SpiErr _ => _ | SpiRaised _ => _ end).
  set (d1 := (exec_tables _ _ d).2). destruct r as [r|msg]; [|done].
  destruct r as [[id|]|e]; cbn [Admin.returned_id]; rewrite run_pg_bind; [|done..].
  change (run _ ((mret id : pg Z) b) _ _) with (Some ((b, inl id : Z + string), (d1, [] : list Tables), ExecutorOutcome_default)).
  cbv iota beta. rewrite run_pg_bind.
  destruct (run _ (Admin.check_always_on _ _ _ b) _ _) as [[[[b2 [[]|msg]] [d2 stk2]] s2]|] eqn:Hc; try done.
  apply checked_after_write in Hc as [-> Hw]. rewrite run_pg_bind.
  destruct (run_rebuild b2 (d1, stk2) s2) as [b3 ->]. simpl. by intros [= _ _ <- _ _].
Qed.

(** C23: A write of an always-on component, of a skill or of a lesson that
    goes through leaves the always-on text of its agent within the cap, as
    the next run will compose it; a write over the cap raises. *)
Theorem always_on_cap_kept agent b d d' :
  (forall component v, component <> "critique" ->
     runs (Admin.agent_set_component agent component v) b d (inl tt) d' -> within_cap d' agent) /\
  (forall name description body,
     runs (Admin.skill_set agent name description body) b d (inl tt) d' -> within_cap d' agent) /\
  (forall cue lesson evidence confidence source i,
     runs (Admin.lesson_add agent cue lesson evidence confidence source) b d (inl i) d' ->
     within_cap d' agent).
Proof.
  split_and!; intros.
  - by eapply set_component_capped.
  - by eapply skill_set_capped.
  - by eapply lesson_add_capped.
Qed.
End props.

(** ** Instances *)

Definition refund_tables : Tables :=
  set_skills "agent" (upsert_skill (mkSkill "refunds" "a refund is asked for" "check the order"))
    sample_tables.

Lemma always_on_cap_kept_witness :
  runs (Admin.skill_set "agent" "refunds" "a refund is asked for" "check the order")
    sample_backend sample_tables (inl tt) refund_tables /\
  within_cap refund_tables "agent".
Proof.
  assert (Hr : runs (Admin.skill_set "agent" "refunds" "a refund is asked for" "check the order")
                 sample_backend sample_tables (inl tt) refund_tables).
  { unfold runs. eexists _, _, _. vm_compute. reflexivity. }
  split; [exact Hr|].
  destruct (always_on_cap_kept "agent" sample_backend sample_tables refund_tables) as (_ & Hk & _).
  by eapply Hk.
Defined.

(** ** Properties of the trigger statements *)

(** ** Dollar quoting *)

(** A tag can only start inside a text that ends with a character which is
    not of the tag. *)
Lemma prefix_inside p t c :
  (forall x y, p <> x +:+ String c y) ->
  String.prefix p (t +:+ String c "" +:+ p) = true -> String.prefix p t = true.
Proof.
  revert p. intros p Hc Hp. apply prefix_spec in Hp as [b Hb]. apply prefix_spec.
  assert (Hgen : forall q t, (forall x y, q <> x +:+ String c y) ->
            t +:+ String c "" +:+ p = q +:+ b -> exists r, t = q +:+ r).
  { clear. induction q as [|x q IH]; intros t Hq E; [by exists t|].
    destruct t as [|y t]; simpl in E.
    - injection E as -> _. by destruct (Hq "" q).
    - injection E as -> E. destruct (IH t) as [r ->]; [|done|by exists r].
      intros u v ->. by apply (Hq (String x u) v). }
  by apply (Hgen p t).
Qed.

Lemma read_dollar_none tag a s :
  String.prefix tag (String a s) = false ->
  read_dollar tag (String a s) = (fun r => (String a r.1, r.2)) <$> read_dollar tag s.
Proof. intros Hp. cbn [read_dollar]. by rewrite strip_prefix_none. Qed.

Lemma read_dollar_tag tag : read_dollar tag tag = Some ("", "").
Proof.
  pose proof (strip_prefix_app tag "") as E. rewrite str_app_nil in E.
  destruct tag; cbn [read_dollar]; by rewrite E.
Qed.

(** A text without the tag is read whole. *)
Lemma read_dollar_whole tag t c :
  (forall x y, tag <> x +:+ String c y) ->
  contains (t +:+ String c "") tag = false ->
  read_dollar tag ((t +:+ String c "") +:+ tag) = Some (t +:+ String c "", "").
Proof.
  intros Hc. induction t as [|a t IH]; intros Hno.
  - change (("" +:+ String c "") +:+ tag) with (String c tag).
    rewrite read_dollar_none.
    + by rewrite read_dollar_tag.
    + destruct (String.prefix tag (String c tag)) eqn:E; [|done].
      apply (prefix_inside tag "" c Hc) in E. destruct tag as [|x tag]; [|done].
      by rewrite contains_unfold in Hno.
  - change ((String a t +:+ String c "") +:+ tag) with (String a ((t +:+ String c "") +:+ tag)).
    change (String a t +:+ String c "") with (String a (t +:+ String c "")) in *.
    rewrite contains_unfold, orb_false_iff in Hno. destruct Hno as [Hp Hno].
    rewrite read_dollar_none, IH; [done|done|].
    destruct (String.prefix tag (String a ((t +:+ String c "") +:+ tag))) eqn:E; [|done].
    rewrite <- str_app_assoc in E. apply (prefix_inside tag (String a t) c Hc) in E.
    apply prefix_spec in E as [b Eb].
    assert (String.prefix tag (String a (t +:+ String c "")) = true); [|congruence].
    apply prefix_spec. exists (b +:+ String c "").
    change (String a (t +:+ String c "")) with (String a t +:+ String c "").
    by rewrite Eb, str_app_assoc.
Qed.

(** A text with the tag inside is cut, and something is left over. *)
Lemma read_dollar_cut tag t :
  tag <> "" -> contains t tag = true ->
  exists x rest, read_dollar tag (t +:+ tag) = Some (x, rest) /\ rest <> "".
Proof.
  intros Ht. induction t as [|a t IH]; intros Hc.
  - rewrite contains_unfold, orb_false_r, prefix_spec in Hc. destruct Hc as [b Hb].
    by destruct tag.
  - change (String a t +:+ tag) with (String a (t +:+ tag)).
    destruct (String.prefix tag (String a (t +:+ tag))) eqn:E.
    + pose proof E as Hp. apply prefix_spec in E as [b Eb]. exists "", b. split.
      * rewrite Eb. destruct (tag +:+ b) eqn:Etb; [by destruct tag|].
        rewrite <- Etb. pose proof (strip_prefix_app tag b) as Es. rewrite Etb in Es.
        rewrite Etb. cbn [read_dollar]. by rewrite Es.
      * intros ->. rewrite str_app_nil in Eb.
        assert (String.length (String a (t +:+ tag)) = String.length tag) as El by by rewrite Eb.
        simpl in El. rewrite length_str_app in El. lia.
    + rewrite read_dollar_none by done. rewrite contains_unfold, orb_true_iff in Hc.
      destruct Hc as [Hp|Hc].
      * apply prefix_spec in Hp as [b Eb].
        assert (String.prefix tag (String a (t +:+ tag)) = true); [|congruence].
        apply prefix_spec. exists (b +:+ tag).
        change (String a (t +:+ tag)) with (String a t +:+ tag). by rewrite Eb, str_app_assoc.
      * destruct (IH Hc) as (x & rest & -> & Hr). by exists (String a x), rest.
Qed.

(** ** The lines of a body *)

Lemma join_line sep l1 l2 :
  exists before after, forall x, join sep (l1 ++ x :: l2) = before +:+ (x +:+ after).
Proof.
  induction l1 as [|y l1 (before & after & IH)].
  - exists "", (match l2 with [] => "" | _ => sep +:+ join sep l2 end). intros x.
    destruct l2; [by rewrite str_app_nil|done].
  - exists (y +:+ (sep +:+ before)), after. intros x.
    transitivity (y +:+ (sep +:+ join sep (l1 ++ x :: l2))).
    { unfold join. destruct l1; reflexivity. }
    by rewrite IH, <- !str_app_assoc.
Qed.

Lemma join_last sep l x : exists before, join sep (l ++ [x]) = before +:+ x.
Proof.
  induction l as [|y l [before IH]]; [by exists ""|]. exists (y +:+ (sep +:+ before)).
  transitivity (y +:+ (sep +:+ join sep (l ++ [x]))); [by destruct l|].
  by rewrite IH, <- !str_app_assoc.
Qed.

Lemma body_ends mode table agent expr : exists u, Trigger.body mode table agent expr = u +:+ ";".
Proof.
  assert (H : forall l, exists u, join Trigger.nl (l ++ ["END;"]) = u +:+ ";").
  { intros l. destruct (join_last Trigger.nl l "END;") as [u ->]. exists (u +:+ "END").
    by rewrite <- str_app_assoc. }
  unfold Trigger.body. destruct (String.eqb mode "inline").
  - exact (H (take 48 (Trigger.inline_lines agent expr))).
  - exact (H (take 11 (Trigger.queue_lines table agent expr))).
Qed.

(** A line that holds the agent's literal between plain text. *)
Lemma literal_in_line sep l1 l2 p q :
  head_is "'" q = false -> q <> "" ->
  exists before after, forall agent, exists tail,
    join sep (l1 ++ (p +:+ (Trigger.agent_lit agent +:+ q)) :: l2) = before +:+ String "'" tail /\
    read_quoted "'" tail = Some (agent, after).
Proof.
  intros Hq Hne. destruct (join_line sep l1 l2) as (before & after & E).
  exists (before +:+ p), (q +:+ after). intros agent.
  exists (Trigger.double_quotes agent +:+ String "'" (q +:+ after)). split.
  - rewrite E. unfold Trigger.agent_lit. by rewrite <- !str_app_assoc.
  - apply read_double. by destruct q.
Qed.

(** ** Attaching an agent *)

(** C29: The trigger's body names the agent exactly, whatever characters its
    name has: at a place that does not depend on the name stands a string
    constant that reads back to it.  Postgres reads the body whole if and only
    if it does not contain the dollar tag; a name that does ends the function
    early, and what follows is read as SQL. *)
Theorem trigger_body_quoting mode table expr :
  (exists before after, forall agent, exists tail,
     Trigger.body mode table agent expr = before +:+ String "'" tail /\
     read_quoted "'" tail = Some (agent, after)) /\
  (forall agent, let text := Trigger.body mode table agent expr in
     if contains text Trigger.TAG
     then exists x rest, read_dollar Trigger.TAG (text +:+ Trigger.TAG) = Some (x, rest) /\ rest <> ""
     else read_dollar Trigger.TAG (text +:+ Trigger.TAG) = Some (text, "")).
Proof.
  split.
  - unfold Trigger.body. destruct (String.eqb mode "inline").
    + exact (literal_in_line Trigger.nl (take 12 (Trigger.inline_lines "" expr))
               (drop 13 (Trigger.inline_lines "" expr)) "  _res := synapse.execute("
               (", (" +:+ (expr +:+ ")::text);")) eq_refl ltac:(done)).
    + exact (literal_in_line Trigger.nl (take 6 (Trigger.queue_lines table "" expr))
               (drop 7 (Trigger.queue_lines table "" expr)) "    " "," eq_refl ltac:(done)).
  - intros agent text. destruct (contains text Trigger.TAG) eqn:Hc.
    + by apply read_dollar_cut.
    + destruct (body_ends mode table agent expr) as [u Hu]. unfold text in *. rewrite Hu in *.
      apply read_dollar_whole; [|done]. intros x y E.
      assert (H : contains Trigger.TAG ";" = true) by (apply contains_spec; by exists x, y).
      by vm_compute in H.
Qed.

(** Tables whose names differ share a function: the second attachment
    replaces the body of the first. *)
Example trigger_names_collide :
  Trigger.fn_name "a.b_c" = Trigger.fn_name "a_b.c" /\
  Trigger.fn_name "a.b_c" = "synapse_trig_a_b_c".
Proof. split; reflexivity. Qed.
