(* ===== verification/Sidecar.v ===== *)
(** * The sidecar ([crates/pg-synapse-sidecar/src/main.rs], [api.rs])

    An HTTP service that runs agents against a database it connects to.  A
    handler is a program of its typed request body; the runtime it is given
    is the one the lock holds when it asks for it.  Routing, the extraction of
    bodies and paths and the log are those of the web framework. *)

From S2P Require Import Prelude.
From S2P Require Import RustStr.
From S2P Require Import F64.
From S2P Require Import Json.
From S2P Require Import Errors.
From S2P Require Import Types.
From S2P Require Import Effects.
From S2P Require Import Traits.
From S2P Require Import Registry.
From S2P Require Import LoopHarness.
From S2P Require Import Runtime.
From S2P Require Import Builder.
From S2P Require Import Wire.
From S2P Require Import ToolInput.
From S2P Require Import ToolsDelegate.
From S2P Require Import ToolsBasic.
From S2P Require Import ToolsLoad.
From S2P Require Import ToolsWeb.
From S2P Require Import ToolsLede.
From S2P Require Import Providers.
From S2P Require Import Sqlx.

Module Service.

(** ** Requests and responses ([api.rs]) *)

Record ExecuteRequest := mkExecuteRequest {
  ex_agent : string; ex_input : string; ex_caller_role : option string }.
Record EmbedRequest := mkEmbedRequest { em_text : string; em_profile : option string }.
Record ToolCallRequest := mkToolCallRequest {
  tc_tool : string; tc_input : json; tc_caller_role : option string }.
Record AdminAgentRequest := mkAdminAgentRequest {
  aa_name : string; aa_system_prompt : string; aa_soul : option string;
  aa_executor_name : option string; aa_llm_profile_main : option string;
  aa_llm_profile_small : option string; aa_llm_profile_judge : option string;
  aa_embedding_profile : option string; aa_tools : option (list string);
  aa_max_iterations : option Z; aa_timeout_ms : option Z; aa_cost_cap_usd : option f64 }.
Record AdminLlmProfileRequest := mkAdminLlmProfileRequest {
  al_name : string; al_provider : string; al_model : string;
  al_api_key_secret : option string; al_base_url : option string; al_params : option json }.
Record AdminEmbeddingProfileRequest := mkAdminEmbeddingProfileRequest {
  ae_name : string; ae_provider : string; ae_model : string; ae_dimension : Z;
  ae_api_key_secret : option string; ae_base_url : option string; ae_params : option json }.
Record AdminSecretRequest := mkAdminSecretRequest { as_name : string; as_value : string }.
Record AdminToolRequest := mkAdminToolRequest {
  at_name : string; at_description : option string; at_schema_json : json;
  at_kind : option string; at_config : option json }.

Record Response := mkResponse { status : Z; body : json }.

Definition OK : Z := 200.
Definition ACCEPTED : Z := 202.
Definition UNAUTHORIZED : Z := 401.
Definition NOT_FOUND : Z := 404.
Definition INTERNAL_SERVER_ERROR : Z := 500.
Definition SERVICE_UNAVAILABLE : Z := 503.

Definition err_json (st : Z) (msg : string) : Response :=
  mkResponse st (json_object [("error", JString msg)]).

(** ** The admin token *)

Definition bytes (s : string) : list Z := map byte_of (String.list_ascii_of_string s).

(** The difference is a [u8]. *)
Definition constant_time_eq (a b : list Z) : bool :=
  let la := Z.of_nat (length a) in
  let lb := Z.of_nat (length b) in
  let diff := Z.land (Z.lxor la lb) 255 in
  fold_left (fun diff i => Z.lor diff (Z.lxor (default 0 (a !! i)) (default 0 (b !! i))))
    (seq 0 (Nat.max (length a) (length b))) diff =? 0.

Definition ADMIN_DISABLED : string :=
  "admin endpoints are disabled: start sidecar with --admin-token".
Definition ADMIN_REFUSED : string := "invalid or missing X-PG-Synapse-Admin-Token".

(** [header] is the text of the header, if it is there and is text. *)
Definition check_admin_token (header admin_token : option string) : result unit Response :=
  match admin_token with
  | None => Err (err_json SERVICE_UNAVAILABLE ADMIN_DISABLED)
  | Some token =>
      let provided := default "" header in
      if constant_time_eq (bytes provided) (bytes token) then Ok tt
      else Err (err_json UNAUTHORIZED ADMIN_REFUSED)
  end.

(** ** The runtime ([main.rs]) *)

Record Variables := mkVariables {
  PG_SYNAPSE_LEDE_CLI : option string;
  PG_LEXICON_BASE_URL : option string;
  PG_LEXICON_TOKEN : option string }.

Section sidecar.
Context `{UnicodeTables, Printers, HashOrder, WireLib, DeriveLib, FloatPrinter, SqlxLib, ClockLib,
  AlphaTable, LoadLib}.

(** The plugin of the file tools, unless their root cannot be opened, and the
    variables of the environment. *)
Context (fs_plugin : option Plugin) (vars : Variables).

Definition lexicon_base : string := default "http://127.0.0.1:9777" (PG_LEXICON_BASE_URL vars).

(** The tool [call_agent] shares the cell its handle is put into after the
    runtime was built. *)
Definition sidecar_builder (delegate_tool : CallAgentTool) : RuntimeBuilder :=
  let b := with_plugin (SqlToolsPlugin (SqlxSqlExecutor None))
             (with_plugin OpenAiProviderFactory builder) in
  let b := match fs_plugin with Some p => with_plugin p b | None => b end in
  let b := with_plugin (LedeToolsPlugin (PG_SYNAPSE_LEDE_CLI vars)) b in
  let b := with_plugin CalcToolsPlugin b in
  let b := with_plugin ClockToolsPlugin b in
  let b := with_plugin (LexiconToolsPlugin lexicon_base (PG_LEXICON_TOKEN vars)) b in
  let b := with_plugin (DelegateToolsPlugin delegate_tool) b in
  load_profiles_from (SqlxProfileSource None) b.

Definition build_runtime : prog (result Runtime RuntimeError) :=
  build (sidecar_builder (inject (Some shared_runtime) empty)).

Record AppState := mkAppState { runtime : Runtime; admin_token : option string }.

(** What is left of the state after a rebuild: a failed one changes nothing. *)
Definition rebuild_runtime (st : AppState) : prog (result AppState RuntimeError) :=
  r ← build_runtime;
  mret (match r with
        | Ok rt => Ok (mkAppState rt (admin_token st))
        | Err e => Err e
        end).

(** ** Handlers *)

Definition health_handler : Response :=
  mkResponse OK (json_object [("status", JString "ok")]).
Definition version_handler : Response :=
  mkResponse OK (json_object [("version", JString CARGO_PKG_VERSION)]).

Definition runtime_error (e : RuntimeError) : Response :=
  err_json INTERNAL_SERVER_ERROR (RuntimeError_to_string fmt_f64 e).

Definition execute_handler (rt : Runtime) (b : ExecuteRequest) : prog Response :=
  r ← execute_with_caller rt (ex_agent b) (ex_input b) (ex_caller_role b);
  mret (match r with
        | Ok o =>
            mkResponse OK (json_object
              [("output", JString (out_output o));
               ("tokens_in", json_u64 (out_tokens_in o));
               ("tokens_out", json_u64 (out_tokens_out o));
               ("cost_usd", json_option json_f64 (out_cost_usd o));
               ("duration_ms", json_u64 (out_duration_ms o))])
        | Err e => runtime_error e
        end).

Definition ENQUEUE_SQL : string :=
  "INSERT INTO synapse.executions (execution_id, agent_name, input, status, caller_role) VALUES ($1, $2, $3, 'queued', $4)".
Definition SETTLE_SQL : string :=
  "UPDATE synapse.executions SET status=$1, output=$2, tokens_in=$3, tokens_out=$4, cost_usd=$5::numeric, finished_at=now(), duration_ms=EXTRACT(EPOCH FROM (now()-started_at))*1000 WHERE execution_id=$6".

Definition opt_text (o : option string) : datum :=
  match o with Some s => DText s | None => DNull TText end.

(** Status, output, tokens and cost of the row. *)
Definition settled (r : result ExecutorOutcome RuntimeError)
  : string * option string * Z * Z * option f64 :=
  match r with
  | Ok o => ("completed", Some (out_output o), out_tokens_in o, out_tokens_out o, out_cost_usd o)
  | Err e => ("failed", Some (RuntimeError_to_string fmt_f64 e), 0, 0, None)
  end.

Definition settle_args (id : Uuid) (s : string * option string * Z * Z * option f64) : list datum :=
  let '(st, output, tokens_in, tokens_out, cost) := s in
  [DText st; opt_text output; DInt8 tokens_in; DInt8 tokens_out; opt_text (fmt_f64 <$> cost); DUuid id].

(** The spawned task, on the runtime it finds. *)
Definition async_task (id : Uuid) (b : ExecuteRequest) (rt : Runtime) : prog unit :=
  r ← execute_with_caller rt (ex_agent b) (ex_input b) (ex_caller_role b);
  _ ← perform (ESqlx None SETTLE_SQL (settle_args id (settled r)));
  mret tt.

(** The reply, and the task if one was spawned. *)
Definition execute_async_handler (b : ExecuteRequest)
  : prog (Response * option (Runtime -> prog unit)) :=
  id ← perform EUuid;
  r ← perform (ESqlx None ENQUEUE_SQL
        [DUuid id; DText (ex_agent b); DText (ex_input b); opt_text (ex_caller_role b)]);
  mret (match r with
        | Err e => (err_json INTERNAL_SERVER_ERROR e, None)
        | Ok _ =>
            (mkResponse ACCEPTED (json_object [("execution_id", JString (fmt_uuid id))]),
             Some (async_task id b))
        end).

Definition SIDECAR_STATUS_SQL : string :=
  "SELECT execution_id, agent_name, status, output, tokens_in, tokens_out, cost_usd::text as cost_usd_text, started_at, finished_at FROM synapse.executions WHERE execution_id = $1".

(** [.unwrap_or(d)] *)
Definition or_default {A} (d : A) (r : result A string) : A :=
  match r with Ok a => a | Err _ => d end.

Definition status_body (id : Uuid) (r : PgRow) : json :=
  json_object
    [("execution_id", JString (fmt_uuid id));
     ("status", JString (or_default "" (try_get v_text "status" r)));
     ("output", json_option JString (or_default None (try_get_opt v_text "output" r)));
     ("tokens_in", json_i64 (or_default 0 (try_get v_i32 "tokens_in" r)));
     ("tokens_out", json_i64 (or_default 0 (try_get v_i32 "tokens_out" r)));
     ("cost_usd", json_option json_f64
                    (or_default None (try_get_opt v_text "cost_usd_text" r) ≫= parse_f64))].

Definition status_handler (id : Uuid) : prog Response :=
  r ← perform (ESqlx None SIDECAR_STATUS_SQL [DUuid id]);
  mret (match r with
        | Err e => err_json INTERNAL_SERVER_ERROR e
        | Ok (_, []) => err_json NOT_FOUND ("execution " +:+ fmt_uuid id +:+ " not found")
        | Ok (_, row :: _) => mkResponse OK (status_body id row)
        end).

Definition embed_handler (rt : Runtime) (b : EmbedRequest) : prog Response :=
  r ← Runtime.embed rt (em_text b) (em_profile b);
  mret (match r with
        | Ok v =>
            mkResponse OK (json_object
              [("vector", JArray (map (fun f => json_f64 (f64_of_f32 f)) v));
               ("dimension", json_u64 (Z.of_nat (length v)))])
        | Err e => runtime_error e
        end).

(** A panic of the tool ends the task of the connection. *)
Definition tool_call_handler (rt : Runtime) (b : ToolCallRequest) : prog (Response + panic_payload) :=
  r ← call_tool rt (tc_tool b) (tc_input b) (tc_caller_role b);
  mret (match r with
        | inl (Ok out) => inl (mkResponse OK (json_object [("output", out)]))
        | inl (Err e) => inl (runtime_error e)
        | inr p => inr p
        end).

(** ** Administration *)

(** The write of a checked request, the rebuild, whose failure is only
    logged, and the reply. *)
Definition admin_write (st : AppState) (name sql : string) (args : list datum)
  : prog (Response * AppState) :=
  r ← perform (ESqlx None sql args);
  match r with
  | Err e => mret (err_json INTERNAL_SERVER_ERROR e, st)
  | Ok _ =>
      rebuilt ← rebuild_runtime st;
      mret (mkResponse OK (json_object [("ok", JBool true); ("name", JString name)]),
            match rebuilt with Ok st' => st' | Err _ => st end)
  end.

Definition checked (header : option string) (st : AppState) (k : prog (Response * AppState))
  : prog (Response * AppState) :=
  match check_admin_token header (admin_token st) with
  | Err r => mret (r, st)
  | Ok tt => k
  end.

Definition ADMIN_AGENT_SQL : string :=
  "INSERT INTO synapse.agents (name, system_prompt, soul, executor_name, llm_profile_main, llm_profile_small, llm_profile_judge, embedding_profile, tools, max_iterations, timeout_ms, cost_cap_usd) VALUES ($1,$2,$3,$4,$5,$6,$7,$8,$9,$10,$11,$12::numeric) ON CONFLICT (name) DO UPDATE SET system_prompt=EXCLUDED.system_prompt, soul=EXCLUDED.soul, executor_name=EXCLUDED.executor_name, llm_profile_main=EXCLUDED.llm_profile_main, llm_profile_small=EXCLUDED.llm_profile_small, llm_profile_judge=EXCLUDED.llm_profile_judge, embedding_profile=EXCLUDED.embedding_profile, tools=EXCLUDED.tools, max_iterations=EXCLUDED.max_iterations, timeout_ms=EXCLUDED.timeout_ms, cost_cap_usd=EXCLUDED.cost_cap_usd, updated_at=now()".

Definition admin_agent_handler (header : option string) (st : AppState) (b : AdminAgentRequest)
  : prog (Response * AppState) :=
  checked header st
    (admin_write st (aa_name b) ADMIN_AGENT_SQL
       [DText (aa_name b); DText (aa_system_prompt b); opt_text (aa_soul b);
        DText (default "conversation" (aa_executor_name b)); opt_text (aa_llm_profile_main b);
        opt_text (aa_llm_profile_small b); opt_text (aa_llm_profile_judge b);
        opt_text (aa_embedding_profile b); DTextArray (default [] (aa_tools b));
        DInt4 (default 10 (aa_max_iterations b)); DInt8 (default 60000 (aa_timeout_ms b));
        opt_text (fmt_f64 <$> aa_cost_cap_usd b)]).

Definition ADMIN_LLM_SQL : string :=
  "INSERT INTO synapse.llm_profiles (name, provider, model, api_key_secret, base_url, params) VALUES ($1,$2,$3,$4,$5,$6) ON CONFLICT (name) DO UPDATE SET provider=EXCLUDED.provider, model=EXCLUDED.model, api_key_secret=EXCLUDED.api_key_secret, base_url=EXCLUDED.base_url, params=EXCLUDED.params, updated_at=now()".

Definition admin_llm_profile_handler (header : option string) (st : AppState)
    (b : AdminLlmProfileRequest) : prog (Response * AppState) :=
  checked header st
    (admin_write st (al_name b) ADMIN_LLM_SQL
       [DText (al_name b); DText (al_provider b); DText (al_model b);
        opt_text (al_api_key_secret b); opt_text (al_base_url b);
        DJsonb (default (JObject []) (al_params b))]).

Definition ADMIN_EMBEDDING_SQL : string :=
  "INSERT INTO synapse.embedding_profiles (name, provider, model, dimension, api_key_secret, base_url, params) VALUES ($1,$2,$3,$4,$5,$6,$7) ON CONFLICT (name) DO UPDATE SET provider=EXCLUDED.provider, model=EXCLUDED.model, dimension=EXCLUDED.dimension, api_key_secret=EXCLUDED.api_key_secret, base_url=EXCLUDED.base_url, params=EXCLUDED.params, updated_at=now()".

Definition admin_embedding_profile_handler (header : option string) (st : AppState)
    (b : AdminEmbeddingProfileRequest) : prog (Response * AppState) :=
  checked header st
    (admin_write st (ae_name b) ADMIN_EMBEDDING_SQL
       [DText (ae_name b); DText (ae_provider b); DText (ae_model b); DInt4 (ae_dimension b);
        opt_text (ae_api_key_secret b); opt_text (ae_base_url b);
        DJsonb (default (JObject []) (ae_params b))]).

Definition ADMIN_SECRET_SQL : string :=
  "INSERT INTO synapse.secrets (name, value) VALUES ($1, $2) ON CONFLICT (name) DO UPDATE SET value=EXCLUDED.value, updated_at=now()".

Definition admin_secret_handler (header : option string) (st : AppState) (b : AdminSecretRequest)
  : prog (Response * AppState) :=
  checked header st
    (admin_write st (as_name b) ADMIN_SECRET_SQL [DText (as_name b); DText (as_value b)]).

Definition ADMIN_TOOL_SQL : string :=
  "INSERT INTO synapse.tools (name, description, schema_json, kind, config) VALUES ($1,$2,$3,$4,$5) ON CONFLICT (name) DO UPDATE SET description=EXCLUDED.description, schema_json=EXCLUDED.schema_json, kind=EXCLUDED.kind, config=EXCLUDED.config".

Definition admin_tool_handler (header : option string) (st : AppState) (b : AdminToolRequest)
  : prog (Response * AppState) :=
  checked header st
    (admin_write st (at_name b) ADMIN_TOOL_SQL
       [DText (at_name b); opt_text (at_description b); DJsonb (at_schema_json b);
        DText (default "external" (at_kind b)); DJsonb (default (JObject []) (at_config b))]).
End sidecar.
End Service.
