(* ===== verification/SidecarProps.v ===== *)
(** * Properties of the sidecar

    Who may administer it, what an asynchronous run leaves behind, and what
    its own installation script makes of the configuration it reads. *)

From S2P Require Import Prelude.
From S2P Require Import RustStr.
From S2P Require Import F64.
From S2P Require Import Json.
From S2P Require Import NumText.
From S2P Require Import Errors.
From S2P Require Import Types.
From S2P Require Import HarnessText.
From S2P Require Import Effects.
From S2P Require Import Traits.
From S2P Require Import Registry.
From S2P Require Import LoopHarness.
From S2P Require Import Runtime.
From S2P Require Import Builder.
From S2P Require Import Wire.
From S2P Require Import ToolInput.
From S2P Require Import ToolsDelegate.
From S2P Require Import ToolsBasic.
From S2P Require Import Sqlx.
From S2P Require Import PgSpi.
From S2P Require Import PgExecute.
From S2P Require Import ToolsLoad.
From S2P Require Import ToolsLede.
From S2P Require Import Sidecar.
From S2P Require Import Sample.
From S2P Require Import RuntimeProps.
From S2P Require Import WireProps.
From S2P Require Import PgSample.
Import Service.

(** ** The comparison of tokens *)

Lemma fold_lor_zero {A} (f : A -> Z) l d :
  fold_left (fun d i => Z.lor d (f i)) l d = 0 <-> d = 0 /\ Forall (fun i => f i = 0) l.
Proof.
  revert d. induction l as [|i l IH]; intros d; simpl; [rewrite Forall_nil; tauto|].
  rewrite IH, Z.lor_eq_0_iff, Forall_cons. naive_solver.
Qed.

(** Equal as texts that zero bytes continue, and of lengths that differ in no
    bit of their last byte. *)
Lemma constant_time_eq_spec a b :
  constant_time_eq a b = true <->
  Z.land (Z.lxor (Z.of_nat (length a)) (Z.of_nat (length b))) 255 = 0 /\
  forall i, default 0 (a !! i) = default 0 (b !! i).
Proof.
  unfold constant_time_eq. rewrite Z.eqb_eq, fold_lor_zero. f_equiv. rewrite Forall_forall.
  split.
  - intros Hi i. destruct (decide (i < Nat.max (length a) (length b))%nat) as [Hlt|Hge].
    + apply Z.lxor_eq, Hi. apply elem_of_seq. lia.
    + by rewrite !lookup_ge_None_2 by lia.
  - intros Hi i _. rewrite Hi. apply Z.lxor_nilpotent.
Qed.

Lemma zero_extended_eq (a b : list Z) :
  Forall (fun x => x <> 0) a -> Forall (fun x => x <> 0) b ->
  (forall i, default 0 (a !! i) = default 0 (b !! i)) -> a = b.
Proof.
  rewrite !Forall_lookup. intros Ha Hb Hi. apply list_eq. intros i. specialize (Hi i).
  destruct (a !! i) as [x|] eqn:Ea, (b !! i) as [y|] eqn:Eb; simpl in Hi; [by subst| | |done].
  - subst. by destruct (Ha i 0).
  - subst. by destruct (Hb i 0).
Qed.

Lemma byte_of_inj a b : byte_of a = byte_of b -> a = b.
Proof.
  unfold byte_of. intros E%Nat2Z.inj. rewrite <- (ascii_nat_embedding a), E.
  apply ascii_nat_embedding.
Qed.

Lemma bytes_inj s t : bytes s = bytes t -> s = t.
Proof.
  unfold bytes. revert t. induction s as [|a s IH]; intros [|b t]; simpl; try done.
  intros [= Hab%byte_of_inj Hst]. f_equal; [done|by apply IH].
Qed.

Definition no_nul (s : string) : Prop := Forall (fun x => x <> 0) (bytes s).

Lemma token_eq s t :
  no_nul s -> no_nul t -> constant_time_eq (bytes s) (bytes t) = true <-> s = t.
Proof.
  intros Hs Ht. rewrite constant_time_eq_spec. split.
  - intros [_ Hi]. by apply bytes_inj, zero_extended_eq.
  - intros ->. by rewrite Z.lxor_nilpotent.
Qed.

(** Zero bytes that continue a token to a length with the same last byte are
    not seen. *)
Lemma padded_token_accepted s n :
  constant_time_eq (bytes s ++ replicate (256 * n) 0) (bytes s) = true.
Proof.
  apply constant_time_eq_spec. split.
  - rewrite length_app, length_replicate. set (k := length (bytes s)).
    replace (Z.of_nat (k + 256 * n)) with (Z.of_nat k + Z.of_nat n * 2 ^ 8) by (simpl Z.pow; lia).
    apply Z.bits_inj'. intros i Hi. rewrite Z.bits_0.
    change 255 with (Z.ones 8). rewrite Z.land_spec, Z.lxor_spec.
    destruct (decide (i < 8)) as [Hlt|Hge]; [|rewrite Z.ones_spec_high by lia; apply andb_false_r].
    rewrite <- (Z.mod_pow2_bits_low (_ + _) 8 i), Z.mod_add, Z.mod_pow2_bits_low by lia.
    by rewrite xorb_nilpotent.
  - intros i. destruct (decide (i < length (bytes s))%nat) as [Hlt|Hge].
    + by rewrite lookup_app_l.
    + rewrite lookup_app_r, (lookup_ge_None_2 (bytes s)) by lia. simpl.
      destruct (replicate _ _ !! _) as [x|] eqn:E; [|done].
      by apply lookup_replicate in E as [-> _].
Qed.

Section sidecar.
Context `{UnicodeTables, Printers, HashOrder, WireLib, DeriveLib, FloatPrinter, SqlxLib, ClockLib,
  AlphaTable, LoadLib}.
Context (fs_plugin : option Plugin) (vars : Variables).

(** ** Administration *)

Inductive admin_request :=
| AdminAgent (b : AdminAgentRequest)
| AdminLlmProfile (b : AdminLlmProfileRequest)
| AdminEmbeddingProfile (b : AdminEmbeddingProfileRequest)
| AdminSecret (b : AdminSecretRequest)
| AdminTool (b : AdminToolRequest).

Definition admin_handler (header : option string) (st : AppState) (req : admin_request)
  : prog (Response * AppState) :=
  match req with
  | AdminAgent b => admin_agent_handler fs_plugin vars header st b
  | AdminLlmProfile b => admin_llm_profile_handler fs_plugin vars header st b
  | AdminEmbeddingProfile b =>
      admin_embedding_profile_handler fs_plugin vars header st b
  | AdminSecret b => admin_secret_handler fs_plugin vars header st b
  | AdminTool b => admin_tool_handler fs_plugin vars header st b
  end.

(** A write and what follows it. *)
Definition written_and_rebuilt (st : AppState) (tr : list call) (r : Response) (st' : AppState)
  : Prop :=
  exists sql args,
    (exists e, tr = [Call (ESqlx None sql args) (Err e)] /\ status r = 500 /\ st' = st) \/
    (exists x tr' rebuilt, tr = Call (ESqlx None sql args) (Ok x) :: tr' /\
       steps (build_runtime fs_plugin vars) tr' rebuilt /\ status r = 200 /\
       st' = match rebuilt with Ok rt => mkAppState rt (admin_token st) | Err _ => st end).

Lemma admin_write_spec st name sql args tr r st' :
  steps (admin_write fs_plugin vars st name sql args) tr (r, st') ->
  written_and_rebuilt st tr r st'.
Proof.
  intros (x & tr' & -> & Hs). exists sql, args. destruct x as [x|e]; simpl in Hs.
  - right. apply steps_bind in Hs as (tr1 & tr2 & rb & -> & Hb & [-> [= -> ->]]).
    unfold rebuild_runtime in Hb. apply steps_bind in Hb as (tr3 & tr4 & rt & -> & Hb & [-> ->]).
    exists x, tr3, rt. rewrite !app_nil_r. split; [done|]. split; [done|]. split; [done|].
    by destruct rt.
  - left. destruct Hs as [-> [= -> ->]]. by exists e.
Qed.

(** C33: for texts without NUL bytes, as headers and arguments are, an
    administrative request gets through exactly when its header is the
    configured token (a missing header counts as empty).  One that does not
    makes no request of the database, changes nothing and is answered 401, or
    503 when no token is configured.  One that does makes its write and then,
    unless the write failed, rebuilds the runtime; the reply is 200 even when
    the rebuild fails and the old runtime stays. *)
Theorem admin_needs_the_token header st req tr r st' :
  no_nul (default "" header) -> (forall t, admin_token st = Some t -> no_nul t) ->
  steps (admin_handler header st req) tr (r, st') ->
  (admin_token st = Some (default "" header) /\ written_and_rebuilt st tr r st') \/
  (admin_token st <> Some (default "" header) /\ tr = [] /\ st' = st /\
   status r = match admin_token st with Some _ => 401 | None => 503 end).
Proof.
  intros Hh Ht Hs.
  assert (Hk : exists name sql args,
    steps (checked header st (admin_write fs_plugin vars st name sql args))
      tr (r, st')) by (destruct req; by do 3 eexists).
  clear Hs. destruct Hk as (name & sql & args & Hs). unfold checked, check_admin_token in Hs.
  destruct (admin_token st) as [t|] eqn:Et.
  - pose proof (token_eq _ t Hh (Ht t eq_refl)) as Heq.
    destruct (constant_time_eq (bytes (default "" header)) (bytes t)).
    + left. split; [by rewrite (proj1 Heq eq_refl)|]. by apply admin_write_spec in Hs.
    + right. split; [intros [= ->]; discriminate (proj2 Heq eq_refl)|]. by destruct Hs as [-> [= -> ->]].
  - right. split; [done|]. by destruct Hs as [-> [= -> ->]].
Qed.

(** ** Asynchronous runs *)

(** an asynchronous run is one execution of the agent followed by one
    update of its row, whose status is completed for every outcome and failed
    for every error.  An outcome that the extension records under another
    status, since a limit cut it short, is recorded here as completed. *)
Lemma async_status_ignores_outcome id b rt tr :
  steps (async_task id b rt) tr tt ->
  exists tr1 res x,
    steps (execute_with_caller rt (ex_agent b) (ex_input b) (ex_caller_role b)) tr1 res /\
    tr = tr1 ++ [Call (ESqlx None SETTLE_SQL (settle_args id (settled res))) x] /\
    head (settle_args id (settled res)) = Some (DText (if is_ok res then "completed" else "failed")) /\
    (forall o, res = Ok o -> out_status o <> Completed ->
       Synapse.status_label (out_status o) <> "completed" /\
       head (settle_args id (settled res)) = Some (DText "completed")).
Proof.
  intros Hs. apply steps_bind in Hs as (tr1 & tr2 & res & -> & He & Hs).
  destruct Hs as (x & tr3 & -> & [-> _]). exists tr1, res, x. split; [done|]. split; [done|].
  split; [by destruct res|]. intros o -> Ho. split; [|done]. by destruct (out_status o).
Qed.

(** ** The two hosts

    Parameters are bound as in the extension, but for objects and arrays. *)
Lemma hosts_bind_alike v :
  bind_json v = match v with
                | JObject _ | JArray _ => DText (json_to_string v)
                | _ => json_to_datum v
                end.
Proof.
  destruct v as [|b|[n|n|f]|s|l|m]; try done; unfold bind_json, classify_param, json_to_datum; simpl.
  - by destruct (n <=? _).
  - destruct (parse_i64 s); [done|]. destruct (parse_f64 s) as [f|]; [|done].
    by destruct (f64_is_finite f).
Qed.

(** A stored cap of -1 is the largest one. *)
Example negative_cap_wraps : wrap32 (-1) = U32_MAX.
Proof. reflexivity. Qed.

(** ** The schema of the installation script *)

(** The table [synapse.agents] of [sql/sidecar-install.sql]. *)
Definition INSTALLED_AGENT_COLUMNS : list string :=
  ["name"; "system_prompt"; "soul"; "executor_name"; "llm_profile_main"; "llm_profile_small";
   "llm_profile_judge"; "embedding_profile"; "tools"; "max_iterations"; "timeout_ms";
   "cost_cap_usd"; "created_at"; "updated_at"].

Definition names_installed_columns : bool :=
  forallb (fun c => existsb (String.eqb c) INSTALLED_AGENT_COLUMNS)
    (AGENT_COLUMNS ++ COMPONENT_COLUMNS).

(** A statement that names a column its table does not have fails. *)
Definition unknown_columns_fail (c : call) : Prop :=
  match c with
  | Call e x =>
      match e in eff X return X -> Prop with
      | ESqlx _ sql _ => fun x =>
          sql = AGENTS_SQL -> names_installed_columns = false -> exists err, x = Err err
      | _ => fun _ => True
      end x
  end.

(** A runtime that was built has read the agents. *)
Lemma build_reads_agents b src tr rt :
  rb_profile_source b = Some src -> steps (build b) tr (Ok rt) ->
  exists tr1 tr2 tr3 ags, tr = tr1 ++ tr2 ++ tr3 /\ steps (src_agents src) tr2 (Ok ags).
Proof.
  unfold build. intros ->.
  intros [(llm & tr1 & tr2 & -> & _ & Hs)|(e & _ & ?)]%steps_prog_try; [|done].
  apply steps_prog_try in Hs as [(emb & tr3 & tr4 & -> & _ & Hs)|(e & _ & ?)]; [|done].
  apply steps_prog_try in Hs as [(ags & tr5 & tr6 & -> & Ha & Hs)|(e & _ & ?)]; [|done].
  exists (tr1 ++ tr3), tr5, tr6, ags. by rewrite <- app_assoc.
Qed.

(** against the tables that its own installation script creates, the
    sidecar never builds a runtime: it reads three columns of the agents that
    the script does not create, so that, whatever else the database answers,
    the build fails, at the start of the service and after every
    administrative write. *)
Lemma sidecar_cannot_load_its_schema tr r :
  Forall unknown_columns_fail tr ->
  steps (build_runtime fs_plugin vars) tr r -> exists e, r = Err e.
Proof.
  intros Hf Hs. destruct r as [rt|e]; [|by exists e].
  apply (build_reads_agents _ (SqlxProfileSource None)) in Hs as (tr1 & tr2 & tr3 & ags & -> & Ha);
    [|by destruct fs_plugin].
  apply steps_prog_try in Ha as [(rows & tr4 & tr5 & -> & Hq & _)|(e & _ & ?)]; [|done].
  destruct Hq as (x & tr6 & -> & [-> Hx]). rewrite !Forall_app in Hf.
  destruct Hf as (_ & (Hf & _) & _). apply Forall_cons in Hf as [Hf _].
  destruct (Hf eq_refl eq_refl) as [err ->]. done.
Qed.
End sidecar.

(** ** Instances *)

#[local] Instance sidecar_sqlx_lib : SqlxLib := {| try_get_error := fun _ _ => "column error" |}.
#[local] Instance sidecar_clock_lib : ClockLib :=
  {| to_rfc3339 := fun _ _ => "2026-01-01T00:00:00+00:00" |}.

Definition no_variables : Variables := mkVariables None None None.
#[local] Instance sidecar_alpha : AlphaTable := {| unicode_alphanumeric := fun _ => true |}.
#[local] Instance sidecar_load_lib : LoadLib :=
  {| csv_headers := fun _ => Err "no header"; csv_records := fun _ => [];
     csv_writer := unit; csv_new := tt; csv_write_record := fun w _ => Ok w;
     csv_into_inner := fun _ => Ok ""; json_error := fun _ => "bad" |}.

Definition sample_state (token : option string) : AppState :=
  mkAppState (sample_runtime 1000 tool_llm) token.

Lemma admin_needs_the_token_witness :
  admin_token (sample_state (Some "right")) <> Some "wrong".
Proof.
  destruct (admin_needs_the_token None no_variables (Some "wrong")
    (sample_state (Some "right")) (AdminSecret (mkAdminSecretRequest "k" "v")) []
    (err_json 401 ADMIN_REFUSED) (sample_state (Some "right"))) as [[? _]|[Hn _]].
  - repeat constructor; done.
  - intros t [= <-]. repeat constructor; done.
  - split; reflexivity.
  - done.
  - exact Hn.
Defined.

Lemma async_status_ignores_outcome_witness :
  exists res, head (settle_args 7 (settled res))
    = Some (DText (if is_ok res then "completed" else "failed")).
Proof.
  destruct (async_status_ignores_outcome 7 (mkExecuteRequest "ghost" "hi" None)
    (sample_runtime 1000 tool_llm)
    [Call (ESqlx None SETTLE_SQL
             (settle_args 7 (settled (Err (RuntimeError_AgentNotFound "ghost"))))) (Ok (1, []))])
    as (tr1 & res & x & _ & _ & Hh & _).
  - eexists _, _. split; [reflexivity|]. by split.
  - by exists res.
Defined.

Lemma sidecar_cannot_load_its_schema_witness :
  exists e, Err (RuntimeError_Config "agents query: no column guardrails") = Err (A := Runtime) e.
Proof.
  apply (sidecar_cannot_load_its_schema None no_variables
    [Call (ESqlx None LLM_PROFILES_SQL []) (Ok (0, []));
     Call (ESqlx None EMBEDDING_PROFILES_SQL []) (Ok (0, []));
     Call (ESqlx None AGENTS_SQL []) (Err "no column guardrails")]).
  - repeat constructor; [discriminate..|]. intros _ _. by eexists.
  - by repeat (eexists _, _; split; [reflexivity|]).
Defined.
