(* ===== verification/McpProps.v ===== *)
(** * Properties of the MCP client

    What registering a server asks and leaves in the registry, and how the
    replies of a server become the answers of its tools. *)

From S2P Require Import Prelude.
From S2P Require Import RustStr.
From S2P Require Import Json.
From S2P Require Import Errors.
From S2P Require Import Types.
From S2P Require Import Effects.
From S2P Require Import HarnessText.
From S2P Require Import Traits.
From S2P Require Import Registry.
From S2P Require Import StrSlice.
From S2P Require Import Wire.
From S2P Require Import ToolInput.
From S2P Require Import Mcp.
Import Client.
#[local] Open Scope synapse_scope.

Section registration.
Context `{DeriveLib, McpLib}.

(** ** Exchanges *)

Lemma steps_rpc url method params tr r :
  steps (rpc url method params) tr r <->
  exists id x, tr = [Call ECounter id; Call (EHttp (post_json url (rpc_body id method params))) x] /\
    r = read_answer method x.
Proof.
  simpl. split.
  - intros (id & tr1 & -> & x & tr2 & -> & -> & ->). by exists id, x.
  - intros (id & x & -> & ->). by exists id, [Call (EHttp (post_json url (rpc_body id method params))) x];
      split; [done|]; exists x, [].
Qed.

Definition is_mcp (e : ToolError) : Prop := exists msg, e = ToolError_Mcp msg.

Lemma read_as_mcp {A} n f (read : json -> option A) v e : read_as n f read v = Err e -> is_mcp e.
Proof. unfold read_as. case_match; [done|]. intros [= <-]. by eexists. Qed.

Lemma read_answer_mcp method x e : read_answer method x = Err e -> is_mcp e.
Proof.
  unfold read_answer, envelope_result. destruct x as [resp|err]; [|intros [= <-]; by eexists].
  case_match; [intros [= <-]; by eexists|]. destruct (http_json resp) as [v|err];
    [|intros [= <-]; by eexists].
  intros [Hr|(env & _ & Hr)]%result_bind_err; [by eapply read_as_mcp|].
  destruct (rpc_error env) as [err|]; [injection Hr as <-; by eexists|].
  destruct (rpc_result env); [done|]. injection Hr as <-. by eexists.
Qed.

Lemma server_info_mcp v e : server_info_of v = Err e -> is_mcp e.
Proof. unfold server_info_of. case_match; apply read_as_mcp. Qed.

Lemma defs_mcp v e : defs_of v = Err e -> is_mcp e.
Proof.
  unfold defs_of. intros [Hr|(tools & _ & Hr)]%result_bind_err.
  - destruct (json_get "tools" v); [done|]. injection Hr as <-. by eexists.
  - by eapply read_as_mcp.
Qed.

(** ** The registry *)

(** The last definition of a name. *)
Definition last_named (n : string) (defs : list McpToolDef) : option McpToolDef :=
  List.find (fun d => String.eqb (def_name d) n) (reverse defs).

(** [r'] is [r] with the tools of [defs], the last of a name in force. *)
Definition holds_tools (c : McpClient) (defs : list McpToolDef) (r r' : ToolRegistry) : Prop :=
  forall n, match last_named n defs with
            | Some d => exists schema, root_schema (def_input_schema d) = Ok schema /\
                r' !! n = Some (McpTool c n schema)
            | None => r' !! n = r !! n
            end.

Lemma last_named_app n l1 l2 :
  last_named n (l1 ++ l2) =
  match last_named n l2 with Some d => Some d | None => last_named n l1 end.
Proof.
  unfold last_named. rewrite reverse_app. induction (reverse l2) as [|d l IH]; [done|].
  simpl. by destruct (String.eqb (def_name d) n).
Qed.

Definition good_schema (d : McpToolDef) : Prop := is_ok (root_schema (def_input_schema d)) = true.

Definition bad_schema (d : McpToolDef) (e : string) : ToolError :=
  ToolError_Mcp ("invalid schema for tool '" +:+ def_name d +:+ "': " +:+ e).

(** The definitions [defs] are inserted in order, up to the first whose schema
    is bad. *)
Definition inserts (c : McpClient) (defs : list McpToolDef) (r : ToolRegistry)
    (res : result unit ToolError) (r' : ToolRegistry) : Prop :=
  exists added rest, defs = added ++ rest /\ Forall good_schema added /\
    holds_tools c added r r' /\
    match rest with
    | [] => res = Ok tt
    | d :: _ => exists e, root_schema (def_input_schema d) = Err e /\ res = Err (bad_schema d e)
    end.

Lemma insert_tools_inserts c defs r res r' :
  insert_tools c defs r = (res, r') -> inserts c defs r res r'.
Proof.
  revert r. induction defs as [|d defs IH]; intros r; simpl.
  { intros [= <- <-]. exists [], []. by split_and!. }
  destruct (root_schema (def_input_schema d)) as [schema|e] eqn:Es.
  - intros (added & rest & -> & Hg & Hh & Hres)%IH. exists (d :: added), rest.
    split; [done|]. split; [constructor; [by unfold good_schema; rewrite Es|done]|].
    split; [|done]. intros n. specialize (Hh n).
    change (d :: added) with ([d] ++ added). rewrite last_named_app. destruct (last_named n added) as [d'|]; [done|].
    unfold last_named. simpl. destruct (String.eqb_spec (def_name d) n) as [<-|Hn].
    + exists schema. by rewrite Hh, lookup_insert_eq.
    + by rewrite Hh, lookup_insert_ne.
  - intros [= <- <-]. exists [], (d :: defs). split; [done|]. split; [constructor|].
    split; [done|]. by exists e.
Qed.

Lemma inserts_mcp c defs r res r' e : inserts c defs r res r' -> res = Err e -> is_mcp e.
Proof.
  intros (added & [|d rest] & _ & _ & _ & Hres) ->; [done|]. destruct Hres as (e' & _ & [= ->]).
  by eexists.
Qed.

(** ** What the server said *)

(** One call: the request with its id, and the answer [x]. *)
Definition exchange (url method : string) (params : json) (id : Z)
    (x : result http_response string) : list call :=
  [Call ECounter id; Call (EHttp (post_json url (rpc_body id method params))) x].

(** The server in the answer to [initialize], the tools in the one to
    [tools/list]. *)
Definition info_in (x : result http_response string) : result McpServerInfo ToolError :=
  v <-? read_answer "initialize" x ;; server_info_of v.
Definition defs_in (x : result http_response string) : result (list McpToolDef) ToolError :=
  v <-? read_answer "tools/list" x ;; defs_of v.

Lemma steps_method {A} (url method : string) params (f : json -> result A ToolError) tr r :
  steps (prog_try (rpc url method params) (fun v => mret (f v))) tr r <->
  exists id x, tr = exchange url method params id x /\ r = (v <-? read_answer method x ;; f v).
Proof.
  rewrite steps_prog_try. split.
  - intros [(v & tr1 & tr2 & -> & (id & x & -> & Hv)%steps_rpc & [-> ->])
           |(e & (id & x & -> & He)%steps_rpc & ->)]; exists id, x.
    + by rewrite <- Hv.
    + by rewrite <- He.
  - intros (id & x & -> & ->). destruct (read_answer method x) as [v|e] eqn:E; [left|right].
    + exists v, (exchange url method params id x), []. rewrite app_nil_r. split; [done|].
      split; [|by split]. apply steps_rpc. by exists id, x.
    + exists e. split; [|done]. apply steps_rpc. by exists id, x.
Qed.

Lemma answer_mcp {A} method x (f : json -> result A ToolError) e :
  (forall v e, f v = Err e -> is_mcp e) -> (v <-? read_answer method x ;; f v) = Err e -> is_mcp e.
Proof. intros Hf [Hr|(v & _ & Hr)]%result_bind_err; [by eapply read_answer_mcp|by eapply Hf]. Qed.

(** C34: Registering an MCP server asks it for [initialize] and then, if it
    read a server from the answer, for [tools/list], and nothing else.  The
    registry gains the tools of the list that the server answered, in its order
    up to the first whose schema is bad, each calling that server, the last of a
    name in force over the earlier ones and over what was registered under it;
    everything else is kept.  The result is success when the whole list was
    inserted, the error of the bad schema when it was not, and when the server
    was not reached or not understood the error of that, with the registry
    unchanged. *)
Theorem mcp_registration url r tr res r' :
  steps (add_mcp url r) tr (res, r') ->
  (forall e, res = Err e -> is_mcp e) /\
  ((tr = [] /\ is_Some client_build_error /\ res <> Ok tt /\ r' = r) \/
   exists id x, client_build_error = None /\
     match info_in x with
     | Err e => tr = exchange url "initialize" initialize_params id x /\ res = Err e /\ r' = r
     | Ok info => exists id' x',
         tr = exchange url "initialize" initialize_params id x
                ++ exchange url "tools/list" JNull id' x' /\
         match defs_in x' with
         | Err e => res = Err e /\ r' = r
         | Ok defs => inserts (mkMcpClient url info) defs r res r'
         end
     end).
Proof.
  unfold add_mcp. rewrite steps_bind. intros (tr1 & tr2 & listed & -> & Hl & [-> Hres]).
  rewrite app_nil_r. unfold connect in Hl. destruct client_build_error as [e|].
  { destruct Hl as [-> ->]. injection Hres as -> ->.
    split; [intros e' [= <-]; by eexists|]. left. by split_and!. }
  assert (Hinfo : forall tr1 o, steps (prog_try (initialize url)
            (fun info => mret (Ok (mkMcpClient url info)))) tr1 o ->
          exists id x, tr1 = exchange url "initialize" initialize_params id x /\
            o = (info <-? info_in x ;; Ok (mkMcpClient url info))).
  { intros t o [(info & t1 & t2 & -> & (id & x & -> & Hi)%steps_method & [-> ->])
               |(e & (id & x & -> & Hi)%steps_method & ->)]%steps_prog_try; exists id, x;
      rewrite ?app_nil_r; unfold info_in; by rewrite <- Hi. }
  apply steps_prog_try in Hl as [(c & tr2 & tr3 & -> & Hc & Hl)|(e & Hc & ->)];
    apply Hinfo in Hc as (id & x & -> & Hc); clear Hinfo.
  - destruct (info_in x) as [info|e] eqn:Ei; [|done]. injection Hc as ->.
    assert (exists id' x', tr3 = exchange url "tools/list" JNull id' x' /\
              listed = (defs <-? defs_in x' ;; Ok (mkMcpClient url info, defs))) as (id' & x' & -> & ->).
    { apply steps_prog_try in Hl as [(defs & t1 & t2 & -> & (id' & x' & -> & Hd)%steps_method & [-> ->])
        |(e & (id' & x' & -> & Hd)%steps_method & ->)]; exists id', x';
        rewrite ?app_nil_r; unfold defs_in; by rewrite <- Hd. }
    enough (Hr : match defs_in x' with
                 | Err e => res = Err e /\ r' = r
                 | Ok defs => inserts (mkMcpClient url info) defs r res r'
                 end).
    { split; [|right; exists id, x; rewrite Ei; split; [done|by exists id', x']].
      intros e ->. destruct (defs_in x') as [defs|e'] eqn:Ed; [by eapply inserts_mcp|].
      destruct Hr as [[= ->] _]. eapply answer_mcp, Ed. apply defs_mcp. }
    destruct (defs_in x') as [defs|e]; cbn [result_bind] in Hres.
    + by apply insert_tools_inserts.
    + by injection Hres as -> ->.
  - injection Hres as -> ->. destruct (info_in x) as [info|e'] eqn:Ei; [done|]. injection Hc as ->.
    split; [|right; exists id, x; by rewrite Ei].
    intros e'' [= <-]. eapply answer_mcp, Ei. apply server_info_mcp.
Qed.
End registration.

(** ** Replies

    What a server says of a call, as it writes it. *)

Inductive reply :=
| Texts (ts : list string)
| Failed (ts : list string)
| Content (items : list json)
| Nothing
| Refused (code : Z) (message : string).

Definition text_json (t : string) : json :=
  json_object [("type", JString "text"); ("text", JString t)].

Definition reply_result (r : reply) : json :=
  match r with
  | Texts ts => json_object [("content", JArray (map text_json ts)); ("isError", JBool false)]
  | Failed ts => json_object [("content", JArray (map text_json ts)); ("isError", JBool true)]
  | Content items => json_object [("content", JArray items)]
  | _ => json_object []
  end.

Definition reply_json (id : json) (r : reply) : json :=
  match r with
  | Refused code message =>
      json_object [("jsonrpc", JString "2.0"); ("id", id);
                   ("error", json_object [("code", json_i64 code); ("message", JString message)])]
  | _ => json_object [("jsonrpc", JString "2.0"); ("id", id); ("result", reply_result r)]
  end.

(** A reply says something: texts are not empty, and content without text
    has none to read. *)
Definition reply_wf (r : reply) : Prop :=
  match r with
  | Texts ts => ts <> [] /\ Forall (fun t => t <> "") ts
  | Failed ts => Forall (fun t => t <> "") ts
  | Content items => Forall (fun i => text_item i = None) items
  | Nothing => True
  | Refused code _ => -9223372036854775808 <= code <= 9223372036854775807
  end.

Definition reply_answer (name : string) (r : reply) : result ToolOutput ToolError :=
  match r with
  | Texts ts => Ok (OutText (join newline ts))
  | Failed ts =>
      Err (ToolError_Execution name
             (match ts with [] => "tool reported error" | _ => join newline ts end))
  | Content items => Ok (OutJson (JArray items))
  | Nothing => Ok OutEmpty
  | Refused code message =>
      Err (ToolError_Mcp ("jsonrpc error " +:+ show code +:+ " from tools/call: " +:+ message))
  end.

Lemma push_texts ts out :
  out <> "" ->
  fold_left push_text (map text_json ts) out = join newline (out :: ts).
Proof.
  revert out. induction ts as [|t ts IH]; intros out Ho; [done|]. simpl fold_left.
  rewrite IH; unfold push_text; simpl text_item; unfold is_empty;
    destruct (String.eqb_spec out ""); try done.
  - unfold join. simpl. destruct ts; by rewrite <- ?str_app_assoc.
  - by destruct out.
Qed.

Lemma extract_texts ts v :
  Forall (fun t => t <> "") ts -> json_get "content" v = Some (JArray (map text_json ts)) ->
  extract_text v = match ts with [] => None | _ => Some (join newline ts) end.
Proof.
  intros Hts Hv. unfold extract_text. rewrite Hv. simpl. destruct ts as [|t ts]; [done|].
  apply Forall_cons in Hts as [Ht _]. simpl fold_left.
  change (push_text "" (text_json t)) with t. rewrite push_texts by done.
  destruct t; [done|]. by destruct ts.
Qed.

Lemma extract_no_text items v :
  Forall (fun i => text_item i = None) items -> json_get "content" v = Some (JArray items) ->
  extract_text v = None.
Proof.
  intros Hi Hv. unfold extract_text. rewrite Hv. simpl.
  enough (fold_left push_text items "" = "") as -> by done. clear Hv.
  induction Hi as [|i items Hi _ IH]; [done|]. simpl. unfold push_text at 2. by rewrite Hi.
Qed.

Section replies.
Context `{DeriveLib, McpLib}.

Lemma as_i64_json code :
  -9223372036854775808 <= code <= 9223372036854775807 -> as_i64 (json_i64 code) = Some code.
Proof.
  intros Hc. unfold json_i64, as_i64. destruct (0 <=? code); [|done].
  by destruct (Z.leb_spec code 9223372036854775807); [|lia].
Qed.

#[local] Arguments as_i64 : simpl never.

Lemma read_response_reply id r :
  reply_wf r ->
  read_response (reply_json id r) =
  Some match r with
       | Refused code message => mkJsonRpcResponse None (Some (mkJsonRpcError code message))
       | _ => mkJsonRpcResponse (Some (reply_result r)) None
       end.
Proof.
  destruct r; try done. intros Hc. unfold read_response. simpl.
  unfold read_rpc_error. simpl. by rewrite as_i64_json.
Qed.

Lemma call_output_reply name r :
  reply_wf r -> (forall code message, r <> Refused code message) ->
  call_output name (reply_result r) = reply_answer name r.
Proof.
  intros Hwf Hr. unfold call_output. destruct r as [ts|ts|items| |code message];
    [..|by destruct (Hr code message)]; simpl in Hwf.
  - destruct Hwf as [Hne Hwf]. change (default false _) with false.
    rewrite (extract_texts ts (reply_result (Texts ts))) by done. by destruct ts.
  - change (default false _) with true.
    rewrite (extract_texts ts (reply_result (Failed ts))) by done. by destruct ts.
  - change (default false _) with false. by rewrite (extract_no_text items).
  - done.
Qed.

(** What a server replies to a call is what the tool answers: its texts
    line by line, an error it reports as an error of that tool, other content
    as it stands, an error of the protocol as an MCP error.  The call itself
    is one exchange with the name and the arguments of the call. *)
Lemma mcp_replies_are_read c name schema input ctx tr a :
  steps (tool_run (McpTool c name schema) input ctx) tr a ->
  exists n x, tr = [Call ECounter n;
                    Call (EHttp (post_json (server_url c)
                            (rpc_body n "tools/call" (call_params name input)))) x] /\
    forall id r resp, x = Ok resp -> reply_wf r -> is_success (http_status resp) = true ->
      http_json resp = Ok (reply_json id r) ->
      a = ToolReturned (reply_answer name r).
Proof.
  intros (tr1 & tr2 & a' & -> & Hc & [-> ->])%steps_bind. rewrite app_nil_r.
  assert (Hx : exists n x, tr1 = [Call ECounter n;
                    Call (EHttp (post_json (server_url c)
                            (rpc_body n "tools/call" (call_params name input)))) x] /\
    a' = result_bind (read_answer "tools/call" x) (call_output name)).
  { apply steps_prog_try in Hc as [(v & tr3 & tr4 & -> & Hr & [-> ->])|(e & Hr & ->)];
      apply steps_rpc in Hr as (n & x & -> & Hx); exists n, x; by rewrite <- Hx. }
  destruct Hx as (n & x & -> & ->). exists n, x. split; [done|].
  intros id r resp -> Hwf Hs Hj. f_equal. unfold read_answer. rewrite Hs, Hj. simpl.
  unfold read_as. rewrite read_response_reply by done.
  destruct r as [ts|ts|items| |code message]; [..|done]; by apply call_output_reply.
Qed.
End replies.

(** ** Instances *)

#[local] Instance sample_derive : DeriveLib :=
  {| serde_error := fun _ _ => "bad"; schema_for := fun _ => JNull |}.
#[local] Instance sample_mcp : McpLib :=
  {| client_build_error := None;
     root_schema := fun j => match j with JObject _ => Ok j | _ => Err "not a schema" end |}.

Definition def_json (name : string) (schema : json) : json :=
  json_object [("name", JString name); ("inputSchema", schema)].
Definition answered (v : json) : result http_response string :=
  Ok (mkHttpResponse 200 ∅ ""
        (Ok (json_object [("jsonrpc", JString "2.0"); ("id", json_u64 1); ("result", v)]))).
Definition sample_listing : json :=
  json_object [("tools", JArray [def_json "sql_query" (json_object []); def_json "x" JNull])].
Definition sample_client : McpClient := mkMcpClient "http://mcp" McpServerInfo_default.
Definition init_call : http_request :=
  post_json "http://mcp" (rpc_body 1 "initialize" initialize_params).
Definition list_call : http_request := post_json "http://mcp" (rpc_body 2 "tools/list" JNull).

(** The second tool of the listing has no schema: the registration fails, and
    the first tool has replaced the one registered before. *)
Definition answer_of (c : call) : option (result http_response string) :=
  match c with
  | Call e x =>
      match e in eff X return X -> option (result http_response string) with
      | EHttp _ => fun x => Some x
      | _ => fun _ => None
      end x
  end.

Lemma mcp_registration_witness :
  exists defs, defs_in (answered sample_listing) = Ok defs /\
    inserts sample_client defs {["sql_query" := external_tool "sql_query" JNull]}
      (Err (ToolError_Mcp "invalid schema for tool 'x': not a schema"))
      {["sql_query" := McpTool sample_client "sql_query" (json_object [])]}.
Proof.
  destruct (mcp_registration "http://mcp" {["sql_query" := external_tool "sql_query" JNull]}
    [Call ECounter 1; Call (EHttp init_call) (answered (json_object []));
     Call ECounter 2; Call (EHttp list_call) (answered sample_listing)]
    (Err (ToolError_Mcp "invalid schema for tool 'x': not a schema"))
    {["sql_query" := McpTool sample_client "sql_query" (json_object [])]})
    as (_ & [(Htr & _)|(id & x & _ & Hr)]).
  - repeat (eexists _, _; split; [reflexivity|]). split; reflexivity.
  - discriminate Htr.
  - destruct (info_in x) as [info|e] eqn:Ei.
    + destruct Hr as (id' & x' & Htr & Hr).
      apply (f_equal (omap answer_of)) in Htr. injection Htr as <- <-.
      injection Ei as <-. destruct (defs_in (answered sample_listing)) as [defs|e] eqn:Ed.
      * exists defs. split; [reflexivity|exact Hr].
      * discriminate Ed.
    + destruct Hr as (Htr & _). discriminate Htr.
Defined.

Definition http_answer (c : call) : option (result http_response string) :=
  match c with
  | Call e x => match e in eff X return X -> option _ with EHttp _ => Some | _ => fun _ => None end x
  end.
Definition two_lines : json := reply_json (json_u64 3) (Texts ["a"; "b"]).
Definition call_request : http_request :=
  post_json "http://mcp" (rpc_body 3 "tools/call" (call_params "echo" (json_object []))).

Lemma mcp_replies_are_read_witness :
  ToolReturned (Ok (OutText ("a" +:+ newline +:+ "b")))
  = ToolReturned (reply_answer "echo" (Texts ["a"; "b"])).
Proof.
  destruct (mcp_replies_are_read sample_client "echo" JNull (json_object []) (mkToolCtx 7 None None)
    [Call ECounter 3; Call (EHttp call_request) (Ok (mkHttpResponse 200 ∅ "" (Ok two_lines)))]
    (ToolReturned (Ok (OutText ("a" +:+ newline +:+ "b"))))) as (n & x & Heq & Hx).
  - repeat (eexists _, _; split; [reflexivity|]). split; reflexivity.
  - apply (f_equal (omap http_answer)) in Heq. simpl in Heq. injection Heq as <-.
    eapply Hx; [reflexivity| |reflexivity|reflexivity].
    split; [done|]. repeat constructor; done.
Defined.

(** An empty text leaves no line, and a result that is null counts as
    missing. *)
Example first_text_empty :
  extract_text (json_object [("content", JArray (map text_json [""; "a"]))]) = Some "a".
Proof. by vm_compute. Qed.

Example null_result_is_missing :
  read_answer "m" (answered JNull)
  = Err (ToolError_Mcp "jsonrpc response missing result for m").
Proof. by vm_compute. Qed.
