(* ===== verification/ToolWebProps.v ===== *)
(** * Properties of the tools that fetch and of the summary tool

    Which URLs the readers ask for and how much of what they read they return;
    what a brief is made of. *)

From stdpp Require Import sorting.
From S2P Require Import Prelude.
From S2P Require Import RustStr.
From S2P Require Import F64.
From S2P Require Import Json.
From S2P Require Import Errors.
From S2P Require Import Types.
From S2P Require Import Net.
From S2P Require Import Effects.
From S2P Require Import Traits.
From S2P Require Import LoopHarness.
From S2P Require Import StrSlice.
From S2P Require Import Wire.
From S2P Require Import ToolInput.
From S2P Require Import ToolsHttp.
From S2P Require Import Sample.
From S2P Require Import ToolsSql.
From S2P Require Import ToolsLoad.
From S2P Require Import ToolsBasic.
From S2P Require Import ToolsWeb.
From S2P Require Import ToolsLede.
#[local] Open Scope Z_scope.

(** ** The tools that read a URL they are given *)

Inductive url_reader := LoadUrl | FetchFeed | ReadArticle.

Section readers.
Context `{UnicodeTables, Printers, WireLib, NetLib, DeriveLib, LoadLib, ClockLib, FeedLib}.

Definition reader_name (t : url_reader) : string :=
  match t with LoadUrl => "load_url" | FetchFeed => FETCH_FEED | ReadArticle => READ_ARTICLE end.

(** The URL of a call. *)
Definition url_of (t : url_reader) (input : json) : option string :=
  match t with
  | LoadUrl => (fun a => trim (lu_url a)) <$> read_load_url input
  | FetchFeed => (fun a => trim (feed_url a)) <$> read_fetch_feed input
  | ReadArticle => article_url <$> read_read_article input
  end.

Definition reader_run (t : url_reader) (sql : SqlExecutor) (input : json) (ctx : ToolCtx)
  : prog tool_answer :=
  match t with
  | LoadUrl => r ← load_url sql input ctx; mret (ToolReturned r)
  | FetchFeed => tool_run FetchFeedTool input ctx
  | ReadArticle => tool_run ReadArticleTool input ctx
  end.

(** A request for [u] that fails. *)
Definition failed_request (t : url_reader) (u e : string) : call :=
  match t with
  | LoadUrl => Call (EHttp (load_url_request u)) (Err e)
  | FetchFeed => Call (EFetch (fetch_get u)) (Err e)
  | ReadArticle => Call (EFetch (article_request u)) (Err e)
  end.

Definition web_scheme (url : Url) : Prop := url_scheme url = "http" \/ url_scheme url = "https".

Lemma web_scheme_eqb url :
  web_scheme url ->
  negb (String.eqb (url_scheme url) "http" || String.eqb (url_scheme url) "https") = false.
Proof. by intros [-> | ->]. Qed.

(** [load_url], [fetch_feed] and [read_article] ask for any URL with an
    http or https scheme, whatever the two lists of hosts allow.  For a URL
    that names a blocked address the guard of the HTTP tools answers, before
    any request, that it may not be reached; these tools make the request all
    the same, and as their first. *)
Lemma url_readers_are_unguarded t allow egress sql input ctx u url host ip e :
  url_of t input = Some u ->
  parse_url u = Ok url -> web_scheme url ->
  url_host_str url = Some host -> parse_ip host = Some ip -> is_blocked_ip ip = true ->
  host_allowlisted allow host = false ->
  (exists why, steps (guard_url allow egress u (reader_name t)) []
                 (Err (ToolError_Execution (reader_name t) why))) /\
  steps (reader_run t sql input ctx) [failed_request t u e]
    (ToolReturned (Err (ToolError_Execution (reader_name t) ("request failed: " +:+ e)))).
Proof.
  intros Hu Hp Hs%web_scheme_eqb Hh Hip Hb Ha. split.
  - unfold guard_url. rewrite Hp, Hs, Hh.
    destruct (egress_permitted egress host); [|by eexists].
    rewrite Ha, Hip, Hb. by eexists.
  - destruct t; simpl in Hu; apply fmap_Some in Hu as (args & Hargs & ->); simpl.
    + unfold load_url, load_url_checked, parse_input. rewrite Hargs. simpl. rewrite Hp, Hs.
      by eexists _, _.
    + unfold parse_input. rewrite Hargs. unfold fetch_feed_run. rewrite Hp, Hs. by eexists _, _.
    + unfold parse_input. rewrite Hargs. unfold read_article_run. rewrite Hp.
      rewrite bool_decide_eq_false_2; [by eexists _, _|].
      rewrite Hh. intros [= ->]. by vm_compute in Hip.
Qed.

(** ** What is returned *)

Lemma take_rows {A} (row : A -> json) limit (items : list A) :
  (length (map row (take limit items)) <= limit)%nat.
Proof. rewrite length_map, length_take. lia. Qed.

Lemma parse_feed_rows body limit rows :
  parse_feed body limit = Ok rows -> (length rows <= limit)%nat.
Proof. unfold parse_feed. case_match; [|done]. intros [= <-]. apply take_rows. Qed.

Lemma feed_items_rows body limit rows :
  feed_items body limit = Ok rows -> (length rows <= limit)%nat.
Proof.
  unfold feed_items, parse_atom. destruct (parse_feed body limit) eqn:E.
  - intros [= <-]. by eapply parse_feed_rows.
  - case_match; [|done]. intros [= <-]. apply take_rows.
Qed.

(** A run of a derived tool that succeeds has read its arguments. *)
Lemma derived_run {A} name (read : json -> option A) f input ctx tr out :
  steps (tool_run (derive_tool name read f) input ctx) tr (ToolReturned (Ok out)) ->
  exists args, read input = Some args /\ steps (f args ctx) tr (Ok out).
Proof.
  simpl. unfold parse_input. destruct (read input) as [args|]; [|by intros [_ ?]].
  intros (tr1 & tr2 & r & -> & Hs & [-> [= <-]])%steps_bind.
  rewrite app_nil_r. by exists args.
Qed.

Definition rows_within (out : ToolOutput) (n : Z) : Prop :=
  exists rows, out = OutJson (JArray rows) /\ Z.of_nat (length rows) <= n.

Lemma search_news_rows input ctx tr out :
  steps (tool_run SearchNewsTool input ctx) tr (ToolReturned (Ok out)) ->
  exists args, read_search_news input = Some args /\ rows_within out (clamp 1 50 (news_limit args)).
Proof.
  intros (args & Ha & Hs)%derived_run. exists args. split; [done|].
  unfold search_news_run in Hs. destruct (parse_url NEWS_URL); [|by destruct Hs].
  apply steps_bind in Hs as (tr1 & tr2 & r & _ & _ & [_ Hr]). symmetry in Hr.
  apply result_bind_ok in Hr as (resp & _ & Hr). apply result_bind_ok in Hr as (body & _ & Hr).
  apply result_bind_ok in Hr as (rows & Hrows & [= <-]). exists rows. split; [done|].
  apply parse_feed_rows in Hrows. pose proof (clamp_range 1 50 (news_limit args)). lia.
Qed.

Lemma fetch_feed_rows input ctx tr out :
  steps (tool_run FetchFeedTool input ctx) tr (ToolReturned (Ok out)) ->
  exists args, read_fetch_feed input = Some args /\ rows_within out (clamp 1 100 (feed_limit args)).
Proof.
  intros (args & Ha & Hs)%derived_run. exists args. split; [done|].
  unfold fetch_feed_run in Hs. destruct (parse_url _); [|by destruct Hs].
  case_match; [by destruct Hs|].
  apply steps_bind in Hs as (tr1 & tr2 & r & _ & _ & [_ Hr]). symmetry in Hr.
  apply result_bind_ok in Hr as (resp & _ & Hr). case_match; [done|].
  apply result_bind_ok in Hr as (body & _ & Hr).
  apply result_bind_ok in Hr as (rows & Hrows & [= <-]). exists rows. split; [done|].
  apply feed_items_rows in Hrows. pose proof (clamp_range 1 100 (feed_limit args)). lia.
Qed.

(** An article: its text trimmed, and cut to at most so many characters with
    the flag telling whether it was. *)
Definition article_within (v : json) (n : Z) : Prop :=
  exists text, json_get "text" v = Some (JString (take_chars (Z.to_nat n) (trim text))) /\
    json_get "truncated" v = Some (JBool (n <? chars_count (trim text))) /\
    (chars_count (trim text) <= n -> json_get "text" v = Some (JString (trim text))).

Lemma take_chars_all n s : chars_count s <= n -> take_chars (Z.to_nat n) s = s.
Proof.
  unfold chars_count, take_chars. intros Hn. rewrite take_ge by lia. apply chars_concat.
Qed.

Lemma read_article_text input ctx tr out :
  steps (tool_run ReadArticleTool input ctx) tr (ToolReturned (Ok out)) ->
  exists args v, read_read_article input = Some args /\ out = OutJson v /\
    article_within v (clamp 500 100000 (article_max_chars args)).
Proof.
  intros (args & Ha & Hs)%derived_run. exists args. unfold read_article_run in Hs.
  destruct (parse_url _); [|by destruct Hs]. case_bool_decide; [by destruct Hs|].
  apply steps_bind in Hs as (tr1 & tr2 & r & _ & _ & [_ Hr]). symmetry in Hr.
  apply result_bind_ok in Hr as (resp & _ & Hr). case_match; [done|].
  apply result_bind_ok in Hr as (body & _ & Hr).
  apply result_bind_ok in Hr as (v & Hv & [= <-]). exists v. split; [done|]. split; [done|].
  unfold extract_article in Hv. destruct (extract_product _ _) as [[title text]|]; [|done].
  injection Hv as <-. exists text. split; [done|]. split; [done|].
  intros Hn. simpl. by rewrite take_chars_all.
Qed.

(** An answer of [search_news] has at most 50 rows, one of [fetch_feed]
    at most 100, and no more than asked for unless that is none; an answer of
    [read_article] holds the trimmed text of the article cut to n characters,
    n between 500 and 100000, and a flag that says whether it was cut. *)
Lemma fetched_answers_are_bounded input ctx tr out :
  (steps (tool_run SearchNewsTool input ctx) tr (ToolReturned (Ok out)) ->
   exists args, read_search_news input = Some args /\
     rows_within out (clamp 1 50 (news_limit args))) /\
  (steps (tool_run FetchFeedTool input ctx) tr (ToolReturned (Ok out)) ->
   exists args, read_fetch_feed input = Some args /\
     rows_within out (clamp 1 100 (feed_limit args))) /\
  (steps (tool_run ReadArticleTool input ctx) tr (ToolReturned (Ok out)) ->
   exists v n, out = OutJson v /\ 500 <= n <= 100000 /\ article_within v n).
Proof.
  split; [apply search_news_rows|]. split; [apply fetch_feed_rows|].
  intros (args & v & _ & -> & Hv)%read_article_text. eexists v, _. split; [done|].
  split; [|exact Hv]. by apply clamp_range.
Qed.
End readers.

(** ** Instances *)

#[local] Instance web_wire_lib : WireLib :=
  {| json_from_str := fun _ => None; parse_f64 := fun _ => None;
     header_name_ok := fun _ => true; header_value_ok := fun _ => true; fmt_status := show |}.
#[local] Instance web_net_lib : NetLib :=
  {| parse_url := fun s => Ok (mkUrl "http" (Some s) (Some 80)); fmt_ipv6 := fun _ => "v6" |}.
#[local] Instance web_derive_lib : DeriveLib :=
  {| serde_error := fun _ _ => "bad input"; schema_for := fun _ => JNull |}.
#[local] Instance web_clock_lib : ClockLib := {| to_rfc3339 := fun _ _ => "now" |}.
#[local] Instance web_load_lib : LoadLib :=
  {| csv_headers := fun _ => Err "no header"; csv_records := fun _ => [];
     csv_writer := unit; csv_new := tt; csv_write_record := fun w _ => Ok w;
     csv_into_inner := fun _ => Ok ""; json_error := fun _ => "bad" |}.
#[local] Instance web_feed_lib : FeedLib :=
  {| append_pairs := fun u _ => u;
     read_rss := fun b => Ok (replicate (String.length b) (mkRssItem (Some b) None None None));
     read_atom := fun _ => Err "not atom";
     extract_product := fun b _ => Ok ("title", b) |}.

Definition no_sql : SqlExecutor :=
  mkSqlExecutor (fun _ _ _ _ => mret (Ok [])) (fun _ _ _ _ => mret (Ok 0)).

Lemma url_readers_are_unguarded_witness :
  exists why, steps (guard_url ∅ None "169.254.169.254" READ_ARTICLE) []
                (Err (ToolError_Execution READ_ARTICLE why)).
Proof.
  refine (proj1 (url_readers_are_unguarded ReadArticle ∅ None no_sql
    (json_object [("link", JString "169.254.169.254")]) (mkToolCtx 7 None None) "169.254.169.254"
    (mkUrl "http" (Some "169.254.169.254") (Some 80)) "169.254.169.254" (V4 169 254 169 254) ""
    _ _ _ _ _ _ _)); try reflexivity. by left.
Defined.

Definition fetched (body : string) : result fetch_response string :=
  Ok (mkFetchResponse 200 [] (Ok body)).

Lemma fetched_answers_are_bounded_witness :
  rows_within (OutJson (JArray [rss_row (mkRssItem (Some "abc") None None None)])) 1.
Proof.
  destruct (proj1 (proj2 (fetched_answers_are_bounded
    (json_object [("url", JString "u"); ("limit", json_u64 0)]) (mkToolCtx 7 None None)
    [Call (EFetch (fetch_get "u")) (fetched "abc")]
    (OutJson (JArray [rss_row (mkRssItem (Some "abc") None None None)])))))
    as (args & [= <-] & Hr).
  - eexists _, _. split; [reflexivity|]. split; reflexivity.
  - exact Hr.
Defined.

(** ** Properties of extractive compression

    Which sentences a brief is made of, and that it is empty only for an
    empty text. *)

(** ** Selection *)

Section select.
Context (tokens : nat -> f64) (budget : f64).

Definition spent (chosen : list nat) : f64 :=
  fold_left (fun total i => f64_add total (tokens i)) chosen f64_zero.
Definition fits (chosen : list nat) : bool := negb (f64_gtb (spent chosen) budget).

Lemma spent_snoc chosen i : spent (chosen ++ [i]) = f64_add (spent chosen) (tokens i).
Proof. unfold spent. by rewrite fold_left_app. Qed.

(** What is taken is a prefix; it fits, unless it is a single element, and
    it cannot be prolonged. *)
Lemma select_prefix chosen scored :
  ((length chosen <= 1)%nat \/ fits chosen = true) ->
  exists k, select tokens budget chosen (spent chosen) scored = chosen ++ take k scored /\
    (chosen = [] -> scored <> [] -> (1 <= k)%nat) /\
    ((length (chosen ++ take k scored) <= 1)%nat \/ fits (chosen ++ take k scored) = true) /\
    ((k < length scored)%nat -> fits (chosen ++ take (S k) scored) = false).
Proof.
  revert chosen. induction scored as [|i rest IH]; intros chosen Hc.
  { exists O. rewrite app_nil_r. split_and!; [done..| |simpl; lia]. by destruct Hc; [left|right]. }
  simpl. rewrite <- spent_snoc.
  destruct (f64_gtb (spent (chosen ++ [i])) budget) eqn:Ef; simpl.
  - destruct chosen as [|c chosen]; simpl.
    + destruct (IH [i]) as (k & -> & _ & Hfit & Hmax); [left; simpl; lia|].
      exists (S k). split_and!; [done|intros; lia|done|]. intros Hk. apply Hmax. lia.
    + exists O. split_and!; [by rewrite app_nil_r|done| |].
      * rewrite app_nil_r. by destruct Hc as [Hc|Hc]; [left; simpl in *; lia|right].
      * intros _. simpl. change (fits ((c :: chosen) ++ [i]) = false). unfold fits. by rewrite Ef.
  - destruct (IH (chosen ++ [i])) as (k & -> & _ & Hfit & Hmax).
    { right. unfold fits. by rewrite Ef. }
    exists (S k). rewrite <- app_assoc in *. split_and!; [done|intros; lia|done|].
    intros Hk. apply Hmax. lia.
Qed.
End select.

(** ** Sentences *)

Lemma push_trimmed_nonempty cur s : s ∈ push_trimmed cur -> s <> "".
Proof.
  unfold push_trimmed, is_empty. destruct (String.eqb_spec (trim (of_chars cur)) "") as [|Hne];
    [by intros ?%elem_of_nil|]. by intros ->%list_elem_of_singleton.
Qed.

Lemma sentences_nonempty text s : s ∈ split_sentences text -> s <> "".
Proof.
  unfold split_sentences. generalize (@nil string) as cur.
  induction (chars text) as [|c cs IH]; intros cur; simpl; [apply push_trimmed_nonempty|].
  destruct (is_terminal c); [|apply IH].
  intros [?%push_trimmed_nonempty|?%IH]%elem_of_app; done.
Qed.

Lemma join_nonempty sep l : l <> [] -> Forall (fun s => s <> "") l -> join sep l <> "".
Proof.
  intros Hl Hf. destruct Hf as [|s l Hs Hf]; [done|]. unfold join. simpl.
  destruct l; [done|]. destruct s; done.
Qed.

Section brief.
Context `{UnicodeTables, AlphaTable}.

#[export] Instance before_total : Total before.
Proof.
  intros a b. unfold before. destruct (f64_ltb b.2 a.2) eqn:E1; [by left; left|].
  destruct (f64_ltb a.2 b.2) eqn:E2; [by right; left|].
  destruct (Nat.le_ge_cases a.1 b.1); [left|right]; by right.
Qed.

Definition score_of (text : string) (i : nat) : f64 :=
  score_sentence (default "" (split_sentences text !! i)) (word_freq (tokenize text)).

Definition scored (text : string) : list nat :=
  map fst (ranked (split_sentences text) (word_freq (tokenize text))).

Lemma scored_perm text : scored text ≡ₚ seq 0 (length (split_sentences text)).
Proof.
  unfold scored, ranked. rewrite merge_sort_Permutation.
  generalize (word_freq (tokenize text)) as freq. intros freq.
  apply reflexive_eq. change (map fst ?l) with (fst <$> l).
  rewrite fmap_imap, <- (list_fmap_id (seq 0 _)). apply (imap_seq_0 _ id).
Qed.

Lemma ranked_scores text :
  ranked (split_sentences text) (word_freq (tokenize text))
  = map (fun i => (i, score_of text i)) (scored text).
Proof.
  unfold scored. rewrite map_map.
  etransitivity; [symmetry; apply map_id|]. apply map_ext_in.
  intros [i f] Hin%list_elem_of_In. unfold ranked in Hin. rewrite merge_sort_Permutation in Hin.
  apply elem_of_lookup_imap in Hin as (j & s & [= -> ->] & Hs). unfold score_of. simpl.
  by rewrite Hs.
Qed.

(** The brief of a text that is cut. *)
Lemma cut_brief text max_tokens :
  let t := trim text in
  let ss := split_sentences t in
  let budget := f64_of_Z max_tokens in
  (1 < length ss)%nat -> f64_geb budget (estimate_tokens t) = false ->
  exists k,
    (1 <= k)%nat /\
    extractive_compress text max_tokens
      = join " " (omap (fun i => ss !! i) (merge_sort Nat.le (take k (scored t)))) /\
    (k = 1%nat \/ fits (sentence_tokens ss) budget (take k (scored t)) = true) /\
    ((k < length ss)%nat ->
     fits (sentence_tokens ss) budget (take (S k) (scored t)) = false).
Proof.
  intros t ss budget Hss Hb. unfold extractive_compress. fold t. fold ss. fold budget.
  pose proof (Permutation_length (scored_perm t)) as Hlen. rewrite length_seq in Hlen. fold ss in Hlen.
  destruct (select_prefix (sentence_tokens ss) budget [] (scored t)) as (k & Hsel & Hk & Hfit & Hmax).
  { left. simpl. lia. }
  simpl in Hfit, Hmax. change (spent _ []) with f64_zero in Hsel. simpl in Hsel.
  assert (Hk1 : (1 <= k)%nat).
  { apply Hk; [done|]. intros Hnil. rewrite Hnil in Hlen. simpl in Hlen. lia. }
  exists k. split; [done|]. split; [|split].
  - unfold is_empty. destruct (String.eqb_spec t "") as [Ht|_].
    { unfold ss in Hss. rewrite Ht in Hss. vm_compute in Hss. lia. }
    rewrite Hb. destruct (Nat.leb_spec (length ss) 1); [lia|]. simpl. f_equal. f_equal.
    change (map fst (ranked ss _)) with (scored t). rewrite Hsel.
    destruct (merge_sort Nat.le (take k (scored t))) eqn:E; [|done].
    apply (f_equal length) in E. rewrite merge_sort_Permutation, length_take in E. simpl in E. lia.
  - destruct Hfit as [Hfit|]; [left|by right]. rewrite length_take in Hfit. lia.
  - intros. apply Hmax. lia.
Qed.

Lemma omap_sentences_nonempty t k :
  (1 <= k)%nat -> (1 < length (split_sentences t))%nat ->
  join " " (omap (fun i => split_sentences t !! i) (merge_sort Nat.le (take k (scored t)))) <> "".
Proof.
  intros Hk Hss. apply join_nonempty.
  - pose proof (scored_perm t) as Hp. destruct (scored t) as [|i order] eqn:E.
    { apply Permutation_length in Hp. rewrite length_seq in Hp. simpl in Hp. lia. }
    assert (Hi : is_Some (split_sentences t !! i)).
    { apply lookup_lt_is_Some. assert (i ∈ i :: order) as Hi by set_solver.
      rewrite Hp in Hi. apply elem_of_seq in Hi. lia. }
    destruct Hi as [s Hi].
    assert (s ∈ omap (fun i => split_sentences t !! i) (merge_sort Nat.le (take k (i :: order)))) as Hs.
    { apply list_elem_of_omap. exists i. split; [|done]. rewrite merge_sort_Permutation.
      destruct k; [lia|]. simpl. set_solver. }
    intros Hnil. rewrite Hnil in Hs. by apply elem_of_nil in Hs.
  - apply Forall_forall. intros s (i & _ & Hs)%list_elem_of_omap.
    apply (sentences_nonempty t). by eapply list_elem_of_lookup_2.
Qed.

(** A text that fits the budget, or is one sentence, is its own brief.
    Of any other, the brief is made of whole sentences in their order: the
    first of a ranking by score, as many as fit the budget, and one if none
    does.  The brief is empty only if the text is blank. *)
Lemma brief_is_extract text max_tokens :
  let t := trim text in
  let ss := split_sentences t in
  let budget := f64_of_Z max_tokens in
  let brief := extractive_compress text max_tokens in
  (brief = "" <-> t = "") /\
  ((length ss <= 1)%nat \/ f64_geb budget (estimate_tokens t) = true -> brief = t) /\
  ((1 < length ss)%nat -> f64_geb budget (estimate_tokens t) = false ->
   exists order k,
     order ≡ₚ seq 0 (length ss) /\
     Sorted before (map (fun i => (i, score_of t i)) order) /\
     (1 <= k)%nat /\
     brief = join " " (omap (fun i => ss !! i) (merge_sort Nat.le (take k order))) /\
     (k = 1%nat \/ fits (sentence_tokens ss) budget (take k order) = true) /\
     ((k < length ss)%nat -> fits (sentence_tokens ss) budget (take (S k) order) = false)).
Proof.
  intros t ss budget brief.
  assert (Hshort : (length ss <= 1)%nat \/ f64_geb budget (estimate_tokens t) = true -> brief = t).
  { intros Hs. unfold brief, extractive_compress. fold t. fold ss. fold budget.
    unfold is_empty. destruct (String.eqb_spec t "") as [->|_]; [done|].
    destruct Hs as [Hs|Hs]; [|by rewrite Hs, orb_true_r].
    by rewrite (proj2 (Nat.leb_le _ _) Hs). }
  destruct (Nat.le_gt_cases (length ss) 1) as [Hl|Hl];
    [rewrite Hshort by (by left); split; [done|split; [done|lia]]|].
  destruct (f64_geb budget (estimate_tokens t)) eqn:Hb;
    [rewrite Hshort by (by right); split; [done|split; [done|done]]|].
  destruct (cut_brief text max_tokens Hl Hb) as (k & Hk & Hbr & Hfit & Hmax).
  split; [|split; [by apply Hshort|intros _ _]].
  - assert (brief <> "") by (unfold brief; rewrite Hbr; by apply omap_sentences_nonempty).
    split; [done|]. intros Ht. unfold ss in Hl. rewrite Ht in Hl. vm_compute in Hl. lia.
  - exists (scored t), k. split; [apply scored_perm|]. split; [|done].
    rewrite <- ranked_scores. apply Sorted_merge_sort. apply _.
Qed.
End brief.

(** ** Instances *)

#[local] Instance sample_alpha : AlphaTable := {| unicode_alphanumeric := fun _ => true |}.

Definition plans : string := " Query plans matter. Query plans query! Bye. ".

Lemma brief_is_extract_witness :
  extractive_compress plans 4 = "Query plans query!" /\
  exists order k, order ≡ₚ seq 0 3 /\
    Sorted before (map (fun i => (i, score_of (trim plans) i)) order) /\ (1 <= k)%nat.
Proof.
  split; [by vm_compute|].
  destruct (proj2 (proj2 (brief_is_extract plans 4))) as (order & k & Hp & Hs & Hk & _).
  - vm_compute. lia.
  - by vm_compute.
  - by exists order, k.
Defined.

(** With room for two, the sentences come in their own order. *)
Example two_sentences : extractive_compress plans 8 = "Query plans matter. Query plans query!".
Proof. by vm_compute. Qed.

(** The length of a word is counted in bytes: two characters of three bytes
    make a keyword. *)
Example keywords_count_bytes :
  let w := utf8 [230; 159; 165; 232; 175; 162] in
  chars_count w = 2 /\ is_keyword {[w := 2]} w = true.
Proof. by vm_compute. Qed.
