(* ===== verification/Cassette.v ===== *)
(** * Cassettes ([crates/pg-synapse-core/src/testing/cassette.rs])

    The recording of a provider, its replay and the conformance suite, and
    that a recorded run replays. *)

From S2P Require Import Prelude.
From S2P Require Import RustStr.
From S2P Require Import F64.
From S2P Require Import Json.
From S2P Require Import Errors.
From S2P Require Import Types.
From S2P Require Import Effects.
From S2P Require Import Traits.
From S2P Require Import LoopHarness.
From S2P Require Import StrSlice.
From S2P Require Import Wire.
From S2P Require Import ToolInput.
From S2P Require Import Mcp.
From S2P Require Import Fs.
From S2P Require Import Sample.
From S2P Require Import ToolsLoad.
From S2P Require Import ToolsLoadSpec.
From S2P Require Import Rows.
From S2P Require Import TypesJson.
From S2P Require Import Testing.
#[local] Open Scope Z_scope.

Inductive CassetteOutcome :=
| OutcomeOk (r : CompletionResponse)
| OutcomeErr (e : LlmError).

Record CassetteEntry := mkCassetteEntry {
  ce_request : CompletionRequest; ce_outcome : CassetteOutcome }.

Record Cassette := mkCassette {
  cas_model : string;
  cas_capabilities : ProviderCapabilities;
  cas_entries : list CassetteEntry }.

Definition outcome_of (r : result CompletionResponse LlmError) : CassetteOutcome :=
  match r with Ok resp => OutcomeOk resp | Err e => OutcomeErr e end.
Definition result_of (o : CassetteOutcome) : result CompletionResponse LlmError :=
  match o with OutcomeOk resp => Ok resp | OutcomeErr e => Err e end.

(** ** The format on disk *)

Definition outcome_to_json (o : CassetteOutcome) : json :=
  match o with
  | OutcomeOk r => json_object [("Ok", completion_to_json r)]
  | OutcomeErr e => json_object [("Err", llm_error_to_json e)]
  end.

Definition read_outcome (v : json) : option CassetteOutcome :=
  kv ← variant v;
  let '(k, x) := kv in
  if String.eqb k "Ok" then OutcomeOk <$> read_completion x
  else if String.eqb k "Err" then OutcomeErr <$> read_llm_error x
  else None.

(** The text serde_json writes of a value, with the fields in the order of the
    type; the value it denotes is [outcome_to_json] or [cassette_to_json]. *)
Class CassetteText := {
  outcome_text : CassetteOutcome -> string;
  cassette_text : Cassette -> string }.

Section cassette.
Context `{McpLib, ParseLib, Printers, WireLib, DeriveLib, LoadLib, CassetteText}.

Definition entry_to_json (e : CassetteEntry) : json :=
  json_object [("request", request_to_json (ce_request e)); ("outcome", outcome_to_json (ce_outcome e))].

Definition cassette_to_json (c : Cassette) : json :=
  json_object
    [("model", JString (cas_model c)); ("capabilities", capabilities_to_json (cas_capabilities c));
     ("entries", JArray (map entry_to_json (cas_entries c)))].

Definition read_entry (v : json) : option CassetteEntry :=
  fs ← row_fields 2 ["request"; "outcome"] v;
  match fs with
  | [r; o] => request ← r ≫= read_request; outcome ← o ≫= read_outcome;
              Some (mkCassetteEntry request outcome)
  | _ => None
  end.

Definition read_cassette (v : json) : option Cassette :=
  fs ← row_fields 3 ["model"; "capabilities"; "entries"] v;
  match fs with
  | [m; c; e] =>
      model ← read_string m; capabilities ← c ≫= read_capabilities;
      entries ← read_vec read_entry e; Some (mkCassette model capabilities entries)
  | _ => None
  end.

Definition to_json (c : Cassette) : string := cassette_text c.

Definition from_json (s : string) : result Cassette string :=
  match json_from_str s with
  | None => Err (json_error s)
  | Some v => ok_or (read_cassette v) (serde_error "Cassette" v)
  end.

Definition save `{FsLib} (s : file_system) (p : Fs.path) (c : Cassette) : result unit io_error * file_system :=
  write s p (to_json c).

Definition load `{FsLib} (s : file_system) (p : Fs.path) : result Cassette io_error :=
  match read_to_string s p with
  | Err e => Err e
  | Ok raw => map_err (fun _ => InvalidData) (from_json raw)
  end.

(** ** [RecordingProvider] *)

(** The state of the inner provider and what was recorded. *)
Definition record_outcome (r : result CompletionResponse LlmError) : outcome CassetteOutcome :=
  or_panic (read_outcome (outcome_to_json (outcome_of r))).

Definition recording_complete {S} (inner : StatefulLlm S) (st : S * list CassetteEntry)
    (req : CompletionRequest)
  : prog (outcome (result CompletionResponse LlmError) * (S * list CassetteEntry)) :=
  r ← sl_complete inner st.1 req;
  let '(res, s') := r in
  mret (match (res ≫= fun x => owned ← record_outcome x; Done (x, owned)) with
        | Done (x, owned) => (Done x, (s', st.2 ++ [mkCassetteEntry req owned]))
        | Panics => (Panics, (s', st.2))
        | OutOfFuel => (OutOfFuel, (s', st.2))
        end).

Definition RecordingProvider {S} (inner : StatefulLlm S) : StatefulLlm (S * list CassetteEntry) :=
  mkStatefulLlm (recording_complete inner) (fun st => sl_model_name inner st.1)
    (fun st => sl_capabilities inner st.1).

(** It empties what was recorded. *)
Definition into_cassette {S} (inner : StatefulLlm S) (st : S * list CassetteEntry)
  : Cassette * (S * list CassetteEntry) :=
  (mkCassette (sl_model_name inner st.1) (sl_capabilities inner st.1) st.2, (st.1, [])).

(** ** [CassetteProvider] *)

Record CassetteProvider := mkCassetteProvider {
  cp_model : string;
  cp_capabilities : ProviderCapabilities;
  cp_outcomes : list string;
  cp_cursor : Z }.

Definition replay_of (c : Cassette) : CassetteProvider :=
  mkCassetteProvider (cas_model c) (cas_capabilities c)
    (map (fun e => outcome_text (ce_outcome e)) (cas_entries c)) 0.

Definition provider_from_json (s : string) : result CassetteProvider string :=
  match from_json s with Ok c => Ok (replay_of c) | Err e => Err e end.

Definition exhausted (i : Z) : LlmError :=
  LlmError_Provider "cassette" ("cassette exhausted: no entry for call #" +:+ show i).

Definition reparse (raw : string) : outcome CassetteOutcome :=
  or_panic (json_from_str raw ≫= read_outcome).

Definition replay_complete (p : CassetteProvider) (_ : CompletionRequest)
  : prog (outcome (result CompletionResponse LlmError) * CassetteProvider) :=
  let i := cp_cursor p in
  let p' := mkCassetteProvider (cp_model p) (cp_capabilities p) (cp_outcomes p) (wrap64 (i + 1)) in
  mret (match cp_outcomes p !! Z.to_nat i with
        | None => (Done (Err (exhausted i)), p')
        | Some raw => (o ← reparse raw; Done (result_of o), p')
        end).

Definition replay : StatefulLlm CassetteProvider :=
  mkStatefulLlm replay_complete cp_model cp_capabilities.

(** ** Conformance *)

Inductive ConformanceError :=
| ModelMismatch (got expected : string)
| CapabilityMismatch
| OutcomeMismatch (index : Z) (detail : string).

Definition option_eqb {A} (eqb : A -> A -> bool) (a b : option A) : bool :=
  match a, b with Some x, Some y => eqb x y | None, None => true | _, _ => false end.
Fixpoint list_eqb {A} (eqb : A -> A -> bool) (a b : list A) : bool :=
  match a, b with
  | [], [] => true
  | x :: a, y :: b => eqb x y && list_eqb eqb a b
  | _, _ => false
  end.

(** The derived [PartialEq]. *)
Definition tool_call_eqb (a b : ToolCall) : bool :=
  String.eqb (tc_id a) (tc_id b) && String.eqb (tc_name a) (tc_name b)
    && json_eqb (tc_args a) (tc_args b).
Definition usage_eqb (a b : Usage) : bool :=
  (tokens_in a =? tokens_in b) && (tokens_out a =? tokens_out b)
    && option_eqb f64_eqb (cost_usd a) (cost_usd b).
Definition completion_eqb (a b : CompletionResponse) : bool :=
  option_eqb String.eqb (resp_content a) (resp_content b)
    && list_eqb tool_call_eqb (resp_tool_calls a) (resp_tool_calls b)
    && String.eqb (resp_finish_reason a) (resp_finish_reason b)
    && usage_eqb (resp_usage a) (resp_usage b).

Definition compare_outcome (index : Z) (want : CassetteOutcome)
    (got : result CompletionResponse LlmError) : result unit ConformanceError :=
  match want, got with
  | OutcomeOk want, Ok actual =>
      if completion_eqb want actual then Ok tt
      else Err (OutcomeMismatch index "response body differs from cassette")
  | OutcomeErr _, Err _ => Ok tt
  | OutcomeOk _, Err e =>
      Err (OutcomeMismatch index ("expected success, got error: " +:+ LlmError_to_string e))
  | OutcomeErr _, Ok _ => Err (OutcomeMismatch index "expected recorded error, got success")
  end.

Fixpoint conformance_entries {S} (p : StatefulLlm S) (s : S) (index : Z)
    (entries : list CassetteEntry) : prog (outcome (result unit ConformanceError)) :=
  match entries with
  | [] => mret (Done (Ok tt))
  | e :: rest =>
      r ← sl_complete p s (ce_request e);
      match r with
      | (Done got, s') =>
          match compare_outcome index (ce_outcome e) got with
          | Ok tt => conformance_entries p s' (index + 1) rest
          | Err err => mret (Done (Err err))
          end
      | (Panics, _) => mret Panics
      | (OutOfFuel, _) => mret OutOfFuel
      end
  end.

Definition run_conformance {S} (p : StatefulLlm S) (s : S) (expected : Cassette)
  : prog (outcome (result unit ConformanceError)) :=
  if negb (String.eqb (sl_model_name p s) (cas_model expected)) then
    mret (Done (Err (ModelMismatch (sl_model_name p s) (cas_model expected))))
  else if negb (json_eqb (capabilities_to_json (sl_capabilities p s))
                  (capabilities_to_json (cas_capabilities expected))) then
    mret (Done (Err CapabilityMismatch))
  else conformance_entries p s 0 (cas_entries expected).
End cassette.

(** ** The canonical cassette *)

Definition canonical_message (content : string) : Message :=
  mkMessage 0 0 User (Some content) None None None None 0.

Definition canonical_entry (content : string) (o : CassetteOutcome) : CassetteEntry :=
  mkCassetteEntry (mkCompletionRequest [canonical_message content] [] None None None JNull) o.

Definition default_conformance_cassette (model : string) (capabilities : ProviderCapabilities)
  : Cassette :=
  mkCassette model capabilities
    [mkCassetteEntry
       (mkCompletionRequest [canonical_message "ping"] [] None (Some f64_zero) (Some 32) JNull)
       (OutcomeOk (mkCompletionResponse (Some "pong") [] "stop"
                     (mkUsage 2 1 (Some (f64_ratio 1 1000)))));
     canonical_entry "use the echo tool with input ping"
       (OutcomeOk (mkCompletionResponse None
                     [mkToolCall "call_0" "echo" (json_object [("input", JString "ping")])]
                     "tool_calls" Usage_default));
     canonical_entry "trigger auth failure" (OutcomeErr (LlmError_Auth "conformance-provider"))].

(** ** Properties of cassettes

    Recording does not change what a provider answers, and what was recorded
    is what a replay answers. *)

(** ** Outcomes *)

(** What JSON can hold of an outcome, and compare with itself. *)
Definition outcome_wf (o : CassetteOutcome) : Prop :=
  match o with
  | OutcomeOk r => completion_wf r /\ Forall (fun tc => json_wf (tc_args tc)) (resp_tool_calls r)
  | OutcomeErr e => llm_error_wf e
  end.

Lemma read_outcome_write o : outcome_wf o -> read_outcome (outcome_to_json o) = Some o.
Proof.
  destruct o as [r|e]; intros Ho; unfold read_outcome; simpl.
  - destruct Ho as [Ho _]. by rewrite read_completion_write.
  - by rewrite read_llm_error_write.
Qed.

Lemma result_outcome r : result_of (outcome_of r) = r.
Proof. by destruct r. Qed.

Lemma list_eqb_refl {A} (eqb : A -> A -> bool) l :
  Forall (fun x => eqb x x = true) l -> list_eqb eqb l l = true.
Proof. induction 1 as [|x l Hx _ IH]; [done|]. simpl. by rewrite Hx, IH. Qed.

Lemma completion_eqb_refl r : outcome_wf (OutcomeOk r) -> completion_eqb r r = true.
Proof.
  destruct r as [c tc f [i o cost]]. intros [(_ & _ & Hc) Hargs]. simpl in *.
  unfold completion_eqb, usage_eqb. simpl. rewrite String.eqb_refl, !Z.eqb_refl.
  rewrite list_eqb_refl.
  - destruct c; simpl; rewrite ?String.eqb_refl; (destruct cost; [simpl|done]); by apply f64_eqb_refl.
  - eapply Forall_impl; [exact Hargs|]. intros t Ht. unfold tool_call_eqb.
    by rewrite !String.eqb_refl, json_eqb_refl.
Qed.

(** ** Driving a provider *)

(** One completion per request, as long as none panics. *)
Fixpoint drive {S} (p : StatefulLlm S) (s : S) (reqs : list CompletionRequest)
  : prog (option (list (result CompletionResponse LlmError)) * S) :=
  match reqs with
  | [] => mret (Some [], s)
  | req :: rest =>
      r ← sl_complete p s req;
      match r with
      | (Done x, s') => rs ← drive p s' rest; mret (cons x <$> rs.1, rs.2)
      | (_, s') => mret (None, s')
      end
  end.

Section record.
Context `{McpLib, ParseLib, Printers, WireLib, DeriveLib, LoadLib, CassetteText}.
Context {S : Type} (inner : StatefulLlm S).

Lemma record_outcome_wf x : outcome_wf (outcome_of x) -> record_outcome x = Done (outcome_of x).
Proof. intros Hx. unfold record_outcome. by rewrite read_outcome_write. Qed.

Definition recorded (reqs : list CompletionRequest)
    (results : list (result CompletionResponse LlmError)) : list CassetteEntry :=
  zip_with (fun req x => mkCassetteEntry req (outcome_of x)) reqs results.

(** A recorder passes everything through. *)
Lemma drive_recorded s l reqs tr results s' :
  steps (drive inner s reqs) tr (Some results, s') ->
  Forall (fun x => outcome_wf (outcome_of x)) results ->
  steps (drive (RecordingProvider inner) (s, l) reqs) tr
    (Some results, (s', l ++ recorded reqs results)).
Proof.
  revert s l tr results. induction reqs as [|req reqs IH]; intros s l tr results; simpl.
  { intros [-> [= -> ->]] _. by rewrite app_nil_r. }
  intros (tr1 & tr2 & [o s1] & -> & Hc & Hs)%steps_bind Hwf.
  destruct o as [x| |]; [|by destruct Hs..].
  apply steps_bind in Hs as (tr3 & tr4 & [rs s2] & -> & Hd & [-> Heq]). simpl in Heq.
  destruct rs as [rs|]; [|done]. injection Heq as -> ->.
  apply Forall_cons in Hwf as [Hx Hwf]. rewrite app_nil_r in *.
  apply steps_bind. exists tr1, tr3, (Done x, (s1, l ++ [mkCassetteEntry req (outcome_of x)])).
  split; [done|]. split.
  - unfold recording_complete. apply steps_bind. exists tr1, [], (Done x, s1).
    rewrite app_nil_r. split; [done|]. split; [done|]. simpl. by rewrite record_outcome_wf.
  - apply steps_bind. eexists tr3, [], (Some rs, _). rewrite app_nil_r. split; [done|].
    split; [by apply IH|]. simpl. by rewrite <- app_assoc.
Qed.

(** The text of an outcome denotes its JSON. *)
Definition text_denotes (o : CassetteOutcome) : Prop :=
  json_from_str (outcome_text o) = Some (outcome_to_json o).

Lemma reparse_text o : outcome_wf o -> text_denotes o -> reparse (outcome_text o) = Done o.
Proof. intros Ho Ht. unfold reparse. rewrite Ht. simpl. by rewrite read_outcome_write. Qed.

Lemma wrap64_nat n : Z.of_nat n < U64_MAX -> wrap64 (Z.of_nat n + 1) = Z.of_nat (Datatypes.S n).
Proof. intros Hn. unfold wrap64. rewrite Z.mod_small; unfold U64_MAX in *; lia. Qed.

(** Replaying from position [n]. *)
Lemma drive_replay c n reqs entries :
  (forall i, cas_entries c !! (n + i)%nat = entries !! i) ->
  length reqs = length entries ->
  Z.of_nat n + Z.of_nat (length reqs) <= U64_MAX ->
  Forall (fun e => outcome_wf (ce_outcome e) /\ text_denotes (ce_outcome e)) entries ->
  forall p, cp_outcomes p = map (fun e => outcome_text (ce_outcome e)) (cas_entries c) ->
  cp_cursor p = Z.of_nat n ->
  exists p', cp_cursor p' = Z.of_nat (n + length reqs) /\ cp_outcomes p' = cp_outcomes p /\
    steps (drive replay p reqs) [] (Some (map (fun e => result_of (ce_outcome e)) entries), p').
Proof.
  revert n entries. induction reqs as [|req reqs IH]; intros n entries He Hl Hb Hwf p Ho Hc.
  { destruct entries; [|done]. exists p. rewrite Nat.add_0_r. by split. }
  destruct entries as [|e entries]; [done|]. apply Forall_cons in Hwf as [[Hwf Ht] Hall].
  simpl in Hl, Hb. injection Hl as Hl.
  set (p1 := mkCassetteProvider (cp_model p) (cp_capabilities p) (cp_outcomes p)
               (wrap64 (cp_cursor p + 1))).
  destruct (IH (Datatypes.S n) entries) with (p := p1) as (p' & Hp' & Hp'o & Hs); try done.
  - intros i. rewrite Nat.add_succ_l, <- Nat.add_succ_r. apply (He (Datatypes.S i)).
  - lia.
  - simpl. rewrite Hc. apply wrap64_nat. lia.
  - exists p'. split; [rewrite Hp'; simpl; lia|]. split; [done|]. simpl. unfold replay_complete.
    rewrite Hc, Nat2Z.id, Ho. change (map ?f (cas_entries c)) with (f <$> cas_entries c).
    rewrite list_lookup_fmap.
    specialize (He O). rewrite Nat.add_0_r in He. rewrite He. simpl. rewrite reparse_text by done.
    simpl. apply steps_bind. exists [], [], (Some (map (fun e => result_of (ce_outcome e)) entries), p').
    split; [done|]. split; [|done]. unfold p1 in Hs. by rewrite Ho, Hc in Hs.
Qed.

Lemma recorded_results reqs results :
  length reqs = length results ->
  map (fun e => result_of (ce_outcome e)) (recorded reqs results) = results.
Proof.
  revert results. induction reqs as [|req reqs IH]; intros [|x results]; try done.
  intros [= Hl]. unfold recorded in *. simpl. by rewrite result_outcome, IH.
Qed.

Lemma recorded_length reqs results :
  length reqs = length results -> length (recorded reqs results) = length reqs.
Proof. intros Hl. unfold recorded. rewrite length_zip_with. lia. Qed.

Lemma recorded_wf reqs results :
  Forall (fun x => outcome_wf (outcome_of x) /\ text_denotes (outcome_of x)) results ->
  Forall (fun e => outcome_wf (ce_outcome e) /\ text_denotes (ce_outcome e)) (recorded reqs results).
Proof.
  intros Hall. revert reqs. induction Hall as [|x results Hx _ IH]; intros [|req reqs];
    constructor; [done|apply IH].
Qed.

Lemma drive_length {T} (p : StatefulLlm T) s reqs tr results s' :
  steps (drive p s reqs) tr (Some results, s') -> length reqs = length results.
Proof.
  revert s tr results. induction reqs as [|req reqs IH]; intros s tr results; simpl.
  { by intros [-> [= -> ->]]. }
  intros (tr1 & tr2 & [o s1] & -> & _ & Hs)%steps_bind.
  destruct o as [x| |]; [|by destruct Hs..].
  apply steps_bind in Hs as (tr3 & tr4 & [[rs|] s2] & -> & Hd & [-> Heq]); [|done].
  injection Heq as -> ->. simpl. f_equal. by eapply IH.
Qed.

(** A recorder answers as the provider it wraps, with one entry per request, in
    order; the replay of its cassette gives the recorded answers back whatever
    is asked, and after the last one the error that the cassette is exhausted. *)
Lemma recorded_run_replays s reqs tr results s' :
  steps (drive inner s reqs) tr (Some results, s') ->
  Forall (fun x => outcome_wf (outcome_of x) /\ text_denotes (outcome_of x)) results ->
  Z.of_nat (length reqs) < U64_MAX ->
  let st := (s', recorded reqs results) in
  let cassette := fst (into_cassette inner st) in
  steps (drive (RecordingProvider inner) (s, []) reqs) tr (Some results, st) /\
  map ce_request (cas_entries cassette) = reqs /\
  forall asked last, length asked = length reqs ->
    exists p p', steps (drive replay (replay_of cassette) asked) [] (Some results, p) /\
      steps (sl_complete replay p last) []
        (Done (Err (exhausted (Z.of_nat (length reqs)))), p').
Proof.
  intros Hs Hwf Hb. pose proof (drive_length _ _ _ _ _ _ Hs) as Hl.
  split.
  { apply (drive_recorded _ [] _ _ _ _ Hs). eapply Forall_impl; [exact Hwf|]. by intros x []. }
  simpl. split.
  { clear -Hl. revert results Hl. unfold recorded.
    induction reqs as [|req reqs IH]; intros [|x results]; try done. intros [= Hl]. simpl.
    by rewrite IH. }
  intros asked last Ha. set (c := mkCassette _ _ (recorded reqs results)).
  destruct (drive_replay c 0 asked (recorded reqs results)) with (p := replay_of c)
    as (p & Hp & Hpo & Hd); try done.
  - by rewrite recorded_length.
  - rewrite Ha. lia.
  - by apply recorded_wf.
  - rewrite recorded_results in Hd by done. exists p. eexists. split; [done|]. simpl.
    unfold replay_complete. rewrite Hp, Hpo. rewrite Nat2Z.id. simpl.
    rewrite lookup_ge_None_2; [by rewrite Ha|].
    rewrite length_map, recorded_length by done. lia.
Qed.

(** A replay conforms to its own cassette. *)
Lemma compare_outcome_self i o : outcome_wf o -> compare_outcome i o (result_of o) = Ok tt.
Proof. destruct o as [r|e]; [|done]. intros Ho. simpl. by rewrite completion_eqb_refl. Qed.

Lemma conformance_replay c n entries index :
  (forall i, cas_entries c !! (n + i)%nat = entries !! i) ->
  Z.of_nat n + Z.of_nat (length entries) <= U64_MAX ->
  Forall (fun e => outcome_wf (ce_outcome e) /\ text_denotes (ce_outcome e)) entries ->
  forall p, cp_outcomes p = map (fun e => outcome_text (ce_outcome e)) (cas_entries c) ->
  cp_cursor p = Z.of_nat n ->
  steps (conformance_entries replay p index entries) [] (Done (Ok tt)).
Proof.
  revert n index. induction entries as [|e entries IH]; intros n index He Hb Hwf p Ho Hc; [done|].
  apply Forall_cons in Hwf as [[Hwf Ht] Hall]. simpl in Hb. simpl. unfold replay_complete.
  rewrite Hc, Nat2Z.id, Ho. change (map ?f (cas_entries c)) with (f <$> cas_entries c).
  rewrite list_lookup_fmap. pose proof (He O) as He0. rewrite Nat.add_0_r in He0. rewrite He0. simpl.
  rewrite reparse_text by done. simpl. rewrite compare_outcome_self by done.
  apply (IH (Datatypes.S n)); try done.
  - intros i. rewrite Nat.add_succ_l, <- Nat.add_succ_r. apply (He (Datatypes.S i)).
  - lia.
  - simpl. apply wrap64_nat. lia.
Qed.

Lemma replay_conforms c :
  Forall (fun e => outcome_wf (ce_outcome e) /\ text_denotes (ce_outcome e)) (cas_entries c) ->
  Z.of_nat (length (cas_entries c)) <= U64_MAX ->
  steps (run_conformance replay (replay_of c) c) [] (Done (Ok tt)).
Proof.
  intros Hwf Hb. unfold run_conformance.
  change (sl_model_name replay (replay_of c)) with (cas_model c).
  change (sl_capabilities replay (replay_of c)) with (cas_capabilities c).
  assert (Hcaps : json_wf (capabilities_to_json (cas_capabilities c))).
  { by destruct (cas_capabilities c) as [? ? ? ? [] []]. }
  rewrite String.eqb_refl, json_eqb_refl by done. by apply (conformance_replay c 0).
Qed.

(** A cassette that was saved is loaded back. *)
Definition cassette_wf (c : Cassette) : Prop :=
  capabilities_wf (cas_capabilities c) /\
  Forall (fun e => request_wf (ce_request e) /\ outcome_wf (ce_outcome e)) (cas_entries c).

Lemma read_entry_write e :
  request_wf (ce_request e) -> outcome_wf (ce_outcome e) -> read_entry (entry_to_json e) = Some e.
Proof.
  destruct e as [r o]. intros Hr Ho. unfold read_entry. simpl in *.
  rewrite read_request_write by done. simpl. by rewrite read_outcome_write.
Qed.

Lemma read_cassette_write c : cassette_wf c -> read_cassette (cassette_to_json c) = Some c.
Proof.
  destruct c as [m ca es]. intros [Hc He]. unfold read_cassette. simpl in *.
  rewrite read_capabilities_write by done. simpl. rewrite (read_vec_write read_entry); [done|].
  eapply Forall_impl; [exact He|]. intros e [? ?]. by apply read_entry_write.
Qed.

Lemma saved_cassette_loads `{FsLib} fs p c fs' :
  cassette_wf c -> json_from_str (to_json c) = Some (cassette_to_json c) ->
  utf8_ok (to_json c) = true -> save fs p c = (Ok tt, fs') -> load fs' p = Ok c.
Proof.
  intros Hwf Ht Hu Hw%write_read. unfold load, from_json.
  assert (read_to_string fs' p = Ok (to_json c)) as ->.
  { unfold read_to_string. unfold read_bytes in Hw.
    destruct (metadata fs' p) as [[q [|c'|]]|]; try done. injection Hw as ->. by rewrite Hu. }
  rewrite Ht. simpl. by rewrite read_cassette_write.
Qed.
(** What serde_json promises of the text it writes for a cassette. *)
Definition text_sound (c : Cassette) : Prop :=
  json_from_str (to_json c) = Some (cassette_to_json c) /\ utf8_ok (to_json c) = true.

Lemma loaded_from_text c :
  cassette_wf c -> text_sound c -> provider_from_json (to_json c) = Ok (replay_of c).
Proof.
  intros Hwf [Ht _]. unfold provider_from_json, from_json. rewrite Ht. simpl.
  by rewrite read_cassette_write.
Qed.

Lemma recorded_cassette_wf s reqs results :
  capabilities_wf (sl_capabilities inner s) -> Forall request_wf reqs ->
  Forall (fun x => outcome_wf (outcome_of x) /\ text_denotes (outcome_of x)) results ->
  cassette_wf (fst (into_cassette inner (s, recorded reqs results))).
Proof.
  intros Hc Hr Hw. split; [done|]. simpl. clear Hc. revert reqs Hr.
  induction Hw as [|x results [Hx _] _ IH]; intros [|req reqs] Hr; try by constructor.
  apply Forall_cons in Hr as [Hreq Hr]. constructor; [done|by apply IH].
Qed.

(** C40: Record, save, load, replay.  A recorder answers as the provider it
    wraps, and the cassette it leaves has one entry per request, in order.
    Saved to a file and loaded again it is the same cassette; a provider read
    from its text gives the recorded answers back whatever is asked, without
    any request, then the error that the cassette is exhausted, and passes the
    conformance suite against it.  This is for values that JSON carries and
    texts that serde_json reads back as it wrote them. *)
Theorem recorded_runs_replay `{FsLib} s reqs tr results s' fs path fs' :
  steps (drive inner s reqs) tr (Some results, s') ->
  capabilities_wf (sl_capabilities inner s') -> Forall request_wf reqs ->
  Forall (fun x => outcome_wf (outcome_of x) /\ text_denotes (outcome_of x)) results ->
  Z.of_nat (length reqs) < U64_MAX ->
  let st := (s', recorded reqs results) in
  let cassette := fst (into_cassette inner st) in
  text_sound cassette -> save fs path cassette = (Ok tt, fs') ->
  steps (drive (RecordingProvider inner) (s, []) reqs) tr (Some results, st) /\
  map ce_request (cas_entries cassette) = reqs /\
  load fs' path = Ok cassette /\
  exists p0, provider_from_json (to_json cassette) = Ok p0 /\
    steps (run_conformance replay p0 cassette) [] (Done (Ok tt)) /\
    forall asked last, length asked = length reqs ->
      exists p p', steps (drive replay p0 asked) [] (Some results, p) /\
        steps (sl_complete replay p last) []
          (Done (Err (exhausted (Z.of_nat (length reqs)))), p').
Proof.
  intros Hs Hcaps Hreqs Hwf Hb st cassette Htext Hsave.
  destruct (recorded_run_replays s reqs tr results s' Hs Hwf Hb) as (Hrec & Hmap & Hplay).
  pose proof (recorded_cassette_wf s' reqs results Hcaps Hreqs Hwf) as Hc.
  split; [done|]. split; [done|]. split.
  { destruct Htext. by eapply saved_cassette_loads. }
  exists (replay_of cassette). split; [by apply loaded_from_text|]. split; [|done].
  apply replay_conforms.
  - by apply recorded_wf.
  - simpl. rewrite recorded_length; [lia|]. by eapply drive_length.
Qed.
End record.

(** ** Instances *)

Definition hello : result CompletionResponse LlmError :=
  MockLlm.text_response "hello" "stop" (mkUsage 2 1 (Some (f64_ratio 1 1000))).
Definition refused : result CompletionResponse LlmError := Err (LlmError_Auth "p").

#[local] Instance cassette_parse : ParseLib :=
  {| parse_uuid := fun _ => None; parse_timestamp := fun _ => None; f32_text := fun f => f |}.
#[local] Instance cassette_mcp : McpLib := {| client_build_error := None; root_schema := Ok |}.
#[local] Instance cassette_derive : DeriveLib :=
  {| serde_error := fun _ _ => "bad input"; schema_for := fun _ => JNull |}.
#[local] Instance cassette_load : LoadLib :=
  {| csv_headers := fun _ => Ok []; csv_records := fun _ => []; csv_writer := unit; csv_new := tt;
     csv_write_record := fun _ _ => Ok tt; csv_into_inner := fun _ => Ok "";
     json_error := fun _ => "bad json" |}.
#[local] Instance cassette_text_sample : CassetteText :=
  {| outcome_text := fun o => match o with OutcomeOk _ => "ok" | OutcomeErr _ => "err" end;
     cassette_text := fun _ => "cassette" |}.
Definition two_requests : list CompletionRequest :=
  [CompletionRequest_default; CompletionRequest_default].
Definition two_cassette : Cassette :=
  mkCassette "m" ProviderCapabilities_default (recorded two_requests [hello; refused]).

#[local] Instance cassette_wire : WireLib :=
  {| json_from_str := fun s =>
       if String.eqb s "ok" then Some (outcome_to_json (outcome_of hello))
       else if String.eqb s "err" then Some (outcome_to_json (outcome_of refused))
       else if String.eqb s "cassette" then Some (cassette_to_json two_cassette) else None;
     parse_f64 := fun _ => None; header_name_ok := fun _ => true; header_value_ok := fun _ => true;
     fmt_status := show |}.

#[local] Instance cassette_disk : FsLib :=
  {| io_text := fun _ => "io error"; dir_size := fun _ => 4096; max_links := 40 |}.

Definition two_replies : MockLlmProvider :=
  MockLlm.push_error (LlmError_Auth "p")
    (MockLlm.push (MockTextWithUsage "hello" (mkUsage 2 1 (Some (f64_ratio 1 1000)))) (MockLlm.new "m")).

Definition spent_mock : MockLlmProvider :=
  mkMockLlmProvider [] "m" ProviderCapabilities_default 0 None 2.

Lemma recorded_runs_replay_witness :
  load {[["run.json"] := File "cassette"]} ["run.json"] = Ok two_cassette /\
  exists p0, provider_from_json "cassette" = Ok p0 /\
    steps (run_conformance replay p0 two_cassette) [] (Done (Ok tt)).
Proof.
  destruct (recorded_runs_replay MockLlm.provider two_replies two_requests [] [hello; refused]
    spent_mock ∅ ["run.json"] {[["run.json"] := File "cassette"]}) as (_ & _ & Hl & p0 & Hp & Hc & _).
  - split; reflexivity.
  - by vm_compute.
  - repeat constructor.
  - repeat constructor; try done; vm_compute; done.
  - done.
  - split; reflexivity.
  - by vm_compute.
  - split; [exact Hl|]. exists p0. split; [exact Hp|exact Hc].
Defined.
