(* ===== verification/DemoApps.v ===== *)
(** * The demo server: apps ([demo/harness/src])

    Saved questions ([questions.rs]), the MCP server over them ([mcp.rs]), the
    scan of a connection and its review ([scan.rs]) and the schedules
    ([schedules.rs]), on the helpers of [db.rs] and [error.rs].

    A handler opens one connection, which all its statements use.  A column
    that does not hold the type asked for panics ([raise]). *)

From S2P Require Import Prelude.
From S2P Require Import RustStr.
From S2P Require Import F64.
From S2P Require Import Json.
From S2P Require Import Net.
From S2P Require Import Errors.
From S2P Require Import Types.
From S2P Require Import Effects.
From S2P Require Import LoopHarness.
From S2P Require Import Wire.
From S2P Require Import StrSlice.
From S2P Require Import ToolInput.
#[local] Open Scope synapse_scope.

Definition dq : string := String dquote "".
Definition quoted (s : string) : string := dq +:+ s +:+ dq.

(** The error of a query that should answer one row, the panic of a column,
    and [serde_json::to_string_pretty]. *)
Class TokioLib := {
  row_count_error : TokioError;
  get_panic : nat -> string;
  to_string_pretty : json -> string }.

(** ** Errors ([error.rs]) *)

Inductive HarnessError :=
| HarnessError_Db (e : TokioError)
| HarnessError_BadRequest (m : string)
| HarnessError_NotFound (m : string)
| HarnessError_Upstream (m : string).

Definition HarnessError_to_string (e : HarnessError) : string :=
  match e with
  | HarnessError_Db e => "database error: " +:+ tk_text e
  | HarnessError_BadRequest m => m
  | HarnessError_NotFound m => "not found: " +:+ m
  | HarnessError_Upstream m => "llm endpoint error: " +:+ m
  end.

Definition error_code (e : HarnessError) : Z :=
  match e with
  | HarnessError_BadRequest _ => 400
  | HarnessError_NotFound _ => 404
  | HarnessError_Upstream _ => 502
  | HarnessError_Db _ => 500
  end.

Definition into_response (e : HarnessError) : Z * json :=
  (error_code e,
   json_object [("ok", JBool false); ("error", JString (HarnessError_to_string e))]).

(** The message of the server, or else the text of the error. *)
Definition db_message (e : TokioError) : string := default (tk_text e) (tk_message e).

(** What handlers share: the fields of [AppState] that do not change. *)
Record HarnessState := mkHarnessState {
  db_url : string;
  default_llm_base_url : string;
  default_llm_model : string;
  upload_dir : string }.

Definition Row : Type := list datum.

(** ** The client ([db.rs]) *)

Definition d_text (d : datum) : option string := match d with DText s => Some s | _ => None end.
Definition d_bool (d : datum) : option bool := match d with DBool b => Some b | _ => None end.
Definition d_i32 (d : datum) : option Z := match d with DInt4 n => Some n | _ => None end.
Definition d_i64 (d : datum) : option Z := match d with DInt8 n => Some n | _ => None end.
Definition d_f64 (d : datum) : option f64 := match d with DFloat8 f => Some f | _ => None end.
Definition d_option {A} (dec : datum -> option A) (d : datum) : option (option A) :=
  match d with DNull _ => Some None | _ => Some <$> dec d end.

(** A parameter that may be absent. *)
Definition opt_datum {A} (t : pg_type) (f : A -> datum) (o : option A) : datum :=
  match o with Some a => f a | None => DNull t end.

Section db.
Context `{WireLib, TokioLib}.

(** [row.get::<_, T>(i)] *)
Definition get {A} (dec : datum -> option A) (i : nat) (row : Row) : prog A :=
  match row !! i ≫= dec with Some a => mret a | None => raise (get_panic i) end.

Definition tk_call (c : tokio_call) : prog (result (Z * list Row) TokioError) := perform (ETokio c).

Definition tk_query (sql : string) (args : list datum) : prog (result (list Row) TokioError) :=
  prog_try (tk_call (TkQuery sql args)) (fun r => mret (Ok r.2)).
Definition tk_execute (sql : string) (args : list datum) : prog (result Z TokioError) :=
  prog_try (tk_call (TkQuery sql args)) (fun r => mret (Ok r.1)).

Definition one_row (rows : list Row) : result Row TokioError :=
  match rows with [row] => Ok row | _ => Err row_count_error end.
Definition tk_query_one (sql : string) (args : list datum) : prog (result Row TokioError) :=
  prog_try (tk_query sql args) (fun rows => mret (one_row rows)).
Definition tk_query_opt (sql : string) (args : list datum)
  : prog (result (option Row) TokioError) :=
  prog_try (tk_query sql args) (fun rows =>
    mret (match rows with
          | [] => Ok None
          | [row] => Ok (Some row)
          | _ => Err row_count_error
          end)).

(** [?] in a function that returns a [HarnessError]. *)
Definition db {A} (p : prog (result A TokioError)) : prog (result A HarnessError) :=
  r ← p; mret (map_err HarnessError_Db r).

Definition connect (url : string) : prog (result unit HarnessError) :=
  db (prog_try (tk_call (TkConnect url)) (fun _ => mret (Ok tt))).

Definition parse_or_null (text : string) : json := default JNull (json_from_str text).

Fixpoint rows_json (rows : list Row) : prog (list json) :=
  match rows with
  | [] => mret []
  | row :: rest =>
      text ← get d_text 0 row;
      out ← rows_json rest;
      mret (parse_or_null text :: out)
  end.

Definition jsonb_rows (sql : string) (args : list datum) : prog (result (list json) HarnessError) :=
  prog_try (db (tk_query sql args)) (fun rows => out ← rows_json rows; mret (Ok out)).

Definition jsonb_one (sql : string) (args : list datum) : prog (result json HarnessError) :=
  prog_try (db (tk_query_one sql args)) (fun row =>
    text ← get d_text 0 row; mret (Ok (parse_or_null text))).
End db.

(** A handler with a connection. *)
Definition connected {A} (st : HarnessState) (p : prog (result A HarnessError))
  : prog (result A HarnessError) := prog_try (connect (db_url st)) (fun _ => p).

Definition ok_json (fields : list (string * json)) : json := json_object (("ok", JBool true) :: fields).

(** ** Questions ([questions.rs]) *)

Module Questions.

Definition is_lower (c : string) : bool := is_ascii c && String.leb "a" c && String.leb c "z".
Definition is_digit (c : string) : bool := is_ascii c && String.leb "0" c && String.leb c "9".
Definition ident_char (c : string) : bool := is_lower c || is_digit c || String.eqb c "_".

Definition valid_ident (s : string) : bool :=
  negb (is_empty s) && (str_len s <=? 63)
    && match chars s with c :: _ => is_lower c | [] => false end
    && forallb ident_char (chars s).

Record SaveReq := mkSaveReq {
  sv_app : string; sv_name : string; sv_nl_text : string; sv_kind : string;
  sv_sql_text : option string; sv_confirmed : bool }.

Definition default_kind : string := "sql".

Definition read_save (v : json) : option SaveReq :=
  fs ← struct_fields ["app"; "name"; "nl_text"; "kind"; "sql_text"; "confirmed"] v;
  match fs with
  | [a; n; t; k; s; c] =>
      app ← string_field a; name ← string_field n; nl_text ← string_field t;
      kind ← string_or default_kind k; sql_text ← opt_string_field s; confirmed ← bool_or false c;
      Some (mkSaveReq app name nl_text kind sql_text confirmed)
  | _ => None
  end.

Definition BAD_NAMES : string :=
  "app and name must be lowercase letters, digits, and underscores, starting with a "
   +:+ "letter, 63 characters or fewer".

Definition SAVE_SQL : string :=
  "INSERT INTO synapse.questions (app, name, nl_text, kind, sql_text, confirmed_at) "
   +:+ "VALUES ($1, $2, $3, $4, $5, CASE WHEN $6 THEN now() ELSE NULL END) ON CONFLICT "
   +:+ "(app, name) DO UPDATE SET nl_text = EXCLUDED.nl_text, kind = EXCLUDED.kind, "
   +:+ "sql_text = EXCLUDED.sql_text, confirmed_at = EXCLUDED.confirmed_at".

Definition save_args (req : SaveReq) : list datum :=
  [DText (sv_app req); DText (sv_name req); DText (sv_nl_text req); DText (sv_kind req);
   opt_datum TText DText (sv_sql_text req); DBool (sv_confirmed req)].

Definition check_save (req : SaveReq) : result unit HarnessError :=
  if negb (valid_ident (sv_app req)) || negb (valid_ident (sv_name req)) then
    Err (HarnessError_BadRequest BAD_NAMES)
  else if negb (String.eqb (sv_kind req) "sql") && negb (String.eqb (sv_kind req) "agent") then
    Err (HarnessError_BadRequest ("kind must be " +:+ dq +:+ "sql" +:+ dq +:+ " or " +:+ dq +:+ "agent" +:+ dq))
  else if String.eqb (sv_kind req) "sql" && is_blank (default "" (sv_sql_text req)) then
    Err (HarnessError_BadRequest "a sql question needs sql_text")
  else Ok tt.

Definition LIST_SQL : string :=
  "SELECT to_jsonb(q)::text FROM ( SELECT name, nl_text, kind, sql_text, (confirmed_at "
   +:+ "IS NOT NULL) AS confirmed FROM synapse.questions WHERE app = $1 ORDER BY name) q".

Definition RUN_SQL : string :=
  "SELECT kind, sql_text, (confirmed_at IS NOT NULL) AS confirmed FROM "
   +:+ "synapse.questions WHERE app = $1 AND name = $2".

(** The statement that a stored text becomes. *)
Definition wrapped (sql : string) : string := "SELECT to_jsonb(r)::text FROM (" +:+ sql +:+ ") r".

Section questions.
Context `{WireLib, TokioLib}.
Context (st : HarnessState).

Definition save (req : SaveReq) : prog (result json HarnessError) :=
  match check_save req with
  | Err e => mret (Err e)
  | Ok _ =>
      connected st (prog_try (db (tk_execute SAVE_SQL (save_args req))) (fun _ =>
        mret (Ok (ok_json [("app", JString (sv_app req)); ("name", JString (sv_name req));
                           ("confirmed", JBool (sv_confirmed req))]))))
  end.

Definition list (app : string) : prog (result json HarnessError) :=
  connected st (prog_try (jsonb_rows LIST_SQL [DText app]) (fun questions =>
    mret (Ok (ok_json [("app", JString app); ("questions", JArray questions)])))).

Definition run_result (app name : string) (rows : Datatypes.list json) : json :=
  ok_json [("app", JString app); ("name", JString name);
           ("row_count", json_u64 (Z.of_nat (length rows))); ("rows", JArray rows)].

(** The question that a row holds, if it may run. *)
Definition runnable (name kind : string) (sql_text : option string) (confirmed : bool)
  : result string HarnessError :=
  if negb (String.eqb kind "sql") then
    Err (HarnessError_BadRequest
           ("question " +:+ quoted name +:+ " has kind " +:+ quoted kind
              +:+ "; only sql questions run without an agent"))
  else if negb confirmed then
    Err (HarnessError_BadRequest
           ("question " +:+ quoted name
              +:+ " has not been reviewed. Its SQL must be approved before it runs"))
  else ok_or sql_text
         (HarnessError_BadRequest ("question " +:+ quoted name +:+ " has no sql_text")).

Definition run (app name : string) : prog (result json HarnessError) :=
  connected st (prog_try (db (tk_query RUN_SQL [DText app; DText name])) (fun rows =>
    match rows with
    | [] =>
        mret (Err (HarnessError_NotFound
                     ("no question named " +:+ quoted name +:+ " for app " +:+ quoted app)))
    | row :: _ =>
        kind ← get d_text 0 row;
        sql_text ← get (d_option d_text) 1 row;
        confirmed ← get d_bool 2 row;
        match runnable name kind sql_text confirmed with
        | Err e => mret (Err e)
        | Ok sql =>
            prog_try (jsonb_rows (wrapped sql) []) (fun rows => mret (Ok (run_result app name rows)))
        end
    end)).
End questions.
End Questions.

(** ** The MCP server ([mcp.rs]) *)

Module McpServer.

Definition PROTOCOL_VERSION : string := "2025-11-25".
(** The version of the demo server's own package. *)
Definition CARGO_PKG_VERSION : string := "0.2.0".

Definition string_property (description : string) : json :=
  json_object [("type", JString "string"); ("description", JString description)].

Definition object_schema (properties : list (string * json)) (required : list string) : json :=
  json_object
    ([("type", JString "object"); ("properties", json_object properties)]
       ++ match required with [] => [] | _ => [("required", JArray (map JString required))] end
       ++ [("additionalProperties", JBool false)]).

Definition tool_definition (name description : string) (schema : json) : json :=
  json_object [("name", JString name); ("description", JString description);
               ("inputSchema", schema)].

Definition list_apps_schema : json := object_schema [] [].
Definition ask_schema : json :=
  object_schema [("app", string_property "App name");
                 ("question", string_property "Saved question name")] ["app"; "question"].
Definition run_agent_schema : json :=
  object_schema [("agent", string_property "Agent name");
                 ("input", string_property "What the agent should do")] ["agent"; "input"].

Definition tool_definitions : json :=
  JArray
    [tool_definition "list_apps"
       ("List the applications available in this Postgres database, with the agents and "
   +:+ "saved questions each one has.")
       list_apps_schema;
     tool_definition "ask"
       ("Answer a saved question about an app. Runs pre-approved SQL, so it is fast, free, "
   +:+ "and returns the same answer every time. Use list_apps to see what questions exist.")
       ask_schema;
     tool_definition "run_agent"
       ("Run an agent with a natural-language instruction. Slower and non-deterministic than "
   +:+ "`ask`, because it calls a model; prefer `ask` when a saved question already answers "
   +:+ "the need.")
       run_agent_schema].

Definition APPS_SQL : string :=
  "SELECT to_jsonb(a)::text FROM ( SELECT p.name, p.schema_name, COALESCE((SELECT "
   +:+ "array_agg(ag.agent ORDER BY ag.agent) FROM synapse.app_agents ag WHERE ag.app = "
   +:+ "p.name), '{}') AS agents, COALESCE((SELECT json_agg(json_build_object('name', "
   +:+ "q.name, 'asks', q.nl_text) ORDER BY q.name) FROM synapse.questions q WHERE q.app = "
   +:+ "p.name AND q.confirmed_at IS NOT NULL), '[]'::json) AS questions FROM synapse.apps "
   +:+ "p ORDER BY p.name) a".
Definition ASK_SQL : string :=
  "SELECT sql_text, (confirmed_at IS NOT NULL) FROM synapse.questions WHERE app = $1 "
   +:+ "AND name = $2 AND kind = 'sql'".
Definition EXECUTE_SQL : string := "SELECT synapse.execute($1, $2)::text".

(** [args.get(k).and_then(Value::as_str).unwrap_or("")] *)
Definition str_arg (k : string) (args : json) : string := default "" (json_get k args ≫= as_str).

Definition text_content (text : string) (is_error : bool) : json :=
  json_object
    [("content", JArray [json_object [("type", JString "text"); ("text", JString text)]]);
     ("isError", JBool is_error)].

Definition success (id value : json) : json :=
  json_object [("jsonrpc", JString "2.0"); ("id", id); ("result", value)].
Definition failure (id : json) (message : string) : json :=
  json_object
    [("jsonrpc", JString "2.0"); ("id", id);
     ("error", json_object [("code", json_i64 (-32603)); ("message", JString message)])].

Definition initialize_result : json :=
  json_object
    [("protocolVersion", JString PROTOCOL_VERSION);
     ("capabilities", json_object [("tools", json_object [])]);
     ("serverInfo", json_object [("name", JString "pg-one"); ("version", JString CARGO_PKG_VERSION)])].

(** What [synapse.execute] answered. *)
Definition agent_answer (env : json) : result string string :=
  match json_get "error" env ≫= as_str with
  | Some err => Err err
  | None => Ok (str_arg "output" env)
  end.

Section server.
Context `{WireLib, TokioLib}.
Context (st : HarnessState).

Definition db_err {A} (p : prog (result A HarnessError)) : prog (result A string) :=
  r ← p; mret (map_err HarnessError_to_string r).
Definition to_string {A} (p : prog (result A TokioError)) : prog (result A string) :=
  r ← p; mret (map_err tk_text r).

Definition list_apps : prog (result string string) :=
  prog_try (db_err (connect (db_url st))) (fun _ =>
  prog_try (db_err (jsonb_rows APPS_SQL [])) (fun apps =>
    mret (Ok (to_string_pretty (JArray apps))))).

Definition ask (args : json) : prog (result string string) :=
  let app := str_arg "app" args in
  let question := str_arg "question" args in
  prog_try (db_err (connect (db_url st))) (fun _ =>
  prog_try (to_string (tk_query ASK_SQL [DText app; DText question])) (fun rows =>
    match rows with
    | [] => mret (Err ("no saved question '" +:+ question +:+ "' for app '" +:+ app +:+ "'"))
    | row :: _ =>
        confirmed ← get d_bool 1 row;
        if negb confirmed then mret (Err ("question '" +:+ question +:+ "' has not been reviewed"))
        else
          sql ← get (d_option d_text) 0 row;
          prog_try (db_err (jsonb_rows (Questions.wrapped (default "" sql)) [])) (fun out =>
            mret (Ok (to_string_pretty (JArray out))))
    end)).

Definition run_agent (args : json) : prog (result string string) :=
  prog_try (db_err (connect (db_url st))) (fun _ =>
  prog_try (to_string (tk_query_one EXECUTE_SQL
                         [DText (str_arg "agent" args); DText (str_arg "input" args)])) (fun row =>
    text ← get d_text 0 row;
    mret (agent_answer (parse_or_null text)))).

Definition run_tool (name : string) (args : json) : prog (result string string) :=
  if String.eqb name "list_apps" then list_apps
  else if String.eqb name "ask" then ask args
  else if String.eqb name "run_agent" then run_agent args
  else mret (Err ("no tool named '" +:+ name +:+ "'")).

Definition call_result (r : result string string) : json :=
  match r with Ok t => text_content t false | Err e => text_content e true end.

Definition call_tool (params : json) : prog json :=
  r ← run_tool (str_arg "name" params) (default (json_object []) (json_get "arguments" params));
  mret (call_result r).

Definition rpc (req : json) : prog json :=
  let id := default JNull (json_get "id" req) in
  let method := str_arg "method" req in
  let params := default JNull (json_get "params" req) in
  if String.eqb method "initialize" then mret (success id initialize_result)
  else if String.eqb method "tools/list" then
    mret (success id (json_object [("tools", tool_definitions)]))
  else if String.eqb method "tools/call" then value ← call_tool params; mret (success id value)
  else mret (failure id ("method '" +:+ method +:+ "' is not implemented")).
End server.
End McpServer.

(** ** Scanning a connection ([scan.rs]) *)

Module Scan.

Definition CATALOG_SQL : string :=
  "SELECT json_agg(t)::text FROM ( SELECT c.table_schema, c.table_name, "
   +:+ "json_agg(json_build_object( 'column', c.column_name, 'type', c.data_type, "
   +:+ "'nullable', c.is_nullable = 'YES') ORDER BY c.ordinal_position) AS columns FROM "
   +:+ "information_schema.columns c WHERE c.table_schema NOT IN "
   +:+ "('pg_catalog','information_schema') GROUP BY c.table_schema, c.table_name ORDER BY "
   +:+ "c.table_schema, c.table_name) t".
Definition FK_SQL : string :=
  "SELECT json_agg(f)::text FROM ( SELECT tc.table_schema, tc.table_name AS child, "
   +:+ "kcu.column_name AS fk_column, ccu.table_name AS parent FROM "
   +:+ "information_schema.table_constraints tc JOIN information_schema.key_column_usage "
   +:+ "kcu ON tc.constraint_name = kcu.constraint_name JOIN "
   +:+ "information_schema.constraint_column_usage ccu ON tc.constraint_name = "
   +:+ "ccu.constraint_name WHERE tc.constraint_type = 'FOREIGN KEY' AND tc.table_schema "
   +:+ "NOT IN ('pg_catalog','information_schema')) f".
Definition STORE_SQL : string :=
  "UPDATE synapse.connections SET scan_json = $2::text::jsonb, scanned_at = now(), "
   +:+ "reviewed_at = NULL, reviewed_by = NULL WHERE name = $1".
Definition REMOTE_SQL : string :=
  "SELECT synapse.tool_call('remote_query', $1::text::jsonb)::text".
Definition REVIEW_SQL : string :=
  "UPDATE synapse.connections SET reviewed_at = now(), reviewed_by = $2 WHERE name = "
   +:+ "$1 AND scan_json IS NOT NULL".
Definition GATE_SQL : string :=
  "SELECT (scan_json IS NOT NULL) AS scanned, (reviewed_at IS NOT NULL) AS reviewed, "
   +:+ "reviewed_by, scanned_at FROM synapse.connections WHERE name = $1".

(** The first column of the first row. *)
Definition first_cell (out : json) : json :=
  default JNull
    (rows ← as_array out;
     row ← head rows;
     match row with JObject ((_, v) :: _) => Some v | _ => None end).

Definition scan_json (tables foreign_keys : json) : json :=
  json_object
    [("tables", tables); ("foreign_keys", foreign_keys);
     ("table_count", json_u64 (Z.of_nat (length (default [] (as_array tables)))))].

Definition gate_reason (scanned reviewed : bool) : string :=
  if negb scanned then "not scanned yet"
  else if negb reviewed then "scanned, but nobody has confirmed the scan"
  else "reviewed".

Section scan.
Context `{Printers, WireLib, TokioLib}.
Context (st : HarnessState).

Definition scan_answer (raw : string) : result json HarnessError :=
  let out := parse_or_null raw in
  match json_get "error" out ≫= as_str with
  | Some err => Err (HarnessError_BadRequest ("scan failed: " +:+ err))
  | None =>
      Ok (match first_cell out with JString s => parse_or_null s | other => other end)
  end.

Definition remote_json (connection sql : string) : prog (result json HarnessError) :=
  let args := json_object [("connection", JString connection); ("query", JString sql)] in
  prog_try (db (tk_query_one REMOTE_SQL [DText (json_to_string args)])) (fun row =>
    raw ← get d_text 0 row; mret (scan_answer raw)).

Definition scan (name : string) : prog (result json HarnessError) :=
  connected st (
  prog_try (remote_json name CATALOG_SQL) (fun tables =>
  prog_try (remote_json name FK_SQL) (fun foreign_keys =>
    let scan := scan_json tables foreign_keys in
    prog_try (db (tk_execute STORE_SQL [DText name; DText (json_to_string scan)])) (fun _ =>
      mret (Ok (ok_json
        [("connection", JString name); ("table_count", default JNull (json_get "table_count" scan));
         ("scan", scan); ("reviewed", JBool false);
         ("note", JString "review required before an agent may use this connection")])))))).

Definition review (name : string) (reviewed_by : option string) : prog (result json HarnessError) :=
  connected st (
  prog_try (db (tk_execute REVIEW_SQL [DText name; DText (default "operator" reviewed_by)])) (fun n =>
    mret (if n =? 0 then
            Err (HarnessError_BadRequest
                   ("connection " +:+ quoted name +:+ " has no scan to review. Scan it first"))
          else Ok (ok_json [("connection", JString name); ("reviewed", JBool true)])))).

Definition gate_json (name : string) (scanned reviewed : bool) : json :=
  ok_json [("connection", JString name); ("scanned", JBool scanned); ("reviewed", JBool reviewed);
           ("may_attach_agent", JBool reviewed); ("reason", JString (gate_reason scanned reviewed))].

Definition gate (name : string) : prog (result json HarnessError) :=
  connected st (
  prog_try (db (tk_query GATE_SQL [DText name])) (fun rows =>
    match rows with
    | [] => mret (Err (HarnessError_NotFound ("no connection named " +:+ quoted name)))
    | row :: _ =>
        scanned ← get d_bool 0 row;
        reviewed ← get d_bool 1 row;
        mret (Ok (gate_json name scanned reviewed))
    end)).
End scan.
End Scan.

(** ** Schedules ([schedules.rs]) *)

Module Schedules.

Record ScheduleReq := mkScheduleReq {
  sc_app : string; sc_agent : string; sc_input : string; sc_every : string;
  sc_first_run_at : option string }.

Record LimitsReq := mkLimitsReq {
  lm_max_iterations : option Z; lm_timeout_ms : option Z; lm_cost_cap_usd : option f64;
  lm_model_tier : option string }.

Definition APP_LIST_SQL : string :=
  "SELECT to_jsonb(a)::text FROM ( SELECT p.name, p.title, p.schema_name, "
   +:+ "p.connection, p.created_at, COALESCE(array_agg(ag.agent ORDER BY ag.agent) FILTER "
   +:+ "(WHERE ag.agent IS NOT NULL), '{}') AS agents FROM synapse.apps p LEFT JOIN "
   +:+ "synapse.app_agents ag ON ag.app = p.name GROUP BY p.name, p.title, p.schema_name, "
   +:+ "p.connection, p.created_at ORDER BY p.name) a".
Definition SCHEDULE_SQL : string :=
  "INSERT INTO synapse.schedules (app, agent, input, every_interval, next_run_at) "
   +:+ "VALUES ($1, $2, $3, $4::text::interval, COALESCE($5::text::timestamptz, now() + "
   +:+ "$4::text::interval)) RETURNING schedule_id::text".
Definition SCHEDULE_LIST_SQL : string :=
  "SELECT to_jsonb(s)::text FROM ( SELECT schedule_id::text AS schedule_id, agent, "
   +:+ "input, every_interval::text AS every, next_run_at, last_run_at, enabled FROM "
   +:+ "synapse.schedules WHERE app = $1 ORDER BY next_run_at) s".
Definition SCHEDULE_DROP_SQL : string :=
  "DELETE FROM synapse.schedules WHERE schedule_id = $1::text::uuid".
Definition TICK_SQL : string := "SELECT synapse.tick()".
Definition APP_RUNS_SQL : string :=
  "SELECT to_jsonb(r)::text FROM ( SELECT e.agent_name, e.status, e.model, "
   +:+ "e.caller_role, e.tokens_in, e.tokens_out, e.duration_ms, e.started_at, "
   +:+ "left(coalesce(e.output, ''), 200) AS output FROM synapse.executions e JOIN "
   +:+ "synapse.app_agents ag ON ag.agent = e.agent_name WHERE ag.app = $1 ORDER BY "
   +:+ "e.started_at DESC LIMIT 20) r".
Definition ALL_RUNS_SQL : string :=
  "SELECT to_jsonb(r)::text FROM ( SELECT e.execution_id::text AS execution_id, "
   +:+ "e.agent_name, e.status, e.model, e.caller_role, e.tokens_in, e.tokens_out, "
   +:+ "e.cost_usd::float8 AS cost_usd, e.duration_ms, e.started_at, left(coalesce(e.input, "
   +:+ "''), 160) AS input, left(coalesce(e.output, ''), 400) AS output, (ag.app IS NOT "
   +:+ "NULL) AS is_app FROM synapse.executions e LEFT JOIN synapse.app_agents ag ON "
   +:+ "ag.agent = e.agent_name ORDER BY e.started_at DESC LIMIT 100) r".
Definition STATS_SQL : string :=
  "SELECT to_jsonb(s)::text FROM ( SELECT count(*) AS total, count(*) FILTER (WHERE "
   +:+ "status = 'completed') AS completed, count(*) FILTER (WHERE status <> 'completed') "
   +:+ "AS failed, count(*) FILTER (WHERE started_at > now() - interval '24 hours') AS "
   +:+ "last_24h, coalesce(round(avg(duration_ms))::bigint, 0) AS avg_ms, "
   +:+ "coalesce(sum(tokens_in + tokens_out), 0) AS tokens FROM synapse.executions) s".
Definition QUEUE_SQL : string :=
  "SELECT to_jsonb(q)::text FROM ( SELECT agent, status, source, enqueued_at, "
   +:+ "left(coalesce(error, ''), 160) AS error FROM synapse.agent_queue ORDER BY "
   +:+ "enqueued_at DESC LIMIT 20) q".
Definition LIMITS_SQL : string :=
  "UPDATE synapse.agents SET                max_iterations = COALESCE($2, "
   +:+ "max_iterations),                timeout_ms     = COALESCE($3, "
   +:+ "timeout_ms),                cost_cap_usd   = CASE WHEN $4::float8 IS NULL THEN "
   +:+ "cost_cap_usd                                      WHEN $4::float8 <= 0 THEN "
   +:+ "NULL                                      ELSE ($4::float8)::numeric(12,6) "
   +:+ "END,                model_tier     = COALESCE($5, model_tier),                "
   +:+ "llm_profile_main = CASE WHEN $5::text IS NULL THEN llm_profile_main ELSE NULL "
   +:+ "END,                updated_at = now()              WHERE name = $1".
Definition REBUILD_SQL : string := "SELECT synapse.rebuild_kernel()".
Definition LIMITS_ROW_SQL : string :=
  "SELECT max_iterations, timeout_ms, cost_cap_usd::float8, "
   +:+ "model_tier,                     synapse.agent_llm_profile(name)              FROM "
   +:+ "synapse.agents WHERE name = $1".
Definition APP_DROP_SQL : string := "SELECT synapse.app_drop($1, $2)::text".
Definition METRICS_SQL : string :=
  "SELECT to_jsonb(m)::text FROM ( SELECT count(*) AS builds, count(*) FILTER (WHERE "
   +:+ "status = 'completed') AS succeeded, percentile_disc(0.5) WITHIN GROUP (ORDER BY "
   +:+ "duration_ms) AS p50_ms, percentile_disc(0.9) WITHIN GROUP (ORDER BY duration_ms) AS "
   +:+ "p90_ms, max(duration_ms) AS max_ms FROM synapse.executions WHERE agent_name = "
   +:+ "'app_builder') m".
Definition DRAIN_FIVE_SQL : string := "SELECT synapse.drain_queue(5)".

(** The limits a form may set. *)
Definition check_limits (req : LimitsReq) : result unit HarnessError :=
  let bad m : result unit HarnessError := Err (HarnessError_BadRequest m) in
  _ <-? (match lm_max_iterations req with
         | Some n => if negb ((1 <=? n) && (n <=? 100)) then
             bad ("turns must be between 1 and 100. Below one an agent cannot act at "
   +:+ "all;                  above a hundred it is not a budget") else Ok tt
         | None => Ok tt end) ;;
  _ <-? (match lm_timeout_ms req with
         | Some ms => if negb ((1000 <=? ms) && (ms <=? 1800000)) then
             bad "timeout must be between 1 second and 30 minutes" else Ok tt
         | None => Ok tt end) ;;
  _ <-? (match lm_cost_cap_usd req with
         | Some c => if f64_ltb c f64_zero then bad "cost cap cannot be negative" else Ok tt
         | None => Ok tt end) ;;
  match lm_model_tier req with
  | Some t => if negb (String.eqb t "small" || String.eqb t "large") then
      bad ("model tier must be " +:+ dq +:+ "small" +:+ dq +:+ " or " +:+ dq +:+ "large" +:+ dq) else Ok tt
  | None => Ok tt
  end.

Section schedules.
Context `{WireLib, TokioLib}.
Context (st : HarnessState).

Definition app_list : prog (result json HarnessError) :=
  connected st (prog_try (jsonb_rows APP_LIST_SQL []) (fun apps =>
    mret (Ok (ok_json [("apps", JArray apps)])))).

Definition schedule_add (req : ScheduleReq) : prog (result json HarnessError) :=
  if is_blank (sc_input req) then
    mret (Err (HarnessError_BadRequest "a schedule needs something for the agent to do"))
  else
    connected st (
      r ← tk_query_one SCHEDULE_SQL
            [DText (sc_app req); DText (sc_agent req); DText (sc_input req); DText (sc_every req);
             opt_datum TText DText (sc_first_run_at req)];
      match r with
      | Err e => mret (Err (HarnessError_BadRequest ("could not create schedule: " +:+ tk_text e)))
      | Ok row => id ← get d_text 0 row; mret (Ok (ok_json [("schedule_id", JString id)]))
      end).

Definition schedule_list (app : string) : prog (result json HarnessError) :=
  connected st (prog_try (jsonb_rows SCHEDULE_LIST_SQL [DText app]) (fun schedules =>
    mret (Ok (ok_json [("app", JString app); ("schedules", JArray schedules)])))).

Definition schedule_drop (id : string) : prog (result json HarnessError) :=
  connected st (
    r ← tk_execute SCHEDULE_DROP_SQL [DText id];
    mret (match r with
          | Err e => Err (HarnessError_BadRequest ("could not delete schedule: " +:+ tk_text e))
          | Ok n => if n =? 0 then Err (HarnessError_NotFound ("no schedule " +:+ id))
                    else Ok (ok_json [])
          end)).

Definition tick : prog (result json HarnessError) :=
  connected st (prog_try (db (tk_query_one TICK_SQL [])) (fun row =>
    fired ← get d_i32 0 row; mret (Ok (ok_json [("fired", json_i64 fired)])))).

Definition app_runs (app : string) : prog (result json HarnessError) :=
  connected st (prog_try (jsonb_rows APP_RUNS_SQL [DText app]) (fun runs =>
    mret (Ok (ok_json [("app", JString app); ("runs", JArray runs)])))).

Definition all_runs : prog (result json HarnessError) :=
  connected st (
  prog_try (jsonb_rows ALL_RUNS_SQL []) (fun runs =>
  prog_try (jsonb_one STATS_SQL []) (fun stats =>
  prog_try (jsonb_rows QUEUE_SQL []) (fun queue =>
    mret (Ok (ok_json [("runs", JArray runs); ("stats", stats); ("queue", JArray queue)])))))).

Definition limits_json (agent : string) (row : Row) : prog json :=
  n ← get d_i32 0 row; ms ← get d_i64 1 row; cap ← get (d_option d_f64) 2 row;
  tier ← get d_text 3 row; profile ← get (d_option d_text) 4 row;
  mret (ok_json
    [("agent", JString agent); ("max_iterations", json_i64 n); ("timeout_ms", json_i64 ms);
     ("cost_cap_usd", json_option json_f64 cap); ("model_tier", JString tier);
     ("resolved_profile", json_option JString profile)]).

Definition agent_limits (agent : string) (req : LimitsReq) : prog (result json HarnessError) :=
  match check_limits req with
  | Err e => mret (Err e)
  | Ok _ =>
      connected st (
      prog_try (db (tk_execute LIMITS_SQL
        [DText agent; opt_datum TInt4 DInt4 (lm_max_iterations req);
         opt_datum TInt8 DInt8 (lm_timeout_ms req);
         opt_datum TFloat8 DFloat8 (lm_cost_cap_usd req);
         opt_datum TText DText (lm_model_tier req)])) (fun n =>
        if n =? 0 then mret (Err (HarnessError_NotFound ("no agent named " +:+ quoted agent)))
        else
          prog_try (db (tk_execute REBUILD_SQL [])) (fun _ =>
          prog_try (db (tk_query_one LIMITS_ROW_SQL [DText agent])) (fun row =>
            out ← limits_json agent row; mret (Ok out)))))
  end.

Definition app_drop (app : string) (drop_data : bool) : prog (result json HarnessError) :=
  connected st (
    r ← tk_query_one APP_DROP_SQL [DText app; DBool drop_data];
    match r with
    | Err e => mret (Err (HarnessError_BadRequest (db_message e)))
    | Ok row => text ← get d_text 0 row; mret (Ok (ok_json [("removed", parse_or_null text)]))
    end).

Definition metrics_note (builds : Z) : string :=
  if 10 <=? builds then "p50 and p90 measured from real builds"
  else "fewer than 10 builds recorded; these numbers are indicative, not a promise".

Definition build_metrics : prog (result json HarnessError) :=
  connected st (prog_try (jsonb_one METRICS_SQL []) (fun m =>
    let builds := default 0 (json_get "builds" m ≫= as_i64) in
    mret (Ok (ok_json [("metrics", m); ("sufficient_data", JBool (10 <=? builds));
                       ("note", JString (metrics_note builds))])))).

(** One round of the driver; errors are printed and dropped. *)
Definition driver_round : prog unit :=
  c ← connect (db_url st);
  match c with
  | Err _ => mret tt
  | Ok _ =>
      r ← tk_query_one TICK_SQL [];
      match r with
      | Err _ => mret tt
      | Ok row =>
          fired ← get d_i32 0 row;
          if 0 <? fired then _ ← tk_query_one DRAIN_FIVE_SQL []; mret tt else mret tt
      end
  end.

(** What the task repeats, unless it is switched off. *)
Definition spawn_driver (every_secs : Z) : option (prog unit) :=
  if every_secs =? 0 then None else Some driver_round.
End schedules.
End Schedules.
