(* ===== verification/Cli.v ===== *)
(** * The command-line client ([clients/pg-synapse-cli/src/main.rs])

    A command opens one connection, sends its statements and prints.  Its
    result is what it prints, for standard output or for standard error, or the
    message of its failure; every failure comes before the first line.  A column
    that does not hold the type asked for panics. *)

From S2P Require Import Prelude.
From S2P Require Import RustStr.
From S2P Require Import Json.
From S2P Require Import NumText.
From S2P Require Import Effects.
From S2P Require Import StrSlice.
From S2P Require Import HarnessText.
From S2P Require Import LoopHarness.
From S2P Require Import Wire.
From S2P Require Import DemoApps.
#[local] Open Scope synapse_scope.

(** [println!], [eprintln!] and [print!] *)
Inductive line := Out (s : string) | ErrLine (s : string) | Text (s : string).
Inductive ExitCode := SUCCESS | FAILURE.

Module Command.

Definition USAGE : string := join newline
  ["pg-synapse: run agents and saved questions against your own Postgres.";
   "";
   "USAGE:";
   "    pg-synapse <COMMAND> [ARGS]";
   "";
   "COMMANDS:";
   "    apps                          list apps";
   "    agents                        list agents";
   "    run <agent> <input>           run an agent and print its output";
   "    ask <app> <question>          run a saved question and print its rows";
   "    questions <app>               list an app's saved questions";
   "    schedules                     list every schedule";
   "    tick                          fire any schedules that are due";
   "    runs [n]                      recent runs, newest first (default 10)";
   "";
   "CONNECTION:";
   "    Uses DATABASE_URL, or PG* environment variables, or libpq defaults.";
   "    Example: DATABASE_URL=" +:+ dq +:+ "host=/var/run/postgresql dbname=mydb" +:+ dq
     +:+ " pg-synapse apps";
   ""].

(** [{:<n}] and [{:>n}] *)
Definition spaces (n : Z) : string := of_chars (replicate (Z.to_nat n) " ").
Definition pad_right (n : Z) (s : string) : string := s +:+ spaces (n - chars_count s).
Definition pad_left (n : Z) (s : string) : string := spaces (n - chars_count s) +:+ s.

Section client.
Context `{WireLib, TokioLib}.

(** The message of the server, or else the text of the error. *)
Definition sql_err (e : TokioError) : string := default (tk_text e) (tk_message e).

Definition query (sql : string) (args : list datum) : prog (result (list Row) string) :=
  r ← tk_query sql args; mret (map_err sql_err r).
Definition query_one (sql : string) (args : list datum) : prog (result Row string) :=
  r ← tk_query_one sql args; mret (map_err sql_err r).

Definition arg (args : list string) (i : nat) (what : string) : result string string :=
  ok_or (args !! i) ("missing <" +:+ what +:+ ">. Run `pg-synapse help`").

Definition lifted {A B} (r : result A string) (k : A -> prog (result B string))
  : prog (result B string) := match r with Ok a => k a | Err e => mret (Err e) end.

(** One printed line per row. *)
Fixpoint print_rows (f : Row -> prog string) (rows : list Row) : prog (list line) :=
  match rows with
  | [] => mret []
  | r :: rest => l ← f r; ls ← print_rows f rest; mret (Out l :: ls)
  end.

Definition printed (f : Row -> prog string) (sql : string) (args : list datum)
  : prog (result (list line) string) :=
  prog_try (query sql args) (fun rows => ls ← print_rows f rows; mret (Ok ls)).

(** Two columns of text, the first padded to [n]. *)
Definition two_columns (n : Z) (r : Row) : prog string :=
  a ← get d_text 0 r; b ← get d_text 1 r; mret (pad_right n a +:+ " " +:+ b).

Definition APPS_SQL : string :=
  "SELECT name, coalesce(schema_name,'') FROM synapse.apps ORDER BY name".
Definition AGENTS_SQL : string := "SELECT name, executor_name FROM synapse.agents ORDER BY name".
Definition EXECUTE_SQL : string := "SELECT synapse.execute($1, $2)::text".
Definition ASK_SQL : string :=
  "SELECT sql_text, (confirmed_at IS NOT NULL) FROM synapse.questions "
  +:+ "WHERE app = $1 AND name = $2 AND kind = 'sql'".
Definition QUESTIONS_SQL : string :=
  "SELECT name, nl_text FROM synapse.questions WHERE app = $1 ORDER BY name".
Definition SCHEDULES_SQL : string :=
  "SELECT app, agent, every_interval::text, next_run_at::text, enabled "
  +:+ "FROM synapse.schedules ORDER BY next_run_at".
Definition TICK_SQL : string := "SELECT synapse.tick()".
Definition RUNS_SQL : string :=
  "SELECT agent_name, status, coalesce(model,''), duration_ms, started_at::text "
  +:+ "FROM synapse.executions ORDER BY started_at DESC LIMIT $1".

Definition apps : prog (result (list line) string) := printed (two_columns 28) APPS_SQL [].
Definition agents : prog (result (list line) string) := printed (two_columns 28) AGENTS_SQL [].

Definition input_of (args : list string) : result string string :=
  let input := if (2 <=? length args)%nat then Some (join " " (drop 2 args)) else None in
  match input with
  | Some s => if is_empty s then Err "missing <input>. Run `pg-synapse help`" else Ok s
  | None => Err "missing <input>. Run `pg-synapse help`"
  end.

(** What is printed of the envelope of a run. *)
Definition env_lines (env : json) : result (list line) string :=
  match json_get "error" env ≫= as_str with
  | Some err => Err err
  | None =>
      let count k := show (default 0 (json_get k env ≫= as_i64)) in
      Ok [ErrLine ("status: " +:+ default "?" (json_get "status" env ≫= as_str) +:+ " ("
                     +:+ count "tokens_in" +:+ " in / " +:+ count "tokens_out" +:+ " out)");
          Out (default "" (json_get "output" env ≫= as_str))]
  end.

Definition run_agent (args : list string) : prog (result (list line) string) :=
  lifted (arg args 1 "agent") (fun agent =>
  lifted (input_of args) (fun input =>
  prog_try (query_one EXECUTE_SQL [DText agent; DText input]) (fun row =>
    text ← get d_text 0 row;
    mret (env_lines (parse_or_null text))))).

Definition ask (args : list string) : prog (result (list line) string) :=
  lifted (arg args 1 "app") (fun app =>
  lifted (arg args 2 "question") (fun question =>
  prog_try (query ASK_SQL [DText app; DText question]) (fun rows =>
    match rows with
    | [] => mret (Err ("no saved question " +:+ quoted question +:+ " for app " +:+ quoted app))
    | row :: _ =>
        confirmed ← get d_bool 1 row;
        if negb confirmed then
          mret (Err ("question " +:+ quoted question
                       +:+ " has not been reviewed; its SQL must be approved before it runs"))
        else
          sql ← get (d_option d_text) 0 row;
          printed (get d_text 0) ("SELECT to_jsonb(r)::text FROM (" +:+ default "" sql +:+ ") r") []
    end))).

Definition questions (args : list string) : prog (result (list line) string) :=
  lifted (arg args 1 "app") (fun app => printed (two_columns 22) QUESTIONS_SQL [DText app]).

Definition disabled_mark (enabled : bool) : string := if enabled then "" else "(disabled)".
Definition schedule_line (r : Row) : prog string :=
  app ← get d_text 0 r; agent ← get d_text 1 r; every ← get d_text 2 r;
  next ← get d_text 3 r; enabled ← get d_bool 4 r;
  mret (pad_right 24 app +:+ " " +:+ pad_right 24 agent +:+ " every " +:+ pad_right 12 every
          +:+ " next " +:+ next +:+ " " +:+ disabled_mark enabled).
Definition schedules : prog (result (list line) string) := printed schedule_line SCHEDULES_SQL [].

Definition tick : prog (result (list line) string) :=
  prog_try (query_one TICK_SQL []) (fun row =>
    n ← get d_i32 0 row; mret (Ok [Out ("fired " +:+ show n)])).

Definition run_line (r : Row) : prog string :=
  agent ← get d_text 0 r; status ← get d_text 1 r; model ← get d_text 2 r;
  ms ← get (d_option d_i64) 3 r; started ← get d_text 4 r;
  mret (pad_right 24 agent +:+ " " +:+ pad_right 16 status +:+ " " +:+ pad_right 16 model +:+ " "
          +:+ pad_left 7 (show (default 0 ms)) +:+ "ms  " +:+ started).
Definition runs (args : list string) : prog (result (list line) string) :=
  let n := default 10 (args !! 1%nat ≫= parse_i64) in
  printed run_line RUNS_SQL [DInt8 n].

Definition dispatch (args : list string) : prog (result (list line) string) :=
  let command := default "" (args !! 0%nat) in
  if String.eqb command "apps" then apps
  else if String.eqb command "agents" then agents
  else if String.eqb command "run" then run_agent args
  else if String.eqb command "ask" then ask args
  else if String.eqb command "questions" then questions args
  else if String.eqb command "schedules" then schedules
  else if String.eqb command "tick" then tick
  else if String.eqb command "runs" then runs args
  else mret (Err ("unknown command " +:+ quoted command +:+ ". Run `pg-synapse help`")).

(** [run], with the value of [DATABASE_URL] if it is set. *)
Definition run (url : option string) (args : list string) : prog (result (list line) string) :=
  r ← tk_call (TkConnect (default "" url));
  match r with
  | Err e =>
      mret (Err ("could not connect: " +:+ tk_text e
                   +:+ ". Set DATABASE_URL or the PG* variables"))
  | Ok _ => dispatch args
  end.

Definition wants_help (args : list string) : bool :=
  match args with
  | [] => true
  | a :: _ => String.eqb a "-h" || String.eqb a "--help" || String.eqb a "help"
  end.

Definition main (url : option string) (args : list string) : prog (list line * ExitCode) :=
  if wants_help args then mret ([Text USAGE], SUCCESS)
  else
    r ← run url args;
    mret (match r with
          | Ok ls => (ls, SUCCESS)
          | Err e => ([ErrLine ("pg-synapse: " +:+ e)], FAILURE)
          end).
End client.
End Command.

(** ** Exit codes *)

Section exit.
Context `{WireLib, TokioLib}.

(** Only the [error] of an envelope fails the command: a run that ended
    without one, by its time limit for instance, prints its partial output and
    exits with success. *)
Lemma run_without_error_succeeds env :
  json_get "error" env ≫= as_str = None -> exists ls, Command.env_lines env = Ok ls.
Proof. intros E. unfold Command.env_lines. rewrite E. eauto. Qed.

(** A message on standard error and a failing exit code go together. *)
Lemma exit_code_tells url args tr ls code :
  Command.wants_help args = false ->
  steps (Command.main url args) tr (ls, code) ->
  exists r, steps (Command.run url args) tr r
    /\ match r with
       | Ok ls' => code = SUCCESS /\ ls = ls'
       | Err e => code = FAILURE /\ ls = [ErrLine ("pg-synapse: " +:+ e)]
       end.
Proof.
  intros Hh Hs. unfold Command.main in Hs. rewrite Hh in Hs.
  apply steps_bind in Hs as (tr1 & tr2 & r & -> & Hr & Hs). exists r.
  destruct r as [ls'|e]; destruct Hs as [-> [= -> ->]]; by rewrite app_nil_r.
Qed.

(** [run] joins the rest of the arguments; an empty rest is refused. *)
Example input_is_joined : Command.input_of ["run"; "a"; "hello"; "there"] = Ok "hello there".
Proof. reflexivity. Qed.
Example input_is_required :
  Command.input_of ["run"; "a"] = Err "missing <input>. Run `pg-synapse help`".
Proof. reflexivity. Qed.
End exit.
