(* ===== verification/ReviewProps.v ===== *)
(** * The review gate of saved questions

    Rules for the statements of a handler and their answers, and the gate: a
    question's SQL reaches the database only after it was confirmed, through
    the MCP server and the pages of the demo ([DemoApps]) and through the
    command-line client ([Cli]). *)

From S2P Require Import Prelude.
From S2P Require Import RustStr.
From S2P Require Import Json.
From S2P Require Import Errors.
From S2P Require Import Types.
From S2P Require Import Effects.
From S2P Require Import LoopHarness.
From S2P Require Import StrSlice.
From S2P Require Import Wire.
From S2P Require Import DemoApps.
From S2P Require Import Cli.

(** ** Statements and their answers

    Rules for the client of [DemoApps] under any environment, for conditions
    that let a handler panic. *)

Definition may_panic (C : call_pred) : Prop := forall s msg, C s _ (ERaise msg).

Section client_rules.
Context `{WireLib, TokioLib}.
Context (R : env) (C : call_pred) (Hpanic : may_panic C).

Lemma wp_prog_try {A B E} (p : prog (result A E)) (k : A -> prog (result B E)) s Q :
  wp R C p s (fun s r => match r with Ok a => wp R C (k a) s Q | Err e => Q s (Err e) end) ->
  wp R C (prog_try p k) s Q.
Proof. intros Hp. eapply wp_seq; [exact Hp|]. by intros s' [a|e]. Qed.

Lemma wp_get {A} (dec : datum -> option A) i row s (Q : _ -> _ -> Prop) :
  (forall a, row !! i ≫= dec = Some a -> Q s a) -> wp R C (get dec i row) s Q.
Proof. intros HQ. unfold get. case_match; [by apply HQ|]. split; [apply Hpanic|]. intros []. Qed.

Lemma wp_rows_json rows s (Q : _ -> _ -> Prop) :
  (forall out, Q s out) -> wp R C (rows_json rows) s Q.
Proof.
  revert s Q. induction rows as [|row rows IH]; intros s Q HQ; simpl; [apply HQ|].
  apply wp_bind, wp_get. intros text _. apply wp_bind. apply IH. intros out. apply HQ.
Qed.

(** One statement: its request and what is made of an answer. *)
Lemma wp_query sql args s (Q : _ -> _ -> Prop) :
  C s _ (ETokio (TkQuery sql args)) ->
  (forall n rows, R _ (ETokio (TkQuery sql args)) (Ok (n, rows)) -> Q s (Ok rows)) ->
  (forall e, Q s (Err e)) -> wp R C (tk_query sql args) s Q.
Proof.
  intros Hc Hok Herr. apply wp_prog_try, wp_perform; [done|].
  intros [[n rows]|e] Hx; [by eapply Hok|apply Herr].
Qed.

Lemma wp_connect url s (Q : _ -> _ -> Prop) :
  C s _ (ETokio (TkConnect url)) ->
  Q s (Ok tt) -> (forall e, Q s (Err (HarnessError_Db e))) -> wp R C (connect url) s Q.
Proof.
  intros Hc Hok Herr. apply wp_bind, wp_prog_try, wp_perform; [done|].
  intros [[n rows]|e] _; [apply Hok|apply Herr].
Qed.

Lemma wp_jsonb_rows sql args s (Q : _ -> _ -> Prop) :
  C s _ (ETokio (TkQuery sql args)) ->
  (forall out, Q s (Ok out)) -> (forall e, Q s (Err (HarnessError_Db e))) ->
  wp R C (jsonb_rows sql args) s Q.
Proof.
  intros Hc Hok Herr. apply wp_prog_try, wp_bind, wp_query; [done|intros n rows _|apply Herr].
  apply wp_bind, wp_rows_json. apply Hok.
Qed.
End client_rules.

(** ** Saved questions

    The table as the two lookups read it. *)

Record Question := mkQuestion { q_kind : string; q_sql : option string; q_confirmed : bool }.

Section review.
Context `{WireLib, TokioLib}.
Context (st : HarnessState) (stored : string -> string -> option Question).

Definition sql_datum (q : Question) : datum := opt_datum TText DText (q_sql q).

(** The rows of a lookup. *)
Definition looked_up (sql app name : string) : option (list (list datum)) :=
  if String.eqb sql Questions.RUN_SQL then
    Some (match stored app name with
          | Some q => [[DText (q_kind q); sql_datum q; DBool (q_confirmed q)]]
          | None => []
          end)
  else if String.eqb sql McpServer.ASK_SQL then
    Some (match stored app name with
          | Some q => if String.eqb (q_kind q) "sql" then [[sql_datum q; DBool (q_confirmed q)]]
                      else []
          | None => []
          end)
  else None.

(** Lookups answer what is stored, or fail. *)
Definition from_store : env := fun X e =>
  match e in eff X return X -> Prop with
  | ETokio (TkQuery sql [DText app; DText name]) => fun r =>
      match r, looked_up sql app name with
      | Ok (_, rows), Some rows' => rows = rows'
      | _, _ => True
      end
  | _ => fun _ => True
  end.

(** A question that is there, holds SQL, and was confirmed. *)
Definition reviewed (app name : string) (q : Question) : Prop :=
  stored app name = Some q /\ q_kind q = "sql" /\ q_confirmed q = true.

Definition fixed_statements : list string :=
  [Questions.RUN_SQL; McpServer.APPS_SQL; McpServer.ASK_SQL; McpServer.EXECUTE_SQL;
   Command.APPS_SQL; Command.AGENTS_SQL; Command.QUESTIONS_SQL; Command.SCHEDULES_SQL;
   Command.TICK_SQL; Command.RUNS_SQL].

(** The client's look-up and execution are the server's statements. *)
Lemma command_statements :
  Command.ASK_SQL = McpServer.ASK_SQL /\ Command.EXECUTE_SQL = McpServer.EXECUTE_SQL.
Proof. by vm_compute. Qed.

(** The statements of the program's own, or the text of a reviewed question
    in its wrapper. *)
Definition reviewed_only (url : string) : call_pred := fun _ X e =>
  match e with
  | ETokio (TkConnect url') => url' = url
  | ETokio (TkQuery sql args) =>
      sql ∈ fixed_statements \/
      args = [] /\ exists app name q, reviewed app name q /\
        sql = Questions.wrapped (default "" (q_sql q))
  | ERaise _ => True
  | _ => False
  end.

Lemma reviewed_only_panics url : may_panic (reviewed_only url).
Proof. done. Qed.

(** What the column of the text reads as. *)
Lemma sql_datum_read q i (row : Row) sql :
  row !! i = Some (sql_datum q) -> row !! i ≫= d_option d_text = Some sql -> q_sql q = sql.
Proof. unfold sql_datum. intros ->. destruct (q_sql q); simpl; by intros [= <-]. Qed.

Lemma wp_list_apps s : wp from_store (reviewed_only (db_url st)) (McpServer.list_apps st) s (fun _ _ => True).
Proof.
  apply wp_prog_try, wp_bind, wp_connect; [done|apply wp_ret; cbn [map_err]|done].
  apply wp_prog_try, wp_bind, wp_jsonb_rows; [done|left; set_solver|done|done].
Qed.

Lemma wp_run_agent args s :
  wp from_store (reviewed_only (db_url st)) (McpServer.run_agent st args) s (fun _ _ => True).
Proof.
  apply wp_prog_try, wp_bind, wp_connect; [done|apply wp_ret; cbn [map_err]|done].
  apply wp_prog_try, wp_bind, wp_prog_try, wp_query; [left; set_solver|intros n rows _|done].
  unfold one_row. destruct rows as [|row [|]]; [done| |done].
  apply wp_ret, wp_ret. cbn [map_err]. apply wp_bind, wp_get; [done|]. done.
Qed.

Lemma wp_ask args s : wp from_store (reviewed_only (db_url st)) (McpServer.ask st args) s (fun _ _ => True).
Proof.
  apply wp_prog_try, wp_bind, wp_connect; [done|apply wp_ret; cbn [map_err]|done].
  apply wp_prog_try, wp_bind, wp_query; [left; set_solver|intros n rows Hr|done].
  apply wp_ret. cbn [map_err]. unfold from_store, looked_up in Hr. rewrite String.eqb_refl in Hr.
  change (String.eqb McpServer.ASK_SQL Questions.RUN_SQL) with false in Hr. cbn iota in Hr.
  destruct rows as [|row rows]; [done|]. apply wp_bind, wp_get; [done|]. intros c Hc.
  destruct (stored _ _) as [q|] eqn:Eq; [|done].
  destruct (String.eqb_spec (q_kind q) "sql") as [Ek|]; [|done]. injection Hr as -> ->.
  injection Hc as <-. destruct (q_confirmed q) eqn:Econf; [|done].
  apply wp_bind, wp_get; [done|]. intros sql Hs.
  apply (sql_datum_read q) in Hs as <-; [|done].
  apply wp_prog_try, wp_bind, wp_jsonb_rows; [done| |done|done].
  right. split; [done|]. by exists (McpServer.str_arg "app" args), (McpServer.str_arg "question" args), q.
Qed.

Lemma wp_rpc req s : wp from_store (reviewed_only (db_url st)) (McpServer.rpc st req) s (fun _ _ => True).
Proof.
  unfold McpServer.rpc. repeat case_match; [done|done| |done].
  apply wp_bind, wp_bind. unfold McpServer.run_tool. repeat case_match; [..|done].
  - eapply wp_mono; [apply wp_list_apps|done|done].
  - eapply wp_mono; [apply wp_ask|done|done].
  - eapply wp_mono; [apply wp_run_agent|done|done].
Qed.

(** The commands of the client. *)
Lemma wp_printed url f sql args s (Q : _ -> _ -> Prop) :
  (forall row s (P : _ -> _ -> Prop), (forall l, P s l) ->
     wp from_store (reviewed_only url) (f row) s P) ->
  reviewed_only url s _ (ETokio (TkQuery sql args)) ->
  (forall ls, Q s (Ok ls)) -> (forall e, Q s (Err e)) ->
  wp from_store (reviewed_only url) (Command.printed f sql args) s Q.
Proof.
  intros Hf Hc Hok Herr. apply wp_prog_try, wp_bind, wp_query; [done|intros n rows _|intros e; apply Herr].
  apply wp_ret. cbn [map_err]. apply wp_bind. revert Q Hok Herr.
  assert (Hl : forall Q : _ -> _ -> Prop, (forall ls, Q s ls) ->
    wp from_store (reviewed_only url) (Command.print_rows f rows) s Q).
  { induction rows as [|row rows IH]; intros Q HQ; [apply HQ|]. simpl.
    apply wp_bind, Hf. intros l. apply wp_bind, IH. intros ls. apply HQ. }
  intros Q Hok Herr. apply Hl. intros ls. apply Hok.
Qed.

Lemma wp_fields url {A} (dec : datum -> option A) i row {B} (k : A -> prog B) s (Q : _ -> _ -> Prop) :
  (forall a, wp from_store (reviewed_only url) (k a) s Q) ->
  wp from_store (reviewed_only url) (get dec i row ≫= k) s Q.
Proof. intros Hk. apply wp_bind, wp_get; [apply reviewed_only_panics|]. intros a _. apply Hk. Qed.

Lemma wp_query_one url sql args s (Q : _ -> _ -> Prop) :
  reviewed_only url s _ (ETokio (TkQuery sql args)) ->
  (forall row, Q s (Ok row)) -> (forall e, Q s (Err e)) ->
  wp from_store (reviewed_only url) (Command.query_one sql args) s Q.
Proof.
  intros Hc Hok Herr. apply wp_bind, wp_prog_try, wp_query; [done|intros n rows _|intros e; apply Herr].
  unfold one_row. destruct rows as [|row [|]]; [apply Herr|apply Hok|apply Herr].
Qed.

(** What [ask] promises of the question it names. *)
Definition answered_reviewed (args : list string) (r : result (list line) string) : Prop :=
  match args !! 1%nat, args !! 2%nat, r with
  | Some app, Some name, Ok _ => exists q, reviewed app name q
  | _, _, Ok _ => False
  | _, _, Err _ => True
  end.

Lemma wp_command_ask url args s :
  wp from_store (reviewed_only url) (Command.ask args) s (fun _ r => answered_reviewed args r).
Proof.
  unfold Command.ask, Command.arg, answered_reviewed.
  destruct (args !! 1%nat) as [app|]; [|done]. destruct (args !! 2%nat) as [name|]; [|done].
  cbn [ok_or Command.lifted].
  apply wp_prog_try, wp_bind, wp_query; [left; set_solver|intros n rows Hr|done].
  apply wp_ret. cbn [map_err]. unfold from_store, looked_up in Hr.
  rewrite (proj1 command_statements), String.eqb_refl in Hr.
  change (String.eqb McpServer.ASK_SQL Questions.RUN_SQL) with false in Hr. cbn iota in Hr.
  destruct rows as [|row rows]; [done|]. apply wp_bind, wp_get; [done|]. intros c Hc.
  destruct (stored _ _) as [q|] eqn:Eq; [|done].
  destruct (String.eqb_spec (q_kind q) "sql") as [Ek|]; [|done]. injection Hr as -> ->.
  injection Hc as <-. destruct (q_confirmed q) eqn:Econf; [|done].
  apply wp_bind, wp_get; [done|]. intros sql Hs.
  apply (sql_datum_read q) in Hs as <-; [|done].
  apply wp_printed; [| |by exists q|done].
  - intros row s' P HP. apply wp_get; [done|]. intros l _. apply HP.
  - right. split; [done|]. by exists app, name, q.
Qed.

Ltac command_fields :=
  intros; repeat (apply wp_fields; intros); try (by apply wp_ret).

Lemma wp_dispatch url args s :
  wp from_store (reviewed_only url) (Command.dispatch args) s (fun _ r =>
    args !! 0%nat = Some "ask" -> answered_reviewed args r).
Proof.
  assert (Htrivial : forall Q (c : prog (result (list line) string)),
    args !! 0%nat <> Some "ask" ->
    wp from_store (reviewed_only url) c s (fun _ _ => True) ->
    wp from_store (reviewed_only url) c s (fun _ r => args !! 0%nat = Some "ask" -> Q r)).
  { intros Q c Hne Hw. eapply wp_mono; [exact Hw|done|by intros]. }
  assert (Hcmd : forall name, String.eqb (default "" (args !! 0%nat)) name = true -> name <> "" ->
    name <> "ask" -> args !! 0%nat <> Some "ask").
  { intros name En Hn Ha E. rewrite E in En. by apply String.eqb_eq in En. }
  unfold Command.dispatch.
  repeat (match goal with
          | |- context [String.eqb (default "" (args !! 0%nat)) ?n] =>
              destruct (String.eqb (default "" (args !! 0%nat)) n) eqn:?
          end);
    try (apply Htrivial; [by eapply Hcmd|]);
    [..|intros _; unfold answered_reviewed; by repeat case_match].
  all: try (by apply wp_printed; [command_fields|left; set_solver|done|done]).
  - unfold Command.run_agent, Command.arg. destruct (args !! 1%nat); [|done].
    cbn [ok_or Command.lifted]. destruct (Command.input_of args); [|done].
    apply wp_prog_try, wp_query_one; [left; set_solver|command_fields|done].
  - eapply wp_mono; [apply wp_command_ask|done|]. by intros.
  - unfold Command.questions, Command.arg. destruct (args !! 1%nat); [|done].
    cbn [ok_or Command.lifted]. by apply wp_printed; [command_fields|left; set_solver|done|done].
  - apply wp_prog_try, wp_query_one; [left; set_solver|command_fields|done].
Qed.

Lemma wp_command env args s :
  wp from_store (reviewed_only (default "" env)) (Command.run env args) s (fun _ r =>
    args !! 0%nat = Some "ask" -> answered_reviewed args r).
Proof.
  apply wp_bind, wp_perform; [done|]. intros [r|e] _; [apply wp_dispatch|].
  intros _. unfold answered_reviewed. by repeat case_match.
Qed.

(** C36: The review gate of saved questions, on every surface: whatever a
    client of the MCP server sends, whichever question a user of the pages
    runs, and whatever arguments the command-line client gets, the database is
    asked for nothing but the program's own statements and, in the wrapper, the
    text of a question stored as SQL and confirmed; and a user's run, or the
    client's [ask], answers rows only for such a question. *)
Theorem only_reviewed_questions_run :
  (forall req s, wp from_store (reviewed_only (db_url st)) (McpServer.rpc st req) s (fun _ _ => True)) /\
  (forall app name s,
    wp from_store (reviewed_only (db_url st)) (Questions.run st app name) s (fun _ r =>
      match r with
      | Ok _ => exists q, reviewed app name q /\ is_Some (q_sql q)
      | Err (HarnessError_NotFound _) => stored app name = None
      | Err (HarnessError_BadRequest _) =>
          exists q, stored app name = Some q /\ (q_sql q = None \/ ~ reviewed app name q)
      | Err _ => True
      end)) /\
  forall env args s,
    wp from_store (reviewed_only (default "" env)) (Command.run env args) s (fun _ r =>
      args !! 0%nat = Some "ask" -> answered_reviewed args r).
Proof.
  split; [apply wp_rpc|]. split; [|apply wp_command]. intros app name s.
  apply wp_prog_try, wp_connect; [done| |done].
  apply wp_prog_try, wp_bind, wp_query; [left; set_solver|intros n rows Hr|done].
  apply wp_ret. cbn [map_err]. unfold from_store, looked_up in Hr. rewrite String.eqb_refl in Hr.
  destruct (stored app name) as [q|] eqn:Eq; subst rows; [|done].
  apply wp_bind, wp_get; [done|]. intros kind [= <-].
  apply wp_bind, wp_get; [done|]. intros sql Hs.
  apply (sql_datum_read q) in Hs as <-; [|done].
  apply wp_bind, wp_get; [done|]. intros c [= <-]. unfold Questions.runnable.
  destruct (String.eqb_spec (q_kind q) "sql") as [Ek|Ek];
    [|exists q; split; [done|]; right; by intros (_ & ? & _)].
  destruct (q_confirmed q) eqn:Ec; [|exists q; split; [done|]; right; intros (_ & _ & ?); congruence].
  assert (Hq : reviewed app name q) by done.
  destruct (q_sql q) as [sql|] eqn:Es; [|exists q; auto]. cbn [negb ok_or].
  apply wp_prog_try, wp_jsonb_rows; [done| |intros out; by exists q|done].
  right. split; [done|]. exists app, name, q. by rewrite Es.
Qed.
End review.

(** ** Instances *)

#[local] Instance demo_tokio : TokioLib :=
  {| row_count_error := mkTokioError "query returned an unexpected number of rows" None None;
     get_panic := fun _ => "error retrieving column"; to_string_pretty := fun _ => "[]" |}.
#[local] Instance demo_wire : WireLib :=
  {| json_from_str := fun _ => None; parse_f64 := fun _ => None;
     header_name_ok := fun _ => true; header_value_ok := fun _ => true; fmt_status := show |}.

Definition demo_state : HarnessState := mkHarnessState "postgres://demo" "" "" "/uploads".

(** A question that was never confirmed is refused, one that was runs. *)
Definition demo_questions (confirmed : bool) (app name : string) : option Question :=
  Some (mkQuestion "sql" (Some "SELECT 1") confirmed).

Example unreviewed_question_is_refused :
  steps (Questions.run demo_state "a" "q")
    [Call (ETokio (TkConnect "postgres://demo")) (Ok (0, []));
     Call (ETokio (TkQuery Questions.RUN_SQL [DText "a"; DText "q"]))
       (Ok (1, [[DText "sql"; DText "SELECT 1"; DBool false]]))]
    (Err (HarnessError_BadRequest
       ("question " +:+ quoted "q"
          +:+ " has not been reviewed. Its SQL must be approved before it runs"))).
Proof. repeat (eexists _, _; split; [reflexivity|]). done. Qed.

Example reviewed_question_runs :
  steps (Questions.run demo_state "a" "q")
    [Call (ETokio (TkConnect "postgres://demo")) (Ok (0, []));
     Call (ETokio (TkQuery Questions.RUN_SQL [DText "a"; DText "q"]))
       (Ok (1, [[DText "sql"; DText "SELECT 1"; DBool true]]));
     Call (ETokio (TkQuery "SELECT to_jsonb(r)::text FROM (SELECT 1) r" []))
       (Ok (1, [[DText "x"]]))]
    (Ok (Questions.run_result "a" "q" [JNull])).
Proof. repeat (eexists _, _; split; [reflexivity|]). done. Qed.
