(* ===== verification/DemoRuns.v ===== *)
(** * The demo server: background work ([demo/harness/src])

    The registry of runs and the task behind each ([runs.rs], with the
    handlers of [api.rs] that read it), and the workload generators with the
    flags that stop them ([api.rs]), as state machines whose steps are the
    atomic actions of concurrent tasks and requests. *)

From S2P Require Import Prelude.
From S2P Require Import RustStr.
From S2P Require Import Json.
From S2P Require Import Errors.
From S2P Require Import Types.
From S2P Require Import Effects.
From S2P Require Import LoopHarness.
From S2P Require Import Wire.
From S2P Require Import DemoApps.

Definition NO_ENDPOINT_MSG : string :=
  "No LLM endpoint configured - connect and Save your endpoint first (or the agent "
   +:+ "references a missing profile).".

(** ** Runs ([runs.rs]) *)

Module Runs.

Inductive RunPhase := Starting | Running | Done | Failed.

Record RunState := mkRunState {
  run_id : Uuid;
  agent : string;
  input : string;
  phase : RunPhase;
  backend_pid : option Z;
  started_at_ms : Z;
  finished_at_ms : option Z;
  envelope : option json;
  messages : list json;
  traces : list json;
  error : option string;
  cancelled : bool }.

Definition RunRegistry : Type := gmap Uuid RunState.

Definition update (id : Uuid) (f : RunState -> RunState) (reg : RunRegistry) : RunRegistry :=
  match reg !! id with Some s => <[id := f s]> reg | None => reg end.

(** A background task: it awaits, and updates its own entry at once. *)
Inductive task : Type :=
| TEnd
| TUpdate (f : RunState -> RunState) (k : task)
| TAwait {X : Type} (e : eff X) (k : X -> task).

Fixpoint await {A} (p : prog A) (k : A -> task) : task :=
  match p with
  | Ret a => k a
  | Vis e k' => TAwait e (fun x => await (k' x) k)
  end.

(** ** What a task writes *)

Definition running (pid : Z) (s : RunState) : RunState :=
  mkRunState (run_id s) (agent s) (input s) Running (Some pid) (started_at_ms s)
    (finished_at_ms s) (envelope s) (messages s) (traces s) (error s) (cancelled s).

Definition failed (msg : string) (c : bool) (now : Z) (s : RunState) : RunState :=
  mkRunState (run_id s) (agent s) (input s) Failed (backend_pid s) (started_at_ms s)
    (Some now) (envelope s) (messages s) (traces s) (Some msg) c.

Definition finished (env : json) (m t : list json) (now : Z) (s : RunState) : RunState :=
  mkRunState (run_id s) (agent s) (input s) Done (backend_pid s) (started_at_ms s)
    (Some now) (Some env) m t (error s) (cancelled s).

Definition new_run (id : Uuid) (agent input : string) (now : Z) : RunState :=
  mkRunState id agent input Starting None now None None [] [] None false.

(** [now_ms]: zero before the epoch. *)
Definition now_ms : prog Z :=
  d ← perform ESystemNanos;
  mret (match d with Some n => wrap64 (as_millis n) | None => 0 end).

Definition PID_SQL : string := "SELECT pg_backend_pid()".
Definition CANCEL_SQL : string := "SELECT pg_cancel_backend($1)".
Definition MESSAGES_SQL : string :=
  "SELECT to_jsonb(m)::text FROM ( SELECT seq, role, content, tool_call_id, tool_name, "
   +:+ "tool_input, tool_output FROM synapse.messages WHERE execution_id = ($1::text)::uuid "
   +:+ "ORDER BY seq) m".
Definition TRACES_SQL : string :=
  "SELECT to_jsonb(t)::text FROM ( SELECT seq, event, payload FROM synapse.traces "
   +:+ "WHERE execution_id = ($1::text)::uuid ORDER BY seq) t".
Definition CANCELLED_MSG : string := "execution cancelled: statement cancelled by operator".

(** The code of a cancelled statement. *)
Definition was_cancelled (e : TokioError) : bool := bool_decide (tk_code e = Some "57014").

Definition execution_id (env : json) : option string :=
  match json_get "execution_id" env ≫= as_str with
  | Some id => if is_empty id then None else Some id
  | None => None
  end.

Section runs.
Context `{UnicodeTables, Printers, WireLib, TokioLib}.

Definition friendly_agent_error (raw : string) : string :=
  if contains (to_lowercase raw) "not registered" then NO_ENDPOINT_MSG else raw.

Definition or_nothing (p : prog (result (list json) HarnessError)) : prog (list json) :=
  r ← p; mret (match r with Ok rows => rows | Err _ => [] end).

(** The rows stored for the execution, if it has an id. *)
Definition stored_rows (env : json) : prog (list json * list json) :=
  match execution_id env with
  | Some id =>
      m ← or_nothing (jsonb_rows MESSAGES_SQL [DText id]);
      t ← or_nothing (jsonb_rows TRACES_SQL [DText id]);
      mret (m, t)
  | None => mret ([], [])
  end.

Definition fail_run (msg : string) : task :=
  await now_ms (fun now => TUpdate (fun s => failed msg (cancelled s) now s) TEnd).

Definition execution_failed (e : TokioError) : task :=
  let c := was_cancelled e in
  let msg := if c then CANCELLED_MSG else friendly_agent_error (tk_text e) in
  await now_ms (fun now => TUpdate (failed msg c now) TEnd).

Definition execution_returned (row : Row) : task :=
  await (get d_text 0 row) (fun text =>
    let env := parse_or_null text in
    await (stored_rows env) (fun rows =>
    await now_ms (fun now => TUpdate (finished env rows.1 rows.2 now) TEnd))).

Definition run_task (db_url agent input : string) : task :=
  await (connect db_url) (fun c =>
    match c with
    | Err e => fail_run (HarnessError_to_string e)
    | Ok _ =>
        await (tk_query_one PID_SQL []) (fun r =>
          match r with
          | Err e => fail_run (tk_text e)
          | Ok row =>
              await (get d_i32 0 row) (fun pid => TUpdate (running pid) (
              await (tk_query_one McpServer.EXECUTE_SQL [DText agent; DText input]) (fun r =>
                match r with
                | Ok row => execution_returned row
                | Err e => execution_failed e
                end)))
          end)
    end).

(** ** The registry and the tasks *)

Record pool := mkPool { registry : RunRegistry; tasks : gmap Uuid task }.

Definition start_run (db_url : string) (id : Uuid) (agent input : string) (now : Z) (p : pool)
  : pool :=
  mkPool (<[id := new_run id agent input now]> (registry p))
    (<[id := run_task db_url agent input]> (tasks p)).

(** A run starts under an id of its own; a task gets the answer it awaits, any
    one, or makes its update. *)
Inductive step : pool -> pool -> Prop :=
| step_start p db_url id agent input now :
    registry p !! id = None ->
    step p (start_run db_url id agent input now p)
| step_update p id f k :
    tasks p !! id = Some (TUpdate f k) ->
    step p (mkPool (update id f (registry p)) (<[id := k]> (tasks p)))
| step_await p id X (e : eff X) k x :
    tasks p !! id = Some (TAwait e k) ->
    step p (mkPool (registry p) (<[id := k x]> (tasks p))).

Definition reachable : pool -> Prop := rtc step (mkPool ∅ ∅).

(** ** The handlers that read the registry ([api.rs]) *)

Definition phase_str (p : RunPhase) : string :=
  match p with
  | Starting => "starting" | Running => "running" | Done => "done" | Failed => "failed"
  end.

Definition run_json (s : RunState) : json :=
  json_object
    [("run_id", JString (fmt_uuid (run_id s))); ("agent", JString (agent s));
     ("input", JString (input s)); ("phase", JString (phase_str (phase s)));
     ("backend_pid", json_option json_i64 (backend_pid s));
     ("started_at_ms", json_u64 (started_at_ms s));
     ("finished_at_ms", json_option json_u64 (finished_at_ms s));
     ("envelope", default JNull (envelope s)); ("messages", JArray (messages s));
     ("traces", JArray (traces s)); ("error", json_option JString (error s));
     ("cancelled", JBool (cancelled s))].

Definition run_status (reg : RunRegistry) (id : Uuid) : result json HarnessError :=
  match reg !! id with
  | Some s => Ok (ok_json [("run", run_json s)])
  | None => Err (HarnessError_NotFound ("run " +:+ fmt_uuid id))
  end.

Definition run_cancel (st : HarnessState) (reg : RunRegistry) (id : Uuid)
  : prog (result json HarnessError) :=
  match reg !! id ≫= backend_pid with
  | None =>
      mret (Err (HarnessError_NotFound ("run " +:+ fmt_uuid id +:+ " has no backend pid")))
  | Some pid =>
      connected st (prog_try (db (tk_query_one CANCEL_SQL [DInt4 pid])) (fun row =>
        signalled ← get d_bool 0 row;
        mret (Ok (ok_json [("signalled", JBool signalled); ("pid", json_i64 pid)]))))
  end.
End runs.
End Runs.

(** ** Workloads ([api.rs]) *)

Module Workload.

(** Name, statement that inserts, statement that empties, table. *)
Definition target : Type := string * string * string * string.
Definition w_name (w : target) : string := w.1.1.1.
Definition w_insert (w : target) : string := w.1.1.2.
Definition w_reset (w : target) : string := w.1.2.
Definition w_table (w : target) : string := w.2.

Definition WORKLOADS : list target :=
  [("orders",
   "INSERT INTO perf.orders (customer_id, amount) SELECT (random()*20000)::int, "
   +:+ "round((random()*500)::numeric, 2) FROM generate_series(1, $1::int)",
    "TRUNCATE perf.orders RESTART IDENTITY", "perf.orders");
   ("leads",
   "INSERT INTO sales.leads (company, note) SELECT 'Lead '||g, (ARRAY['Enterprise, "
   +:+ "budget approved, wants a demo this quarter','solo founder, no budget, just "
   +:+ "browsing','mid-market, evaluating us against a competitor','existing customer, exec "
   +:+ "sponsor, urgent expansion','downloaded a whitepaper, no reply to "
   +:+ "follow-ups'])[1+floor(random()*5)] FROM generate_series(1, $1::int) g",
    "TRUNCATE sales.leads RESTART IDENTITY", "sales.leads");
   ("invoices",
   "INSERT INTO finance.invoices (customer, amount, due_date) SELECT 'Cust '||g, "
   +:+ "round((random()*20000)::numeric, 2), CURRENT_DATE - (floor(random()*120)::int - 30) "
   +:+ "FROM generate_series(1, $1::int) g",
    "TRUNCATE finance.collection_messages, finance.invoices RESTART IDENTITY",
    "finance.invoices");
   ("contacts",
   "INSERT INTO etl.raw_contacts (note) SELECT (ARRAY['Call from J. Doe at ACME "
   +:+ "(j@acme.com), Germany, wants a renewal','angry email: maria@techflow.es, Spain, "
   +:+ "wants a refund','met someone from Globex, U.K., interested in a demo','support req: "
   +:+ "Tanaka, Japan, cannot export dashboards','prospect jqp@gmail.com, the states, "
   +:+ "asking about pricing'])[1+floor(random()*5)] FROM generate_series(1, $1::int) g",
    "TRUNCATE etl.contacts, etl.raw_contacts RESTART IDENTITY", "etl.raw_contacts")].

Definition workload_find (name : string) : option target :=
  List.find (fun w => String.eqb (w_name w) name) WORKLOADS.

Record WorkloadReq := mkWorkloadReq { wl_target : string; wl_count : Z; wl_rate : Z }.

Definition find_or_refuse (name : string) : result target HarnessError :=
  ok_or (workload_find name) (HarnessError_BadRequest ("unknown workload '" +:+ name +:+ "'")).

(** The rows a second of a generator. *)
Definition effective_rate (rate : Z) : Z := if rate <=? 0 then 25 else Z.min rate 5000.

(** ** The shared flags

    The allocated flags, the flag registered for each target, the requests
    that still have something to do, and the generators with their flags. *)

Inductive request_point :=
| Store (old : option nat) (next : request_point)   (* set the flag that was taken out *)
| Spawn (flag : nat) (w : target) (rate : Z)        (* start the generator *)
| Truncate (w : target)                             (* empty the tables *)
| Answered.

Inductive gen_point := Connecting | Checking | Inserting | Sleeping | Over.

Record generator := mkGenerator {
  g_flag : nat; g_target : target; g_rate : Z; g_point : gen_point }.

Record world := mkWorld {
  flags : list bool;
  registry : gmap string nat;
  requests : list request_point;
  generators : list generator;
  effects : list (option nat * string) }.   (* statements as they took effect, with their generator *)

Definition start_point (flag : nat) (w : target) (rate : Z) (old : option nat) : request_point :=
  Store old (Spawn flag w (effective_rate rate)).

(** [HashMap::insert] of a new flag, and [HashMap::remove]. *)
Definition begin_start (w : target) (rate : Z) (s : world) : world :=
  let f := length (flags s) in
  mkWorld (flags s ++ [false]) (<[w_name w := f]> (registry s))
    (requests s ++ [start_point f w rate (registry s !! w_name w)]) (generators s) (effects s).

Definition begin_stop (name : string) (next : request_point) (s : world) : world :=
  mkWorld (flags s) (delete name (registry s)) (requests s ++ [Store (registry s !! name) next])
    (generators s) (effects s).

(** What a request does next. *)
Definition request_step (i : nat) (p : request_point) (s : world) : world :=
  match p with
  | Store old next =>
      mkWorld (match old with Some f => <[f := true]> (flags s) | None => flags s end)
        (registry s) (<[i := next]> (requests s)) (generators s) (effects s)
  | Spawn f w rate =>
      mkWorld (flags s) (registry s) (<[i := Answered]> (requests s))
        (generators s ++ [mkGenerator f w rate Connecting]) (effects s)
  | Truncate w =>
      mkWorld (flags s) (registry s) (<[i := Answered]> (requests s)) (generators s)
        (effects s ++ [(None, w_reset w)])
  | Answered => s
  end.

(** What a generator does next: it reads the flag, and its statement takes
    effect some time after that or fails. *)
Inductive gen_step (s : world) (g : generator) : gen_point -> list (option nat * string) -> Prop :=
| gen_connected : g_point g = Connecting -> gen_step s g Checking []
| gen_refused : g_point g = Connecting -> gen_step s g Over []
| gen_stops : g_point g = Checking -> flags s !! g_flag g = Some true -> gen_step s g Over []
| gen_goes_on : g_point g = Checking -> flags s !! g_flag g = Some false ->
    gen_step s g Inserting []
| gen_inserts : g_point g = Inserting ->
    gen_step s g Sleeping [(Some (g_flag g), w_insert (g_target g))]
| gen_fails : g_point g = Inserting -> gen_step s g Sleeping []
| gen_wakes : g_point g = Sleeping -> gen_step s g Checking [].

Definition set_point (g : generator) (p : gen_point) : generator :=
  mkGenerator (g_flag g) (g_target g) (g_rate g) p.

Inductive step : world -> world -> Prop :=
| step_start s w rate :
    workload_find (w_name w) = Some w ->
    step s (begin_start w rate s)
| step_stop s name : step s (begin_stop name Answered s)
| step_reset s w :
    workload_find (w_name w) = Some w ->
    step s (begin_stop (w_name w) (Truncate w) s)
| step_request s i p :
    requests s !! i = Some p -> step s (request_step i p s)
| step_truncate_fails s i w :
    requests s !! i = Some (Truncate w) ->
    step s (mkWorld (flags s) (registry s) (<[i := Answered]> (requests s)) (generators s)
              (effects s))
| step_generator s i g p out :
    generators s !! i = Some g -> gen_step s g p out ->
    step s (mkWorld (flags s) (registry s) (requests s)
              (<[i := set_point g p]> (generators s)) (effects s ++ out)).

Definition initial : world := mkWorld [] ∅ [] [] [].
Definition reachable : world -> Prop := rtc step initial.

(** The replies of [workload_start] and [workload_stop], which was given what
    it took out. *)
Definition started_json (req : WorkloadReq) : json :=
  ok_json [("target", JString (wl_target req)); ("rate", json_i64 (effective_rate (wl_rate req)))].
Definition stopped_json (req : WorkloadReq) (old : option nat) : json :=
  ok_json [("target", JString (wl_target req)); ("stopped", JBool (bool_decide (is_Some old)))].

(** ** The handlers without the flags *)

Section workload.
Context `{WireLib, TokioLib}.
Context (st : HarnessState).

Definition workload_seed (req : WorkloadReq) : prog (result json HarnessError) :=
  match find_or_refuse (wl_target req) with
  | Err e => mret (Err e)
  | Ok w =>
      let n := clamp 1 100000 (wl_count req) in
      connected st (prog_try (db (tk_execute (w_insert w) [DInt4 n])) (fun _ =>
        mret (Ok (ok_json [("target", JString (wl_target req)); ("added", json_i64 n)]))))
  end.

Definition count_sql (table : string) : string :=
  "SELECT CASE WHEN to_regclass('" +:+ table +:+ "') IS NULL THEN -1 ELSE (SELECT count(*) FROM "
    +:+ table +:+ ") END".

Definition table_count (w : target) : prog (string * json) :=
  r ← tk_query_one (count_sql (w_table w)) [];
  match r with
  | Ok row => c ← get d_i64 0 row; mret (w_name w, json_i64 c)
  | Err _ => mret (w_name w, json_i64 (-1))
  end.

Fixpoint table_counts (ws : list target) : prog (list (string * json)) :=
  match ws with
  | [] => mret []
  | w :: rest => c ← table_count w; cs ← table_counts rest; mret (c :: cs)
  end.

(** [running]: the targets registered, in some order. *)
Definition workload_status (running : list string) : prog (result json HarnessError) :=
  connected st (
    counts ← table_counts WORKLOADS;
    mret (Ok (ok_json
      [("running", JArray (map JString running));
       ("targets", JArray (map (fun w => JString (w_name w)) WORKLOADS));
       ("counts", json_object counts)]))).
End workload.
End Workload.
