(* ===== verification/DemoApi.v ===== *)
(** * The demo server: endpoints ([demo/harness/src])

    The handlers of [api.rs] over the database, the sidecar and the model
    endpoint, the uploaded files ([files.rs]) and the scenarios
    ([scenarios.rs]).

    A handler that starts a run answers with what it does to the pool of runs.
    The texts of files that the sources include are a parameter. *)

From stdpp Require Import sorting.
From S2P Require Import Prelude.
From S2P Require Import RustStr.
From S2P Require Import F64.
From S2P Require Import Json.
From S2P Require Import NumText.
From S2P Require Import Errors.
From S2P Require Import Types.
From S2P Require Import Effects.
From S2P Require Import HarnessText.
From S2P Require Import LoopHarness.
From S2P Require Import Wire.
From S2P Require Import StrSlice.
From S2P Require Import Mcp.
From S2P Require Import Fs.
From S2P Require Import DemoApps.
From S2P Require Import DemoRuns.
#[local] Open Scope Z_scope.

Definition bad_request {A} (m : string) : result A HarnessError := Err (HarnessError_BadRequest m).

Definition is_in (x : string) (l : list string) : bool := bool_decide (x ∈ l).

(** ** Scenarios ([scenarios.rs]) *)

Module Scenarios.

Record SuggestedRun := mkSuggestedRun { sr_agent : string; sr_input : string; sr_label : string }.
Record Probe := mkProbe { pr_key : string; pr_label : string }.

(** The statement of a scenario is a text that the sources include. *)
Record Scenario := mkScenario {
  sn_id : string; sn_title : string; sn_description : string; sn_watch_tables : list string;
  sn_suggested_runs : list SuggestedRun; sn_probes : list Probe }.

Definition SCENARIOS : list Scenario :=
  [mkScenario "index-tuner" "Autonomous index tuner"
     ("perf.orders has 100k rows and no index on customer_id, so the canonical query "
      +:+ "seq-scans. The agent runs EXPLAIN, creates the missing index (plain CREATE INDEX is "
      +:+ "transaction-safe), and verifies the plan flipped to an index scan. Use the EXPLAIN "
      +:+ "probe before and after the run.")
     []
     [mkSuggestedRun "index_tuner" ("This query is slow: SELECT count(*), sum(amount) FROM perf.orders WHERE customer_id "
           +:+ "= 4242. Diagnose it and fix it if you can.") "Diagnose and fix the slow query"]
     [mkProbe "explain_orders" "EXPLAIN the slow query";
      mkProbe "perf_indexes" "List indexes on perf.orders";
      mkProbe "assert_index_tuner" "Check expected end state"];
   mkScenario "dba-tickets" "The DBA that opens tickets"
     ("Four health signals: one is safe to auto-fix inside a transaction (a missing "
      +:+ "index), three are not (work_mem, REINDEX CONCURRENTLY, shared_buffers). The agent "
      +:+ "applies the safe fix and files dba.recommendations tickets for the rest, with "
      +:+ "rationale.")
     ["signals"; "recommendations"]
     [mkSuggestedRun "dba_advisor" "Review the pending health signals and act on each one." "Review health signals"]
     [mkProbe "assert_dba" "Check expected end state"];
   mkScenario "etl" "LLM-powered ETL"
     ("etl.raw_contacts holds messy free-text notes (inconsistent country names, buried "
      +:+ "emails, mixed tone). The agent extracts name / company / email, normalizes "
      +:+ "countries to ISO codes, classifies intent, and inserts clean rows into "
      +:+ "etl.contacts. Unstructured to structured, entirely in the database.")
     ["raw_contacts"; "contacts"]
     [mkSuggestedRun "etl_agent" "Process all raw contacts into the clean contacts table." "Run the ETL pass"]
     [mkProbe "assert_etl" "Check expected end state"];
   mkScenario "triage" "Ticket triage (warm-up)"
     ("An agent reads support tickets with SQL, decides category and priority, and writes "
      +:+ "the classification back to the row. Reused from examples/customer-support-triage.")
     ["support_tickets"]
     [mkSuggestedRun "triage_agent" "Triage ticket 1." "Triage ticket 1";
      mkSuggestedRun "triage_agent" "Triage ticket 2." "Triage ticket 2";
      mkSuggestedRun "triage_agent" "Triage ticket 3." "Triage ticket 3"]
     [mkProbe "assert_triage" "Check expected end state"];
   mkScenario "bouncer" "Transaction bouncer"
     ("Reactive triggers in both modes: INSERTs into demo.tickets enqueue an enrichment "
      +:+ "agent (queue mode), and INSERTs into demo.orders are gated by a policy agent that "
      +:+ "can ROLL BACK the transaction with a reason (inline mode). Reused from "
      +:+ "examples/reactive-triggers. Drive it from the Event triggers panel below the run "
      +:+ "panel.")
     ["tickets"; "orders"; "queue"]
     []
     [mkProbe "assert_bouncer" "Check expected end state"];
   mkScenario "guardrails" "Guardrails"
     ("Runaway agents stopped by the runtime: cost_capped_agent trips its cost_cap_usd "
      +:+ "(synthetic pricing on a derived profile), time_capped_agent trips its timeout_ms "
      +:+ "budget, and marathon_agent runs long enough to stop with the Cancel button "
      +:+ "(pg_cancel_backend). Watch the run panel status chip; capped and cancelled runs "
      +:+ "surface there, not in the audit tables.")
     []
     [mkSuggestedRun "cost_capped_agent" "Sum the numbers 1 through 200, one addition at a time." "Trip the cost cap";
      mkSuggestedRun "time_capped_agent" "Sum the numbers 1 through 200, one addition at a time." "Trip the timeout";
      mkSuggestedRun "marathon_agent" "Sum the numbers 1 through 500, one addition at a time." "Start a marathon (then hit Cancel)"]
     [];
   mkScenario "leads" "Sales lead scoring"
     ("Seeds inbound leads with messy free-text notes. The agent reads each, judges "
      +:+ "budget/intent/timeline, and writes a hot/warm/cold score plus a one-line reason: an "
      +:+ "SDR's prioritization pass in SQL.")
     []
     [mkSuggestedRun "sales_lead_scorer" "Score all the unscored leads in sales.leads." "Score the leads"]
     [];
   mkScenario "invoices" "AR collections"
     ("Seeds open invoices, some past due. The agent finds the overdue ones, marks them "
      +:+ "overdue, and drafts a tone-appropriate dunning reminder for each while leaving "
      +:+ "in-terms invoices alone.")
     []
     [mkSuggestedRun "collections_agent" "Review the open invoices and chase the ones that are overdue." "Chase overdue invoices"]
     [];
   mkScenario "inventory" "Inventory reorder"
     ("Seeds a product catalog with stock levels, some below their reorder point. The "
      +:+ "agent finds them and raises a restock order for each: an ops reorder pass.")
     []
     [mkSuggestedRun "reorder_agent" "Check stock levels and reorder anything at or below its reorder point." "Reorder low stock"]
     []].

Definition find (id : string) : option Scenario :=
  List.find (fun s => String.eqb (sn_id s) id) SCENARIOS.

Definition run_json (r : SuggestedRun) : json :=
  json_object [("agent", JString (sr_agent r)); ("input", JString (sr_input r));
               ("label", JString (sr_label r))].
Definition probe_json (p : Probe) : json :=
  json_object [("key", JString (pr_key p)); ("label", JString (pr_label p))].
Definition to_value (s : Scenario) : json :=
  json_object
    [("id", JString (sn_id s)); ("title", JString (sn_title s));
     ("description", JString (sn_description s));
     ("watch_tables", JArray (map JString (sn_watch_tables s)));
     ("suggested_runs", JArray (map run_json (sn_suggested_runs s)));
     ("probes", JArray (map probe_json (sn_probes s)))].
End Scenarios.
Import Scenarios.

(** ** Endpoints ([api.rs]) *)

Module Api.

Definition BUILTIN_TOOLS : list (string * string) :=
  [("sql_query",
    "Run a read-only SQL query with $n params");
   ("sql_exec",
    "Run a writing SQL statement with $n params");
   ("http_get",
    "HTTP GET a URL");
   ("http_post",
    "HTTP POST to a URL");
   ("http_head",
    "HTTP HEAD a URL");
   ("calculator",
    "Evaluate an arithmetic expression");
   ("get_current_time",
    "Read the current time");
   ("call_agent",
    "Delegate to another registered agent");
   ("read_file",
    "Read a file under the sandboxed uploads directory");
   ("write_file",
    "Write a file under the sandboxed uploads directory");
   ("list_files",
    "List files under the sandboxed uploads directory");
   ("remote_query",
    "Read-only SQL against a named external Postgres connection");
   ("remote_exec",
    "Writing SQL against a named external Postgres connection");
   ("describe_schema",
    "Get every table, column, primary key and foreign key in one call");
   ("export_csv",
    "Write a query's rows to a CSV file without the rows passing through you");
   ("load_url",
    "Fetch JSON from a URL straight into a table, without writing the rows yourself");
   ("load_csv",
    "Load an uploaded CSV into a table directly, without writing the rows yourself");
   ("load_json",
    "Load an uploaded JSON or JSONL file into a table directly, without writing the rows "
    +:+ "yourself");
   ("search_news",
    "Keyword news search via Google News RSS");
   ("fetch_feed",
    "Read any RSS or Atom feed and get real article URLs that read_article can fetch");
   ("read_article",
    "Fetch a URL and extract its main article text");
   ("lede_compress",
    "Compress text to a short extractive brief within a token budget")].

Definition SYSTEM_AGENTS : list string := ["app_builder"; "db_architect"; "data_analyst"].
Definition SYSTEM_SCHEMAS : list string := ["synapse"; "public"].
Definition EXECUTORS : list string := ["conversation"; "react"; "reflection"].

Definition TABLE_QUERIES : list (string * string) :=
  [("support_tickets",
    "SELECT to_jsonb(x)::text FROM (SELECT id, subject, category, priority, escalated "
    +:+ "FROM support.tickets ORDER BY id) x");
   ("tickets",
    "SELECT to_jsonb(x)::text FROM (SELECT id, subject, category, priority FROM "
    +:+ "demo.tickets ORDER BY id) x");
   ("orders",
    "SELECT to_jsonb(x)::text FROM (SELECT id, customer, amount, status FROM demo.orders "
    +:+ "ORDER BY id) x");
   ("queue",
    "SELECT to_jsonb(x)::text FROM (SELECT job_id, agent, left(input, 90) AS input, "
    +:+ "status, error, source, enqueued_at, finished_at FROM synapse.agent_queue ORDER BY "
    +:+ "enqueued_at DESC LIMIT 20) x");
   ("executions",
    "SELECT to_jsonb(x)::text FROM (SELECT execution_id, agent_name, left(input, 80) AS "
    +:+ "input, status, caller_role, tokens_in, tokens_out, cost_usd, duration_ms, "
    +:+ "started_at FROM synapse.executions ORDER BY started_at DESC LIMIT 50) x");
   ("signals",
    "SELECT to_jsonb(x)::text FROM (SELECT id, signal, left(detail, 90) AS detail, "
    +:+ "resolved FROM dba.health_signals ORDER BY id) x");
   ("recommendations",
    "SELECT to_jsonb(x)::text FROM (SELECT id, signal_id, severity, left(recommendation, "
    +:+ "80) AS recommendation, requires_human FROM dba.recommendations ORDER BY id) x");
   ("raw_contacts",
    "SELECT to_jsonb(x)::text FROM (SELECT id, left(note, 110) AS note FROM "
    +:+ "etl.raw_contacts ORDER BY id) x");
   ("contacts",
    "SELECT to_jsonb(x)::text FROM (SELECT id, raw_id, name, company, email, "
    +:+ "country_code, intent FROM etl.contacts ORDER BY id) x")].

Definition PROBE_QUERIES : list (string * string) :=
  [("explain_orders",
    "EXPLAIN (ANALYZE, BUFFERS) SELECT count(*), sum(amount) FROM perf.orders WHERE "
    +:+ "customer_id = 4242");
   ("perf_indexes",
    "SELECT indexname || ' : ' || indexdef FROM pg_indexes WHERE schemaname = 'perf' AND "
    +:+ "tablename = 'orders' ORDER BY indexname");
   ("assert_index_tuner",
    "SELECT CASE WHEN EXISTS (SELECT 1 FROM pg_indexes WHERE schemaname = 'perf' AND "
    +:+ "tablename = 'orders' AND indexdef ILIKE '%customer_id%') THEN 'PASS: index on "
    +:+ "perf.orders(customer_id) exists' ELSE 'FAIL: no index on perf.orders(customer_id)' "
    +:+ "END UNION ALL SELECT CASE WHEN EXISTS (SELECT 1 FROM perf.explain_query( 'SELECT "
    +:+ "count(*), sum(amount) FROM perf.orders WHERE customer_id = 4242') AS line WHERE "
    +:+ "line ILIKE '%index%scan%') THEN 'PASS: the planner now uses an index scan' ELSE "
    +:+ "'FAIL: the planner still seq-scans' END");
   ("assert_dba",
    "SELECT CASE WHEN NOT EXISTS (SELECT 1 FROM dba.health_signals WHERE resolved = "
    +:+ "false) THEN 'PASS: all signals resolved' ELSE 'FAIL: unresolved signals remain' END "
    +:+ "UNION ALL SELECT CASE WHEN (SELECT count(*) FROM dba.recommendations WHERE "
    +:+ "requires_human) >= 3 THEN 'PASS: tickets filed for the non-transaction-safe fixes' "
    +:+ "ELSE 'FAIL: expected at least 3 human tickets' END UNION ALL SELECT CASE WHEN "
    +:+ "EXISTS (SELECT 1 FROM pg_indexes WHERE schemaname = 'dba' AND tablename = "
    +:+ "'audit_log' AND indexdef ILIKE '%actor_id%') THEN 'PASS: dba.audit_log(actor_id) "
    +:+ "index auto-created' ELSE 'FAIL: dba.audit_log(actor_id) index missing' END");
   ("assert_etl",
    "SELECT CASE WHEN (SELECT count(*) FROM etl.raw_contacts) = (SELECT count(*) FROM "
    +:+ "etl.contacts) THEN 'PASS: every raw row has a clean row (' || (SELECT count(*) FROM "
    +:+ "etl.contacts)::text || ' of ' || (SELECT count(*) FROM etl.raw_contacts)::text || "
    +:+ "')' ELSE 'FAIL: ' || ((SELECT count(*) FROM etl.raw_contacts) - (SELECT count(*) "
    +:+ "FROM etl.contacts))::text || ' raw row(s) unprocessed' END");
   ("assert_triage",
    "SELECT CASE WHEN NOT EXISTS (SELECT 1 FROM support.tickets WHERE category IS NULL) "
    +:+ "THEN 'PASS: every ticket categorized' ELSE 'FAIL: ' || (SELECT count(*) FROM "
    +:+ "support.tickets WHERE category IS NULL)::text || ' ticket(s) still uncategorized' "
    +:+ "END");
   ("assert_bouncer",
    "SELECT CASE WHEN NOT EXISTS (SELECT 1 FROM demo.orders WHERE amount <= 0) THEN "
    +:+ "'PASS: no bad order committed' ELSE 'FAIL: a non-positive order got through the "
    +:+ "gate' END")].

Definition SAMPLES : list (string * string * string) :=
  [("reviews",
    "product_reviews_sample.csv",
    "Messy product reviews from three channels, with missing names and mixed sentiment. "
    +:+ "Good for a clean-and-classify app.");
   ("tickets",
    "support_tickets_sample.csv",
    "Ten support tickets in free text, one of them a production outage. Good for triage, "
    +:+ "routing, and priority.");
   ("expenses",
    "expenses_sample.csv",
    "Raw expense descriptions straight off a card feed. Good for categorising text no "
    +:+ "regex can categorise.")].

(** The entry of a key. *)
Definition assoc_str (k : string) (l : list (string * string)) : option string :=
  snd <$> List.find (fun kv => String.eqb kv.1 k) l.

(** *** What the pages start from *)

Definition truthy (raw : string) : bool :=
  is_in (to_ascii_lowercase (trim raw)) ["1"; "true"; "yes"; "on"].

Definition AGENTS_SQL : string :=
  "SELECT to_jsonb(a)::text FROM (SELECT name, system_prompt, executor_name, "
   +:+ "llm_profile_main, tools, max_iterations, timeout_ms, cost_cap_usd::float8, "
   +:+ "trace_level, model_tier, synapse.agent_llm_profile(name) AS resolved_profile FROM "
   +:+ "synapse.agents ORDER BY name) a".
Definition PROFILES_SQL : string :=
  "SELECT to_jsonb(p)::text FROM (SELECT name, provider, model, base_url, "
   +:+ "(api_key_secret IS NOT NULL) AS has_api_key FROM synapse.llm_profiles ORDER BY "
   +:+ "name) p".
Definition VERSION_SQL : string := "SELECT synapse.version()".

Definition is_system (a : json) : bool :=
  match json_get "name" a ≫= as_str with Some n => is_in n SYSTEM_AGENTS | None => false end.

Definition tag (a : json) : json :=
  match a with JObject _ => json_set "system" (JBool (is_system a)) a | _ => a end.

Definition tagged_system (a : json) : bool :=
  match json_get "system" a with Some (JBool true) => true | _ => false end.

Definition shown_agents (admin : bool) (agents : list json) : list json :=
  let tagged := map tag agents in
  if admin then tagged else List.filter (fun a => negb (tagged_system a)) tagged.

Definition user_schema (t : json) : bool :=
  match json_get "schema" t ≫= as_str with Some n => negb (is_in n SYSTEM_SCHEMAS) | None => true end.

Definition TREE_SQL : string :=
  "SELECT to_jsonb(x)::text FROM ( SELECT table_schema AS schema, array_agg(table_name "
   +:+ "ORDER BY table_name) AS tables FROM information_schema.tables WHERE table_schema "
   +:+ "NOT IN ('pg_catalog', 'information_schema') AND table_type IN ('BASE TABLE', "
   +:+ "'VIEW') GROUP BY table_schema ORDER BY table_schema) x".
Definition TABLES_SQL : string :=
  "SELECT to_jsonb(x)::text FROM (SELECT table_schema AS schema, table_name AS table "
   +:+ "FROM information_schema.tables WHERE table_schema NOT IN ('pg_catalog', "
   +:+ "'information_schema') AND table_type IN ('BASE TABLE', 'VIEW') ORDER BY "
   +:+ "table_schema, table_name) x".

Section api.
Context `{UnicodeTables, Printers, WireLib, TokioLib, McpLib}.
Context (st : HarnessState).

(** The texts of the included files, by name. *)
Context (included : string -> string).

Definition bootstrap (admin : bool) : prog (result json HarnessError) :=
  connected st (
  prog_try (jsonb_rows AGENTS_SQL []) (fun agents =>
  prog_try (jsonb_rows PROFILES_SQL []) (fun profiles =>
  prog_try (db (tk_query_one VERSION_SQL [])) (fun row =>
    version ← get d_text 0 row;
    mret (Ok (ok_json
      [("version", JString version); ("agents", JArray (shown_agents admin agents));
       ("profiles", JArray profiles);
       ("tools", JArray (map (fun t => json_object [("name", JString t.1);
                                                    ("description", JString t.2)]) BUILTIN_TOOLS));
       ("executors", JArray (map JString EXECUTORS));
       ("scenarios", JArray (map to_value SCENARIOS));
       ("default_llm", json_object [("base_url", JString (default_llm_base_url st));
                                    ("model", JString (default_llm_model st))])])))))).

(** *** The model endpoint *)

Record ProfileReq := mkProfileReq {
  pf_name : string; pf_base_url : string; pf_model : string; pf_api_key : string }.
Definition default_profile_name : string := "vllm-default".

Definition SECRET_SET_SQL : string := "SELECT synapse.secret_set($1, $2)".
Definition PROFILE_SET_SQL : string :=
  "SELECT synapse.llm_profile_set($1, 'openai', $2, $3, $4, '{}'::jsonb)".

(** A key that is not blank is stored under the profile's name first. *)
Definition store_key (name key : string) : prog (result (option string) HarnessError) :=
  if is_blank key then mret (Ok None)
  else
    let secret := name +:+ "_api_key" in
    prog_try (db (tk_execute SECRET_SET_SQL [DText secret; DText key])) (fun _ =>
      mret (Ok (Some secret))).

Definition profile_set (req : ProfileReq) : prog (result json HarnessError) :=
  if is_blank (pf_base_url req) || is_blank (pf_model req) then
    mret (bad_request "base_url and model are required")
  else
    connected st (
    prog_try (store_key (pf_name req) (pf_api_key req)) (fun secret =>
    prog_try (db (tk_execute PROFILE_SET_SQL
                    [DText (pf_name req); DText (pf_model req); DText (pf_base_url req);
                     opt_datum TText DText secret])) (fun _ =>
      mret (Ok (ok_json [("profile", JString (pf_name req))]))))).

(** A client that could not be built, or one that was. *)
Definition with_client {A} (p : prog (result A HarnessError)) : prog (result A HarnessError) :=
  match client_build_error with
  | Some e => mret (Err (HarnessError_Upstream e))
  | None => p
  end.

Definition http_get_json (url : string) (headers : gmap string string) : http_request :=
  mkHttpRequest "GET" url headers None.

Definition body_json (resp : http_response) : json :=
  match http_json resp with Ok v => v | Err _ => JNull end.

Definition model_ids (body : json) : list string :=
  match json_get "data" body ≫= as_array with
  | Some arr => omap (fun m => json_get "id" m ≫= as_str) arr
  | None => []
  end.

Definition profile_test (base_url api_key : string) : prog (result json HarnessError) :=
  with_client (
    let key := trim api_key in
    let headers := if is_empty key then ∅ else {["authorization" := "Bearer " +:+ key]} in
    r ← perform (EHttp (http_get_json (strip_trailing_slash base_url +:+ "/models") headers));
    mret (match r with
          | Err e => Err (HarnessError_Upstream e)
          | Ok resp =>
              Ok (json_object
                [("ok", JBool (is_success (http_status resp)));
                 ("status", json_u64 (http_status resp));
                 ("models", JArray (map JString (model_ids (body_json resp))))])
          end)).

(** *** The sidecar *)

Definition sidecar_base (base_url : string) : string :=
  let b := strip_trailing_slash (trim base_url) in
  if is_empty b then "http://sidecar:8088" else b.

Definition error_json (e : string) : json := json_object [("error", JString e)].

Definition json_reply (r : result http_response string) : json :=
  match r with Ok resp => body_json resp | Err e => error_json e end.

Definition sidecar_query (base q : string) : prog json :=
  r ← perform (EHttp (Client.post_json (base +:+ "/v1/tool_call")
        (json_object [("tool", JString "sql_query");
                      ("input", json_object [("query", JString q)])])));
  mret (json_reply r).

Definition health_json (r : result http_response string) : json :=
  match r with
  | Ok resp =>
      json_object [("ok", JBool (is_success (http_status resp)));
                   ("status", json_u64 (http_status resp)); ("body", body_json resp)]
  | Err e => json_object [("ok", JBool false); ("error", JString e)]
  end.

Definition IDENTITY_SQL : string :=
  "SELECT current_database() AS database, coalesce(host(inet_server_addr()), 'local "
   +:+ "socket') AS server_addr, inet_server_port() AS server_port, substring(version() "
   +:+ "from 'PostgreSQL [0-9.]+') AS version".
Definition DEFAULT_PROBE_SQL : string :=
  "SELECT table_name FROM information_schema.tables WHERE table_schema = 'synapse' "
   +:+ "ORDER BY table_name".

Definition sidecar_probe (base_url query : string) : prog (result json HarnessError) :=
  let base := sidecar_base base_url in
  with_client (
    h ← perform (EHttp (http_get_json (base +:+ "/v1/health") ∅));
    let health := health_json h in
    if negb (default false (json_get "ok" health ≫= as_bool)) then
      mret (Ok (json_object
        [("ok", JBool false); ("target", JString base); ("health", health);
         ("error", JString ("sidecar unreachable at " +:+ base))]))
    else
      v ← perform (EHttp (http_get_json (base +:+ "/v1/version") ∅));
      identity ← sidecar_query base IDENTITY_SQL;
      let q := if is_blank query then DEFAULT_PROBE_SQL else trim query in
      rows ← sidecar_query base q;
      mret (Ok (ok_json
        [("target", JString base); ("health", health); ("version", json_reply v);
         ("identity", identity); ("rows", rows); ("query", JString q)]))).

Definition sidecar_execute (base_url agent input : string) : prog (result json HarnessError) :=
  let base := sidecar_base base_url in
  with_client (
    r ← perform (EHttp (Client.post_json (base +:+ "/v1/execute")
          (json_object [("agent", JString agent); ("input", JString input)])));
    mret (Ok (match r with
              | Ok resp =>
                  json_object [("ok", JBool (is_success (http_status resp)));
                               ("status", json_u64 (http_status resp));
                               ("envelope", body_json resp)]
              | Err e => json_object [("ok", JBool false); ("error", JString e)]
              end))).

(** *** Agents *)

Record AgentReq := mkAgentReq {
  ag_name : string; ag_system_prompt : string; ag_executor : string; ag_llm_profile : string;
  ag_tools : list string; ag_max_iterations : Z; ag_timeout_ms : Z; ag_cost_cap_usd : option f64 }.
Definition default_executor : string := "conversation".
Definition default_max_iterations : Z := 10.
Definition default_timeout_ms : Z := 60000.

Definition AGENT_CREATE_SQL : string := "SELECT synapse.agent_create($1, $2, $3, $4, $5, $6, $7)".
Definition AGENT_CAP_SQL : string :=
  "UPDATE synapse.agents SET cost_cap_usd = ($2::float8)::numeric(12,6) WHERE name = $1".
Definition AGENT_TRACE_SQL : string := "SELECT synapse.agent_set_trace_level($1, 'debug')".
Definition AGENT_DROP_SQL : string := "SELECT synapse.agent_drop($1)".

Definition positive_cap (cap : option f64) : option f64 :=
  match cap with Some c => if f64_gtb c f64_zero then Some c else None | None => None end.

Definition agent_set (req : AgentReq) : prog (result json HarnessError) :=
  if is_blank (ag_name req) || is_blank (ag_system_prompt req) then
    mret (bad_request "name and system_prompt are required")
  else
    let name := DText (ag_name req) in
    connected st (
    prog_try (db (tk_execute AGENT_CREATE_SQL
      [name; DText (ag_system_prompt req); DText (ag_executor req); DText (ag_llm_profile req);
       DTextArray (ag_tools req); DInt4 (ag_max_iterations req); DInt8 (ag_timeout_ms req)])) (fun _ =>
    prog_try (db (tk_execute AGENT_CAP_SQL
      [name; opt_datum TFloat8 DFloat8 (positive_cap (ag_cost_cap_usd req))])) (fun _ =>
    prog_try (db (tk_execute AGENT_TRACE_SQL [name])) (fun _ =>
      mret (Ok (ok_json [("agent", JString (ag_name req))])))))).

Definition agent_drop (name : string) : prog (result json HarnessError) :=
  connected st (prog_try (db (tk_execute AGENT_DROP_SQL [DText name])) (fun _ =>
    mret (Ok (ok_json [])))).

(** *** Runs *)

Record ExecuteReq := mkExecuteReq { xq_agent : string; xq_input : string }.

Definition ENDPOINT_SQL : string :=
  "SELECT EXISTS (SELECT 1 FROM synapse.llm_profiles p WHERE p.name = "
   +:+ "a.llm_profile_main) FROM synapse.agents a WHERE a.name = $1".

Definition require_agent_endpoint (agent : string) : prog (result unit HarnessError) :=
  prog_try (db (tk_query_opt ENDPOINT_SQL [DText agent])) (fun row =>
    match row with
    | None => mret (Ok tt)
    | Some row =>
        has_profile ← get d_bool 0 row;
        mret (if has_profile : bool then Ok tt else bad_request NO_ENDPOINT_MSG)
    end).

Definition NO_TASK : string :=
  "This agent needs a task to run. Load a Demo to prefill a suggested run, or type "
   +:+ "what you want it to do.".

Definition check_execute (req : ExecuteReq) : result unit HarnessError :=
  if is_blank (xq_agent req) then bad_request "agent is required"
  else if is_blank (xq_input req) then bad_request NO_TASK
  else Ok tt.

(** The reply, and what happens to the pool of runs. *)
Definition execute (req : ExecuteReq) : prog (result (json * (Runs.pool -> Runs.pool)) HarnessError) :=
  match check_execute req with
  | Err e => mret (Err e)
  | Ok _ =>
      connected st (
      prog_try (require_agent_endpoint (xq_agent req)) (fun _ =>
        id ← perform EUuid;
        now ← Runs.now_ms;
        mret (Ok (ok_json [("run_id", JString (fmt_uuid id))],
                  Runs.start_run (db_url st) id (xq_agent req) (xq_input req) now))))
  end.

(** *** Triggers and the tables of the demo *)

Definition default_trigger_mode : string := "queue".

Definition check_demo_table (table : string) : result unit HarnessError :=
  if String.eqb table "demo.tickets" || String.eqb table "demo.orders" then Ok tt
  else bad_request ("table '" +:+ table
                      +:+ "' is not one of the demo tables (demo.tickets, demo.orders)").

Definition ATTACH_SQL : string :=
  "SELECT synapse.attach_agent_trigger($1, $2, $3, 'INSERT', NULL, 'NEW::text')".
Definition DETACH_SQL : string := "SELECT synapse.detach_agent_trigger($1)".

Definition trigger_attach (table agent mode : string) : prog (result json HarnessError) :=
  match check_demo_table table with
  | Err e => mret (Err e)
  | Ok _ =>
      if negb (String.eqb mode "queue") && negb (String.eqb mode "inline") then
        mret (bad_request "mode must be 'queue' or 'inline'")
      else
        connected st (prog_try (db (tk_execute ATTACH_SQL [DText table; DText agent; DText mode]))
          (fun _ => mret (Ok (ok_json []))))
  end.

Definition trigger_detach (table : string) : prog (result json HarnessError) :=
  match check_demo_table table with
  | Err e => mret (Err e)
  | Ok _ =>
      connected st (prog_try (db (tk_execute DETACH_SQL [DText table])) (fun _ =>
        mret (Ok (ok_json []))))
  end.

Definition TICKET_SQL : string :=
  "INSERT INTO demo.tickets (subject, body) VALUES ($1, $2) RETURNING id".
Definition ORDER_SQL : string :=
  "INSERT INTO demo.orders (customer, amount) VALUES ($1, ($2::float8)::numeric(12,2)) "
   +:+ "RETURNING id".

Definition insert_ticket (subject body : string) : prog (result json HarnessError) :=
  connected st (prog_try (db (tk_query_one TICKET_SQL [DText subject; DText body])) (fun row =>
    id ← get d_i32 0 row; mret (Ok (ok_json [("id", json_i64 id)])))).

Definition order_reply (r : result Z HarnessError) : json :=
  match r with
  | Ok id => ok_json [("committed", JBool true); ("id", json_i64 id)]
  | Err (HarnessError_Db e) =>
      ok_json [("committed", JBool false); ("rolled_back", JBool true);
               ("reason", JString (Runs.friendly_agent_error (db_message e)))]
  | Err e => json_object [("ok", JBool false); ("error", JString (HarnessError_to_string e))]
  end.

Definition insert_order (customer : string) (amount : f64) : prog json :=
  r ← connected st (prog_try (db (tk_query_one ORDER_SQL [DText customer; DFloat8 amount]))
        (fun row => id ← get d_i32 0 row; mret (Ok id)));
  mret (order_reply r).

Definition DRAIN_TEN_SQL : string := "SELECT synapse.drain_queue(10)".
Definition drain_queue : prog (result json HarnessError) :=
  connected st (prog_try (db (tk_query_one DRAIN_TEN_SQL [])) (fun row =>
    processed ← get d_i32 0 row; mret (Ok (ok_json [("processed", json_i64 processed)])))).

(** *** Views and probes: only the statements of the lists *)

Definition rows_or_reason (r : result (list json) HarnessError) : result json HarnessError :=
  match r with
  | Ok rows => Ok (ok_json [("rows", JArray rows)])
  | Err (HarnessError_Db e) =>
      Ok (json_object [("ok", JBool false); ("rows", JArray []);
                       ("error", JString (db_message e))])
  | Err e => Err e
  end.

Definition table_view (name : string) : prog (result json HarnessError) :=
  match assoc_str name TABLE_QUERIES with
  | None => mret (Err (HarnessError_NotFound ("table view '" +:+ name +:+ "'")))
  | Some sql => connected st (r ← jsonb_rows sql []; mret (rows_or_reason r))
  end.

(** The first cells, as text. *)
Definition probe_lines (msgs : list SimpleQueryMessage) : list string :=
  omap (fun m => match m with
                 | SimpleRow _ cells => Some (default "" (default None (head cells)))
                 | _ => None
                 end) msgs.

Definition probe_reply (r : result (list SimpleQueryMessage) TokioError) : json :=
  match r with
  | Ok msgs => ok_json [("lines", JArray (map JString (probe_lines msgs)))]
  | Err e =>
      json_object [("ok", JBool false); ("lines", JArray []);
                   ("error", JString (db_message e +:+ " (is the scenario loaded?)"))]
  end.

Definition probe (key : string) : prog (result json HarnessError) :=
  match assoc_str key PROBE_QUERIES with
  | None => mret (Err (HarnessError_NotFound ("probe '" +:+ key +:+ "'")))
  | Some sql => connected st (r ← perform (ESimple sql); mret (Ok (probe_reply r)))
  end.

(** *** The schema browser *)

Definition quote_ident (s : string) : string := dq +:+ double dquote s +:+ dq.

Definition is_safe_identifier (s : string) : bool :=
  match chars s with c :: rest => Questions.is_lower c && forallb Questions.ident_char rest | [] => false end
    && (str_len s <=? 30).

Definition as_sql_text (v : json) : option string :=
  match v with
  | JNull => None
  | JString s => Some s
  | other => Some (json_to_string other)
  end.

Definition IN_CATALOG_SQL : string :=
  "SELECT EXISTS (SELECT 1 FROM information_schema.tables WHERE table_schema = $1 AND "
   +:+ "table_name = $2 AND table_schema NOT IN ('pg_catalog', 'information_schema'))".
Definition COLUMN_TYPE_SQL : string :=
  "SELECT format_type(a.atttypid, a.atttypmod) FROM pg_attribute a JOIN pg_class c ON "
   +:+ "c.oid = a.attrelid JOIN pg_namespace n ON n.oid = c.relnamespace WHERE n.nspname = "
   +:+ "$1 AND c.relname = $2 AND a.attname = $3 AND a.attnum > 0 AND NOT a.attisdropped".
Definition COLUMNS_SQL : string :=
  "SELECT to_jsonb(x)::text FROM ( SELECT c.column_name AS column, c.data_type AS "
   +:+ "type, (c.is_nullable = 'YES') AS nullable, c.column_default AS default, "
   +:+ "COALESCE(pk.is_pk, false) AS pk FROM information_schema.columns c LEFT JOIN ( "
   +:+ "SELECT kcu.column_name, true AS is_pk FROM information_schema.table_constraints tc "
   +:+ "JOIN information_schema.key_column_usage kcu ON tc.constraint_name = "
   +:+ "kcu.constraint_name AND tc.table_schema = kcu.table_schema WHERE tc.constraint_type "
   +:+ "= 'PRIMARY KEY' AND tc.table_schema = $1 AND tc.table_name = $2 ) pk ON "
   +:+ "pk.column_name = c.column_name WHERE c.table_schema = $1 AND c.table_name = $2 "
   +:+ "ORDER BY c.ordinal_position) x".

Definition table_in_catalog (schema table : string) : prog (result bool HarnessError) :=
  prog_try (db (tk_query_one IN_CATALOG_SQL [DText schema; DText table])) (fun row =>
    b ← get d_bool 0 row; mret (Ok b)).

Definition column_type (schema table col : string) : prog (result (option string) HarnessError) :=
  prog_try (db (tk_query_opt COLUMN_TYPE_SQL [DText schema; DText table; DText col])) (fun row =>
    match row with
    | Some r => ty ← get d_text 0 r; mret (Ok (Some ty))
    | None => mret (Ok None)
    end).

Definition require_table (schema table : string) : prog (result unit HarnessError) :=
  prog_try (table_in_catalog schema table) (fun found =>
    mret (if found : bool then Ok tt
          else bad_request ("table " +:+ quoted (schema +:+ "." +:+ table)
                              +:+ " is not a browsable table in this database"))).

(** The type of a column that is there. *)
Definition require_column (schema table col what : string) : prog (result string HarnessError) :=
  prog_try (column_type schema table col) (fun ty =>
    mret (ok_or ty (HarnessError_BadRequest ("unknown " +:+ what +:+ " '" +:+ col +:+ "'")))).

Definition schema_tree (admin : bool) : prog (result json HarnessError) :=
  connected st (prog_try (jsonb_rows TREE_SQL []) (fun tree =>
    mret (Ok (ok_json
      [("tree", JArray (if admin then tree else List.filter user_schema tree))])))).

Definition schema_tables : prog (result json HarnessError) :=
  connected st (prog_try (jsonb_rows TABLES_SQL []) (fun rows =>
    mret (Ok (ok_json [("tables", JArray rows)])))).

Definition schema_columns (schema table : string) : prog (result json HarnessError) :=
  connected st (
  prog_try (require_table schema table) (fun _ =>
  prog_try (jsonb_rows COLUMNS_SQL [DText schema; DText table]) (fun rows =>
    mret (Ok (ok_json [("columns", JArray rows)]))))).

Definition qualified (schema table : string) : string :=
  quote_ident schema +:+ "." +:+ quote_ident table.

Definition rows_sql (schema table : string) : string :=
  "SELECT to_jsonb(x)::text FROM (SELECT * FROM " +:+ qualified schema table +:+ " LIMIT $1) x".

Definition schema_rows (schema table : string) (limit : option Z) : prog (result json HarnessError) :=
  connected st (
  prog_try (require_table schema table) (fun _ =>
    let limit := clamp 1 200 (default 100 limit) in
    prog_try (jsonb_rows (rows_sql schema table) [DInt8 limit]) (fun rows =>
      mret (Ok (ok_json [("rows", JArray rows); ("limit", json_i64 limit)]))))).

Record SchemaUpdateReq := mkSchemaUpdateReq {
  su_schema : string; su_table : string; su_pk_col : string; su_pk_val : json;
  su_col : string; su_val : json }.

Definition update_sql (req : SchemaUpdateReq) (col_type pk_type : string) : string :=
  "UPDATE " +:+ qualified (su_schema req) (su_table req) +:+ " SET " +:+ quote_ident (su_col req)
    +:+ " = $1::text::" +:+ col_type +:+ " WHERE " +:+ quote_ident (su_pk_col req)
    +:+ " = $2::text::" +:+ pk_type.

Definition sql_param (v : json) : datum := opt_datum TText DText (as_sql_text v).

Definition schema_update (req : SchemaUpdateReq) : prog (result json HarnessError) :=
  connected st (
  prog_try (require_table (su_schema req) (su_table req)) (fun _ =>
  prog_try (require_column (su_schema req) (su_table req) (su_col req) "column") (fun col_type =>
  prog_try (require_column (su_schema req) (su_table req) (su_pk_col req) "pk column") (fun pk_type =>
  prog_try (db (tk_execute (update_sql req col_type pk_type)
                  [sql_param (su_val req); sql_param (su_pk_val req)])) (fun n =>
    mret (Ok (ok_json [("updated", json_u64 n)]))))))).

(** The columns with their types, each looked up before the next. *)
Fixpoint column_types (schema table : string) (values : list (string * json))
  : prog (result (list string) HarnessError) :=
  match values with
  | [] => mret (Ok [])
  | (col, _) :: rest =>
      prog_try (require_column schema table col "column") (fun ty =>
      prog_try (column_types schema table rest) (fun tys => mret (Ok (ty :: tys))))
  end.

Definition insert_sql (schema table : string) (cols types : list string) : string :=
  "INSERT INTO " +:+ qualified schema table +:+ " (" +:+ join ", " (map quote_ident cols)
    +:+ ") VALUES ("
    +:+ join ", " (imap (fun i ty => "$" +:+ show (Z.of_nat (S i)) +:+ "::text::" +:+ ty) types)
    +:+ ")".

Definition schema_insert (schema table : string) (values : list (string * json))
  : prog (result json HarnessError) :=
  connected st (
  prog_try (require_table schema table) (fun _ =>
    match values with
    | [] => mret (bad_request "insert needs at least one column value")
    | _ =>
        prog_try (column_types schema table values) (fun types =>
        prog_try (db (tk_execute (insert_sql schema table (map fst values) types)
                        (map (fun cv => sql_param cv.2) values))) (fun n =>
          mret (Ok (ok_json [("inserted", json_u64 n)]))))
    end)).

(** *** The SQL console *)

Definition SQL_TIMEOUT_SECS : Z := 180.
Definition SQL_ROW_CAP : nat := 1000.

Record console := mkConsole {
  co_columns : list string; co_rows : list (list (option string)); co_affected : Z;
  co_truncated : bool }.

Definition take_message (c : console) (m : SimpleQueryMessage) : console :=
  match m with
  | SimpleRow columns cells =>
      let cols := match co_columns c with [] => columns | cs => cs end in
      if (length (co_rows c) <? SQL_ROW_CAP)%nat
      then mkConsole cols (co_rows c ++ [cells]) (co_affected c) (co_truncated c)
      else mkConsole cols (co_rows c) (co_affected c) true
  | CommandComplete n => mkConsole (co_columns c) (co_rows c) n (co_truncated c)
  | OtherMessage => c
  end.

Definition take_messages (msgs : list SimpleQueryMessage) : console :=
  fold_left take_message msgs (mkConsole [] [] 0 false).

Definition cell_json (c : option string) : json := json_option JString c.

Definition console_json (c : console) : json :=
  match co_columns c with
  | [] =>
      ok_json [("command", JString "statement executed"); ("rows_affected", json_u64 (co_affected c));
               ("notices", JArray [])]
  | cols =>
      ok_json [("columns", JArray (map JString cols));
               ("rows", JArray (map (fun r => JArray (map cell_json r)) (co_rows c)));
               ("truncated", JBool (co_truncated c))]
  end.

Definition refused_json (msg : string) : json :=
  json_object [("ok", JBool false); ("error", JString msg)].

Definition run_sql (sql : string) : prog json :=
  if is_blank sql then mret (refused_json "empty statement")
  else
    outcome ← with_timeout (from_millis (SQL_TIMEOUT_SECS * 1000))
                (connected st (db (perform (ESimple sql))));
    mret (match outcome with
          | None => refused_json ("statement timed out after " +:+ show SQL_TIMEOUT_SECS +:+ "s")
          | Some (Err (HarnessError_Db e)) => refused_json (db_message e)
          | Some (Err e) => refused_json (HarnessError_to_string e)
          | Some (Ok msgs) => console_json (take_messages msgs)
          end).

(** *** History and scenarios *)

Definition EXECUTION_SQL : string :=
  "SELECT COALESCE((SELECT to_jsonb(e) FROM (SELECT execution_id, agent_name, input, "
   +:+ "output, status, tokens_in, tokens_out, cost_usd, duration_ms, started_at, "
   +:+ "finished_at FROM synapse.executions WHERE execution_id = ($1::text)::uuid) e), "
   +:+ "'null'::jsonb)::text".

Definition execution_detail (id : Uuid) : prog (result json HarnessError) :=
  let args := [DText (fmt_uuid id)] in
  connected st (
  prog_try (jsonb_one EXECUTION_SQL args) (fun execution =>
  prog_try (jsonb_rows Runs.MESSAGES_SQL args) (fun messages =>
  prog_try (jsonb_rows Runs.TRACES_SQL args) (fun traces =>
    mret (Ok (ok_json [("execution", execution); ("messages", JArray messages);
                       ("traces", JArray traces)])))))).

Definition tk_batch (sql : string) : prog (result unit TokioError) :=
  prog_try (tk_call (TkBatch sql)) (fun _ => mret (Ok tt)).

Definition scenario_load (id : string) : prog (result json HarnessError) :=
  match find id with
  | None => mret (Err (HarnessError_NotFound ("scenario '" +:+ id +:+ "'")))
  | Some s =>
      connected st (prog_try (db (tk_batch (included (sn_id s)))) (fun _ =>
        mret (Ok (ok_json [("scenario", to_value s)]))))
  end.

(** *** Uploads *)

Definition file_name (name : string) : option string :=
  match last (components (segments name)) with
  | Some c => if is_parent_dir c then None else Some c
  | None => None
  end.

Definition upload_char (c : string) : string :=
  if Questions.is_digit c || Questions.is_lower c || Questions.is_lower (to_ascii_lowercase c)
     || is_in c ["."; "-"; "_"]
  then c else "_".

(** The first eight hexadecimal digits of a fresh id, then the cleaned name. *)
Definition sanitize_upload_filename (id : Uuid) (name : string) : string :=
  let base := default "upload" (file_name name) in
  fmt_hex 8 8 (Z.shiftr id 96) +:+ "-" +:+ of_chars (map upload_char (chars base)).

Definition join_path (dir name : string) : Fs.path := segments dir ++ [name].

(** A part of a form: its file name, if it is a file, and its bytes. *)
Definition part : Type := option string * result string string.

Definition uploaded_json (name : string) (len : Z) : json :=
  ok_json [("filename", JString name); ("path", JString ("uploads/" +:+ name));
           ("bytes", json_u64 len)].

(** The first part that is a file is stored. *)
Fixpoint upload_file `{FsLib} (s : file_system) (parts : list (result part string))
  : prog (result json HarnessError * file_system) :=
  match parts with
  | [] => mret (bad_request "no file in the upload", s)
  | Err e :: _ => mret (bad_request ("bad upload: " +:+ e), s)
  | Ok (None, _) :: rest => upload_file s rest
  | Ok (Some filename, content) :: _ =>
      id ← perform EUuid;
      let name := sanitize_upload_filename id filename in
      mret (match content with
            | Err e => (bad_request ("could not read upload: " +:+ e), s)
            | Ok bytes =>
                match write s (join_path (upload_dir st) name) bytes with
                | (Ok _, s') => (Ok (uploaded_json name (str_len bytes)), s')
                | (Err e, s') => (bad_request ("could not save upload: " +:+ io_text e), s')
                end
            end)
  end.

Definition REVIEWS : string := "product_reviews_sample.csv".

Definition upload_sample `{FsLib} (s : file_system) : result json HarnessError * file_system :=
  let text := included REVIEWS in
  match write s (join_path (upload_dir st) REVIEWS) text with
  | (Ok _, s') => (Ok (uploaded_json REVIEWS (str_len text)), s')
  | (Err e, s') => (bad_request ("could not write sample data: " +:+ io_text e), s')
  end.

(** *** Samples *)

Definition sample_body (name : string) : option (string * string) :=
  if String.eqb name "reviews" then Some (REVIEWS, included REVIEWS)
  else if String.eqb name "tickets" then
    Some ("support_tickets_sample.csv", included "support_tickets_sample.csv")
  else if String.eqb name "expenses" then
    Some ("expenses_sample.csv", included "expenses_sample.csv")
  else None.

Definition sample_list : json :=
  ok_json
    [("samples", JArray (map (fun s =>
        json_object
          [("name", JString s.1.1); ("filename", JString s.1.2); ("description", JString s.2);
           ("bytes", json_u64 (match sample_body s.1.1 with Some b => str_len b.2 | None => 0 end))])
        SAMPLES))].

Definition sample_download (name : string) : result (list (string * string) * string) HarnessError :=
  match sample_body name with
  | None => Err (HarnessError_NotFound ("no sample named " +:+ quoted name))
  | Some (filename, body) =>
      Ok ([("content-type", "text/csv; charset=utf-8");
           ("content-disposition", "attachment; filename=" +:+ quoted filename)], body)
  end.

(** *** Connections *)

Record ConnectionReq := mkConnectionReq {
  cn_name : string; cn_host : string; cn_port : Z; cn_dbname : string; cn_user : string;
  cn_password : string }.
Definition default_pg_port : Z := 5432.

Definition BAD_CONNECTION_NAME : string :=
  "connection name must be lowercase letters, digits, and underscores, starting with a "
   +:+ "letter, 30 characters or fewer".
Definition CONNECTION_SECRET_SQL : string :=
  "INSERT INTO synapse.secrets (name, value) VALUES ($1, $2) ON CONFLICT (name) DO "
   +:+ "UPDATE SET value = EXCLUDED.value, updated_at = now()".
Definition CONNECTION_ADD_SQL : string :=
  "INSERT INTO synapse.connections (name, host, port, dbname, " +:+ dq +:+ "user" +:+ dq
   +:+ ", password_secret) VALUES ($1, $2, $3, $4, $5, $6) ON CONFLICT (name) DO UPDATE SET "
   +:+ "host = EXCLUDED.host, port = EXCLUDED.port, dbname = EXCLUDED.dbname, " +:+ dq
   +:+ "user" +:+ dq
   +:+ " = EXCLUDED.user, password_secret = EXCLUDED.password_secret, updated_at = now()".
Definition CONNECTION_LIST_SQL : string :=
  "SELECT to_jsonb(c)::text FROM ( SELECT name, host, port, dbname, " +:+ dq +:+ "user" +:+ dq
   +:+ ", (password_secret IS NOT NULL) AS has_password FROM synapse.connections ORDER BY "
   +:+ "name) c".

Definition check_connection (name : string) (req : ConnectionReq) : result unit HarnessError :=
  if negb (is_safe_identifier name) then bad_request BAD_CONNECTION_NAME
  else if is_blank (cn_host req) || is_blank (cn_dbname req) || is_blank (cn_user req) then
    bad_request "host, dbname, and user are required"
  else Ok tt.

Definition store_password (name password : string) : prog (result (option string) HarnessError) :=
  if is_empty password then mret (Ok None)
  else
    let secret := name +:+ "_db_password" in
    prog_try (db (tk_execute CONNECTION_SECRET_SQL [DText secret; DText password])) (fun _ =>
      mret (Ok (Some secret))).

Definition connection_add (req : ConnectionReq) : prog (result json HarnessError) :=
  let name := to_lowercase (trim (cn_name req)) in
  match check_connection name req with
  | Err e => mret (Err e)
  | Ok _ =>
      connected st (
      prog_try (store_password name (cn_password req)) (fun secret =>
      prog_try (db (tk_execute CONNECTION_ADD_SQL
        [DText name; DText (trim (cn_host req)); DInt4 (cn_port req); DText (trim (cn_dbname req));
         DText (trim (cn_user req)); opt_datum TText DText secret])) (fun _ =>
        mret (Ok (ok_json [("name", JString name)])))))
  end.

Definition connection_list : prog (result json HarnessError) :=
  connected st (prog_try (jsonb_rows CONNECTION_LIST_SQL []) (fun connections =>
    mret (Ok (ok_json [("connections", JArray connections)])))).
End api.
End Api.

(** ** Files ([files.rs]) *)

Module Files.

Definition safe_name (name : string) : result unit HarnessError :=
  if is_empty name || (200 <? str_len name) || contains name "/" || contains name "\"
     || contains name ".." || starts_with name "."
  then bad_request ("file name must be a plain name, with no path separators or dot segments")
  else Ok tt.

(** An entry of the directory: its name, and whether it is a file, its size
    and its age in seconds since the epoch, if they can be read. *)
Definition entry : Type := string * option (bool * Z * option Z).

Definition file_json (name : string) (len modified : Z) : json :=
  json_object
    [("filename", JString name); ("path", JString ("uploads/" +:+ name));
     ("bytes", json_u64 len); ("modified_epoch", json_u64 modified)].

Definition listed (e : entry) : option (Z * json) :=
  match e with
  | (name, Some (true, len, modified)) =>
      let m := default 0 modified in Some (m, file_json name len m)
  | _ => None
  end.

(** Newest first; the order of the directory among files of one second. *)
Definition newer (a b : nat * (Z * json)) : Prop :=
  b.2.1 < a.2.1 \/ (a.2.1 = b.2.1 /\ (a.1 <= b.1)%nat).
#[export] Instance newer_dec : RelDecision newer.
Proof. intros a b. unfold newer. apply _. Defined.

Definition list (entries : option (Datatypes.list entry)) : json :=
  let files := omap listed (default [] entries) in
  ok_json [("files", JArray (map (fun f => f.2.2) (merge_sort newer (imap pair files))))].

Record ProcessReq := mkProcessReq {
  ps_agent : option string; ps_app : option string; ps_instruction : option string }.

Definition PROCESS_HEAD : string :=
  "Process the uploaded file at path " +:+ dq +:+ "uploads/".
Definition PROCESS_TAIL : string :=
  dq
   +:+ ". Read it with read_file, then insert its rows into your own schema's tables, using "
   +:+ "as few sql_exec calls as you can: one multi-row INSERT beats one call per row. "
   +:+ "Finish with one line saying how many rows you added.".

Section files.
Context `{UnicodeTables, Printers, WireLib, TokioLib, McpLib, FsLib}.
Context (st : HarnessState).

Definition upload_path (filename : string) : Fs.path := Api.join_path (upload_dir st) filename.

Definition require_file (s : file_system) (filename : string) : result unit HarnessError :=
  match safe_name filename with
  | Err e => Err e
  | Ok _ =>
      if is_file s (upload_path filename) then Ok tt
      else Err (HarnessError_NotFound ("no uploaded file " +:+ filename))
  end.

Definition process_input (filename : string) (instruction : option string) : string :=
  PROCESS_HEAD +:+ filename +:+ PROCESS_TAIL
    +:+ match trim <$> instruction with
        | Some extra => if is_empty extra then "" else newline +:+ newline +:+ "Also: " +:+ extra
        | None => ""
        end.

Definition process (s : file_system) (filename : string) (req : ProcessReq)
  : prog (result (json * (Runs.pool -> Runs.pool)) HarnessError) :=
  match require_file s filename with
  | Err e => mret (Err e)
  | Ok _ =>
      match (match ps_agent req with Some a => Some a | None => ps_app req end) with
      | None => mret (bad_request "name an agent or an app to process it")
      | Some agent =>
          Api.execute st (Api.mkExecuteReq agent (process_input filename (ps_instruction req)))
      end
  end.

(** [fs::remove_file] removes a file or a link, not what it points to. *)
Definition remove_file (s : file_system) (p : Fs.path) : result unit io_error * file_system :=
  match walk s false max_links [] p with
  | Found q _ =>
      match node_at s q with
      | Some Dir => (Err IsADirectory, s)
      | _ => (Ok tt, base.delete q s)
      end
  | Missing _ => (Err NotFound, s)
  | Fails e => (Err e, s)
  end.

Definition delete (s : file_system) (filename : string) : result json HarnessError * file_system :=
  match require_file s filename with
  | Err e => (Err e, s)
  | Ok _ =>
      match remove_file s (upload_path filename) with
      | (Ok _, s') => (Ok (ok_json [("deleted", JString filename)]), s')
      | (Err e, s') => (bad_request ("could not delete: " +:+ io_text e), s')
      end
  end.
End files.
End Files.

(** ** Configuration and routes ([main.rs]) *)

Module Main.

(** The variables of the environment, [None] where one is not set or is not
    Unicode. *)
Section config.
Context (var : string -> option string).

Definition DEFAULT_DATABASE_URL : string :=
  "host=localhost port=5432 user=postgres password=postgres dbname=synapse_demo".
Definition addr : string := default "0.0.0.0:8080" (var "HARNESS_ADDR").

Definition state : HarnessState :=
  mkHarnessState (default DEFAULT_DATABASE_URL (var "DATABASE_URL"))
    (default "http://localhost:8000/v1" (var "DEFAULT_LLM_BASE_URL"))
    (default "local-model" (var "DEFAULT_LLM_MODEL"))
    (default "/tmp/pg_synapse_fs/uploads" (var "UPLOAD_DIR")).

Definition scheduler_secs : Z :=
  default 60 (var "SCHEDULER_INTERVAL_SECS" ≫= parse_unsigned 10 (2 ^ 64 - 1)).
End config.

(** Method, pattern and handler of each route, in order. *)
Definition ROUTES : Datatypes.list (string * string * string) :=
  [("GET", "/", "index");
   ("GET", "/sidecar", "sidecar_page");
   ("GET", "/pgone", "pgone_page");
   ("GET", "/slides", "slides_page");
   ("POST", "/api/sidecar/probe", "api::sidecar_probe");
   ("POST", "/api/sidecar/execute", "api::sidecar_execute");
   ("POST", "/api/workload/seed", "api::workload_seed");
   ("POST", "/api/workload/reset", "api::workload_reset");
   ("POST", "/api/workload/start", "api::workload_start");
   ("POST", "/api/workload/stop", "api::workload_stop");
   ("GET", "/api/workload/status", "api::workload_status");
   ("GET", "/api/bootstrap", "api::bootstrap");
   ("POST", "/api/profile", "api::profile_set");
   ("POST", "/api/profile/test", "api::profile_test");
   ("POST", "/api/agent", "api::agent_set");
   ("POST", "/api/agent/drop", "api::agent_drop");
   ("POST", "/api/execute", "api::execute");
   ("GET", "/api/run/{run_id}", "api::run_status");
   ("POST", "/api/run/{run_id}/cancel", "api::run_cancel");
   ("POST", "/api/trigger/attach", "api::trigger_attach");
   ("POST", "/api/trigger/detach", "api::trigger_detach");
   ("POST", "/api/demo/ticket", "api::insert_ticket");
   ("POST", "/api/demo/order", "api::insert_order");
   ("POST", "/api/drain", "api::drain_queue");
   ("GET", "/api/table/{name}", "api::table_view");
   ("GET", "/api/schema/tree", "api::schema_tree");
   ("GET", "/api/schema/tables", "api::schema_tables");
   ("GET", "/api/schema/columns", "api::schema_columns");
   ("GET", "/api/schema/rows", "api::schema_rows");
   ("POST", "/api/schema/update", "api::schema_update");
   ("POST", "/api/schema/insert", "api::schema_insert");
   ("POST", "/api/sql", "api::run_sql");
   ("GET", "/api/probe/{key}", "api::probe");
   ("GET", "/api/execution/{execution_id}", "api::execution_detail");
   ("POST", "/api/scenario/{id}", "api::scenario_load");
   ("POST", "/api/upload", "api::upload_file");
   ("GET", "/api/files", "files::list");
   ("POST", "/api/file/{filename}/process", "files::process");
   ("POST", "/api/file/{filename}/delete", "files::delete");
   ("POST", "/api/upload/sample", "api::upload_sample");
   ("GET", "/api/connection", "api::connection_list");
   ("POST", "/api/connection", "api::connection_add");
   ("POST", "/api/connection/{name}/scan", "scan::scan");
   ("POST", "/api/connection/{name}/review", "scan::review");
   ("GET", "/api/connection/{name}/gate", "scan::gate");
   ("POST", "/mcp", "mcp::rpc");
   ("GET", "/api/apps", "schedules::app_list");
   ("POST", "/api/app/{app}/drop", "schedules::app_drop");
   ("POST", "/api/agent/{agent}/limits", "schedules::agent_limits");
   ("GET", "/api/runs", "schedules::all_runs");
   ("GET", "/api/build-metrics", "schedules::build_metrics");
   ("GET", "/api/app/{app}/schedules", "schedules::schedule_list");
   ("GET", "/api/app/{app}/runs", "schedules::app_runs");
   ("POST", "/api/schedule", "schedules::schedule_add");
   ("POST", "/api/schedule/{id}/drop", "schedules::schedule_drop");
   ("POST", "/api/tick", "schedules::tick");
   ("GET", "/api/samples", "api::sample_list");
   ("GET", "/api/sample/{name}", "api::sample_download");
   ("POST", "/api/question", "questions::save");
   ("GET", "/api/app/{app}/questions", "questions::list");
   ("GET", "/api/app/{app}/q/{name}", "questions::run")].
End Main.
