(* ===== verification/DemoProps.v ===== *)
(** * Properties of the demo server

    The MCP client against the MCP server, the registry of runs, the generators
    and the flags that stop them, the schema browser and the files. *)

From S2P Require Import Prelude.
From S2P Require Import RustStr.
From S2P Require Import Json.
From S2P Require Import Errors.
From S2P Require Import Types.
From S2P Require Import Effects.
From S2P Require Import HarnessText.
From S2P Require Import Traits.
From S2P Require Import LoopHarness.
From S2P Require Import Registry.
From S2P Require Import Wire.
From S2P Require Import StrSlice.
From S2P Require Import Fs.
From S2P Require Import ToolInput.
From S2P Require Import Mcp.
From S2P Require Import McpProps.
From S2P Require Import ToolsLoad.
From S2P Require Import ToolsLoadSpec.
From S2P Require Import DemoApps.
From S2P Require Import ReviewProps.
From S2P Require Import DemoRuns.
From S2P Require Import DemoApi.
#[local] Open Scope Z_scope.

(** ** The client against the server

    [served url srv p] runs [p] with [srv] behind [url]: what [p] posts there
    is answered by a run of the server. *)

Definition posted (url : string) (req : http_request) : bool :=
  String.eqb (http_url req) url && String.eqb (http_method req) "POST".

Definition answered (v : json) : result http_response string := Ok (mkHttpResponse 200 ∅ "" (Ok v)).

(** The answer of the server to what is asked of it. *)
Definition answering {X} (url : string) (srv : json -> prog json) (e : eff X) : option (prog X) :=
  match e in eff X return option (prog X) with
  | EHttp req =>
      if posted url req then Some (v ← srv (default JNull (http_body req)); mret (answered v))
      else None
  | _ => None
  end.

Fixpoint served {A} (url : string) (srv : json -> prog json) (p : prog A) : prog A :=
  match p with
  | Ret a => Ret a
  | Vis e k =>
      match answering url srv e with
      | Some answer => x ← answer; served url srv (k x)
      | None => Vis e (fun x => served url srv (k x))
      end
  end.

Lemma steps_served_vis {A X} url srv (e : eff X) (k : X -> prog A) tr a :
  steps (served url srv (Vis e k)) tr a <->
  exists tr1 tr2 x, tr = tr1 ++ tr2 /\
    steps (default (perform e) (answering url srv e)) tr1 x /\
    steps (served url srv (k x)) tr2 a.
Proof.
  simpl. destruct (answering url srv e) as [q|]; simpl; [apply steps_bind|]. split.
  - intros (x & tr' & -> & Hk). exists [Call e x], tr', x. split; [done|]. split; [by exists x, []|done].
  - intros (tr1 & tr2 & x & -> & (y & tr' & -> & -> & ->) & Hk). by exists y, tr2.
Qed.

Lemma served_bind {A B} url srv (p : prog A) (k : A -> prog B) tr b :
  steps (served url srv (p ≫= k)) tr b <->
  exists tr1 tr2 a, tr = tr1 ++ tr2 /\ steps (served url srv p) tr1 a /\
    steps (served url srv (k a)) tr2 b.
Proof.
  revert tr. induction p as [a|X e q IH]; intros tr.
  { simpl. split; [by exists [], tr, a|]. by intros (? & ? & ? & -> & [-> ->] & Hk). }
  change (Vis e q ≫= k) with (Vis e (fun x => q x ≫= k)). rewrite steps_served_vis. split.
  - intros (tr1 & tr2 & x & -> & He & (tr3 & tr4 & a & -> & Hq & Hk)%IH).
    exists (tr1 ++ tr3), tr4, a. rewrite app_assoc. split; [done|]. split; [|done].
    apply steps_served_vis. by exists tr1, tr3, x.
  - intros (tr1 & tr2 & a & -> & (tr3 & tr4 & x & -> & He & Hq)%steps_served_vis & Hk).
    exists tr3, (tr4 ++ tr2), x. rewrite app_assoc. split; [done|]. split; [done|].
    apply IH. by exists tr4, tr2, a.
Qed.

Lemma served_prog_try {A B E} url srv (p : prog (result A E)) (k : A -> prog (result B E)) tr r :
  steps (served url srv (prog_try p k)) tr r <->
  (exists a tr1 tr2, tr = tr1 ++ tr2 /\ steps (served url srv p) tr1 (Ok a) /\
     steps (served url srv (k a)) tr2 r) \/
  (exists e, steps (served url srv p) tr (Err e) /\ r = Err e).
Proof.
  unfold prog_try. rewrite served_bind. split.
  - intros (tr1 & tr2 & [a|e] & -> & Hp & Hk); [left; by exists a, tr1, tr2|].
    destruct Hk as [-> ->]. right. exists e. by rewrite app_nil_r.
  - intros [(a & tr1 & tr2 & -> & Hp & Hk)|(e & Hp & ->)]; [by exists tr1, tr2, (Ok a)|].
    exists tr, [], (Err e). by rewrite app_nil_r.
Qed.

Section composed.
Context `{Printers, DeriveLib, McpLib, WireLib, TokioLib}.
Context (st : HarnessState) (url : string).

Abbreviation server := (McpServer.rpc st).

(** One call of the client: the server runs on its body. *)
Lemma served_rpc method params tr a :
  steps (served url server (Client.rpc url method params)) tr a <->
  exists id tr1 v, tr = Call ECounter id :: tr1 /\
    steps (server (Client.rpc_body id method params)) tr1 v /\
    a = Client.read_answer method (answered v).
Proof.
  unfold Client.rpc. rewrite served_bind. setoid_rewrite served_bind. split.
  - intros (t1 & t2 & id & -> & (id' & ? & -> & -> & ->) & t3 & t4 & x & -> & Hx & [-> ->]).
    apply steps_served_vis in Hx as (t5 & t6 & y & -> & Hs & [-> ->]). unfold answering in Hs.
    unfold posted in Hs. simpl in Hs. rewrite String.eqb_refl in Hs. simpl in Hs.
    apply steps_bind in Hs as (t7 & t8 & v & -> & Hs & [-> ->]). exists id', t7, v.
    by rewrite !app_nil_r.
  - intros (id & t1 & v & -> & Hs & ->). exists [Call ECounter id], t1, id. split; [done|].
    split; [by exists id, []|]. exists t1, [], (answered v). rewrite app_nil_r.
    split; [done|]. split; [|done]. apply steps_served_vis. exists t1, [], (answered v).
    rewrite app_nil_r. split; [done|]. split; [|done]. unfold answering, posted. simpl.
    rewrite String.eqb_refl. simpl. apply steps_bind. exists t1, [], v. by rewrite app_nil_r.
Qed.

(** The three tools, as the client knows them. *)
Definition server_info : Client.McpServerInfo := Client.mkMcpServerInfo "pg-one" "0.2.0".
Definition server_client : Client.McpClient := Client.mkMcpClient url server_info.

Definition served_tools : list (string * json) :=
  [("list_apps", McpServer.list_apps_schema); ("ask", McpServer.ask_schema);
   ("run_agent", McpServer.run_agent_schema)].

(** What a tool of the server answers to its caller: a text that is empty is
    not read as one. *)
Definition tool_answer_of (name : string) (r : result string string) : result ToolOutput ToolError :=
  match r with
  | Ok t => Ok (if is_empty t then OutJson (JArray [text_json ""]) else OutText t)
  | Err e => Err (ToolError_Execution name (if is_empty e then "tool reported error" else e))
  end.

Lemma call_output_of name r :
  Client.call_output name (McpServer.call_result r) = tool_answer_of name r.
Proof.
  destruct r as [t|t]; unfold Client.call_output; simpl; unfold Client.extract_text; simpl;
    unfold Client.push_text; simpl; by destruct t.
Qed.

Lemma success_is_read method id v :
  v <> JNull -> Client.read_answer method (answered (McpServer.success id v)) = Ok v.
Proof. by destruct v. Qed.

(** What the three methods answer. *)
Lemma server_answers id method params tr v :
  steps (server (Client.rpc_body id method params)) tr v <->
  if String.eqb method "initialize" then
    tr = [] /\ v = McpServer.success (json_u64 id) McpServer.initialize_result
  else if String.eqb method "tools/list" then
    tr = [] /\ v = McpServer.success (json_u64 id) (json_object [("tools", McpServer.tool_definitions)])
  else if String.eqb method "tools/call" then
    exists w, steps (McpServer.call_tool st params) tr w /\ v = McpServer.success (json_u64 id) w
  else tr = [] /\ v = McpServer.failure (json_u64 id) ("method '" +:+ method +:+ "' is not implemented").
Proof.
  unfold McpServer.rpc.
  change (McpServer.str_arg "method" (Client.rpc_body id method params)) with method.
  change (json_get "id" (Client.rpc_body id method params)) with (Some (json_u64 id)).
  change (json_get "params" (Client.rpc_body id method params)) with (Some params). simpl default.
  repeat case_match; try done. rewrite steps_bind. split.
  - intros (t1 & t2 & w & -> & Hw & [-> ->]). exists w. by rewrite app_nil_r.
  - intros (w & Hw & ->). exists tr, [], w. by rewrite app_nil_r.
Qed.

Lemma served_call name input tr a :
  steps (served url server (Client.call_tool server_client name input)) tr a <->
  exists id tr1 r, tr = Call ECounter id :: tr1 /\
    steps (McpServer.run_tool st name input) tr1 r /\ a = tool_answer_of name r.
Proof.
  assert (Hc : forall v, v <> JNull -> forall id,
    Client.read_answer "tools/call" (answered (McpServer.success id v)) = Ok v)
    by (intros; by apply success_is_read).
  assert (Hnull : forall r, McpServer.call_result r <> JNull) by (by intros []).
  unfold Client.call_tool. rewrite served_prog_try. split.
  - intros [(v & t1 & t2 & -> & Hv & [-> ->])|(e & Hv & ->)]; apply served_rpc in Hv
      as (id & t3 & w & -> & Hs & Ha); apply server_answers in Hs as (x & Hx & ->);
      apply steps_bind in Hx as (t4 & t5 & r & -> & Hr & [-> ->]); rewrite Hc in Ha by done;
      [|done]. injection Ha as ->. exists id, t4, r. rewrite !app_nil_r. by rewrite call_output_of.
  - intros (id & t1 & r & -> & Hr & ->). left.
    exists (McpServer.call_result r), (Call ECounter id :: t1), []. rewrite app_nil_r.
    split; [done|]. split; [|split; [done|by rewrite <- call_output_of]].
    apply served_rpc. exists id, t1, (McpServer.success (json_u64 id) (McpServer.call_result r)).
    split; [done|]. split; [|by rewrite Hc]. apply server_answers.
    exists (McpServer.call_result r). split; [|done]. apply steps_bind. exists t1, [], r.
    by rewrite app_nil_r.
Qed.

(** The listing, as the client reads it. *)
Definition served_defs : list Client.McpToolDef :=
  default [] (Client.read_defs McpServer.tool_definitions).

(** Listing: two numbered exchanges that the server answers by itself. *)
Lemma served_listing r tr res r' :
  client_build_error = None ->
  steps (served url server (Client.add_mcp url r)) tr (res, r') ->
  exists i j, tr = [Call ECounter i; Call ECounter j] /\
    (res, r') = Client.insert_tools server_client served_defs r.
Proof.
  intros Hb Hs. unfold Client.add_mcp, Client.connect in Hs. rewrite Hb in Hs.
  unfold Client.initialize, Client.list_tools in Hs.
  apply served_bind in Hs as (t1 & t2 & listed & -> & Hs & [-> Heq]). rewrite app_nil_r.
  assert (Hini : forall t v, steps (served url server (Client.rpc url "initialize" Client.initialize_params)) t v ->
    exists i, t = [Call ECounter i] /\ v = Ok McpServer.initialize_result).
  { intros t v (i & t3 & w & -> & (-> & ->)%server_answers & ->)%served_rpc. exists i.
    by rewrite success_is_read. }
  assert (Hlist : forall t v, steps (served url server (Client.rpc url "tools/list" JNull)) t v ->
    exists i, t = [Call ECounter i] /\ v = Ok (json_object [("tools", McpServer.tool_definitions)])).
  { intros t v (i & t3 & w & -> & (-> & ->)%server_answers & ->)%served_rpc. exists i.
    by rewrite success_is_read. }
  apply served_prog_try in Hs as [(c & t3 & t4 & -> & Hc & Hl)|(e & Hc & ->)];
    apply served_prog_try in Hc as [(info & t5 & t6 & -> & Hi & Hc)|(e' & Hi & Hc)];
    apply served_prog_try in Hi as [(v & t7 & t8 & -> & (i & -> & [= ->])%Hini & [-> Hi])|(e'' & (? & _ & ?)%Hini & _)];
    try done; destruct Hc as [-> Hc]; try done. vm_compute in Hi. injection Hi as ->.
  injection Hc as ->.
  apply served_prog_try in Hl as [(defs & t9 & t10 & -> & Hd & [-> ->])|(e & Hd & ->)];
    apply served_prog_try in Hd as [(v & t11 & t12 & -> & (j & -> & [= ->])%Hlist & [-> Hd])|(e'' & (? & _ & ?)%Hlist & _)];
    try done. exists i, j. split; [done|]. rewrite Heq. by injection Hd as ->.
Qed.

Lemma served_defs_are : exists d1 d2 d3,
  served_defs = [Client.mkMcpToolDef "list_apps" d1 McpServer.list_apps_schema;
                 Client.mkMcpToolDef "ask" d2 McpServer.ask_schema;
                 Client.mkMcpToolDef "run_agent" d3 McpServer.run_agent_schema].
Proof. do 3 eexists. vm_compute. reflexivity. Qed.

(** A call of a registered tool. *)
Lemma served_tool_run name schema input ctx tr a :
  steps (served url server (tool_run (Client.McpTool server_client name schema) input ctx)) tr a <->
  exists id tr1 x, tr = Call ECounter id :: tr1 /\
    steps (McpServer.run_tool st name input) tr1 x /\ a = ToolReturned (tool_answer_of name x).
Proof.
  change (tool_run _ input ctx)
    with (r ← Client.call_tool server_client name input; mret (M := prog) (ToolReturned r)).
  rewrite served_bind. split.
  - intros (t1 & t2 & r & -> & (id & t3 & x & -> & Hx & ->)%served_call & [-> ->]).
    exists id, t3, x. by rewrite app_nil_r.
  - intros (id & t1 & x & -> & Hx & ->). exists (Call ECounter id :: t1), [], (tool_answer_of name x).
    rewrite app_nil_r. split; [done|]. split; [|done]. apply served_call. by exists id, t1, x.
Qed.

(** C35: A runtime that registers the demo server gets three tools, whatever
    the names of its other ones, and each call of one of them, through the
    client, over HTTP and back, is a run of the server's own function on the
    arguments given, once, with the same effects in the same order; what
    comes back is its text, or its error as an error of that tool. *)
Theorem demo_tools_are_the_servers r tr res r' s1 s2 s3 :
  client_build_error = None ->
  root_schema McpServer.list_apps_schema = Ok s1 ->
  root_schema McpServer.ask_schema = Ok s2 ->
  root_schema McpServer.run_agent_schema = Ok s3 ->
  steps (served url server (Client.add_mcp url r)) tr (res, r') ->
  res = Ok tt /\ length tr = 2%nat /\
  (forall name, name ∉ map fst served_tools -> r' !! name = r !! name) /\
  forall name, name ∈ map fst served_tools -> exists t, r' !! name = Some t /\
    forall input ctx tr a,
      steps (served url server (tool_run t input ctx)) tr a <->
      exists id tr1 x, tr = Call ECounter id :: tr1 /\
        steps (McpServer.run_tool st name input) tr1 x /\
        a = ToolReturned (tool_answer_of name x).
Proof.
  intros Hb H1' H2' H3' (i & j & -> & Hi)%served_listing; [|done].
  destruct served_defs_are as (d1 & d2 & d3 & Hdefs). rewrite Hdefs in Hi. clear Hdefs.
  cbn [Client.insert_tools Client.def_input_schema Client.def_name] in Hi.
  rewrite H1', H2', H3' in Hi. injection Hi as -> ->. split; [done|]. split; [done|].
  assert (Hnames : map fst served_tools = ["list_apps"; "ask"; "run_agent"]) by done.
  rewrite Hnames. split.
  - intros name Hn. rewrite !lookup_insert_ne; [done|set_solver..].
  - intros name [->|[->|[->|[]%elem_of_nil]%elem_of_cons]%elem_of_cons]%elem_of_cons;
      eexists; (split; [by simplify_map_eq|]); intros; apply served_tool_run.
Qed.
End composed.

(** ** Runs

    A run starts, gets the pid of its backend, and is done or fails; each of
    these leaves the fields of the others alone. *)

Section run_registry.
Context `{UnicodeTables, Printers, WireLib, TokioLib}.
Import Runs.

Definition over (s : RunState) : Prop := phase s = Done \/ phase s = Failed.

(** What the fields say in each phase. *)
Definition well_formed (s : RunState) : Prop :=
  match phase s with
  | Starting =>
      backend_pid s = None /\ finished_at_ms s = None /\ envelope s = None /\ error s = None /\
      cancelled s = false
  | Running =>
      is_Some (backend_pid s) /\ finished_at_ms s = None /\ envelope s = None /\ error s = None /\
      cancelled s = false
  | Done =>
      is_Some (backend_pid s) /\ is_Some (finished_at_ms s) /\ is_Some (envelope s) /\
      error s = None /\ cancelled s = false
  | Failed =>
      is_Some (finished_at_ms s) /\ envelope s = None /\ is_Some (error s) /\
      (cancelled s = true -> is_Some (backend_pid s) /\ error s = Some CANCELLED_MSG)
  end.

(** What never changes, and what never changes again. *)
Definition later (s s' : RunState) : Prop :=
  run_id s' = run_id s /\ agent s' = agent s /\ input s' = input s /\
  started_at_ms s' = started_at_ms s /\
  (forall pid, backend_pid s = Some pid -> backend_pid s' = Some pid) /\
  (over s -> s' = s).

#[local] Instance later_refl : Reflexive later.
Proof. by intros s. Qed.
#[local] Instance later_trans : Transitive later.
Proof.
  intros s1 s2 s3 (?&?&?&?&Hp&Ho) (?&?&?&?&Hp'&Ho'). split_and!; try congruence; [by auto|].
  intros Hover. rewrite (Ho Hover) in *. by apply Ho'.
Qed.

(** Whatever answers a task gets, its updates keep [well_formed] and
    [later], and it ends on a state that is over. *)
Fixpoint runs_ok (s : RunState) (t : task) : Prop :=
  match t with
  | TEnd => over s
  | TUpdate f k => well_formed (f s) /\ later s (f s) /\ runs_ok (f s) k
  | TAwait e k => forall x, runs_ok s (k x)
  end.

Lemma runs_ok_await {A} s (p : prog A) (k : A -> task) :
  (forall a, runs_ok s (k a)) -> runs_ok s (await p k).
Proof. intros Hk. induction p as [a|X e q IH]; simpl; auto. Qed.

Definition begun (s : RunState) : Prop :=
  well_formed s /\ (phase s = Starting \/ phase s = Running).

Lemma begun_later s s' :
  begun s -> run_id s' = run_id s -> agent s' = agent s -> input s' = input s ->
  started_at_ms s' = started_at_ms s ->
  (forall pid, backend_pid s = Some pid -> backend_pid s' = Some pid) -> later s s'.
Proof. intros [_ Hp] ?????. split_and!; [done..|]. intros [?|?]; destruct Hp; congruence. Qed.

Lemma begun_fields s :
  begun s -> envelope s = None /\ error s = None /\ cancelled s = false.
Proof. intros [Hwf [E|E]]; unfold well_formed in Hwf; rewrite E in Hwf; naive_solver. Qed.

Lemma fail_run_ok s msg : begun s -> runs_ok s (fail_run msg).
Proof.
  intros Hb. apply runs_ok_await. intros now. simpl. destruct (begun_fields s Hb) as (He & Hr & Hc).
  split_and!; [|by apply begun_later|by right].
  unfold well_formed. simpl. rewrite Hc. by split_and!.
Qed.

Lemma execution_failed_ok s e :
  begun s -> is_Some (backend_pid s) -> runs_ok s (execution_failed e).
Proof.
  intros Hb Hp. apply runs_ok_await. intros now. simpl.
  destruct (begun_fields s Hb) as (He & Hr & Hc). split_and!; [|by apply begun_later|by right].
  unfold well_formed. simpl. split_and!; [done..|]. by intros ->.
Qed.

Lemma execution_returned_ok s row :
  begun s -> is_Some (backend_pid s) -> runs_ok s (execution_returned row).
Proof.
  intros Hb Hp. do 3 (apply runs_ok_await; intros ?). simpl.
  destruct (begun_fields s Hb) as (He & Hr & Hc). split_and!; [|by apply begun_later|by left].
  unfold well_formed. simpl. by split_and!.
Qed.

Lemma run_task_ok s url agent input :
  begun s -> phase s = Starting -> runs_ok s (run_task url agent input).
Proof.
  intros Hb Hs. apply runs_ok_await. intros [[]|e]; [|by apply fail_run_ok].
  apply runs_ok_await. intros [row|e]; [|by apply fail_run_ok].
  apply runs_ok_await. intros pid. destruct (begun_fields s Hb) as (He & Hr & Hc).
  assert (Hwf := proj1 Hb). unfold well_formed in Hwf. rewrite Hs in Hwf.
  destruct Hwf as (Hnone & Hf & _).
  assert (Hw : well_formed (running pid s)) by (unfold well_formed; simpl; by split_and!).
  split_and!; [done|apply begun_later; simpl; congruence|].
  assert (Hb' : begun (running pid s)) by (split; [done|by right]).
  apply runs_ok_await. intros [row'|e];
    [by apply execution_returned_ok|by apply execution_failed_ok].
Qed.

(** ** The registry *)

Record pool_inv (p : pool) : Prop := {
  inv_tasks : forall id, is_Some (tasks p !! id) <-> is_Some (registry p !! id);
  inv_runs : forall id s t, registry p !! id = Some s -> tasks p !! id = Some t ->
    run_id s = id /\ well_formed s /\ runs_ok s t }.

Definition keeps (p p' : pool) : Prop :=
  pool_inv p' /\
  forall id s, registry p !! id = Some s -> exists s', registry p' !! id = Some s' /\ later s s'.

Lemma new_run_begun id agent input now : begun (new_run id agent input now).
Proof. split; [by split_and!|by left]. Qed.

Lemma reg_lookup_insert (reg : RunRegistry) id s id' :
  <[id := s]> reg !! id' = if decide (id = id') then Some s else reg !! id'.
Proof. apply lookup_insert. Qed.

Lemma no_runs : pool_inv (mkPool ∅ ∅).
Proof.
  split; simpl; [|by intros id s t ?%lookup_empty_Some].
  intros id. split; by intros [x ?%lookup_empty_Some].
Qed.

(** Writing one entry and its task. *)
Lemma write_keeps p id s t :
  pool_inv p -> run_id s = id -> well_formed s -> runs_ok s t ->
  (forall s0, registry p !! id = Some s0 -> later s0 s) ->
  keeps p (mkPool (<[id := s]> (registry p)) (<[id := t]> (tasks p))).
Proof.
  intros [Hdom Hruns] Hid Hw Hok Hl. split; [split; simpl|simpl].
  - intros id'. rewrite (lookup_insert (tasks p)), reg_lookup_insert.
    case_decide; [split; intros _; by eexists|apply Hdom].
  - intros id' s' t'. rewrite (lookup_insert (tasks p)), reg_lookup_insert.
    case_decide; [|by apply Hruns]. subst id'. by intros [= <-] [= <-].
  - intros id' s' Hs'. rewrite reg_lookup_insert. case_decide; [subst id'; exists s; auto|by exists s'].
Qed.

(** A step keeps the invariant, and every entry of before. *)
Lemma step_keeps p p' : step p p' -> pool_inv p -> keeps p p'.
Proof.
  intros Hstep Hp. pose proof Hp as [Hdom Hruns].
  assert (Hreg : forall id t, tasks p !! id = Some t -> exists s, registry p !! id = Some s)
    by (intros id t Ht; apply Hdom; by eexists).
  destruct Hstep as [p url id agent input now Hnew|p id f k Ht|p id X e k x Ht].
  - destruct (new_run_begun id agent input now) as [Hw Hb].
    apply write_keeps; [done..| |congruence]. by apply run_task_ok.
  - destruct (Hreg id _ Ht) as [s Hs]. destruct (Hruns id s _ Hs Ht) as (Hid & _ & Hw & Hl & Hk).
    unfold update. rewrite Hs. apply write_keeps; [done| |done..|congruence].
    destruct Hl as (Hid' & _). congruence.
  - destruct (Hreg id _ Ht) as [s Hs]. destruct (Hruns id s _ Hs Ht) as (Hid & Hw & Hk).
    rewrite <- (insert_id (registry p) id s) by done.
    destruct p as [reg ts]. apply (write_keeps (mkPool reg ts)); [done..|apply Hk|].
    intros s0 Hs0. simpl in *. rewrite Hs in Hs0. by injection Hs0 as <-.
Qed.

Lemma steps_keep p p' : rtc step p p' -> pool_inv p -> keeps p p'.
Proof.
  induction 1 as [p|p q p' Hs _ IH]; intros Hp; [split; [done|]; intros id s Hs; by exists s|].
  destruct (step_keeps _ _ Hs Hp) as [Hq Hl]. destruct (IH Hq) as [Hp' Hl']. split; [done|].
  intros id s (s1 & Hs1 & L1)%Hl. destruct (Hl' id s1 Hs1) as (s2 & Hs2 & L2).
  exists s2. split; [done|by etrans].
Qed.

(** C38: The registry of runs: in every state that concurrent runs can reach,
    an entry is kept under its own id, its fields are those of its phase (a
    run that is done has an envelope and no error, one that failed an error
    and no envelope, and only a run with a backend was ever cancelled), and
    an entry whose task has ended is over.  From then on nothing changes it,
    as nothing ever changes its agent, input, start or, once known, backend. *)
Theorem run_lifecycle p p' id s :
  reachable p -> rtc step p p' -> registry p !! id = Some s ->
  run_id s = id /\ well_formed s /\
  (exists t, tasks p !! id = Some t /\ (t = TEnd -> over s)) /\
  exists s', registry p' !! id = Some s' /\ later s s'.
Proof.
  intros Hr Hs Hid. destruct (steps_keep _ _ Hr) as [Hp _]; [apply no_runs|].
  destruct (steps_keep _ _ Hs Hp) as [_ Hl].
  assert (is_Some (tasks p !! id)) as [t Ht] by (apply (inv_tasks p Hp); rewrite Hid; by eexists).
  destruct (inv_runs p Hp id s t Hid Ht) as (? & ? & Hok). split_and!; [done..| |by apply Hl].
  exists t. split; [done|]. by intros ->.
Qed.

(** The pid outlives the backend: a run that is over, in any phase, still has
    that number signalled. *)
Lemma cancel_signals_the_recorded_pid st reg id s pid :
  reg !! id = Some s -> backend_pid s = Some pid ->
  steps (run_cancel st reg id)
    [Call (ETokio (TkConnect (db_url st))) (Ok (0, []));
     Call (ETokio (TkQuery CANCEL_SQL [DInt4 pid])) (Ok (1, [[DBool true]]))]
    (Ok (ok_json [("signalled", JBool true); ("pid", json_i64 pid)])).
Proof.
  intros Hs Hp. unfold run_cancel. rewrite Hs. simpl. rewrite Hp.
  repeat (eexists _, _; split; [reflexivity|]). done.
Qed.
End run_registry.

(** ** Generators

    A flag is registered, or is about to be set, or is set; and it belongs to
    one generator, there or about to be. *)

Section generators.
Import Workload.

(** The flag that a request will start a generator with, and its target. *)
Fixpoint spawned (p : request_point) : option (nat * string) :=
  match p with
  | Store _ next => spawned next
  | Spawn f w _ => Some (f, w_name w)
  | _ => None
  end.

Definition owner_of (g : generator) : nat * string := (g_flag g, w_name (g_target g)).
Definition owners (s : world) : list (nat * string) :=
  omap spawned (requests s) ++ map owner_of (generators s).

(** An owner's flag is allocated, and if it is registered, then for its
    target. *)
Definition owner_ok (s : world) (o : nat * string) : Prop :=
  (o.1 < length (flags s))%nat /\ forall n, registry s !! n = Some o.1 -> n = o.2.

Fixpoint stores (f : nat) (p : request_point) : Prop :=
  match p with Store old next => old = Some f \/ stores f next | _ => False end.
Definition storing (s : world) (f : nat) : Prop := Exists (stores f) (requests s).

Record world_inv (s : world) : Prop := {
  registered_unset : forall n f, registry s !! n = Some f -> flags s !! f = Some false;
  registered_once : forall n n' f, registry s !! n = Some f -> registry s !! n' = Some f -> n = n';
  registered_kept : forall n f, registry s !! n = Some f -> ~ storing s f;
  unset_known : forall f, flags s !! f = Some false ->
    (exists n, registry s !! n = Some f) \/ storing s f;
  stored_known : forall f, storing s f -> (f < length (flags s))%nat;
  owners_once : NoDup (map fst (owners s));
  owners_ok : Forall (owner_ok s) (owners s) }.

Lemma world_inv_initial : world_inv initial.
Proof.
  split; try done; [by intros f ?%Exists_nil|apply NoDup_nil_2].
Qed.

(** An element that changes, among the others. *)
Lemma requests_insert {A} (l : list A) i p :
  l !! i = Some p -> exists rest, l ≡ₚ p :: rest /\ forall q, <[i := q]> l ≡ₚ q :: rest.
Proof.
  intros Hi. pose proof (lookup_lt_Some _ _ _ Hi). exists (take i l ++ drop (S i) l). split.
  - rewrite <- (take_drop_middle l i p) at 1 by done. by rewrite Permutation_middle.
  - intros q. rewrite insert_take_drop by done. by rewrite Permutation_middle.
Qed.

(** A step that leaves the flags and their registration alone. *)
Lemma owners_move s s' :
  owners s' ≡ₚ owners s -> flags s' = flags s -> registry s' = registry s ->
  (forall f, storing s' f <-> storing s f) -> world_inv s -> world_inv s'.
Proof.
  intros Ho Hf Hr Hs [H1 H2 H3 H4 H5 H6 H7]. split; rewrite ?Hf, ?Hr; [done|done|..].
  - intros n f Hn. rewrite Hs. by eapply H3.
  - intros f. rewrite Hs. apply H4.
  - intros f. rewrite Hs. apply H5.
  - by rewrite Ho.
  - rewrite Ho. eapply Forall_impl; [exact H7|]. unfold owner_ok. by rewrite Hf, Hr.
Qed.

(** A request that comes in last. *)
Lemma storing_app s s' p f :
  requests s' = requests s ++ [p] -> storing s' f <-> storing s f \/ stores f p.
Proof. intros Hr. unfold storing. rewrite Hr, Exists_app, Exists_cons, Exists_nil. tauto. Qed.

(** A request takes a target out of the registry. *)
Lemma begin_stop_keeps name next s :
  spawned next = None -> (forall f, ~ stores f next) -> world_inv s -> world_inv (begin_stop name next s).
Proof.
  intros Hn Hp [H1 H2 H3 H4 H5 H6 H7].
  assert (Hst : forall f, storing (begin_stop name next s) f <->
    storing s f \/ registry s !! name = Some f).
  { intros f. rewrite (storing_app s) by done. simpl. specialize (Hp f). tauto. }
  assert (Ho : owners (begin_stop name next s) = owners s).
  { unfold owners. simpl. rewrite omap_app. simpl. rewrite Hn. by rewrite app_nil_r. }
  split; rewrite ?Ho; try done; cbn [flags Workload.registry begin_stop].
  - intros n f [_ Hf]%lookup_delete_Some. by eapply H1.
  - intros n n' f [_ Hf]%lookup_delete_Some [_ Hf']%lookup_delete_Some. by eapply H2.
  - intros n f [Hne Hf]%lookup_delete_Some [Hs|Hs]%Hst; [by eapply H3|]. apply Hne. by eapply H2.
  - intros f [[n Hf]|Hs]%H4; [|right; apply Hst; by left].
    destruct (decide (n = name)) as [->|Hne]; [right; apply Hst; by right|].
    left. exists n. by rewrite lookup_delete_ne.
  - intros f [Hs|Hs%H1]%Hst; [by apply H5|by eapply lookup_lt_Some].
  - eapply Forall_impl; [exact H7|]. intros o [Hlt Hreg]. split; [done|].
    intros n Hf. apply Hreg. simpl in Hf. by apply lookup_delete_Some in Hf as [_ Hf].
Qed.

(** Registering a new flag where none is, for a request that will start its
    generator. *)
Lemma register_keeps s rs old w rate fl reg gens out :
  s = mkWorld fl reg (rs ++ [Store old Answered]) gens out ->
  reg !! w_name w = None -> world_inv s ->
  world_inv (mkWorld (fl ++ [false]) (<[w_name w := length fl]> reg)
    (rs ++ [Store old (Spawn (length fl) w rate)]) gens out).
Proof.
  intros -> Hnone [H1 H2 H3 H4 H5 H6 H7]. cbn [flags Workload.registry] in *.
  set (s' := mkWorld (fl ++ [false]) _ _ _ _).
  assert (Hst : forall f, storing s' f <-> storing (mkWorld fl reg (rs ++ [Store old Answered]) gens out) f).
  { intros f. unfold storing. simpl. by rewrite !Exists_app, !Exists_cons. }
  assert (Hnew : forall n, reg !! n <> Some (length fl)).
  { intros n Hn%H1%lookup_lt_Some. lia. }
  assert (Ho : owners s' ≡ₚ (length fl, w_name w) ::
                 owners (mkWorld fl reg (rs ++ [Store old Answered]) gens out)).
  { unfold owners. simpl. rewrite !omap_app. simpl. rewrite app_nil_r, <- app_assoc. simpl.
    by rewrite Permutation_middle. }
  split; rewrite ?Ho; cbn [flags Workload.registry s'].
  - intros n f [[<- <-]|[_ Hf%H1]]%lookup_insert_Some; [by apply list_lookup_middle|].
    by apply lookup_app_l_Some.
  - intros n n' f [[<- <-]|[_ Hf]]%lookup_insert_Some [[<- ?]|[_ Hf']]%lookup_insert_Some;
      [done|by apply Hnew in Hf'|subst; by apply Hnew in Hf|by eapply H2].
  - intros n f [[<- <-]|[_ Hf]]%lookup_insert_Some Hs%Hst; [apply H5 in Hs; simpl in Hs; lia|].
    by eapply H3.
  - intros f [Hf|[Hle Hf]]%lookup_app_Some.
    + destruct (H4 f Hf) as [[n Hn]|Hs]; [left|right; by apply Hst].
      exists n. rewrite lookup_insert_ne; [done|]. intros <-. congruence.
    + apply list_lookup_singleton_Some in Hf as [Hf _]. left. exists (w_name w).
      rewrite lookup_insert_eq. f_equal. lia.
  - intros f Hs%Hst%H5. rewrite length_app. simpl in *. lia.
  - simpl. constructor; [|done]. intros ([f n] & [= <-] & Hin)%list_elem_of_fmap.
    rewrite Forall_forall in H7. apply H7 in Hin as [Hlt _]. simpl in Hlt. lia.
  - constructor.
    + unfold s'; split; simpl; [rewrite length_app; simpl; lia|].
      intros n [[<- _]|[_ Hf]]%lookup_insert_Some; [done|by apply Hnew in Hf].
    + eapply Forall_impl; [exact H7|]. intros o [Hlt Hreg]. simpl in Hlt.
      split; simpl; [rewrite length_app; simpl; lia|].
      intros n [[<- Hf]|[_ Hf]]%lookup_insert_Some; [lia|by apply Hreg].
Qed.

(** A request sets the flag it took out. *)
Lemma store_keeps s i old next :
  requests s !! i = Some (Store old next) -> world_inv s ->
  world_inv (request_step i (Store old next) s).
Proof.
  intros Hi [H1 H2 H3 H4 H5 H6 H7]. set (s' := request_step _ _ _).
  destruct (requests_insert _ _ _ Hi) as (rest & Hl & Hl').
  assert (Ho : owners s' ≡ₚ owners s) by (unfold owners; simpl; by rewrite Hl', Hl).
  assert (Hst : forall f, storing s f <-> old = Some f \/ storing s' f).
  { intros f. unfold storing. simpl. rewrite Hl', Hl, !Exists_cons. simpl. tauto. }
  assert (Hlen : length (flags s') = length (flags s))
    by (simpl; destruct old; [apply length_insert|done]).
  assert (Hfl : forall f, flags s' !! f = Some false -> flags s !! f = Some false /\ old <> Some f).
  { intros f. simpl. destruct old as [f0|]; [|done]. rewrite list_lookup_insert.
    case_decide as Hd; [done|]. intros Hf. split; [done|]. intros [= <-]. apply Hd.
    split; [done|]. by eapply lookup_lt_Some. }
  split; rewrite ?Ho; [..|done|].
  - intros n f Hn. specialize (H1 n f Hn). specialize (H3 n f Hn). rewrite Hst in H3. simpl.
    destruct old as [f0|]; [|done]. rewrite list_lookup_insert_ne; [done|naive_solver].
  - apply H2.
  - intros n f Hn Hs. eapply H3; [exact Hn|]. apply Hst. by right.
  - intros f [Hf Hne]%Hfl. destruct (H4 f Hf) as [?|[?|?]%Hst]; [by left|done|by right].
  - intros f Hs. rewrite Hlen. apply H5, Hst. by right.
  - eapply Forall_impl; [exact H7|]. unfold owner_ok. by rewrite Hlen.
Qed.

(** The other steps move an owner or nothing. *)
Lemma other_request_keeps s i p :
  requests s !! i = Some p -> (forall old next, p <> Store old next) -> world_inv s ->
  world_inv (request_step i p s).
Proof.
  intros Hi Hp Hs. destruct (requests_insert _ _ _ Hi) as (rest & Hl & Hl').
  destruct p as [old next|f w rate|w|]; [by destruct (Hp old next)| | |done].
  - eapply owners_move; [..|exact Hs]; [|done..|].
    + unfold owners. simpl. rewrite map_app, Hl', Hl. simpl.
      rewrite (Permutation_app_comm _ [_]), app_assoc. by rewrite (Permutation_app_comm _ [_]).
    + intros f'. unfold storing. simpl. rewrite Hl', Hl, !Exists_cons. tauto.
  - eapply owners_move; [..|exact Hs]; [|done..|].
    + unfold owners. simpl. by rewrite Hl', Hl.
    + intros f'. unfold storing. simpl. rewrite Hl', Hl, !Exists_cons. tauto.
Qed.

Lemma step_world s s' : step s s' -> world_inv s -> world_inv s'.
Proof.
  intros Hstep Hs. destruct Hstep as [s w rate Hw|s name|s w Hw|s i p Hi|s i w Hi|s i g p out Hi Hg].
  - pose proof (register_keeps _ _ _ w (effective_rate rate) _ _ _ _ eq_refl
      (lookup_delete_eq _ _) (begin_stop_keeps (w_name w) Answered s eq_refl (fun _ H => H) Hs)) as Hk.
    by rewrite insert_delete_eq in Hk.
  - apply begin_stop_keeps; [done|by intros ? ?|done].
  - apply begin_stop_keeps; [done|by intros ? ?|done].
  - destruct p; [by apply store_keeps|by apply other_request_keeps..].
  - eapply (owners_move (request_step i (Truncate w) s)); [done..|by apply other_request_keeps].
  - eapply owners_move; [..|exact Hs]; [|done..]. unfold owners. cbn [requests generators].
    change (map owner_of) with (fmap (M := list) owner_of).
    rewrite list_fmap_insert, list_insert_id; [done|].
    by rewrite list_lookup_fmap, Hi.
Qed.

Lemma reachable_inv s : reachable s -> world_inv s.
Proof.
  intros Hr. assert (Hg : forall s0, rtc step s0 s -> world_inv s0 -> world_inv s).
  { intros s0. induction 1 as [|? ? ? Hs _ IH]; [done|]. intros ?. by eapply IH, step_world. }
  by apply (Hg initial), world_inv_initial.
Qed.

(** ** What a flag stops *)

Definition count {A} (p : A -> bool) (l : list A) : nat := length (List.filter p l).

Lemma count_cons {A} (p : A -> bool) x l : count p (x :: l) = ((if p x then 1 else 0) + count p l)%nat.
Proof. unfold count. simpl. by destruct (p x). Qed.
Lemma count_app {A} (p : A -> bool) l1 l2 : count p (l1 ++ l2) = (count p l1 + count p l2)%nat.
Proof. unfold count. by rewrite List.filter_app, length_app. Qed.
Lemma count_perm {A} (p : A -> bool) l1 l2 : l1 ≡ₚ l2 -> count p l1 = count p l2.
Proof. induction 1; rewrite ?count_cons in *; lia. Qed.

(** The statements that took effect for a generator, and those under way. *)
Definition inserted (f : nat) (e : option nat * string) : bool := bool_decide (e.1 = Some f).
Definition inserting (f : nat) (g : generator) : bool :=
  Nat.eqb (g_flag g) f && match g_point g with Inserting => true | _ => false end.
Definition inserts (f : nat) (s : world) : nat := count (inserted f) (effects s).
Definition under_way (f : nat) (s : world) : nat := count (inserting f) (generators s).

Lemma gen_step_bound f s g p out :
  gen_step s g p out -> flags s !! f = Some true ->
  (count (inserted f) out + (if inserting f (set_point g p) then 1 else 0)
     <= (if inserting f g then 1 else 0))%nat.
Proof.
  intros Hg Hf.
  destruct Hg as [Hp|Hp|Hp|Hp Hfalse|Hp|Hp|Hp]; unfold inserting, set_point; simpl; rewrite Hp;
    rewrite ?andb_false_r; simpl; try lia.
  - destruct (Nat.eqb_spec (g_flag g) f); simpl; [congruence|lia].
  - unfold inserted, count. simpl. destruct (Nat.eqb_spec (g_flag g) f) as [->|Hne]; simpl.
    + rewrite bool_decide_eq_true_2 by done. simpl. lia.
    + rewrite bool_decide_eq_false_2 by congruence. simpl. lia.
Qed.

(** A flag that is set stays set, and lets nothing begin. *)
Lemma step_bound f s s' :
  step s s' -> flags s !! f = Some true ->
  flags s' !! f = Some true /\
  (inserts f s' + under_way f s' <= inserts f s + under_way f s)%nat.
Proof.
  intros Hstep Hf. unfold inserts, under_way.
  destruct Hstep as [s w rate Hw|s name|s w Hw|s i p Hi|s i w Hi|s i g p out Hi Hg]; simpl; try done.
  - split; [by apply lookup_app_l_Some|done].
  - destruct p as [old next|f' w rate|w|]; simpl; try done.
    + split; [|done]. destruct old as [f0|]; [|done].
      rewrite list_lookup_insert. by case_decide.
    + split; [done|]. rewrite count_app, count_cons. unfold inserting at 2. simpl.
      rewrite andb_false_r. unfold count. simpl. lia.
    + split; [done|]. rewrite count_app. unfold count at 2. simpl. lia.
  - split; [done|]. destruct (requests_insert _ _ _ Hi) as (rest & Hl & Hl').
    rewrite (count_perm _ _ _ (Hl' _)), (count_perm _ _ _ Hl), count_app, !count_cons.
    pose proof (gen_step_bound f s g p out Hg Hf). lia.
Qed.

Lemma steps_bound f s s' :
  rtc step s s' -> flags s !! f = Some true -> (inserts f s' <= inserts f s + under_way f s)%nat.
Proof.
  induction 1 as [s|s t u Hs _ IH]; intros Hf; [lia|].
  destruct (step_bound f _ _ Hs Hf) as [Hf' Hle]. specialize (IH Hf'). lia.
Qed.

Lemma under_way_once f s : world_inv s -> (under_way f s <= 1)%nat.
Proof.
  intros Hs. pose proof (owners_once s Hs) as Hnd. unfold owners in Hnd.
  rewrite map_app, map_map in Hnd. apply NoDup_app in Hnd as (_ & _ & Hnd). unfold under_way.
  induction (generators s) as [|g gs IH]; [unfold count; simpl; lia|]. simpl in Hnd.
  apply NoDup_cons in Hnd as [Hin Hnd]. rewrite count_cons. specialize (IH Hnd).
  destruct (inserting f g) eqn:Eg; [|lia]. unfold inserting in Eg.
  apply andb_true_iff in Eg as [<-%Nat.eqb_eq _].
  enough (count (inserting (g_flag g)) gs = 0%nat) by lia. clear -Hin.
  induction gs as [|g' gs IH]; [done|]. rewrite count_cons. simpl in Hin.
  rewrite not_elem_of_cons in Hin. destruct Hin as [Hne Hin]. rewrite IH by done.
  unfold inserting. by destruct (Nat.eqb_spec (g_flag g') (g_flag g)).
Qed.

Lemma generator_once s i j g g' :
  world_inv s -> generators s !! i = Some g -> generators s !! j = Some g' ->
  g_flag g = g_flag g' -> i = j.
Proof.
  intros Hs Hi Hj Hf. pose proof (owners_once s Hs) as Hnd. unfold owners in Hnd.
  rewrite map_app, map_map in Hnd. apply NoDup_app in Hnd as (_ & _ & Hnd).
  eapply NoDup_lookup; [exact Hnd| |].
  - apply list_lookup_fmap_Some. by exists g.
  - apply list_lookup_fmap_Some. exists g'. split; [done|]. simpl. congruence.
Qed.

(** C39: The generators of the demo, whatever the interleaving of requests to
    start, stop and reset with the generators' own steps: once every request
    has been answered, a generator whose flag is not set is the one that is
    registered for its target, so that a target has at most one and a target
    that was stopped has none; and from the moment its flag is set, a
    generator makes at most one more insertion, ever. *)
Theorem generators_obey_their_flags s :
  reachable s ->
  (Forall (eq Answered) (requests s) ->
   forall i g, generators s !! i = Some g -> flags s !! g_flag g = Some false ->
   Workload.registry s !! w_name (g_target g) = Some (g_flag g) /\
   forall j g', generators s !! j = Some g' -> flags s !! g_flag g' = Some false ->
     w_name (g_target g') = w_name (g_target g) -> j = i) /\
  forall f s', flags s !! f = Some true -> rtc step s s' -> (inserts f s' <= inserts f s + 1)%nat.
Proof.
  intros Hs%reachable_inv. split.
  - intros Hans. assert (Hreg : forall i g, generators s !! i = Some g ->
      flags s !! g_flag g = Some false ->
      Workload.registry s !! w_name (g_target g) = Some (g_flag g)).
    { intros i g Hi Hf. destruct (unset_known s Hs _ Hf) as [[n Hn]|Hst].
      - pose proof (owners_ok s Hs) as Hok. rewrite Forall_forall in Hok.
        destruct (Hok (owner_of g)) as [_ Hname].
        { apply elem_of_app. right. apply list_elem_of_fmap. exists g. split; [done|].
          by eapply list_elem_of_lookup_2. }
        specialize (Hname n Hn). simpl in Hname. by rewrite <- Hname.
      - apply Exists_exists in Hst as (p & Hin & Hp). rewrite Forall_forall in Hans.
        by rewrite <- (Hans p Hin) in Hp. }
    intros i g Hi Hf. split; [by eapply Hreg|]. intros j g' Hj Hf' Hn.
    eapply generator_once; [done..|].
    pose proof (Hreg i g Hi Hf). pose proof (Hreg j g' Hj Hf'). congruence.
  - intros f s' Hf Hr. pose proof (steps_bound f s s' Hr Hf). pose proof (under_way_once f s Hs). lia.
Qed.
End generators.

(** ** The schema browser

    The catalog as the two lookups read it: the types of the columns of each
    table. *)

Section browser.
Context `{UnicodeTables, Printers, WireLib, TokioLib}.
Import Api.
Context (st : HarnessState) (catalog : string -> string -> option (string -> option string)).

Definition column_of (schema table col : string) : option string :=
  catalog schema table ≫= fun columns => columns col.

(** Lookups answer what the catalog says, or fail. *)
Definition from_catalog : env := fun X e =>
  match e in eff X return X -> Prop with
  | ETokio (TkQuery sql [DText schema; DText table]) => fun r =>
      sql = IN_CATALOG_SQL -> forall n rows, r = Ok (n, rows) ->
      rows = [[DBool (bool_decide (is_Some (catalog schema table)))]]
  | ETokio (TkQuery sql [DText schema; DText table; DText col]) => fun r =>
      sql = COLUMN_TYPE_SQL -> forall n rows, r = Ok (n, rows) ->
      rows = match column_of schema table col with Some ty => [[DText ty]] | None => [] end
  | _ => fun _ => True
  end.

(** The lookups, and one statement [sql] with its values. *)
Definition lookups_and (P : string -> list datum -> Prop) : call_pred := fun _ X e =>
  match e with
  | ETokio (TkConnect url) => url = db_url st
  | ETokio (TkQuery sql args) => sql = IN_CATALOG_SQL \/ sql = COLUMN_TYPE_SQL \/ P sql args
  | ERaise _ => True
  | _ => False
  end.

Lemma wp_require_table P schema table s (Q : _ -> _ -> Prop) :
  (is_Some (catalog schema table) -> Q s (Ok tt)) -> (forall e, Q s (Err e)) ->
  wp from_catalog (lookups_and P) (require_table schema table) s Q.
Proof.
  intros Hok Herr.
  apply wp_prog_try, wp_prog_try, wp_bind, wp_prog_try, wp_query; [by left|intros n rows Hr|intros e; apply Herr].
  specialize (Hr eq_refl n rows eq_refl) as ->. apply wp_ret, wp_ret. cbn [map_err].
  apply wp_bind, wp_get; [done|]. intros b [= <-]. apply wp_ret, wp_ret.
  case_bool_decide; [by apply Hok|apply Herr].
Qed.

Lemma wp_require_column P schema table col what s (Q : _ -> _ -> Prop) :
  (forall ty, column_of schema table col = Some ty -> Q s (Ok ty)) -> (forall e, Q s (Err e)) ->
  wp from_catalog (lookups_and P) (require_column schema table col what) s Q.
Proof.
  intros Hok Herr.
  apply wp_prog_try, wp_prog_try, wp_bind, wp_prog_try, wp_query; [by right; left|intros n rows Hr|intros e; apply Herr].
  specialize (Hr eq_refl n rows eq_refl) as ->. apply wp_ret, wp_ret.
  destruct (column_of schema table col) as [ty|] eqn:Ety; cbn [map_err].
  - apply wp_bind, wp_get; [done|]. intros ty' [= <-]. by apply wp_ret, wp_ret, Hok.
  - apply wp_ret, wp_ret, Herr.
Qed.

(** ** The statements, as Postgres splits them *)

Lemma read_qualified schema table rest :
  head_is dquote rest = false ->
  read_name (qualified schema table +:+ rest) = Some ([schema; table], rest).
Proof.
  intros Hr. unfold qualified.
  change (Api.quote_ident schema) with (ToolsLoad.quote_ident schema).
  change (Api.quote_ident table) with (ToolsLoad.quote_ident table).
  unfold read_name. rewrite <- !str_app_assoc, read_quote_ident by done. simpl mbind.
  change (read_quoted dquote _) with (read_ident (ToolsLoad.quote_ident table +:+ rest)).
  by rewrite read_quote_ident.
Qed.

(** The table, the column and the key column of an update whose values have
    the types [ct] and [pt], each a type as the catalog writes it. *)
Definition read_update (ct pt sql : string) : option (list string * string * string) :=
  r ← strip_prefix "UPDATE " sql;
  '(name, r) ← read_name r;
  r ← strip_prefix " SET " r;
  '(col, r) ← read_ident r;
  r ← strip_prefix (" = $1::text::" +:+ ct) r;
  r ← strip_prefix " WHERE " r;
  '(pk, r) ← read_ident r;
  if String.eqb r (" = $2::text::" +:+ pt) then Some (name, col, pk) else None.

Lemma update_reads req ct pt :
  read_update ct pt (update_sql req ct pt)
  = Some ([su_schema req; su_table req], su_col req, su_pk_col req).
Proof.
  unfold update_sql, read_update. rewrite strip_prefix_app. cbn [mbind option_bind].
  rewrite read_qualified by done. cbn [mbind option_bind]. rewrite strip_prefix_app.
  cbn [mbind option_bind].
  change Api.quote_ident with ToolsLoad.quote_ident.
  rewrite read_quote_ident by done. cbn [mbind option_bind].
  rewrite (str_app_assoc " = $1::text::" ct), strip_prefix_app. cbn [mbind option_bind].
  rewrite strip_prefix_app. cbn [mbind option_bind].
  rewrite read_quote_ident by done. cbn [mbind option_bind]. by rewrite String.eqb_refl.
Qed.

Lemma insert_reads schema table cols types :
  cols <> [] -> exists rest,
  read_insert (insert_sql schema table cols types) = Some ([schema; table], cols, rest).
Proof.
  intros Hne. eexists. unfold insert_sql, read_insert. rewrite strip_prefix_app.
  cbn [mbind option_bind]. rewrite read_qualified by done. cbn [mbind option_bind].
  rewrite strip_prefix_app. cbn [mbind option_bind].
  change (map quote_ident cols) with (map ToolsLoad.quote_ident cols).
  rewrite map_quote_ident, read_idents; [|done|apply join_idents_length|done..].
  cbn [mbind option_bind]. change ") VALUES (" with (") VALUES " +:+ "(").
  rewrite <- str_app_assoc. by rewrite strip_prefix_app.
Qed.

(** The update as the catalog makes it: its table and its columns are there,
    they are the identifiers of the statement, and the values are bound. *)
Definition is_update (req : SchemaUpdateReq) (sql : string) (args : list datum) : Prop :=
  exists ct pt, column_of (su_schema req) (su_table req) (su_col req) = Some ct /\
    column_of (su_schema req) (su_table req) (su_pk_col req) = Some pt /\
    sql = update_sql req ct pt /\
    read_update ct pt sql = Some ([su_schema req; su_table req], su_col req, su_pk_col req) /\
    args = [sql_param (su_val req); sql_param (su_pk_val req)].

Definition is_insert (schema table : string) (values : list (string * json)) (sql : string)
    (args : list datum) : Prop :=
  exists types rest,
    Forall2 (fun cv ty => column_of schema table cv.1 = Some ty) values types /\
    sql = insert_sql schema table (map fst values) types /\
    read_insert sql = Some ([schema; table], map fst values, rest) /\
    args = map (fun cv => sql_param cv.2) values.

Lemma wp_schema_update req s :
  wp from_catalog (lookups_and (is_update req)) (schema_update st req) s (fun _ _ => True).
Proof.
  apply wp_prog_try, wp_connect; [done| |done].
  apply wp_prog_try, wp_require_table; [|done]. intros _.
  apply wp_prog_try, wp_require_column; [|done]. intros ct Hc.
  apply wp_prog_try, wp_require_column; [|done]. intros pt Hp.
  apply wp_prog_try, wp_bind, wp_prog_try, wp_perform; [right; right; exists ct, pt; by rewrite update_reads|].
  by intros [[n rows]|e] _.
Qed.

Lemma wp_column_types P schema table values s (Q : _ -> _ -> Prop) :
  (forall types, Forall2 (fun cv ty => column_of schema table cv.1 = Some ty) values types ->
     Q s (Ok types)) -> (forall e, Q s (Err e)) ->
  wp from_catalog (lookups_and P) (column_types schema table values) s Q.
Proof.
  revert Q. induction values as [|[col v] values IH]; intros Q Hok Herr; [by apply Hok|].
  apply wp_prog_try, wp_require_column; [intros ty Hty|apply Herr].
  apply wp_prog_try, IH; [intros types Htypes|apply Herr]. apply wp_ret, Hok. by constructor.
Qed.

Lemma wp_schema_insert schema table values s :
  wp from_catalog (lookups_and (is_insert schema table values))
    (schema_insert st schema table values) s (fun _ _ => True).
Proof.
  apply wp_prog_try, wp_connect; [done| |done].
  apply wp_prog_try, wp_require_table; [|done]. intros _.
  destruct values as [|cv values]; [done|]. set (l := cv :: values).
  apply wp_prog_try, wp_column_types; [|done]. intros types Htypes.
  destruct (insert_reads schema table (map fst l) types) as [rest Hrest]; [done|].
  apply wp_prog_try, wp_bind, wp_prog_try, wp_perform; [right; right; by exists types, rest|].
  by intros [[n rows]|e] _.
Qed.

(** *** One statement *)

Definition consistent (tr : list call) : Prop :=
  Forall (fun c => match c with Call e x => from_catalog _ e x end) tr.
Definition is_lookup (c : call) : Prop :=
  match c with Call e _ => lookups_and (fun _ _ => False) ExecutorOutcome_default _ e end.

(** A call of the client that failed. *)
Definition failed_call (c : call) : Prop :=
  match c with
  | Call e x =>
      match e in eff X return X -> Prop with
      | ETokio _ => fun r => is_ok r = false
      | _ => fun _ => False
      end x
  end.

(** A phase makes lookups; it fails when one of them does, or for [why]. *)
Definition phase {A E} (p : prog (result A E)) (good : A -> Prop) (why : Prop) : Prop :=
  forall tr r, steps p tr r -> consistent tr ->
    Forall is_lookup tr /\
    match r with Ok a => good a | Err _ => Exists failed_call tr \/ why end.

(** Lookups and then the one statement, whose answer decides the result; or
    lookups only and an error, because one failed or for [why]. *)
Definition one_edit (p : prog (result json HarnessError)) (P : string -> list datum -> Prop)
    (answer : Z -> json) (why : Prop) : Prop :=
  forall tr r, steps p tr r -> consistent tr ->
    (Forall is_lookup tr /\ is_ok r = false /\ (Exists failed_call tr \/ why)) \/
    exists looks sql args x, tr = looks ++ [Call (ETokio (TkQuery sql args)) x] /\
      Forall is_lookup looks /\ P sql args /\
      r = match x with Ok (n, _) => Ok (answer n) | Err e => Err (HarnessError_Db e) end.

Lemma phase_result {A E} (r0 : result A E) (good : A -> Prop) (why : Prop) :
  match r0 with Ok a => good a | Err _ => why end -> phase (mret r0) good why.
Proof. intros Hg tr r [-> ->] _. split; [done|]. destruct r0; [done|by right]. Qed.

Lemma phase_try {A B E} (p : prog (result A E)) (k : A -> prog (result B E))
    (good : A -> Prop) (good' : B -> Prop) (why why' : Prop) :
  phase p good why -> (why -> why') -> (forall a, good a -> phase (k a) good' why') ->
  phase (prog_try p k) good' why'.
Proof.
  intros Hp Hw Hk tr r [(a & tr1 & tr2 & -> & Hs1 & Hs2)|(e & Hs & ->)]%steps_prog_try Hc.
  - apply Forall_app in Hc as [Hc1 Hc2]. destruct (Hp _ _ Hs1 Hc1) as [Hl1 Hg].
    destruct (Hk a Hg _ _ Hs2 Hc2) as [Hl2 Hr]. split; [by apply Forall_app|].
    destruct r; [done|]. rewrite Exists_app. tauto.
  - destruct (Hp _ _ Hs Hc) as [Hl Hr]. split; [done|]. tauto.
Qed.

Lemma one_edit_try {A} (p : prog (result A HarnessError)) k (good : A -> Prop) P answer (why why' : Prop) :
  phase p good why -> (why -> why') -> (forall a, good a -> one_edit (k a) P answer why') ->
  one_edit (prog_try p k) P answer why'.
Proof.
  intros Hp Hw Hk tr r [(a & tr1 & tr2 & -> & Hs1 & Hs2)|(e & Hs & ->)]%steps_prog_try Hc.
  - apply Forall_app in Hc as [Hc1 Hc2]. destruct (Hp _ _ Hs1 Hc1) as [Hl1 Hg].
    destruct (Hk a Hg _ _ Hs2 Hc2) as [(Hl2 & Hr & Hf)|(looks & sql & args & x & -> & Hl2 & HP & ->)].
    + left. split; [by apply Forall_app|]. split; [done|]. rewrite Exists_app. tauto.
    + right. exists (tr1 ++ looks), sql, args, x. rewrite <- app_assoc. split; [done|].
      split; [by apply Forall_app|done].
  - destruct (Hp _ _ Hs Hc) as [Hl Hr]. left. split; [done|]. split; [done|]. tauto.
Qed.

Lemma phase_db {A} (p : prog (result A TokioError)) good why : phase p good why -> phase (db p) good why.
Proof.
  intros Hp tr r (tr1 & tr2 & o & -> & Hs & [-> ->])%steps_bind. rewrite app_nil_r. intros Hc.
  destruct (Hp _ _ Hs Hc) as [Hl Hr]. split; [done|]. by destruct o.
Qed.

Lemma phase_call c :
  is_lookup (Call (ETokio c) (Err row_count_error)) ->
  phase (tk_call c) (fun r => from_catalog _ (ETokio c) (Ok r)) False.
Proof.
  intros Hl tr r ->%steps_perform Hc. apply Forall_cons in Hc as [Hc _].
  split; [by constructor|]. destruct r; [done|]. left. by constructor.
Qed.

(** A column that does not hold its type panics: nothing follows. *)
Lemma phase_get {A B E} (dec : datum -> option A) i row (k : A -> prog (result B E)) good why :
  (forall a, row !! i ≫= dec = Some a -> phase (k a) good why) ->
  phase (get dec i row ≫= k) good why.
Proof.
  intros Hk. unfold get. destruct (row !! i ≫= dec) as [a|]; [by apply Hk|].
  by intros tr r ([] & _) _.
Qed.

Lemma phase_connect : phase (connect (db_url st)) (fun _ => True) False.
Proof.
  apply phase_db. eapply phase_try; [by apply phase_call|done|]. intros a _. by apply phase_result.
Qed.

Lemma phase_require_table schema table :
  phase (require_table schema table) (fun _ => is_Some (catalog schema table))
    (catalog schema table = None).
Proof.
  eapply phase_try with (why := False)
    (good := fun b => b = bool_decide (is_Some (catalog schema table))); [|done|].
  - eapply phase_try with (good := fun row => row = [DBool (bool_decide (is_Some (catalog schema table)))]);
      [|done|].
    + apply phase_db. eapply phase_try with (why := False)
        (good := fun rows => rows = [[DBool (bool_decide (is_Some (catalog schema table)))]]); [|done|].
      * eapply phase_try; [apply phase_call; simpl; by left|done|].
        intros [n rows] Hr. apply phase_result. exact (Hr eq_refl n rows eq_refl).
      * intros rows ->. by apply phase_result.
    + intros row ->. apply phase_get. intros b [= <-]. by apply phase_result.
  - intros b ->. apply phase_result. case_bool_decide as Hb; [done|]. by apply eq_None_not_Some.
Qed.

Lemma phase_require_column schema table col what :
  phase (require_column schema table col what)
    (fun ty => column_of schema table col = Some ty) (column_of schema table col = None).
Proof.
  eapply phase_try with (why := False) (good := fun ty => ty = column_of schema table col); [|done|].
  - eapply phase_try with (good := fun row => row = (fun ty => [DText ty]) <$> column_of schema table col);
      [|done|].
    + apply phase_db. eapply phase_try with (why := False)
        (good := fun rows => rows = match column_of schema table col with
                                    | Some ty => [[DText ty]] | None => [] end); [|done|].
      * eapply phase_try; [apply phase_call; simpl; by right; left|done|].
        intros [n rows] Hr. apply phase_result. exact (Hr eq_refl n rows eq_refl).
      * intros rows ->. apply phase_result. by destruct (column_of schema table col).
    + intros row ->. destruct (column_of schema table col) as [ty|]; [|by apply phase_result].
      apply phase_get. intros ty' [= <-]. by apply phase_result.
  - intros ty ->. apply phase_result. by destruct (column_of schema table col).
Qed.

Lemma phase_column_types schema table values :
  phase (column_types schema table values)
    (fun types => Forall2 (fun cv ty => column_of schema table cv.1 = Some ty) values types)
    (Exists (fun cv => column_of schema table cv.1 = None) values).
Proof.
  induction values as [|[col v] values IH]; [by apply phase_result|].
  eapply phase_try; [apply phase_require_column|by left|]. intros ty Hty.
  eapply phase_try; [apply IH|by right|]. intros types Htypes. apply phase_result. by constructor.
Qed.

Lemma one_edit_execute sql args (P : string -> list datum -> Prop) answer why :
  P sql args ->
  one_edit (prog_try (db (tk_execute sql args)) (fun n => mret (Ok (answer n)))) P answer why.
Proof.
  intros HP tr r Hs _. right.
  assert (Hx : forall t o, steps (db (tk_execute sql args)) t o -> exists x,
            t = [Call (ETokio (TkQuery sql args)) x] /\
            o = match x with Ok (n, _) => Ok n | Err e => Err (HarnessError_Db e) end).
  { intros t o (t1 & t2 & o1 & -> & Ht & [-> ->])%steps_bind. rewrite app_nil_r.
    apply steps_prog_try in Ht as [(a & t3 & t4 & -> & ->%steps_perform & [-> ->])|(e & ->%steps_perform & ->)].
    - exists (Ok a). by destruct a.
    - by exists (Err e). }
  apply steps_prog_try in Hs as [(n & t1 & t2 & -> & (x & -> & Hn)%Hx & [-> ->])|(e & (x & -> & He)%Hx & ->)].
  - exists [], sql, args, x. split; [done|]. split; [done|]. split; [done|].
    destruct x as [[m rows]|]; [by injection Hn as ->|done].
  - exists [], sql, args, x. split; [done|]. split; [done|]. split; [done|].
    destruct x as [[m rows]|]; [done|by injection He as ->].
Qed.

Lemma one_edit_update req :
  one_edit (schema_update st req) (is_update req) (fun n => ok_json [("updated", json_u64 n)])
    (catalog (su_schema req) (su_table req) = None
     \/ column_of (su_schema req) (su_table req) (su_col req) = None
     \/ column_of (su_schema req) (su_table req) (su_pk_col req) = None).
Proof.
  eapply one_edit_try; [apply phase_connect|done|]. intros _ _.
  eapply one_edit_try; [apply phase_require_table|tauto|]. intros _ _.
  eapply one_edit_try; [apply phase_require_column|tauto|]. intros ct Hc.
  eapply one_edit_try; [apply phase_require_column|tauto|]. intros pt Hp.
  apply one_edit_execute. exists ct, pt. by rewrite update_reads.
Qed.

Lemma one_edit_insert schema table values :
  one_edit (schema_insert st schema table values) (is_insert schema table values)
    (fun n => ok_json [("inserted", json_u64 n)])
    (values = [] \/ catalog schema table = None
     \/ Exists (fun cv => column_of schema table cv.1 = None) values).
Proof.
  eapply one_edit_try; [apply phase_connect|done|]. intros _ _.
  eapply one_edit_try; [apply phase_require_table|tauto|]. intros _ _.
  destruct values as [|cv values].
  { intros tr r [-> ->] _. left. split; [done|]. split; [done|]. by right; left. }
  set (l := cv :: values).
  eapply one_edit_try; [apply phase_column_types|tauto|]. intros types Htypes.
  apply one_edit_execute.
  destruct (insert_reads schema table (map fst l) types) as [rest Hrest]; [done|]. by exists types, rest.
Qed.

(** C37: Editing a table in the browser.  Whatever names and values a request
    holds, the database is asked for nothing but the two lookups and an UPDATE
    or INSERT on a table and columns that the catalog lists; read as Postgres
    reads it, the statement names exactly that table and those columns, the
    key column of the condition included, and every value is bound to it, cast
    to the type of its column, rather than written into it.  The statement is
    sent exactly once, after the lookups, and its answer is the result; it is
    not sent, and the result is an error, only when a call before it failed,
    the table or a column is not in the catalog, or an insert has no value. *)
Theorem browser_edits_are_catalogued :
  (forall req s,
    wp from_catalog (lookups_and (is_update req)) (schema_update st req) s (fun _ _ => True)) /\
  (forall schema table values s,
    wp from_catalog (lookups_and (is_insert schema table values))
      (schema_insert st schema table values) s (fun _ _ => True)) /\
  (forall req,
    one_edit (schema_update st req) (is_update req) (fun n => ok_json [("updated", json_u64 n)])
      (catalog (su_schema req) (su_table req) = None
       \/ column_of (su_schema req) (su_table req) (su_col req) = None
       \/ column_of (su_schema req) (su_table req) (su_pk_col req) = None)) /\
  forall schema table values,
    one_edit (schema_insert st schema table values) (is_insert schema table values)
      (fun n => ok_json [("inserted", json_u64 n)])
      (values = [] \/ catalog schema table = None
       \/ Exists (fun cv => column_of schema table cv.1 = None) values).
Proof.
  split_and!; intros; [apply wp_schema_update|apply wp_schema_insert|apply one_edit_update
    |apply one_edit_insert].
Qed.
End browser.

(** ** The console and the files *)

(** The console keeps at most [SQL_ROW_CAP] rows, the first ones, and says
    when it left some out. *)
Definition row_cells (m : SimpleQueryMessage) : option (list (option string)) :=
  match m with SimpleRow _ cells => Some cells | _ => None end.

Lemma console_is_capped msgs :
  Api.co_rows (Api.take_messages msgs) = take Api.SQL_ROW_CAP (omap row_cells msgs) /\
  Api.co_truncated (Api.take_messages msgs)
  = bool_decide (Api.SQL_ROW_CAP < length (omap row_cells msgs))%nat.
Proof.
  unfold Api.take_messages. induction msgs as [|m msgs [IHr IHt]] using rev_ind; [done|].
  rewrite fold_left_app, omap_app. set (c := fold_left Api.take_message msgs _) in *.
  destruct m as [cols cells|n|]; cbn [fold_left Api.take_message omap list_omap row_cells];
    cbn [Api.co_rows Api.co_truncated]; rewrite ?app_nil_r; [|done..].
  generalize dependent Api.SQL_ROW_CAP. intros cap IHr IHt. rewrite IHr, length_take, length_app.
  destruct (Nat.ltb_spec (cap `min` length (omap row_cells msgs)) cap); simpl.
  - rewrite IHt, !take_ge by (rewrite ?length_app; simpl; lia). split; [done|].
    rewrite !bool_decide_eq_false_2; [done|lia..].
  - rewrite take_app_le by lia. split; [done|]. rewrite bool_decide_eq_true_2; [done|lia].
Qed.

(** A name that is accepted stays in the directory: it has no separator, is
    not a dot segment, and is one component of the path. *)
Lemma safe_name_stays dir name :
  Files.safe_name name = Ok tt ->
  contains name "/" = false /\ contains name ".." = false /\ name <> "" /\ name <> "." /\
  Api.join_path dir name = segments dir ++ [name].
Proof.
  unfold Files.safe_name. destruct (_ || _) eqn:E; [done|]. intros _.
  rewrite !orb_false_iff in E. destruct E as (((((He & _) & Hs) & _) & Hd) & Hp).
  split_and!; [done|done|by intros ->|by intros ->|done].
Qed.

(** An upload whose name has two dots in a row, or is long, is stored under a
    name that is never accepted afterwards. *)
Example stored_and_never_processed :
  let name := Api.sanitize_upload_filename 0 "a..b.csv" in
  name = "00000000-a..b.csv" /\ Files.safe_name name <> Ok tt.
Proof. by vm_compute. Qed.

(** Every table and probe that a scenario names is one the server knows. *)
Lemma scenarios_are_served :
  Forall (fun s =>
    Forall (fun t => is_Some (Api.assoc_str t Api.TABLE_QUERIES)) (Scenarios.sn_watch_tables s) /\
    Forall (fun p => is_Some (Api.assoc_str (Scenarios.pr_key p) Api.PROBE_QUERIES))
      (Scenarios.sn_probes s)) Scenarios.SCENARIOS.
Proof. apply (bool_decide_unpack _). by vm_compute. Qed.

(** The workloads are named apart. *)
Lemma workloads_distinct : NoDup (map Workload.w_name Workload.WORKLOADS).
Proof. apply (bool_decide_unpack _). by vm_compute. Qed.

(** Limits that are accepted are within bounds. *)
Lemma accepted_limits req :
  Schedules.check_limits req = Ok tt ->
  (forall n, Schedules.lm_max_iterations req = Some n -> 1 <= n <= 100) /\
  (forall ms, Schedules.lm_timeout_ms req = Some ms -> 1000 <= ms <= 1800000) /\
  (forall t, Schedules.lm_model_tier req = Some t -> t = "small" \/ t = "large").
Proof.
  unfold Schedules.check_limits. intros Hr.
  apply result_bind_ok in Hr as ([] & H1 & ([] & H2 & ([] & _ & H4)%result_bind_ok)%result_bind_ok).
  split_and!.
  - intros n Hn. rewrite Hn in H1. destruct (Z.leb_spec 1 n), (Z.leb_spec n 100); (done || lia).
  - intros ms Hm. rewrite Hm in H2. destruct (Z.leb_spec 1000 ms), (Z.leb_spec ms 1800000); (done || lia).
  - intros t Ht. rewrite Ht in H4.
    destruct (String.eqb_spec t "small"), (String.eqb_spec t "large"); by auto.
Qed.

(** The routes do not overlap: no two patterns of one method are the same up
    to the names of their parameters, and none hides another. *)
Fixpoint overlap (a b : list string) : bool :=
  match a, b with
  | [], [] => true
  | x :: a, y :: b => (starts_with x "{" || starts_with y "{" || String.eqb x y) && overlap a b
  | _, _ => false
  end.
Definition route_pattern (r : string * string * string) : list string := segments r.1.2.
Definition clash (r q : string * string * string) : bool :=
  String.eqb r.1.1 q.1.1 && overlap (route_pattern r) (route_pattern q).

Lemma routes_do_not_overlap :
  forallb (fun r => Nat.eqb (length (List.filter (clash r) Main.ROUTES)) 1) Main.ROUTES = true.
Proof. by vm_compute. Qed.

(** The driver is off for an interval of zero only, and an interval that does
    not parse is the default. *)
Example driver_interval :
  Main.scheduler_secs (fun _ => Some "0") = 0 /\ Main.scheduler_secs (fun _ => Some "off") = 60.
Proof. by vm_compute. Qed.

(** ** Instances *)

#[local] Instance demo_derive : DeriveLib :=
  {| serde_error := fun _ _ => "bad"; schema_for := fun _ => JNull |}.
#[local] Instance demo_mcp : McpLib := {| client_build_error := None; root_schema := Ok |}.
#[local] Existing Instance demo_tokio.
#[local] Instance demo_printers : Printers :=
  {| fmt_uuid := fun _ => "uuid"; fmt_timestamp := fun _ => "now"; json_to_string := fun _ => "{}" |}.
#[local] Instance demo_unicode : UnicodeTables := {| unicode_lowercase := fun s => s |}.
#[local] Existing Instance demo_wire.

Definition demo_url : string := "http://demo/mcp".
Definition one_tool : ToolRegistry := {["sql_query" := external_tool "sql_query" JNull]}.

Lemma demo_tools_are_the_servers_witness :
  exists r' : ToolRegistry,
    steps (served demo_url (McpServer.rpc demo_state) (Client.add_mcp demo_url one_tool))
      [Call ECounter 1; Call ECounter 2] (Ok tt, r') /\
    r' !! "sql_query" = one_tool !! "sql_query".
Proof.
  assert (Hs : exists r',
    steps (served demo_url (McpServer.rpc demo_state) (Client.add_mcp demo_url one_tool))
      [Call ECounter 1; Call ECounter 2] (Ok tt, r')).
  { eexists. exists 1. eexists. split; [reflexivity|]. exists 2. eexists. split; [reflexivity|].
    split; reflexivity. }
  destruct Hs as [r' Hs]. exists r'. split; [exact Hs|].
  destruct (demo_tools_are_the_servers demo_state demo_url one_tool [Call ECounter 1; Call ECounter 2]
    (Ok tt) r' McpServer.list_apps_schema McpServer.ask_schema
    McpServer.run_agent_schema) as (_ & _ & Ho & _); [reflexivity..|exact Hs|].
  apply Ho. apply (bool_decide_unpack _). by vm_compute.
Defined.

(** A run whose connection fails. *)
Definition started : Runs.pool := Runs.start_run "url" 1 "agent" "input" 5 (Runs.mkPool ∅ ∅).
Definition refused_run : Runs.RunState :=
  Runs.failed "database error: refused" false 0 (Runs.new_run 1 "agent" "input" 5).

Lemma started_reachable : Runs.reachable started.
Proof. apply rtc_once. by apply Runs.step_start. Qed.

Lemma run_lifecycle_witness :
  exists p', rtc Runs.step started p' /\ Runs.registry p' !! (1 : Uuid) = Some refused_run /\
    exists s', Runs.registry p' !! (1 : Uuid) = Some s' /\
      later (Runs.new_run 1 "agent" "input" 5) s'.
Proof.
  assert (Hp : exists p', rtc Runs.step started p' /\
    Runs.registry p' !! (1 : Uuid) = Some refused_run).
  { eexists. split.
    - eapply rtc_l; [eapply (Runs.step_await _ 1 _ _ _ (Err (mkTokioError "refused" None None)));
        reflexivity|].
      eapply rtc_l; [eapply (Runs.step_await _ 1 _ _ _ (Some 0)); reflexivity|].
      apply rtc_once. eapply (Runs.step_update _ 1). reflexivity.
    - by vm_compute. }
  destruct Hp as (p' & Hr & Hs). exists p'. split; [exact Hr|]. split; [exact Hs|].
  destruct (run_lifecycle started p' 1 (Runs.new_run 1 "agent" "input" 5) started_reachable Hr)
    as (_ & _ & _ & Hl); [by vm_compute|exact Hl].
Defined.

(** ** A generator that is reset while it inserts *)

Definition orders : Workload.target := nth 0 Workload.WORKLOADS ("", "", "", "").

(** Started, connected and past its check. *)
Definition busy : Workload.world :=
  Workload.mkWorld [false] {["orders" := 0%nat]} [Workload.Answered]
    [Workload.mkGenerator 0 orders 10 Workload.Inserting] [].

(** Reset: the flag is set and the tables are emptied. *)
Definition emptied : Workload.world :=
  Workload.mkWorld [true] ∅ [Workload.Answered; Workload.Answered]
    [Workload.mkGenerator 0 orders 10 Workload.Inserting] [(None, Workload.w_reset orders)].

Definition inserted_after : Workload.world :=
  Workload.mkWorld [true] ∅ [Workload.Answered; Workload.Answered]
    [Workload.mkGenerator 0 orders 10 Workload.Sleeping]
    [(None, Workload.w_reset orders); (Some 0%nat, Workload.w_insert orders)].

Lemma busy_reachable : Workload.reachable busy.
Proof.
  eapply rtc_l; [eapply (Workload.step_start _ orders 10); reflexivity|].
  eapply rtc_l; [eapply (Workload.step_request _ 0); reflexivity|].
  eapply rtc_l; [eapply (Workload.step_request _ 0); reflexivity|].
  eapply rtc_l; [eapply (Workload.step_generator _ 0); [reflexivity|by apply Workload.gen_connected]|].
  eapply rtc_l; [eapply (Workload.step_generator _ 0); [reflexivity|by apply Workload.gen_goes_on]|].
  exact (rtc_refl _ _).
Qed.

Lemma busy_emptied : rtc Workload.step busy emptied.
Proof.
  eapply rtc_l; [eapply (Workload.step_reset _ orders); reflexivity|].
  eapply rtc_l; [eapply (Workload.step_request _ 1); reflexivity|].
  eapply rtc_l; [eapply (Workload.step_request _ 1); reflexivity|].
  exact (rtc_refl _ _).
Qed.

(** The rows of the insertion that was under way land in the emptied table. *)
Lemma insert_lands_after_reset : Workload.step emptied inserted_after.
Proof.
  exact (Workload.step_generator emptied 0 _ _ _ eq_refl 
    (Workload.gen_inserts emptied (Workload.mkGenerator 0 orders 10 Workload.Inserting) eq_refl)).
Qed.

Lemma generators_obey_their_flags_witness :
  Workload.flags emptied !! 0%nat = Some true /\ inserts 0 inserted_after = 1%nat /\
  (inserts 0 inserted_after <= inserts 0 emptied + 1)%nat.
Proof.
  split; [reflexivity|]. split; [reflexivity|].
  destruct (generators_obey_their_flags emptied) as [_ Hb].
  - unfold Workload.reachable. etrans; [apply busy_reachable|apply busy_emptied].
  - apply Hb; [reflexivity|]. apply rtc_once, insert_lands_after_reset.
Defined.
