(* ===== verification/PgSchema.v ===== *)
(** * Programs of the SQL schema ([crates/pg-synapse-pgrx/sql/schema.sql])

    The scheduler's [tick] ([Module Scheduler]) and the registration and removal
    of apps ([Module Apps]).  A function of the schema runs in one transaction:
    an error leaves the tables as they were.  Times are microseconds; the
    arithmetic of Postgres on numerics and timestamps is a parameter. *)

From S2P Require Import Prelude.
From S2P Require Import RustStr.
From S2P Require Import Json.
From S2P Require Import NumText.
From S2P Require Import Types.
From S2P Require Import Effects.
From S2P Require Import StrSlice.
From S2P Require Import LoopHarness.
From S2P Require Import PgQueueProps.
#[local] Open Scope synapse_scope.

(** A row of [synapse.agent_queue]; [Done] and [Failed] are over. *)
Record Job := mkJob {
  j_id : Uuid;
  j_agent : string;
  j_input : string;
  j_source : option string;
  j_status : job_status }.

Definition is_active (s : job_status) : bool :=
  match s with Queued | Running => true | Done | Failed => false end.

(** ** Schedules *)

Module Scheduler.

(** An [interval] of Postgres: months, days and a time of day are kept apart. *)
Record Interval := mkInterval { iv_months : Z; iv_days : Z; iv_micros : Z }.

Definition DAY : Z := 86400 * 1000000.

(** [EXTRACT(epoch FROM i)], in microseconds: years of 365.25 days, other months
    of 30. *)
Definition epoch (i : Interval) : Z :=
  (Z.quot (iv_months i) 12 * 1461 + Z.rem (iv_months i) 12 * 120 + iv_days i * 4) * (DAY / 4)
    + iv_micros i.

(** What comparison of intervals counts: months of 30 days.  The table checks
    [every_interval > interval '0']. *)
Definition compared (i : Interval) : Z := (iv_months i * 30 + iv_days i) * DAY + iv_micros i.
Definition interval_positive (i : Interval) : bool := 0 <? compared i.

(** [floor] of the quotient of two epochs as numerics, and a timestamp plus a
    multiple of an interval, in the time zone of the session. *)
Class PgTime := {
  floor_quotient : Z -> Z -> Z;
  add_times : Z -> Interval -> Z -> result Z string }.

Record Schedule := mkSchedule {
  schedule_id : Uuid;
  sc_app : string;
  sc_agent : string;
  sc_input : string;
  every_interval : Interval;
  next_run_at : Z;
  last_run_at : option Z;
  enabled : bool }.

Record Db := mkDb { schedules : list Schedule; queue : list Job }.

(** The [EXISTS] of the query: any job of the agent, whoever enqueued it. *)
Definition has_active (q : list Job) (agent : string) : bool :=
  existsb (fun j => String.eqb (j_agent j) agent && is_active (j_status j)) q.

Definition due (now : Z) (db : Db) (s : Schedule) : bool :=
  enabled s && (next_run_at s <=? now) && negb (has_active (queue db) (sc_agent s)).

Section tick.
Context `{PgTime}.

(** The order of the rows ([ORDER BY next_run_at], ties in any order), the rows
    other sessions have locked, and the ids of the new jobs. *)
Context (order : list Schedule -> list Schedule) (locked : Uuid -> bool) (ids : nat -> Uuid).

Definition INT_OUT_OF_RANGE : string := "integer out of range".
Definition to_int4 (n : Z) : result Z string :=
  if (I32_MIN <=? n) && (n <=? I32_MAX) then Ok n else Err INT_OUT_OF_RANGE.

(** [floor(...)::int + 1] *)
Definition steps_ahead (now : Z) (s : Schedule) : result Z string :=
  let e := epoch (every_interval s) in
  if e =? 0 then Err "division by zero"
  else
    k <-? to_int4 (floor_quotient (now - next_run_at s) e) ;;
    to_int4 (k + 1).

Definition set_next (t now : Z) (s : Schedule) : Schedule :=
  mkSchedule (schedule_id s) (sc_app s) (sc_agent s) (sc_input s) (every_interval s) t (Some now)
    (enabled s).

Definition advance (now : Z) (s : Schedule) : result Z string :=
  k <-? steps_ahead now s ;;
  add_times (next_run_at s) (every_interval s) k.

(** [UPDATE ... WHERE schedule_id = id] *)
Definition store (id : Uuid) (t now : Z) (rows : list Schedule) : list Schedule :=
  map (fun s => if schedule_id s =? id then set_next t now s else s) rows.

Definition scheduled_job (id : Uuid) (s : Schedule) : Job :=
  mkJob id (sc_agent s) (sc_input s) (Some "schedule") Queued.

(** The loop over the rows found when it starts. *)
Fixpoint fire (now : Z) (rows : list Schedule) (fired : nat) (db : Db) : result (Z * Db) string :=
  match rows with
  | [] => Ok (Z.of_nat fired, db)
  | s :: rest =>
      let queued := queue db ++ [scheduled_job (ids fired) s] in
      t <-? advance now s ;;
      fire now rest (S fired) (mkDb (store (schedule_id s) t now (schedules db)) queued)
  end.

Definition fires (now : Z) (db : Db) (s : Schedule) : bool :=
  due now db s && negb (locked (schedule_id s)).

(** The rows the loop goes over, which it locks. *)
Definition scan (now : Z) (db : Db) : list Schedule :=
  order (List.filter (fires now db) (schedules db)).

Definition tick (now : Z) (db : Db) : result (Z * Db) string := fire now (scan now db) 0 db.
End tick.

(** *** One tick *)

(** An interval whose multiples add their epoch: hours and less in any zone,
    days where the zone does not change its clocks. *)
Class PgTimeLaws `{PgTime} (steady : Interval -> Prop) := {
  floor_quotient_exact : forall d e, 0 <= d < 10 ^ 16 -> 0 < e -> floor_quotient d e = d / e;
  add_times_steady : forall t i k, steady i -> 0 <= k -> k * epoch i < 2 ^ 53 ->
    add_times t i k = Ok (t + k * epoch i) }.

(** The next occurrence after [now] in step with [next_run_at]. *)
Definition next_after (now : Z) (s : Schedule) : Z :=
  next_run_at s + ((now - next_run_at s) / epoch (every_interval s) + 1) * epoch (every_interval s).

Section props.
Context `{PgTimeLaws}.
Context (order : list Schedule -> list Schedule) (locked : Uuid -> bool) (ids : nat -> Uuid).
Context (order_perm : forall l, order l ≡ₚ l).

(** A schedule on which the arithmetic is exact: positive, at most 300 years
    late, and not so short that the missed runs overflow an [int]. *)
Definition regular (now : Z) (s : Schedule) : Prop :=
  steady (every_interval s) /\ 0 < epoch (every_interval s) < 2 ^ 50 /\
  now - next_run_at s < 2 ^ 52 /\ (now - next_run_at s) / epoch (every_interval s) + 1 <= I32_MAX.

Lemma next_after_bounds now s :
  0 < epoch (every_interval s) -> next_run_at s <= now ->
  now < next_after now s /\ next_after now s - epoch (every_interval s) <= now.
Proof.
  intros He Hn. unfold next_after.
  pose proof (Z.div_mod (now - next_run_at s) (epoch (every_interval s)) ltac:(lia)).
  pose proof (Z.mod_pos_bound (now - next_run_at s) (epoch (every_interval s)) He). nia.
Qed.

Lemma advance_regular now s :
  regular now s -> next_run_at s <= now -> advance now s = Ok (next_after now s).
Proof.
  intros (Hst & He & Hlate & Hk) Hn. unfold advance, steps_ahead.
  set (d := now - next_run_at s) in *. set (e := epoch (every_interval s)) in *.
  rewrite (proj2 (Z.eqb_neq e 0)) by lia.
  rewrite (floor_quotient_exact (steady := steady)) by lia.
  assert (0 <= d / e) by (apply Z.div_pos; lia).
  unfold to_int4, I32_MIN, I32_MAX in *.
  rewrite (proj2 (Z.leb_le _ (d / e))), (proj2 (Z.leb_le (d / e) _)) by lia. cbn [andb result_bind].
  rewrite (proj2 (Z.leb_le _ (d / e + 1))), (proj2 (Z.leb_le (d / e + 1) _)) by lia.
  cbn [andb result_bind].
  pose proof (Z.mul_div_le d e ltac:(lia)).
  rewrite (add_times_steady (steady := steady)) by (done || lia). done.
Qed.

Definition advanced (now : Z) (s : Schedule) : Schedule := set_next (next_after now s) now s.
(** A schedule that fired, and the table after a tick. *)
Definition after (now : Z) (s : Schedule) : Schedule :=
  match advance now s with Ok t => set_next t now s | Err _ => s end.
Definition moved (now : Z) (rows : list Schedule) (s : Schedule) : Schedule :=
  if existsb (fun r => schedule_id r =? schedule_id s) rows then after now s else s.
Definition new_jobs (n : nat) (rows : list Schedule) : list Job :=
  imap (fun i s => scheduled_job (ids (n + i)) s) rows.

Lemma same_id (rows : list Schedule) s s' :
  NoDup (schedule_id <$> rows) -> s ∈ rows -> s' ∈ rows -> schedule_id s = schedule_id s' -> s = s'.
Proof.
  intros Hnd [i Hi]%list_elem_of_lookup [j Hj]%list_elem_of_lookup E.
  assert (i = j) as <-; [|congruence].
  eapply NoDup_lookup; [exact Hnd|by rewrite list_lookup_fmap, Hi|].
  by rewrite list_lookup_fmap, Hj, E.
Qed.

Lemma store_kept {A} (f : Schedule -> A) id t now rows :
  (forall s, f (set_next t now s) = f s) -> f <$> store id t now rows = f <$> rows.
Proof.
  intros Hf. unfold store. rewrite <- list_fmap_compose. apply list_fmap_ext. intros i s _. simpl.
  by destruct (_ =? _).
Qed.

Lemma existsb_id (rows : list Schedule) id :
  existsb (fun r => schedule_id r =? id) rows = true <-> id ∈ schedule_id <$> rows.
Proof.
  rewrite existsb_exists. split.
  - intros (r & Hr & E). apply Z.eqb_eq in E as <-. apply list_elem_of_fmap_2.
    by apply list_elem_of_In.
  - intros (r & -> & Hr)%list_elem_of_fmap. exists r. split; [by apply list_elem_of_In|]. lia.
Qed.

Lemma fire_all now rows n db :
  NoDup (schedule_id <$> schedules db) -> NoDup (schedule_id <$> rows) ->
  Forall (fun s => s ∈ schedules db /\ is_ok (advance now s) = true) rows ->
  fire ids now rows n db
  = Ok (Z.of_nat (n + length rows),
        mkDb (map (moved now rows) (schedules db)) (queue db ++ new_jobs n rows)).
Proof.
  intros Hnd Hr Hall. revert n db Hnd Hall. induction rows as [|s0 rest IH]; intros n db Hnd Hall.
  - simpl. rewrite Nat.add_0_r, app_nil_r. do 2 f_equal. destruct db; simpl. f_equal.
    symmetry. apply list_fmap_id.
  - apply Forall_cons in Hall as [(Hin & Hok) Hall]. apply NoDup_cons in Hr as [Hs0 Hr].
    cbn [fire]. destruct (advance now s0) as [t|e] eqn:Et; [|done]. cbn [result_bind].
    rewrite (IH Hr); cbn [schedules queue].
    + f_equal. f_equal; [simpl; lia|]. f_equal.
      * unfold store. rewrite map_map. apply map_ext_in. intros s Hs.
        apply list_elem_of_In in Hs. unfold moved. cbn [existsb].
        destruct (Z.eqb_spec (schedule_id s) (schedule_id s0)) as [E|E].
        -- assert (s = s0) as -> by by eapply same_id. rewrite Z.eqb_refl. simpl.
           unfold after at 2. rewrite Et. destruct (existsb _ rest) eqn:Ex; [|done].
           apply existsb_id in Ex. done.
        -- assert (schedule_id s0 =? schedule_id s = false) as ->; [|done].
           apply Z.eqb_neq. congruence.
      * unfold new_jobs. simpl. rewrite <- app_assoc, Nat.add_0_r. do 2 f_equal.
        apply imap_ext. intros i s _. simpl. do 2 f_equal. lia.
    + by rewrite store_kept.
    + eapply Forall_impl; [apply Forall_and; split; [exact Hall|]|].
      { apply Forall_forall. intros s Hs. exact Hs. }
      intros s [(Hs & Hoks) Hsr]. split; [|done]. unfold store.
      assert (schedule_id s <> schedule_id s0) as Hne.
      { intros E. apply Hs0. rewrite <- E. by apply list_elem_of_fmap_2. }
      apply list_elem_of_In, in_map_iff. exists s. split; [|by apply list_elem_of_In].
      simpl. by rewrite (proj2 (Z.eqb_neq _ _) Hne).
Qed.

(** A row whose next time cannot be computed makes the whole tick fail. *)
Lemma fire_fails now rows n db s :
  s ∈ rows -> is_ok (advance now s) = false -> exists e, fire ids now rows n db = Err e.
Proof.
  intros Hs. revert n db. induction Hs as [s rows|s s0 rows Hs IH]; intros n db He; cbn [fire].
  - destruct (advance now s); [done|]. cbn [result_bind]. eauto.
  - destruct (advance now s0) as [t|e0]; cbn [result_bind]; [by apply IH|eauto].
Qed.

Lemma filter_ids (f : Schedule -> bool) rows :
  NoDup (schedule_id <$> rows) -> NoDup (schedule_id <$> List.filter f rows).
Proof.
  induction rows as [|s rows IH]; [done|]. rewrite fmap_cons. intros [Hs Hnd]%NoDup_cons. cbn [List.filter].
  destruct (f s); [|by apply IH]. rewrite fmap_cons. apply NoDup_cons. split; [|by apply IH].
  intros (r & E & Hr)%list_elem_of_fmap. apply Hs. rewrite E. apply list_elem_of_fmap_2.
  apply list_elem_of_In, filter_In in Hr as [Hr _]. by apply list_elem_of_In.
Qed.

Lemma filter_none {A} (f : A -> bool) (l : list A) :
  (forall x, x ∈ l -> f x = false) -> List.filter f l = [].
Proof.
  induction l as [|x l IH]; intros Hf; [done|]. simpl. rewrite Hf by left.
  apply IH. intros y Hy. apply Hf. by right.
Qed.

Lemma fired_rows now db s :
  s ∈ scan order locked now db <-> s ∈ schedules db /\ fires locked now db s = true.
Proof. unfold scan. rewrite order_perm, list_elem_of_In, filter_In, list_elem_of_In. done. Qed.

Lemma scan_ids now db :
  NoDup (schedule_id <$> schedules db) -> NoDup (schedule_id <$> scan order locked now db).
Proof. intros Hnd. unfold scan. rewrite order_perm. by apply filter_ids. Qed.

Lemma scan_moved now db s :
  NoDup (schedule_id <$> schedules db) -> s ∈ schedules db ->
  moved now (scan order locked now db) s = if fires locked now db s then after now s else s.
Proof.
  intros Hnd Hs. unfold moved.
  replace (existsb _ _) with (fires locked now db s); [done|].
  apply eq_bool_prop_intro. rewrite !Is_true_true, existsb_id. split.
  - intros Hf. by apply list_elem_of_fmap_2, fired_rows.
  - intros (r & E & [Hr Hf]%fired_rows)%list_elem_of_fmap. by rewrite (same_id _ _ _ Hnd Hs Hr E).
Qed.

Lemma tick_all now db :
  NoDup (schedule_id <$> schedules db) ->
  (forall s, s ∈ scan order locked now db -> is_ok (advance now s) = true) ->
  tick order locked ids now db
  = Ok (Z.of_nat (length (scan order locked now db)),
        mkDb (map (fun s => if fires locked now db s then after now s else s) (schedules db))
          (queue db ++ new_jobs 0 (scan order locked now db))).
Proof.
  intros Hnd Hok. unfold tick. rewrite fire_all; [|done|by apply scan_ids|].
  - do 3 f_equal. apply map_ext_in. intros s Hs%list_elem_of_In. by apply scan_moved.
  - apply Forall_forall. intros s Hs. split; [by apply fired_rows in Hs as []|by apply Hok].
Qed.

Lemma has_active_app q q' a : has_active (q ++ q') a = has_active q a || has_active q' a.
Proof. apply existsb_app. Qed.

(** C27: Scheduling.  A tick that returns has enqueued one job for every
    schedule that is enabled, due, not held back by an active job of its agent
    and not locked, in the order of their times and however many occurrences
    were missed, and has moved each of them once and no other.  It fails, with
    nothing done, exactly when the next time of one of them cannot be computed.
    Where the arithmetic is exact ([regular]: an interval whose multiples add
    its length in seconds, less than about 140 years late and fewer than [2^31]
    occurrences missed) it returns, each schedule is moved by whole intervals to
    its first occurrence after now, and when it skipped no locked row, a second
    tick at the same time fires nothing, whatever is locked then. *)
Theorem tick_fires_once now db :
  NoDup (schedule_id <$> schedules db) ->
  let rows := scan order locked now db in
  let db' := mkDb (map (fun s => if fires locked now db s then after now s else s) (schedules db))
               (queue db ++ new_jobs 0 rows) in
  (forall s, s ∈ rows <-> s ∈ schedules db /\ fires locked now db s = true) /\
  (forall n db1, tick order locked ids now db = Ok (n, db1) ->
     n = Z.of_nat (length rows) /\ db1 = db' /\
     forall s, s ∈ rows -> exists t, advance now s = Ok t /\ after now s = set_next t now s) /\
  ((exists e, tick order locked ids now db = Err e) <->
   exists s, s ∈ rows /\ is_ok (advance now s) = false) /\
  ((forall s, s ∈ rows -> regular now s) ->
   tick order locked ids now db = Ok (Z.of_nat (length rows), db') /\
   (forall s, s ∈ rows ->
      after now s = advanced now s /\ now < next_run_at (advanced now s) /\
      next_run_at (advanced now s) - epoch (every_interval s) <= now /\
      exists k, 1 <= k /\ next_run_at (advanced now s) = next_run_at s + k * epoch (every_interval s)) /\
   ((forall id, locked id = false) -> forall locked', tick order locked' ids now db' = Ok (0, db'))).
Proof.
  intros Hnd rows db'.
  assert (Hcase : (forall s, s ∈ rows -> is_ok (advance now s) = true)
                  \/ exists s, s ∈ rows /\ is_ok (advance now s) = false).
  { clear. induction rows as [|s rows IH]; [left; by intros s ?%elem_of_nil|].
    destruct (is_ok (advance now s)) eqn:E; [|right; exists s; split; [by left|done]].
    destruct IH as [IH|(s' & Hs' & E')]; [left|right; exists s'; split; [by right|done]].
    intros s' [->|Hs']%elem_of_cons; auto. }
  split; [intros s; apply fired_rows|]. split; [|split].
  - intros n db1 Ht. destruct Hcase as [Hok|(s & Hs & Hf)].
    + rewrite tick_all in Ht by done. injection Ht as <- <-. split; [done|]. split; [done|].
      intros s Hs. specialize (Hok s Hs). unfold after. destruct (advance now s); [eauto|done].
    + destruct (fire_fails now rows 0 db s Hs Hf) as [e He]. unfold tick in Ht. fold rows in Ht. congruence.
  - split.
    + intros [e He]. destruct Hcase as [Hok|?]; [|done]. by rewrite tick_all in He.
    + intros (s & Hs & Hf). by eapply fire_fails.
  - intros Hreg.
    assert (Hadv : forall s, s ∈ rows -> 0 < epoch (every_interval s) /\ next_run_at s <= now /\
              advance now s = Ok (next_after now s)).
    { intros s Hs. pose proof (Hreg s Hs) as Hr. pose proof Hr as (_ & He & _).
      apply fired_rows in Hs as [_ Hf]. unfold fires, due in Hf. rewrite !andb_true_iff in Hf.
      split; [lia|]. split; [lia|]. apply advance_regular; [done|lia]. }
    assert (Hafter : forall s, s ∈ rows -> after now s = advanced now s).
    { intros s (_ & _ & E)%Hadv. unfold after. by rewrite E. }
    split; [|split].
    + apply tick_all; [done|]. intros s (_ & _ & E)%Hadv. by rewrite E.
    + intros s Hs. split; [by apply Hafter|]. destruct (Hadv s Hs) as (He & Hn & _). simpl.
      destruct (next_after_bounds now s) as [H1' H2']; [lia|done|]. split_and!; [done..|].
      exists ((now - next_run_at s) / epoch (every_interval s) + 1). split; [|done].
      pose proof (Z.div_pos (now - next_run_at s) (epoch (every_interval s))). lia.
    + intros Hfree locked'. unfold tick, scan.
      assert (List.filter (fires locked' now db') (schedules db') = []) as ->.
      { apply filter_none. intros s' Hs'. apply list_elem_of_fmap in Hs' as (s & -> & Hs).
        apply not_true_iff_false. intros Hf. cbn beta in Hf.
        destruct (fires locked now db s) eqn:Es; unfold fires, due in Hf;
          rewrite !andb_true_iff in Hf; destruct Hf as [[[He Hn] Hact] _].
        - assert (s ∈ rows) as Hin by by apply fired_rows. rewrite Hafter in Hn by done.
          destruct (Hadv s Hin) as (Hep & Hns & _). simpl in Hn.
          destruct (next_after_bounds now s); lia.
        - unfold fires, due in Es. rewrite Hfree, andb_true_r, He, Hn in Es. simpl in Es.
          apply negb_false_iff in Es. cbn [db' queue] in Hact.
          rewrite has_active_app, Es in Hact. done. }
      assert (order [] = []) as -> by (by apply Permutation_nil, Permutation_sym, order_perm).
      done.
Qed.
End props.

(** *** Overlap *)

Definition set_job_status (st : job_status) (j : Job) : Job :=
  mkJob (j_id j) (j_agent j) (j_input j) (j_source j) st.

(** A job of the queue that is not over. *)
Definition active (q : list Job) (id : Uuid) : Prop :=
  exists j, j ∈ q /\ j_id j = id /\ is_active (j_status j) = true.

(** A tick under way: the time of its transaction and the rows it found and
    locked.  [fired] is what committed ticks did: a schedule, the agent it had
    then, and the job. *)
Record Tick := mkTick { t_now : Z; t_rows : list Schedule }.
Record State := mkState {
  st_db : Db;
  st_ticks : list Tick;
  fired : list (Uuid * string * Uuid) }.

Definition locked_rows (ts : list Tick) : list Uuid := schedule_id <$> concat (map t_rows ts).
Definition entries (ids : nat -> Uuid) (rows : list Schedule) : list (Uuid * string * Uuid) :=
  imap (fun i s => (schedule_id s, sc_agent s, ids i)) rows.

(** Ids that no job has had: [gen_random_uuid], [Uuid::new_v4]. *)
Definition fresh (st : State) (id : Uuid) : Prop :=
  id ∉ j_id <$> queue (st_db st) /\ id ∉ (fun e => e.2) <$> fired st.

(** The steps of all sessions.  A tick reads the committed tables and locks its
    rows at one moment, whatever other ticks are under way, and later commits,
    or aborts.  Any job of the queue may be claimed, given back, finished or
    deleted; anyone may enqueue a job, for any agent and from any source; and
    schedules are created, edited and deleted at will, under distinct ids. *)
Inductive step `{PgTime} : State -> State -> Prop :=
| step_begin order locked now st :
    (forall l, order l ≡ₚ l) ->
    (forall id, id ∈ locked_rows (st_ticks st) -> locked id = true) ->
    step st (mkState (st_db st) (mkTick now (scan order locked now (st_db st)) :: st_ticks st)
               (fired st))
| step_commit ids st ts1 t ts2 n db' :
    st_ticks st = ts1 ++ t :: ts2 ->
    NoDup (ids <$> seq 0 (length (t_rows t))) -> (forall i, fresh st (ids i)) ->
    fire ids (t_now t) (t_rows t) 0 (st_db st) = Ok (n, db') ->
    step st (mkState db' (ts1 ++ ts2) (fired st ++ entries ids (t_rows t)))
| step_abort st ts1 t ts2 :
    st_ticks st = ts1 ++ t :: ts2 -> step st (mkState (st_db st) (ts1 ++ ts2) (fired st))
| step_job st i j status :
    queue (st_db st) !! i = Some j -> is_active (j_status j) = true ->
    step st (mkState (mkDb (schedules (st_db st)) (<[i := set_job_status status j]> (queue (st_db st))))
               (st_ticks st) (fired st))
| step_enqueue st j :
    fresh st (j_id j) ->
    step st (mkState (mkDb (schedules (st_db st)) (queue (st_db st) ++ [j])) (st_ticks st) (fired st))
| step_delete_jobs st keep :
    step st (mkState (mkDb (schedules (st_db st)) (List.filter keep (queue (st_db st))))
               (st_ticks st) (fired st))
| step_schedules st rows :
    NoDup (schedule_id <$> rows) ->
    step st (mkState (mkDb rows (queue (st_db st))) (st_ticks st) (fired st)).

Definition no_state : State := mkState (mkDb [] []) [] [].

Section overlap.
Context `{PgTime}.

(** The invariant.  A tick under way locks its rows alone, and the jobs that
    its schedules fired before are over. *)
Record apart (st : State) : Prop := {
  ap_ids : NoDup (schedule_id <$> schedules (st_db st));
  ap_locks : NoDup (locked_rows (st_ticks st));
  ap_agent : forall sid a id j, (sid, a, id) ∈ fired st -> j ∈ queue (st_db st) ->
    j_id j = id -> j_agent j = a;
  ap_open : forall t s id, t ∈ st_ticks st -> s ∈ t_rows t ->
    (schedule_id s, sc_agent s, id) ∈ fired st -> ~ active (queue (st_db st)) id;
  ap_one : forall sid a id1 id2, (sid, a, id1) ∈ fired st -> (sid, a, id2) ∈ fired st ->
    active (queue (st_db st)) id1 -> active (queue (st_db st)) id2 -> id1 = id2 }.

Lemma fire_effect ids now rows n db m db' :
  fire ids now rows n db = Ok (m, db') ->
  queue db' = queue db ++ new_jobs ids n rows
  /\ schedule_id <$> schedules db' = schedule_id <$> schedules db.
Proof.
  revert n db. induction rows as [|s rows IH]; intros n db; cbn [fire].
  - intros [= _ <-]. by rewrite app_nil_r.
  - destruct (advance now s) as [t|e]; cbn [result_bind]; [|done]. intros Hf.
    apply IH in Hf as [Hq Ha]. cbn [queue schedules] in *. split.
    + rewrite Hq, <- app_assoc. unfold new_jobs. simpl. rewrite Nat.add_0_r. do 2 f_equal.
      apply imap_ext. intros i x _. simpl. do 2 f_equal. lia.
    + rewrite Ha. by apply store_kept.
Qed.

Lemma active_app q q' id : active (q ++ q') id <-> active q id \/ active q' id.
Proof. unfold active. setoid_rewrite elem_of_app. naive_solver. Qed.

Lemma new_job_inv ids rows j :
  j ∈ new_jobs ids 0 rows -> exists i s, rows !! i = Some s /\ j = scheduled_job (ids i) s.
Proof.
  intros [i Hi]%list_elem_of_lookup. unfold new_jobs in Hi. rewrite list_lookup_imap in Hi.
  apply fmap_Some in Hi as (s & Hs & ->). by exists i, s.
Qed.

Lemma entry_inv ids rows sid a id :
  (sid, a, id) ∈ entries ids rows ->
  exists i s, rows !! i = Some s /\ schedule_id s = sid /\ sc_agent s = a /\ id = ids i.
Proof.
  intros [i Hi]%list_elem_of_lookup. unfold entries in Hi. rewrite list_lookup_imap in Hi.
  apply fmap_Some in Hi as (s & Hs & [= -> -> ->]). by exists i, s.
Qed.

Lemma active_set q i j status id :
  q !! i = Some j -> is_active (j_status j) = true ->
  active (<[i := set_job_status status j]> q) id -> active q id.
Proof.
  intros Hi Hj (j' & Hin & Hid & Ha). apply list_elem_of_lookup in Hin as [k Hk].
  apply list_lookup_insert_Some in Hk as [(-> & <- & _)|[_ Hk]].
  - exists j. split; [by eapply list_elem_of_lookup_2|]. by split.
  - exists j'. split; [by eapply list_elem_of_lookup_2|done].
Qed.

(** Changes of the queue that revive nothing keep the invariant. *)
Lemma apart_queue st q :
  (forall j, j ∈ q -> (exists j0, j0 ∈ queue (st_db st) /\ j_id j0 = j_id j /\ j_agent j0 = j_agent j)
                      \/ fresh st (j_id j)) ->
  (forall sid a id, (sid, a, id) ∈ fired st -> active q id -> active (queue (st_db st)) id) ->
  apart st -> apart (mkState (mkDb (schedules (st_db st)) q) (st_ticks st) (fired st)).
Proof.
  intros Hq Ha [Hi Hl Hag Ho H1]. split; simpl; [done|done| | |].
  - intros sid a id j Hf Hj E. destruct (Hq j Hj) as [(j0 & Hj0 & Eid & <-)|[_ Hn]].
    + eapply Hag; [done..|]. congruence.
    + exfalso. apply Hn. rewrite E. by eapply (list_elem_of_fmap_2 (fun e => e.2) _ (sid, a, id)).
  - intros t s id Ht Hs Hf Hact. eapply Ho; eauto.
  - intros sid a id1 id2 Hf1 Hf2 Ha1 Ha2. eapply H1; eauto.
Qed.

(** A schedule that is due has no active job of its agent, hence none of its
    own. *)
Lemma due_over locked now st s sid id :
  apart st -> fires locked now (st_db st) s = true -> (sid, sc_agent s, id) ∈ fired st ->
  ~ active (queue (st_db st)) id.
Proof.
  intros Hst Hf Hin (j & Hj & Hid & Ha). unfold fires, due in Hf.
  assert (has_active (queue (st_db st)) (sc_agent s) = true) as Hh; [|by rewrite Hh, andb_false_r in Hf].
  unfold has_active. apply existsb_exists. exists j. split; [by apply list_elem_of_In|].
  rewrite Ha, andb_true_r. apply String.eqb_eq. by eapply ap_agent.
Qed.

Lemma begin_apart order locked now st :
  (forall l, order l ≡ₚ l) -> (forall id, id ∈ locked_rows (st_ticks st) -> locked id = true) ->
  apart st ->
  apart (mkState (st_db st) (mkTick now (scan order locked now (st_db st)) :: st_ticks st) (fired st)).
Proof.
  intros Hp Hlk Hst. pose proof Hst as [Hi Hl Hag Ho H1]. split; simpl; [done| |done| |done].
  - unfold locked_rows. simpl. rewrite fmap_app. apply NoDup_app. split; [by apply scan_ids|].
    split; [|done]. intros id (s & -> & Hs)%list_elem_of_fmap Hin.
    apply fired_rows in Hs as [_ Hf]; [|done]. unfold fires in Hf. rewrite Hlk, andb_false_r in Hf; done.
  - intros t s id [->|Ht]%elem_of_cons Hs Hf; [|by eapply Ho].
    apply fired_rows in Hs as [_ Hfs]; [|done]. by eapply due_over.
Qed.

Lemma dropped_tick ts1 t ts2 :
  NoDup (locked_rows (ts1 ++ t :: ts2)) -> NoDup (locked_rows (ts1 ++ ts2)) /\
  NoDup (schedule_id <$> t_rows t) /\
  forall t' s s', t' ∈ ts1 ++ ts2 -> s' ∈ t_rows t' -> s ∈ t_rows t -> schedule_id s <> schedule_id s'.
Proof.
  unfold locked_rows. rewrite !map_app, !concat_app. simpl. rewrite !fmap_app.
  intros (H1 & H12 & (H2 & H23 & H3)%NoDup_app)%NoDup_app. split_and!; [|done|].
  - apply NoDup_app. split; [done|]. split; [|done]. intros x Hx Hx'. apply (H12 x Hx).
    apply elem_of_app. by right.
  - intros t' s s' Ht' Hs' Hs E.
    assert (schedule_id s' ∈ schedule_id <$> t_rows t) as Hin by (rewrite <- E; by apply list_elem_of_fmap_2).
    assert (Hc : forall l, t' ∈ l -> schedule_id s' ∈ schedule_id <$> concat (map t_rows l)).
    { intros l Hl. apply list_elem_of_fmap_2, list_elem_of_In, in_concat. exists (t_rows t').
      split; apply list_elem_of_In; [by apply list_elem_of_fmap_2|done]. }
    apply elem_of_app in Ht' as [Ht'|Ht'].
    + apply (H12 _ (Hc _ Ht')). apply elem_of_app. by left.
    + by apply (H23 _ Hin), Hc.
Qed.

Lemma commit_apart ids st ts1 t ts2 n db' :
  st_ticks st = ts1 ++ t :: ts2 ->
  NoDup (ids <$> seq 0 (length (t_rows t))) -> (forall i, fresh st (ids i)) ->
  fire ids (t_now t) (t_rows t) 0 (st_db st) = Ok (n, db') -> apart st ->
  apart (mkState db' (ts1 ++ ts2) (fired st ++ entries ids (t_rows t))).
Proof.
  intros Ets Hids Hfr [Hq Hsch]%fire_effect Hst. pose proof Hst as [Hi Hl Hag Ho H1].
  rewrite Ets in Hl. apply dropped_tick in Hl as (Hl & Hrows & Hdisj).
  assert (Hold : forall sid a id, (sid, a, id) ∈ fired st -> active (queue db') id ->
            active (queue (st_db st)) id).
  { intros sid a id Hin Ha. rewrite Hq in Ha. apply active_app in Ha as [|(j & Hj & Hid & _)]; [done|].
    apply new_job_inv in Hj as (i & s & _ & ->). simpl in Hid. exfalso. apply (proj2 (Hfr i)).
    rewrite Hid. by eapply (list_elem_of_fmap_2 (fun e => e.2) _ (sid, a, id)). }
  assert (Hinj : forall i k s s', t_rows t !! i = Some s -> t_rows t !! k = Some s' ->
            ids i = ids k -> i = k).
  { intros i k s s' Hs Hs' E. eapply NoDup_lookup; [exact Hids| |].
    - rewrite list_lookup_fmap, lookup_seq_lt by (by eapply lookup_lt_Some). done.
    - rewrite list_lookup_fmap, lookup_seq_lt by (by eapply lookup_lt_Some). simpl. by rewrite E. }
  assert (Hown : forall s id, s ∈ t_rows t -> (schedule_id s, sc_agent s, id) ∈ fired st ->
            ~ active (queue (st_db st)) id).
  { intros s id Hs Hf. eapply Ho; [|done..]. rewrite Ets. apply elem_of_app. right. by left. }
  split; simpl; [by rewrite Hsch|done| | |].
  - intros sid a id j [Hf|(i & s & Hs & <- & <- & ->)%entry_inv]%elem_of_app Hj E.
    + rewrite Hq in Hj. apply elem_of_app in Hj as [Hj|(i & s & _ & ->)%new_job_inv]; [by eapply Hag|].
      exfalso. apply (proj2 (Hfr i)). simpl in E. rewrite E.
      by eapply (list_elem_of_fmap_2 (fun e => e.2) _ (sid, a, id)).
    + rewrite Hq in Hj. apply elem_of_app in Hj as [Hj|(k & s' & Hs' & ->)%new_job_inv].
      * exfalso. apply (proj1 (Hfr i)). rewrite <- E. by apply list_elem_of_fmap_2.
      * simpl in *. rewrite (Hinj k i _ _ Hs' Hs E) in Hs'. congruence.
  - intros t' s id Ht' Hs [Hf|(i & s' & Hs' & E & _ & ->)%entry_inv]%elem_of_app Ha.
    + eapply Ho; [|exact Hs|exact Hf|by eapply Hold]. rewrite Ets. set_solver.
    + eapply Hdisj; [exact Ht'|exact Hs|by eapply list_elem_of_lookup_2|exact E].
  - intros sid a id1 id2 [Hf1|(i & s & Hs & <- & <- & ->)%entry_inv]%elem_of_app
      [Hf2|(k & s' & Hs' & E' & Ea & ->)%entry_inv]%elem_of_app Ha1 Ha2.
    + eapply H1; eauto.
    + subst. exfalso. eapply (Hown s'); [by eapply list_elem_of_lookup_2|exact Hf1|by eapply Hold].
    + exfalso. eapply (Hown s); [by eapply list_elem_of_lookup_2|exact Hf2|by eapply Hold].
    + f_equal. eapply NoDup_lookup; [exact Hrows| |]; rewrite list_lookup_fmap.
      * rewrite Hs. simpl. reflexivity.
      * rewrite Hs'. simpl. by rewrite E'.
Qed.

Lemma step_apart st st' : step st st' -> apart st -> apart st'.
Proof.
  intros Hs Hst. destruct Hs as [order locked now st Hp Hlk|ids st ts1 t ts2 n db' E Hnd Hfr Hf
    |st ts1 t ts2 E|st i j status Hi Hj|st j Hj|st keep|st rows Hr].
  - by apply begin_apart.
  - by eapply commit_apart.
  - destruct Hst as [Hi Hl Hag Ho H1]. rewrite E in Hl. apply dropped_tick in Hl as (Hl & _ & _).
    split; simpl; [done|done|done| |done]. intros t' s id Ht'. apply Ho. rewrite E. set_solver.
  - apply apart_queue; [| |done].
    + intros j' [k Hk]%list_elem_of_lookup. left.
      apply list_lookup_insert_Some in Hk as [(-> & <- & _)|[_ Hk]].
      * exists j. split; [by eapply list_elem_of_lookup_2|done].
      * exists j'. split; [by eapply list_elem_of_lookup_2|done].
    + intros sid a id _. by apply active_set.
  - apply apart_queue; [| |done].
    + intros j' Hj'. apply elem_of_app in Hj' as [Hj'|Hj']; [left; eauto|].
      apply list_elem_of_singleton in Hj' as ->. by right.
    + intros sid a id Hf Ha. apply active_app in Ha as [Ha|(j' & Hj' & Hid & _)]; [done|].
      apply list_elem_of_singleton in Hj' as ->.
      exfalso. apply (proj2 Hj). rewrite Hid.
      by eapply (list_elem_of_fmap_2 (fun e => e.2) _ (sid, a, id)).
  - assert (Hsub : forall j, j ∈ List.filter keep (queue (st_db st)) -> j ∈ queue (st_db st)).
    { intros j [Hj _]%list_elem_of_In%filter_In. by apply list_elem_of_In. }
    apply apart_queue; [| |done].
    + intros j Hj%Hsub. left. eauto.
    + intros sid a id _ (j & Hj%Hsub & ?). by exists j.
  - destruct Hst as [Hi Hl Hag Ho H1]. by split.
Qed.

(** C26: Overlap.  Whatever ticks are under way together, with rows locked by
    each other and by anyone, whatever becomes of the jobs, whoever enqueues
    others, for any agent and from any source, and however schedules are
    created, edited and deleted meanwhile: of the jobs that ticks enqueued for a
    schedule and its agent at most one is waiting or running, and each belongs
    to that agent.  A slow run never piles up behind itself. *)
Theorem schedules_never_stack st :
  rtc step no_state st ->
  forall sid agent id1 id2,
    (sid, agent, id1) ∈ fired st -> (sid, agent, id2) ∈ fired st ->
    active (queue (st_db st)) id1 ->
    (forall j, j ∈ queue (st_db st) -> j_id j = id1 -> j_agent j = agent) /\
    (active (queue (st_db st)) id2 -> id1 = id2).
Proof.
  intros Hr. assert (apart no_state) as H0.
  { split; simpl; [constructor|constructor| | |]; intros *; by intros ?%elem_of_nil. }
  revert H0. induction Hr as [st|x y z Hs _ IHr]; [|intros Hx; by eapply IHr, step_apart].
  intros [_ _ Hag _ H1] sid agent id1 id2 Hf1 Hf2 Ha1.
  split; [intros j; by eapply Hag|intros Ha2; by eapply H1].
Qed.
End overlap.

(** *** Where the arithmetic departs from the comment *)

Section departures.
Context `{PgTime}.

(** A year counts 365.25 days: a yearly schedule that is a plain year and three
    hours late moves by one year only, to a time that is past: it fires again
    at once, although it is documented to fire once after downtime. *)
Lemma late_year_fires_again s now :
  every_interval s = mkInterval 12 0 0 -> now = next_run_at s + 365 * DAY + DAY / 8 ->
  floor_quotient (now - next_run_at s) (epoch (every_interval s)) = 0 ->
  add_times (next_run_at s) (every_interval s) 1 = Ok (next_run_at s + 365 * DAY) ->
  exists t, advance now s = Ok t /\ t <= now.
Proof.
  intros Hi -> Hq Ha. exists (next_run_at s + 365 * DAY). unfold advance, steps_ahead.
  rewrite Hi in *. change (epoch (mkInterval 12 0 0) =? 0) with false. cbn iota.
  rewrite Hq. change (to_int4 0) with (@Ok Z string 0). cbn [result_bind].
  change (to_int4 (0 + 1)) with (@Ok Z string 1). cbn [result_bind]. split; [exact Ha|].
  assert (0 <= DAY / 8) by (by vm_compute). lia.
Qed.

End departures.

(** An interval the check admits and whose epoch is zero. *)
Example zero_epoch :
  let i := mkInterval (-12) 365 (DAY / 4) in interval_positive i = true /\ epoch i = 0.
Proof. by vm_compute. Qed.

(** *** Instances *)

(** A calendar without clock changes; months count 30 days. *)
#[local] Instance plain_time : PgTime :=
  {| floor_quotient := Z.div; add_times := fun t i k => Ok (t + k * epoch i) |}.
Definition no_months (i : Interval) : Prop := iv_months i = 0.

Lemma plain_laws : PgTimeLaws no_months.
Proof. by constructor. Qed.

Definition daily : Interval := mkInterval 0 1 0.
Definition nine : Z := 9 * 3600 * 1000000.
Definition report : Schedule :=
  mkSchedule 1 "sales" "reporter" "yesterday" daily nine None true.
Definition paused : Schedule :=
  mkSchedule 2 "sales" "auditor" "week" daily nine None false.
Definition toy_db : Db := mkDb [report; paused] [].
Definition toy_ids (n : nat) : Uuid := 100 + Z.of_nat n.
Definition nothing_locked (id : Uuid) : bool := false.

(** Three and a half days late: one job, and the next run on the fourth day. *)
Definition late : Z := nine + 3 * DAY + DAY / 2.

Lemma tick_fires_once_witness :
  tick (fun l => l) nothing_locked toy_ids late toy_db
  = Ok (1, mkDb [set_next (nine + 4 * DAY) late report; paused] [scheduled_job 100 report]).
Proof.
  refine (proj1 (proj2 (proj2 (proj2 (tick_fires_once (H0 := plain_laws) (fun l => l) nothing_locked
    toy_ids _ late toy_db _))) _)).
  - done.
  - apply (bool_decide_unpack _). by vm_compute.
  - intros s Hs. assert (s = report) as ->.
    { change (s ∈ [report]) in Hs. by apply list_elem_of_singleton in Hs. }
    vm_compute. repeat split; congruence.
Defined.

(** The schedule is deleted while its job waits. *)
Definition tick_done : State :=
  mkState (mkDb [set_next (nine + 4 * DAY) late report; paused] [scheduled_job 100 report]) []
    [(1, "reporter", 100)].
Definition orphaned : State :=
  mkState (mkDb [paused] [scheduled_job 100 report]) [] [(1, "reporter", 100)].

Lemma toy_ids_fresh i : fresh (mkState toy_db [mkTick late [report]] []) (toy_ids i).
Proof. split; apply not_elem_of_nil. Qed.

Lemma schedules_never_stack_witness :
  Forall (fun e => e.1 = (1, "reporter") -> active (queue (st_db orphaned)) e.2 -> 100 = e.2)
    (fired orphaned).
Proof.
  apply Forall_forall. intros [[sid agent] id] Hid [= -> ->].
  refine (proj2 (schedules_never_stack orphaned _ 1 "reporter" 100 id _ Hid _)).
  - eapply rtc_l; [refine (step_schedules no_state [report; paused] _); apply (bool_decide_unpack _); by vm_compute|].
    eapply rtc_l; [refine (step_begin (fun l => l) nothing_locked late _ _ _); [done|];
      intros x Hx; by apply elem_of_nil in Hx|].
    eapply rtc_l; [refine (step_commit toy_ids (mkState toy_db [mkTick late [report]] []) []
      (mkTick late [report]) [] 1 _ eq_refl _ toy_ids_fresh eq_refl); apply (bool_decide_unpack _); by vm_compute|].
    eapply rtc_l; [refine (step_schedules tick_done [paused] _); apply (bool_decide_unpack _); by vm_compute|].
    apply rtc_refl.
  - by left.
  - exists (scheduled_job 100 report). split; [by left|done].
Defined.

(** Two schedules of one agent that are due together both fire. *)
Example two_schedules_fire_together :
  (fun r => r.1) <$> (match tick (fun l => l) nothing_locked toy_ids late
     (mkDb [report; mkSchedule 3 "sales" "reporter" "today" daily nine None true] []) with
   | Ok r => Some r | Err _ => None end) = Some 2.
Proof. by vm_compute. Qed.

(** A schedule of a microsecond, an hour late, keeps every other from firing. *)
Example tiny_interval_blocks_all :
  tick (fun l => l) nothing_locked toy_ids late
    (mkDb [report; mkSchedule 4 "sales" "pulse" "" (mkInterval 0 0 1) nine None true] [])
  = Err INT_OUT_OF_RANGE.
Proof. by vm_compute. Qed.
End Scheduler.

(** ** Apps *)

Module Apps.
Import Scheduler.

Record App := mkApp {
  app_title : option string;
  app_description : option string;
  app_schema : option string;
  app_updated_at : Z }.

Record LessonRow := mkLessonRow { ls_agent : string; ls_superseded_by : option Z }.

(** The tables as the two functions see them; [audit] is the content of
    [executions], [messages], [traces] and [row_provenance]. *)
Record AppDb (Audit : Type) := mkAppDb {
  apps : gmap string App;
  app_agents : gset (string * string);
  app_schedules : list Schedule;
  questions : gset (string * string);
  agents : gset string;
  skills : gset (string * string);
  hints : gmap Z (option string);
  lessons : gmap Z LessonRow;
  jobs : list Job;
  schemas : gset string;
  audit : Audit }.
Arguments mkAppDb {Audit}.
Arguments apps {Audit}.
Arguments app_agents {Audit}.
Arguments app_schedules {Audit}.
Arguments questions {Audit}.
Arguments agents {Audit}.
Arguments skills {Audit}.
Arguments hints {Audit}.
Arguments lessons {Audit}.
Arguments jobs {Audit}.
Arguments schemas {Audit}.
Arguments audit {Audit}.

Section apps.
Context {Audit : Type}.
Abbreviation DB := (AppDb Audit).

Definition quoted_name (s : string) : string := String dquote s +:+ String dquote "".

(** [DELETE FROM synapse.apps]: bindings and schedules cascade. *)
Definition delete_app (name : string) (db : DB) : DB :=
  mkAppDb (delete name (apps db)) (filter (fun r => r.1 <> name) (app_agents db))
    (List.filter (fun s => negb (String.eqb (sc_app s) name)) (app_schedules db))
    (questions db) (agents db) (skills db) (hints db) (lessons db) (jobs db) (schemas db) (audit db).

Definition delete_questions (app : string) (db : DB) : DB :=
  mkAppDb (apps db) (app_agents db) (app_schedules db) (filter (fun q => q.1 <> app) (questions db))
    (agents db) (skills db) (hints db) (lessons db) (jobs db) (schemas db) (audit db).

(** The references of lessons to the lessons that replace them. *)
Definition lessons_linked (ls : gmap Z LessonRow) : Prop :=
  map_Forall (fun _ l => match ls_superseded_by l with
                         | Some i => is_Some (ls !! i)
                         | None => True
                         end) ls.
#[export] Instance lessons_linked_dec ls : Decision (lessons_linked ls).
Proof.
  unfold lessons_linked. apply map_Forall_dec. intros i l. destruct (ls_superseded_by l); apply _.
Defined.

Definition hint_kept (names : gset string) (agent : option string) : bool :=
  match agent with Some a => negb (bool_decide (a ∈ names)) | None => true end.

(** [DELETE FROM synapse.agents]: skills, hints and lessons cascade; a lesson of
    another agent that was replaced by one of them stops it. *)
Definition delete_agents (names : gset string) (db : DB) : result DB string :=
  let ls := filter (fun l => ls_agent l.2 ∉ names) (lessons db) in
  if decide (lessons_linked ls) then
    Ok (mkAppDb (apps db) (app_agents db) (app_schedules db) (questions db) (agents db ∖ names)
          (filter (fun s => s.1 ∉ names) (skills db))
          (filter (fun h => hint_kept names h.2 = true) (hints db)) ls
          (jobs db) (schemas db) (audit db))
  else Err "violates foreign key constraint lessons_superseded_by_fkey".

(** Jobs that wait or run; finished ones stay. *)
Definition delete_jobs (names : gset string) (db : DB) : DB :=
  mkAppDb (apps db) (app_agents db) (app_schedules db) (questions db) (agents db) (skills db)
    (hints db) (lessons db)
    (List.filter (fun j => negb (bool_decide (j_agent j ∈ names) && is_active (j_status j))) (jobs db))
    (schemas db) (audit db).

Definition drop_schema (schema : string) (db : DB) : DB :=
  mkAppDb (apps db) (app_agents db) (app_schedules db) (questions db) (agents db) (skills db)
    (hints db) (lessons db) (jobs db) (schemas db ∖ {[schema]}) (audit db).

(** The agents bound to an app. *)
Definition bound_to (name : string) (db : DB) : gset string :=
  set_map snd (filter (fun r => r.1 = name) (app_agents db)).

(** What a caller may not drop answers an error. *)
Definition app_drop (may_drop : string -> option string) (app_name : string) (drop_data : bool)
    (db : DB) : result (json * DB) string :=
  match apps db !! app_name with
  | None => Err ("no app named " +:+ quoted_name app_name)
  | Some app =>
      let agent_names := bound_to app_name db in
      let n_questions := size (filter (fun q => q.1 = app_name) (questions db)) in
      let n_schedules :=
        length (List.filter (fun s => String.eqb (sc_app s) app_name) (app_schedules db)) in
      db1 <-? delete_agents agent_names (delete_app app_name (delete_questions app_name db)) ;;
      let db2 := delete_jobs agent_names db1 in
      db3 <-? (match app_schema app with
               | Some schema =>
                   if drop_data then
                     match may_drop schema with
                     | Some e => Err e
                     | None => Ok (drop_schema schema db2)
                     end
                   else Ok db2
               | None => Ok db2
               end) ;;
      Ok (json_object
            [("app", JString app_name);
             ("agents_removed", JArray (map JString (elements agent_names)));
             ("questions_removed", json_u64 (Z.of_nat n_questions));
             ("schedules_removed", json_u64 (Z.of_nat n_schedules));
             ("schema", json_option JString (app_schema app));
             ("data_dropped", JBool (drop_data && bool_decide (is_Some (app_schema app))));
             ("audit_kept", JBool true)], db3)
  end.

(** [COALESCE(EXCLUDED.c, c)] *)
Definition coalesce {A} (new old : option A) : option A := match new with Some _ => new | None => old end.

Definition upsert_app (now : Z) (name : string) (title desc schema : option string)
    (m : gmap string App) : gmap string App :=
  <[name := match m !! name with
            | Some a => mkApp (coalesce title (app_title a)) (coalesce desc (app_description a))
                          (coalesce schema (app_schema a)) now
            | None => mkApp title desc schema now
            end]> m.

(** The grants on the schema are left out: a caller who cannot grant gets a
    warning. *)
Definition app_register (now : Z) (app_name agent_name : string) (title desc schema : option string)
    (db : DB) : result (json * DB) string :=
  if bool_decide (agent_name ∉ agents db) then Err ("no agent named " +:+ quoted_name agent_name)
  else
    _ <-? match schema with
          | Some s =>
              if bool_decide (s ∉ schemas db) then Err ("no schema named " +:+ quoted_name s)
              else Ok tt
          | None => Ok tt
          end ;;
    Ok (json_object [("app", JString app_name); ("agent", JString agent_name);
                     ("schema", json_option JString schema)],
        mkAppDb (upsert_app now app_name title desc schema (apps db))
          ({[(app_name, agent_name)]} ∪ app_agents db) (app_schedules db) (questions db) (agents db)
          (skills db) (hints db) (lessons db) (jobs db) (schemas db) (audit db)).

(** *** What a removal leaves *)

(** The foreign keys of the schema. *)
Record references (db : DB) : Prop := {
  ref_bindings : forall a g, (a, g) ∈ app_agents db -> is_Some (apps db !! a);
  ref_schedules : forall s, s ∈ app_schedules db -> is_Some (apps db !! sc_app s);
  ref_skills : forall a n, (a, n) ∈ skills db -> a ∈ agents db;
  ref_hints : forall i a, hints db !! i = Some (Some a) -> a ∈ agents db;
  ref_lessons : forall i l, lessons db !! i = Some l -> ls_agent l ∈ agents db;
  ref_replaced : lessons_linked (lessons db) }.

Lemma delete_app_references name db : references db -> references (delete_app name db).
Proof.
  intros [Hb Hs Hk Hh Hl Hr]. split; simpl; [| |done..].
  - intros a g [Hne Hin]%elem_of_filter. simpl in Hne. rewrite lookup_delete_ne by done. eauto.
  - intros s [Hin Hne]%list_elem_of_In%filter_In. apply negb_true_iff, String.eqb_neq in Hne.
    rewrite lookup_delete_ne by done. apply Hs. by apply list_elem_of_In.
Qed.

Lemma delete_agents_references names db db' :
  references db -> delete_agents names db = Ok db' -> references db'.
Proof.
  intros [Hb Hs Hk Hh Hl Hr]. unfold delete_agents. destruct (decide _) as [Hd|]; [|done].
  intros [= <-]. split; simpl; [done..| | | |done].
  - intros a n [Ha Hin]%elem_of_filter. simpl in Ha. apply elem_of_difference. eauto.
  - intros i a [Hi Ha]%map_lookup_filter_Some. simpl in Ha.
    apply negb_true_iff, bool_decide_eq_false in Ha. apply elem_of_difference. eauto.
  - intros i l [Hi Ha]%map_lookup_filter_Some. simpl in Ha. apply elem_of_difference. eauto.
Qed.

Lemma delete_agents_effect names db db' :
  delete_agents names db = Ok db' ->
  apps db' = apps db /\ app_agents db' = app_agents db /\ app_schedules db' = app_schedules db /\
  questions db' = questions db /\ agents db' = agents db ∖ names /\ jobs db' = jobs db /\
  schemas db' = schemas db /\ audit db' = audit db.
Proof. unfold delete_agents. destruct (decide _); [|done]. by intros [= <-]. Qed.

(** A drop that goes through: the steps it made. *)
Lemma app_drop_steps may_drop name drop_data db j db' :
  app_drop may_drop name drop_data db = Ok (j, db') ->
  exists db1, delete_agents (bound_to name db) (delete_app name (delete_questions name db)) = Ok db1
    /\ (db' = delete_jobs (bound_to name db) db1
        \/ drop_data = true
           /\ exists s, db' = drop_schema s (delete_jobs (bound_to name db) db1)).
Proof.
  unfold app_drop. destruct (apps db !! name) as [app|]; [|done].
  destruct (delete_agents _ _) as [db1|e]; cbn [result_bind]; [|done]. intros Hd. exists db1.
  split; [done|]. destruct (app_schema app) as [s|]; [|injection Hd as _ <-; by left].
  destruct drop_data; [|injection Hd as _ <-; by left].
  destruct (may_drop s); cbn [result_bind] in Hd; [done|]. injection Hd as _ <-. right. eauto.
Qed.

(** Removing an app: when [app_drop] goes through, no row of the app, of
    its schedules, questions and bindings is left, its agents are gone and every
    foreign key still leads somewhere; what other apps have is as before, jobs
    that are over or of other agents stay, schemas stay unless their removal was
    asked for, and the audit trail is untouched. *)
Lemma app_drop_is_contained may_drop name drop_data db j db' :
  references db -> app_drop may_drop name drop_data db = Ok (j, db') ->
  references db' /\ audit db' = audit db /\
  apps db' = delete name (apps db) /\ agents db' = agents db ∖ bound_to name db /\
  (forall a g, (a, g) ∈ app_agents db' <-> a <> name /\ (a, g) ∈ app_agents db) /\
  (forall s, s ∈ app_schedules db' <-> sc_app s <> name /\ s ∈ app_schedules db) /\
  (forall a q, (a, q) ∈ questions db' <-> a <> name /\ (a, q) ∈ questions db) /\
  (forall job, job ∈ jobs db' <->
     job ∈ jobs db /\ ~ (j_agent job ∈ bound_to name db /\ is_active (j_status job) = true)) /\
  (drop_data = false -> schemas db' = schemas db).
Proof.
  intros Href (db1 & Ha & Hd)%app_drop_steps.
  assert (references db1) as Hr1.
  { eapply delete_agents_references; [|exact Ha]. apply delete_app_references. by destruct Href. }
  apply delete_agents_effect in Ha as (Eapps & Ebind & Esch & Eq & Eag & Ej & Es & Eau).
  simpl in Eapps, Ebind, Esch, Eq, Eag, Ej, Es, Eau.
  assert (exists schema, references db' /\ audit db' = audit db1 /\ apps db' = apps db1
    /\ agents db' = agents db1 /\ app_agents db' = app_agents db1
    /\ app_schedules db' = app_schedules db1 /\ questions db' = questions db1
    /\ jobs db' = jobs (delete_jobs (bound_to name db) db1)
    /\ schemas db' = schemas db1 ∖ schema /\ (drop_data = false -> schema = ∅)) as
    (schema & Hr & -> & -> & -> & -> & -> & -> & -> & -> & Hsch).
  { destruct Hd as [->|(-> & s & ->)]; [exists ∅|exists {[s]}]; simpl;
      (split_and!; [by destruct Hr1|done..| |done]); set_solver. }
  rewrite Eapps, Ebind, Esch, Eq, Eag, Es, Eau. split_and!; try done.
  - intros a g. by rewrite elem_of_filter.
  - intros s. rewrite list_elem_of_In, filter_In, <- list_elem_of_In, negb_true_iff, String.eqb_neq.
    tauto.
  - intros a q. by rewrite elem_of_filter.
  - intros job. simpl. rewrite Ej, list_elem_of_In, filter_In, <- list_elem_of_In, negb_true_iff,
      andb_false_iff, bool_decide_eq_false. destruct (is_active (j_status job)); naive_solver.
  - intros ->. rewrite Hsch by done. set_solver.
Qed.

(** Registering again changes nothing. *)
Lemma app_register_again now name agent title desc schema db j db' :
  app_register now name agent title desc schema db = Ok (j, db') ->
  app_register now name agent title desc schema db' = Ok (j, db').
Proof.
  unfold app_register. destruct (bool_decide (agent ∉ agents db)) eqn:Ea; [done|].
  set (check := match schema with
    | Some s => if bool_decide (s ∉ schemas db) then Err ("no schema named " +:+ quoted_name s)
                else Ok tt
    | None => Ok tt end).
  assert (Hu : forall m, upsert_app now name title desc schema (upsert_app now name title desc schema m)
                         = upsert_app now name title desc schema m).
  { intros m. unfold upsert_app. rewrite lookup_insert_eq, insert_insert_eq. f_equal.
    destruct (m !! name) as [a|]; simpl; by destruct title, desc, schema. }
  destruct check as [u|e] eqn:Ec; cbn [result_bind]; [|done]. intros E.
  injection E as <- <-. simpl. rewrite Ea. fold check. rewrite Ec. cbn [result_bind]. rewrite Hu.
  by rewrite (assoc_L (∪)), (idemp_L (∪)).
Qed.
End apps.

(** *** Instances *)

Definition two_apps : AppDb nat :=
  mkAppDb {["sales" := mkApp None None (Some "sales") 0; "audit" := mkApp None None None 0]}
    {[("sales", "reporter"); ("audit", "reporter")]}
    [report; mkSchedule 5 "audit" "reporter" "check" daily nine None true]
    {[("sales", "top")]} {["reporter"; "auditor"]} {[("reporter", "sql")]} ∅ ∅
    [mkJob 1 "reporter" "x" None Done; mkJob 2 "reporter" "y" None Queued] {["sales"; "public"]} 7%nat.

Definition after_drop : option (AppDb nat) :=
  match app_drop (fun _ => None) "sales" false two_apps with Ok r => Some r.2 | Err _ => None end.

(** The other app is left with a binding and a schedule of an agent that is
    gone: agents have no reference count, and schedules no foreign key to
    them. *)
Example shared_agent_is_removed :
  (fun db => (bool_decide (("audit", "reporter") ∈ app_agents db),
              map sc_agent (app_schedules db), bool_decide ("reporter" ∈ agents db))) <$> after_drop
  = Some (true, ["reporter"], false).
Proof. by vm_compute. Qed.

Lemma two_apps_references : references two_apps.
Proof.
  split; simpl.
  - intros a g. rewrite elem_of_union, !elem_of_singleton. intros [[= -> ->]|[= -> ->]]; eauto.
  - intros s Hs. apply elem_of_cons in Hs as [->|[->|[]%elem_of_nil]%elem_of_cons]; eauto.
  - intros a n. rewrite elem_of_singleton. intros [= -> ->]. set_solver.
  - intros i a. by rewrite lookup_empty.
  - intros i l. by rewrite lookup_empty.
  - intros i l. by rewrite lookup_empty.
Qed.

Lemma app_drop_is_contained_witness :
  exists db', after_drop = Some db' /\ audit db' = 7%nat /\ references db'.
Proof.
  assert (exists j db', app_drop (fun _ => None) "sales" false two_apps = Ok (j, db')) as (j & db' & E).
  { eexists _, _. vm_compute. reflexivity. }
  exists db'. split; [unfold after_drop; by rewrite E|].
  destruct (app_drop_is_contained _ _ _ two_apps j db' two_apps_references E) as (Hr & Ha & _).
  split; [exact Ha|exact Hr].
Defined.
End Apps.
